(* ===== verification/_CoqProject ===== *)
-Q . S2P
Prelude.v
TreeTable.v
Url.v
MxGeometry.v
MxCell.v
JsNumber.v
MxModel.v
MxUndo.v
MxIds.v
MxPath.v
MxEditor.v
MxOps.v
MxHome.v
MxClone.v
Coverage.v
ErrorTrace.v
Crossings.v
CrossingStage.v
Hierarchy.v
HierarchyCycles.v
HierarchyRanks.v
HierarchyStages.v
Layout.v
LayoutBuild.v
LayoutTraverse.v
LayoutRun.v
MxLayout.v
Coordinates.v
CoordinateStage.v
Placement.v
LogReplay.v
Views.v
FileTree.v
Md5.v
FilesEditor.v
EditorDesk.v
DeskRefines.v
EditorRuns.v
JobRoles.v
Dot.v
MxGraph.v
ReportGraph.v
ReportCells.v
ReportSteps.v
