(* ===== verification/Prelude.v ===== *)
(** * The front end of Klever Bridge: a verification development

    Klever Bridge is the web interface of the Klever verification framework. Its server is
    written in Python; what this development verifies is the JavaScript that runs in the
    browser: the pages of jobs, reports, error traces and coverage under
    src/bridge/*/static/, and the graph model and layout of the mxGraph library that Bridge
    ships and that draws the graphs of reports.

    The model is a shallow embedding. Each function of the code is a Rocq function of the
    same name on records that hold what the function reads and writes; all of them can be
    evaluated. Where the code shares mutable objects (cells of a graph, cached collections,
    geometries) the model has a heap or explicit references; where a loop or a recursion is
    not structural the function runs on fuel; an exception of the code is [None] or an
    error of a result type. The DOM is not modelled as such: a page is the list of its rows
    or lines, in document order, with the classes, attributes and visibility the code uses.

    ** The files

    - This file: the scope [js_scope], the hint databases [js] and [jsrw], the tactics
      [js_cases], [js_done] and [js_decide], JavaScript values and arrays that several
      components use ([truthy], [js_includes], [strip_prefix], [js_splice]).
    - TreeTable: [inittree] with its click handler (bridge/static/bridge/js/treetable.js)
      and [update_colors] (bridge.js). The specification is a forest whose preorder is the
      table. A click keeps "a row is displayed iff all its ancestors are expanded", two
      clicks restore the table, colours alternate over the displayed rows.
    - Url: query parameters, percent encoding, message templates and file names of
      bridge.js, on the bytes of the UTF-8 encoding. Round trips between the functions that
      write and those that read a query; what setting and clearing parameters does to the
      others; what a page reads of its own URL is the part [location_search].
    - Views: the messages of an error response ([flatten_api_errors]), the data of a view
      form ([collect_view_data]), the list of columns of a view (bridge.js).
    - MxGeometry, MxCell, MxModel: points, rectangles and geometries; cells as objects of a
      heap (mxCell.js); the tree queries, the dictionary of ids and the atomic changes of
      mxGraphModel.js. [tree_ok] and [wf] say that parents and children, terminals and edge
      lists of all cells agree.
    - MxUndo: mxUndoableEdit.js. Executing a change twice gives a model that looks the same,
      so undo and redo of an edit are inverse.
    - MxEditor: [execute], [beginUpdate] and [endUpdate] of the model and the undo manager
      (mxUndoManager.js), which the model calls through its UNDO event. The abstract
      specification [timeline] has the graphs of the past, the present one and those of the
      future; [editor_refines_timeline] is the refinement for any sequence of nested
      transactions, undos and redos, the bound on the history included.
    - JsNumber: the counter of ids as a number of JavaScript, exact up to 2^53, its decimal
      string and the numbers that ids denote. MxIds: the dictionary of cells by id
      ([cellAdded], [rootChanged]).
    - MxPath: mxCellPath.js and [getNearestCommonAncestor], which works on path strings, and
      is shown to find the lowest common ancestor.
    - MxOps: what programs call: [setRoot], [clear], [add], [remove], [setTerminal] and the
      setters, with [updateEdgeParents], which moves edges below the nearest common
      ancestor of their terminals. MxHome: what this achieves, and that the box, the ends
      and the control points of the edges stay where they are on the page. MxClone: [cloneCells] gives a fresh isomorphic copy.
    - LogReplay: the class LogProcessor (tools/static/tools/js/reports_logging.js): a cursor
      over the lines of a log, a tree of reports, a table of the lines shown last. The tree
      is the widget jstree, a library whose code is minified: it is a [Class] of operations
      with the laws the code relies on, and an instance shows that the laws can hold.
    - Coverage: the page of a source file (reports/static/reports/js/source.js) with its
      requests under way, and coverage.js: the cached collections, the navigation buttons,
      the tree of statistics. The server is a function from file names to pages.
    - ErrorTrace: the scopes of an error trace (reports/static/reports/js/ETV.js). Whatever
      is clicked, a line is displayed only in an open scope, but for declarations whose notes
      the server (reports/etv.py) put into other scopes; closing a scope hides what is in it
      and nothing else.

    - FileTree: the part of jsTree (jstree/jstree.min.js) that the form of a new decision uses:
      nodes with children, ancestors and descendants, creation with a free name, renaming,
      deletion, selection, the tree as JSON. [tree_ok] is kept by every method.
    - FilesEditor: that form (jobs/static/jobs/js/decisionFilesEdit.js and the script of
      jobs/templates/jobs/decisionCreateForm.html) as a machine: a step is what the user does,
      an answer of the server or a timeout, and a callback reads the state of the moment it
      runs. It has the document and the history of CodeMirror (codemirror/lib/codemirror.js)
      and the server's store of contents under their sums (jobs/serializers.py). Md5: the sum
      itself ([file_checksum] of bridge/utils.py). EditorDesk: the invariant [page_ok] of every
      run, and the abstract [desk] of files, an open file and a draft with its actions. DeskRefines:
      every event is a list of actions that its click, answer or timeout determines ([actions]), and
      the page shows what the desk shows after them ([desk_rel]), for a user who waits. EditorRuns:
      the theorems about runs: no content is lost, committed texts come back, the decision is posted
      with the text of the editor; and what goes wrong when answers come late.

    - JobRoles: the roles of the users of a job (jobs/static/jobs/js/jobRolesEdit.js). No user
      is lost, and the roles that are reported are above the role for all users.

    The hierarchical layout of mxGraph, with which report-graph.js draws reports
    (mxgraph/js/layout/), from its stages to the graph it is asked to lay out and the places of
    the vertices:

    - Crossings and CrossingStage: the stage that orders the cells of each rank (hierarchical/
      stage/mxMedianHybridCrossingReduction.js). The accumulator tree counts the crossings of
      a drawing; the stage returns, keeps the cells of every rank and never ends with more
      crossings than it started with.
    - Hierarchy: the internal model with its depth-first searches and its ranks (hierarchical/
      model/mxGraphHierarchyModel.js), the removal of cycles (mxMinimumCycleRemover.js) and
      the three stages. HierarchyCycles: the removal of cycles ends, turns edges round and
      leaves no cycle. HierarchyRanks: [initialRank] ends and ranks every node above those its
      edges lead to. HierarchyStages: [fixRanks] builds the lists of ranks that the last stage
      relies on, and the stages run one after the other.
    - Layout: the constructor of the internal model and the split of a graph into hierarchies
      ([findRoots], [traverse] and [run] of mxHierarchicalLayout.js). What the layout asks the
      graph is the record [lgraph] of operations, with its laws in [consistent] (LayoutTraverse)
      and its bounds in [bounded] (LayoutRun). LayoutBuild: the constructor makes one edge for
      every connected pair of vertices. LayoutTraverse: the traversal ends and keeps vertices
      that lead to each other together. LayoutRun: the hierarchies are the connected components
      of the graph, and every one of them is laid out.
    - MxLayout: the operations of [lgraph] on the graph model (getEdges, getVisibleTerminal and
      filterDescendants of mxHierarchicalLayout.js over mxGraphView.js) with a proof of the laws
      for models whose cells are displayed ([layoutable]), and [execute].
    - Coordinates: the stage that computes coordinates (hierarchical/stage/
      mxCoordinateAssignment.js) up to the points of the edges. CoordinateStage: every step of
      it returns, the first positions keep the cells of a rank apart and the ranks beyond each
      other, and no later step moves a vertex. Placement: [placementStage] and the loop of [run]
      over the hierarchies. Vertices of a hierarchy never overlap, edges of a graph without
      cycles lead in the direction of the layout; hierarchies may overlap.

    The page that draws a report (reports/static/reports/js/report-graph.js):

    - Dot: the text of a graph in the language of graphviz, read with regular expressions, and what
      is read of a text that the server writes.
    - MxGraph: the operations of mxgraph/js/view/mxGraph.js that the page calls, with the settings
      and styles of a new graph: [insertVertex], [insertEdge], [updateCellSize], [removeCells].
    - ReportGraph: the page, from the text over the cells of the model to the places that the layout
      gives them ([fromDotData], [updateGraph], [clearGraph]). ReportCells: the shape [drawing] of
      the model of such a page and what every operation makes of it; ReportSteps: the loops over
      nodes and links, and that drawing changes the look of cells only.

    MxModel is used by MxUndo, this by MxEditor, and MxOps makes the changes of MxModel in
    the sessions of MxEditor; MxHome uses the common ancestors of MxPath. MxLayout joins the
    graph model and the layout, and ReportGraph runs it on the cells that MxGraph made of the graph
    that Dot read. Coverage uses the strings of Url; FilesEditor uses them, the
    error messages of Views and the tree of FileTree. The other components do not interact.

    ** Fuel and bounds

    - Loops over a tree of cells have [fuel h], one more than the number of cells: a chain
      of parents visits distinct cells ([depth_fuel]). The theorems are stated for the
      functions with this fuel and assume no more of it.
    - [cellAdded] looks for a free id: among one more candidate than there are ids in the
      dictionary one is free, as long as the counter is below 2^53.
    - [add] and [updateEdgeParent] call each other; the number of nested calls is an
      argument, and [add_places_edges] proves that two are enough when edges carry no
      cells, with a result for any larger number.
    - [_expandStatTree] and [_collapseStatTree] follow rows to later ones, so the number of
      rows bounds them; in ErrorTrace scopes contain scopes with larger ids, so the largest
      id bounds the recursions.
    - The loops of the crossing reduction are bounded in the code (24 iterations of 10
      rounds); its accumulator tree is climbed from a leaf, whose index bounds the steps, and
      the doubling loop that finds its size ends within 31 steps for ranks of at most 2^30
      cells, with the 32-bit shift of the language.
    - The searches of the hierarchical layout have [dfs_fuel], which grows with the nodes of the
      model. The loop of [initialRank] can run for ever in general ([rank_loop_blocked]); on
      graphs without cycles [rank_fuel], the square of the number of roots and nodes, is proved
      enough. The traversal needs more fuel than there are vertices, and the loop over the
      vertices left takes at least one in each round. [bounded] keeps a graph below the numbers
      the code starts from: 100000 edges of a vertex, 100000000 vertices, 2^30 cells of a model.
      [minNode] reads its queue at most once more than ten times the number of wrappers, which is
      the bound of the code; its other loops are over lists.
    - The loop over the names of a new file tries one name more than there are siblings; the
      tree is written as JSON to a depth of the number of its nodes.
    - Coordinates of geometries are integers: the arithmetic of JavaScript numbers is exact
      on integers below 2^53.

    ** What is not modelled

    - The parts of pages that only create markup, send requests or move the scroll bar, and
      the animation of elements.
    - In the graph model: [mergeChildren], XML user objects and their attributes, rotation
      and scaling of geometries (floating point).
    - Of the hierarchical layout: the points of the edges and where they meet their vertices, the
      style of the edges and the size of the parent. Its coordinates are exact rational numbers;
      the code has numbers of floating point, which round the means of three or more positions. The states of cells that were drawn are
      an argument of MxLayout; its theorems are about a layout before the first drawing, as
      report-graph.js runs it.
    - In the form of a decision: dragging nodes of the tree, a tree that is set a second time
      (no page does it), and the fields of the configuration (startDecision.js). The checksum of
      the server, [toLowerCase] and the text that the browser shows for HTML are arguments; the
      theorems that follow a text through the server assume of its sum only that it is not empty
      and that no other text the server holds has the same ([distinct_sum]), and are applied with
      [Md5.file_checksum]. [toLowerCase] keeps strings without upper-case letters.
    - Of mxGraph.js: moving, grouping and folding cells, the selection, and events to the view.
      What the view and the browser know (which cells are drawn, the size of a label, the points
      of edges) are arguments.
    - The drawing, other layouts, handlers, shapes, codecs and editor of mxGraph, the rest of
      CodeMirror and jsTree, jQuery, Semantic UI: third-party code over the DOM.
    - The Python programs: the server of Bridge, the scheduler, the core and the deployment.

    ** What remains

    The points of edges in the hierarchical layout, [mergeChildren], the selection model
    and the selection of tags with their ancestors could be added in the same way. The remaining scripts of Bridge read and write form fields, send requests and
    reload pages. *)

From Stdlib Require Export Lia ZArith.
From stdpp Require Export prelude gmap strings.

(** ** Scope, hint database and tactics of the development *)

Declare Scope js_scope.
Delimit Scope js_scope with js.
Open Scope js_scope.

Create HintDb js discriminated.
Create HintDb jsrw.

(** Case analysis on every [match], [if] and [decide] that blocks the goal. *)
Ltac js_cases :=
  repeat (case_match || case_decide || case_bool_decide); simplify_eq/=.

(** The usual way to finish a case: simplify, then the hint database. *)
Ltac js_done := simplify_eq/=; eauto with js; try done; try lia.

(** Decide a closed proposition by evaluation. *)
Ltac js_decide := apply (bool_decide_unpack _); vm_compute; exact I.

(** ** JavaScript values used by several components *)

(** A string that may be missing ([null] or [undefined]); JavaScript treats a
    missing string and the empty string as false in a condition. *)
Definition truthy (o : option string) : bool :=
  match o with
  | None => false
  | Some s => negb (bool_decide (s = EmptyString))
  end.

#[global] Arguments truthy : simpl never.

Lemma truthy_Some o : truthy o = true ↔ ∃ s, o = Some s ∧ s ≠ EmptyString.
Proof.
  unfold truthy. destruct o as [s|].
  - rewrite negb_true_iff, bool_decide_eq_false. naive_solver.
  - naive_solver.
Qed.

(** [arr.indexOf(x) >= 0] on an array of strings. *)
Definition js_includes {A} `{EqDecision A} (x : A) (l : list A) : bool :=
  bool_decide (x ∈ l).

Lemma js_includes_true {A} `{EqDecision A} (x : A) l :
  js_includes x l = true ↔ x ∈ l.
Proof. apply bool_decide_eq_true. Qed.

Lemma js_includes_false {A} `{EqDecision A} (x : A) l :
  js_includes x l = false ↔ x ∉ l.
Proof. apply bool_decide_eq_false. Qed.

(** [s.startsWith(p)], giving what follows the prefix. *)
Fixpoint strip_prefix (p s : string) : option string :=
  match p, s with
  | EmptyString, _ => Some s
  | String a p', String b s' => if decide (a = b) then strip_prefix p' s' else None
  | String _ _, EmptyString => None
  end.

Lemma strip_prefix_app p s : strip_prefix p (p +:+ s) = Some s.
Proof. induction p as [|a p IH]; simpl; [done|]. by rewrite decide_True. Qed.

Lemma strip_prefix_Some p s t : strip_prefix p s = Some t → s = p +:+ t.
Proof.
  revert s; induction p as [|a p IH]; intros s; simpl; [by intros [= ->]|].
  destruct s as [|b s]; [done|]. case_decide; [|done].
  intros Ht. subst. by rewrite (IH _ Ht).
Qed.

Lemma pair_of {A B} (x : A * B) b : x.2 = b → x = (x.1, b).
Proof. by destruct x; intros <-. Qed.

(** ** Arrays *)

(** The position [splice(start, ..)] works at: a negative start counts from the end,
    and the position never leaves the array. *)
Definition splice_pos (len : nat) (start : Z) : nat :=
  if decide (start < 0)%Z then Z.to_nat (Z.max 0 (Z.of_nat len + start))
  else Nat.min (Z.to_nat start) len.

(** [l.splice(start, deleteCount, ...items)]: the array afterwards. *)
Definition js_splice {A} (l : list A) (start : Z) (deleteCount : nat) (items : list A) : list A :=
  let p := splice_pos (length l) start in
  take p l ++ items ++ drop (p + deleteCount) l.

Lemma splice_pos_of_nat len i : i ≤ len → splice_pos len (Z.of_nat i) = i.
Proof. intros. unfold splice_pos. rewrite decide_False by lia. lia. Qed.

Lemma js_splice_remove {A} (l : list A) i :
  i < length l → js_splice l (Z.of_nat i) 1 [] = delete i l.
Proof.
  intros Hi. unfold js_splice. rewrite splice_pos_of_nat by lia. simpl.
  by rewrite delete_take_drop, Nat.add_1_r.
Qed.

Lemma list_filter_all {A} (P : A → Prop) `{∀ x, Decision (P x)} l : Forall P l → filter P l = l.
Proof. induction 1; [done|]. rewrite filter_cons_True by done. by f_equal. Qed.

Lemma filter_ne_id {A} `{EqDecision A} (l : list A) x : x ∉ l → filter (.≠ x) l = l.
Proof. intros Hx. apply list_filter_all, Forall_forall. by intros y Hy ->. Qed.

Lemma filter_ne_delete {A} `{EqDecision A} (l : list A) i x :
  NoDup l → l !! i = Some x → filter (.≠ x) l = delete i l.
Proof.
  intros Hnd Hi. rewrite <-(take_drop_middle l i x Hi) in Hnd at 1.
  apply NoDup_app in Hnd as (_ & H1 & [H2 _]%NoDup_cons).
  rewrite delete_take_drop, <-(take_drop_middle l i x Hi) at 1.
  rewrite filter_app, filter_cons_False by naive_solver. f_equal.
  - apply filter_ne_id. intros Hx. by apply (H1 x Hx); left.
  - by apply filter_ne_id.
Qed.

Lemma js_splice_insert_perm {A} (l : list A) i (x : A) : js_splice l i 0 [x] ≡ₚ x :: l.
Proof.
  unfold js_splice. rewrite Nat.add_0_r. simpl.
  by rewrite <-Permutation_middle, take_drop.
Qed.

Lemma elem_of_concat {A} (x : A) (ls : list (list A)) :
  x ∈ concat ls ↔ ∃ l, x ∈ l ∧ l ∈ ls.
Proof.
  induction ls as [|l ls IH]; simpl.
  - split; [by intros ?%not_elem_of_nil|]. by intros (? & ? & ?%not_elem_of_nil).
  - rewrite elem_of_app, IH. setoid_rewrite elem_of_cons. naive_solver.
Qed.
