(* ===== verification/TreeTable.v ===== *)
(** * The tree table of the job list

    Models [window.inittree] and its click handler (treetable.js) and
    [window.update_colors] (bridge.js). *)

From S2P Require Import Prelude.

Module TreeTable.

(** A table row: the tokens of its [class] attribute, the tokens of the class of
    the first icon of its tree cell ([None] before [inittree] has run), the style
    put on that icon, the [margin-left] of its [tabletree] span, whether the row
    is displayed, and its background. *)
Record row := Row {
  row_class : list string;
  icon : option (list string);
  icon_style : option string;
  indent : option Z;
  visible : bool;
  background : option string
}.

Definition set_visible (v : bool) (r : row) : row :=
  Row (row_class r) (icon r) (icon_style r) (indent r) v (background r).
Definition set_icon (c : list string) (r : row) : row :=
  Row (row_class r) (Some c) (icon_style r) (indent r) (visible r) (background r).
Definition set_icon_style (s : string) (r : row) : row :=
  Row (row_class r) (icon r) (Some s) (indent r) (visible r) (background r).

(** [get_ids]: the last [treegrid-parent-*] and [treegrid-*] class. *)
Definition get_ids (classlist : list string) : option string * option string :=
  foldl (λ '(tt_id, tt_par_id) item,
    match strip_prefix "treegrid-parent-" item with
    | Some p => (tt_id, Some p)
    | None => match strip_prefix "treegrid-" item with
              | Some i => (Some i, tt_par_id)
              | None => (tt_id, tt_par_id)
              end
    end) (None, None) classlist.

(** ** [window.inittree] *)

(** The local variables of [inittree] while it walks the rows: [old_rows], the
    identifiers in [expanded_parents], the row of [prev_icon] with [prev_indent],
    and the rows already visited. *)
Record walk := Walk {
  old_rows : gmap string Z;
  expanded_parents : list string;
  prev_icon : option nat;
  prev_indent : Z;
  visited : list row
}.

Definition mark_leaf (r : row) : row :=
  set_icon_style "opacity:0;"
    (Row (row_class r) (filter (λ c, c ≠ "link") <$> icon r)
         (icon_style r) (indent r) (visible r) (background r)).

Definition mark_inner (r : row) : row := set_icon_style "opacity:100%;" r.

(** A row seen for the first time gets its indentation, its expander icon and
    its initial visibility. *)
Definition init_row (expanded collapsed : list string) (w : walk)
    (tt_id : string) (tt_par_id : option string) (r : row) : row * list string :=
  let curr_indent :=
    match tt_par_id with
    | Some p => if truthy tt_par_id then default 0%Z ((λ i, i + 16)%Z <$> old_rows w !! p)
                else 0%Z
    | None => 0%Z
    end in
  let shown := js_includes "tr-show" (row_class r) in
  let exp := if shown then expanded_parents w ++ [tt_id] else expanded_parents w in
  let hidden :=
    match tt_par_id with
    | Some p => truthy tt_par_id && negb (js_includes p exp)
    | None => false
    end in
  (Row (filter (λ c, c ≠ "tr-show") (row_class r))
       (Some (if shown then expanded else collapsed)) (Some "cursor: pointer")
       (Some curr_indent) (if hidden then false else visible r) (background r), exp).

Definition inittree_step (expanded collapsed : list string) (w : walk) (r : row) : walk :=
  match get_ids (row_class r) with
  | (Some tt_id, tt_par_id) =>
      if truthy (Some tt_id) then
        let '(r', exp) :=
          match indent r with
          | Some _ => (r, expanded_parents w)
          | None => init_row expanded collapsed w tt_id tt_par_id r
          end in
        let curr_indent := default 0%Z (indent r') in
        let seen :=
          match prev_icon w with
          | Some k =>
              if (prev_indent w >=? curr_indent)%Z
              then alter mark_leaf k (visited w) else alter mark_inner k (visited w)
          | None => visited w
          end in
        Walk (<[tt_id := curr_indent]> (old_rows w)) exp
             (Some (length (visited w))) curr_indent (seen ++ [r'])
      else Walk (old_rows w) (expanded_parents w) (prev_icon w) (prev_indent w)
                (visited w ++ [r])
  | (None, _) => Walk (old_rows w) (expanded_parents w) (prev_icon w) (prev_indent w)
                      (visited w ++ [r])
  end.

Definition inittree (expanded collapsed : list string) (rows : list row) : list row :=
  let w := foldl (inittree_step expanded collapsed) (Walk ∅ [] None 0 []) rows in
  match prev_icon w with
  | Some k => alter mark_leaf k (visited w)
  | None => visited w
  end.

(** ** The click handler of an expander icon *)

(** The loop of the "collapse" branch over the rows after the clicked one. *)
Fixpoint collapse_rows (prev_ids : list string) (rows : list row) : list row :=
  match rows with
  | [] => []
  | next_tr :: rest =>
      match get_ids (row_class next_tr) with
      | (Some next_id, Some next_par_id) =>
          if truthy (Some next_id) && truthy (Some next_par_id)
             && js_includes next_par_id prev_ids
          then set_visible false next_tr :: collapse_rows (prev_ids ++ [next_id]) rest
          else rows
      | _ => rows
      end
  end.

(** The loop of the "expand" branch. *)
Fixpoint expand_rows (expanded : list string) (prev_ids : list string) (rows : list row) : list row :=
  match rows with
  | [] => []
  | next_tr :: rest =>
      match get_ids (row_class next_tr) with
      | (Some next_id, next_par_id) =>
          if truthy (Some next_id) then
            if truthy next_par_id && js_includes (default "" next_par_id) prev_ids
            then set_visible true next_tr
                 :: expand_rows expanded
                      (if decide (icon next_tr = Some expanded)
                       then prev_ids ++ [next_id] else prev_ids) rest
            else next_tr :: expand_rows expanded prev_ids rest
          else rows
      | (None, _) => rows
      end
  end.

(** The background of the displayed rows alternates ([update_colors]). *)
Fixpoint update_colors_from (is_dark : bool) (rows : list row) : list row :=
  match rows with
  | [] => []
  | r :: rest =>
      if visible r
      then Row (row_class r) (icon r) (icon_style r) (indent r) (visible r)
               (Some (if is_dark then "#f0fcfe" else "white"))
           :: update_colors_from (negb is_dark) rest
      else r :: update_colors_from is_dark rest
  end.

Definition update_colors (alternate_color : bool) (rows : list row) : list row :=
  if alternate_color then update_colors_from false rows else rows.

(** The handler bound to the icon of the row at position [k], whose identifier is
    [tt_id]. *)
Definition click (alternate_color : bool) (expanded collapsed : list string)
    (k : nat) (tt_id : string) (rows : list row) : list row :=
  match rows !! k with
  | None => rows
  | Some r =>
      if decide (icon r = Some expanded) then
        update_colors alternate_color
          (take k rows ++ set_icon collapsed r :: collapse_rows [tt_id] (drop (S k) rows))
      else if decide (icon r = Some collapsed) then
        update_colors alternate_color
          (take k rows ++ set_icon expanded r
           :: expand_rows expanded [tt_id] (drop (S k) rows))
      else rows
  end.

(** ** Specification: the table as the preorder listing of a forest *)

(** A node of the displayed forest: its identifier, its row, its children. *)
Inductive node := Node (id : string) (r : row) (kids : list node).

Definition nid (n : node) : string := let 'Node i _ _ := n in i.
Definition nrow (n : node) : row := let 'Node _ r _ := n in r.
Definition nkids (n : node) : list node := let 'Node _ _ ks := n in ks.

Section NodeInd.
Context (P : node → Prop).
Context (step : ∀ i r ks, Forall P ks → P (Node i r ks)).

Fixpoint node_nested_ind (n : node) : P n :=
  match n with
  | Node i r ks =>
      step i r ks
        ((fix go l : Forall P l :=
            match l with
            | [] => Forall_nil_2 P
            | k :: l' => Forall_cons_2 P k l' (node_nested_ind k) (go l')
            end) ks)
  end.
End NodeInd.

(** The rows of a node, in document order, and the identifiers it covers. *)
Fixpoint flatten (n : node) : list row :=
  let 'Node _ r ks := n in r :: concat (map flatten ks).

Fixpoint ids (n : node) : list string :=
  let 'Node i _ ks := n in i :: concat (map ids ks).

Abbreviation flattens f := (concat (map flatten f)).
Abbreviation idss f := (concat (map ids f)).

(** The class attributes encode the forest: [treegrid-<id>] on every row and
    [treegrid-parent-<id>] on every child row. *)
Inductive wf_node : option string → node → Prop :=
| wf_node_intro par i r ks :
    get_ids (row_class r) = (Some i, par) →
    i ≠ EmptyString → par ≠ Some EmptyString →
    Forall (wf_node (Some i)) ks →
    wf_node par (Node i r ks).

(** What the two branches of the click handler do to a subtree. *)
Fixpoint hide_all (n : node) : node :=
  let 'Node i r ks := n in Node i (set_visible false r) (map hide_all ks).

Section Spec.
Context (expanded collapsed : list string).

Definition is_open (r : row) : bool := bool_decide (icon r = Some expanded).

Fixpoint reveal (n : node) : node :=
  let 'Node i r ks := n in
  Node i (set_visible true r) (if is_open r then map reveal ks else ks).

Definition toggle_node (n : node) : node :=
  let 'Node i r ks := n in
  if is_open r then Node i (set_icon collapsed r) (map hide_all ks)
  else if decide (icon r = Some collapsed)
       then Node i (set_icon expanded r) (map reveal ks)
       else n.

(** Toggling the node with identifier [t] inside a node. *)
Fixpoint toggle_in (t : string) (n : node) : node :=
  let 'Node i r ks := n in
  if decide (i = t) then toggle_node n else Node i r (map (toggle_in t) ks).

(** Visibility is consistent: a row is displayed iff its parent is displayed and
    expanded ([anc] says so for the parent). *)
Inductive well_shown : bool → node → Prop :=
| well_shown_intro anc i r ks :
    visible r = anc →
    Forall (well_shown (anc && is_open r)) ks →
    well_shown anc (Node i r ks).

(** The identifiers the "expand" loop adds to [prev_ids]. *)
Fixpoint open_ids (n : node) : list string :=
  let 'Node i r ks := n in if is_open r then i :: concat (map open_ids ks) else [].

End Spec.

(** ** The click handler refines the specification *)

(** No row of the list hangs below one of the given identifiers. *)
Definition outside (s : list string) (rows : list row) : Prop :=
  Forall (λ r, ∀ p, snd (get_ids (row_class r)) = Some p → p ∉ s) rows.

Lemma wf_forest_ids par f :
  Forall (wf_node par) f →
  map (λ r, fst (get_ids (row_class r))) (flattens f) = Some <$> idss f.
Proof.
  intros Hf. assert (∀ n par, wf_node par n →
    map (λ r, fst (get_ids (row_class r))) (flatten n) = Some <$> ids n) as Hn.
  { intros n. induction n as [i r ks IH] using node_nested_ind.
    intros p Hwf. inversion_clear Hwf as [???? Hids _ _ Hks]. simpl.
    rewrite Hids. simpl. f_equal.
    induction IH as [|k ks' Hk _ IHks]; [done|]. apply Forall_cons in Hks as [??].
    simpl. rewrite map_app, fmap_app. erewrite Hk by done. f_equal. auto. }
  induction Hf as [|n f Hnode _ IH]; [done|].
  simpl. rewrite map_app, fmap_app. erewrite Hn by done. by rewrite IH.
Qed.

(** Every row of a node hangs below the node's own parent or inside it. *)
Lemma wf_node_parents par n s :
  wf_node par n → (∀ p, par = Some p → p ∉ s) → (∀ i, i ∈ ids n → i ∉ s) →
  outside s (flatten n).
Proof.
  revert par. induction n as [i r ks IH] using node_nested_ind.
  intros par Hwf Hpar Hids. inversion_clear Hwf as [???? Hr _ _ Hks].
  constructor; [rewrite Hr; done|].
  assert (i ∉ s) as Hi by (apply Hids; simpl; left).
  assert (∀ j, j ∈ idss ks → j ∉ s) as Hjs by (intros j Hj; apply Hids; by right).
  clear Hids Hr. induction IH as [|k ks' Hk _ IHks]; [constructor|].
  apply Forall_cons in Hks as [Hwk ?]. simpl in *.
  apply Forall_app. split.
  - eapply Hk; [done|by intros ? [= <-]|]. intros j Hj. apply Hjs, elem_of_app. by left.
  - apply IHks; [done|]. intros j Hj. apply Hjs, elem_of_app. by right.
Qed.

Lemma wf_forest_outside par f s :
  Forall (wf_node par) f → (∀ p, par = Some p → p ∉ s) → (∀ i, i ∈ idss f → i ∉ s) →
  outside s (flattens f).
Proof.
  intros Hf Hpar Hids. induction Hf as [|n f Hn _ IH]; [constructor|].
  apply Forall_app. split.
  - eapply wf_node_parents; [done..|]. intros. apply Hids. simpl. apply elem_of_app. by left.
  - apply IH. intros. apply Hids. simpl. apply elem_of_app. by right.
Qed.

Lemma collapse_rows_outside s rest : outside s rest → collapse_rows s rest = rest.
Proof.
  intros Hout. destruct Hout as [|r rest Hr _]; [done|]. simpl in *.
  destruct (get_ids (row_class r)) as [[i|] [p|]]; try done. simpl in Hr.
  rewrite (proj2 (js_includes_false p s)) by auto. by rewrite andb_false_r.
Qed.

Lemma truthy_ne s : s ≠ EmptyString → truthy (Some s) = true.
Proof. intros. apply truthy_Some. eauto. Qed.
#[local] Hint Resolve truthy_ne : js.

Lemma collapse_rows_forest p f prev rest :
  Forall (wf_node (Some p)) f → p ∈ prev →
  collapse_rows prev (flattens f ++ rest) =
  flattens (map hide_all f) ++ collapse_rows (prev ++ idss f) rest.
Proof.
  assert (∀ n p prev rest, wf_node (Some p) n → p ∈ prev →
    collapse_rows prev (flatten n ++ rest) =
    flatten (hide_all n) ++ collapse_rows (prev ++ ids n) rest) as Hnode.
  { clear. intros n. induction n as [i r ks IH] using node_nested_ind.
    intros p prev rest Hwf Hp. inversion_clear Hwf as [???? Hr Hi Hpne Hks]. simpl.
    rewrite Hr, truthy_ne, (truthy_ne p), (proj2 (js_includes_true p prev)) by congruence.
    simpl. f_equal.
    change (prev ++ i :: concat (map ids ks)) with (prev ++ [i] ++ concat (map ids ks)).
    rewrite (assoc_L (++)).
    assert (i ∈ prev ++ [i]) as Hin by (apply elem_of_app; right; by left).
    revert Hin. generalize (prev ++ [i]). clear Hr.
    induction IH as [|k ks' Hk _ IHks]; intros q Hq; [by rewrite app_nil_r|].
    apply Forall_cons in Hks as [Hwk Hwks]. simpl.
    rewrite <-!(assoc_L (++)), (Hk i) by done. f_equal.
    rewrite IHks by (try done; apply elem_of_app; by left).
    by rewrite <-(assoc_L (++)). }
  intros Hf. revert prev. induction Hf as [|n f Hn _ IH]; intros prev Hp; simpl.
  { by rewrite app_nil_r. }
  rewrite <-!(assoc_L (++)), (Hnode n p) by done. f_equal.
  rewrite IH by (apply elem_of_app; by left). by rewrite <-(assoc_L (++)).
Qed.

Section Handler.
Context (expanded collapsed : list string).

Lemma expand_rows_outside s rest : outside s rest → expand_rows expanded s rest = rest.
Proof.
  induction 1 as [|r rest Hr _ IH]; [done|]. simpl in *.
  destruct (get_ids (row_class r)) as [[i|] par]; [|done]. simpl in Hr.
  destruct (truthy (Some i)); [|done]. destruct par as [p|]; simpl; [|by f_equal].
  rewrite (proj2 (js_includes_false p s)) by auto. rewrite andb_false_r. by f_equal.
Qed.

(** Rows that hang below none of [prev] are left alone. *)
Lemma expand_rows_skip prev rows rest :
  outside prev rows → Forall (λ r, ∃ i, fst (get_ids (row_class r)) = Some i ∧ i ≠ EmptyString) rows →
  expand_rows expanded prev (rows ++ rest) = rows ++ expand_rows expanded prev rest.
Proof.
  intros Hout Hid. induction Hout as [|r rows Hr _ IH]; [done|].
  apply Forall_cons in Hid as [(i & Hi & Hne) Hid]. simpl in *.
  destruct (get_ids (row_class r)) as [? par]; simpl in *; subst.
  rewrite truthy_ne by done. destruct par as [p|]; simpl; [|by rewrite IH].
  rewrite (proj2 (js_includes_false p prev)), andb_false_r, IH by auto. done.
Qed.

Lemma wf_node_has_id par n :
  wf_node par n →
  Forall (λ r, ∃ i, fst (get_ids (row_class r)) = Some i ∧ i ≠ EmptyString) (flatten n).
Proof.
  revert par. induction n as [i r ks IH] using node_nested_ind.
  intros par Hwf. inversion_clear Hwf as [???? Hr Hi _ Hks]. constructor.
  { rewrite Hr. eauto. }
  clear Hr. induction IH as [|k ks' Hk _ IHks]; [constructor|].
  apply Forall_cons in Hks as [??]. simpl. apply Forall_app. eauto.
Qed.

Lemma wf_forest_has_id par f :
  Forall (wf_node par) f →
  Forall (λ r, ∃ i, fst (get_ids (row_class r)) = Some i ∧ i ≠ EmptyString) (flattens f).
Proof.
  induction 1 as [|n f Hn _ IH]; simpl; [constructor|].
  apply Forall_app. eauto using wf_node_has_id.
Qed.

Lemma open_ids_subset n : open_ids expanded n ⊆ ids n.
Proof.
  induction n as [i r ks IH] using node_nested_ind. simpl.
  destruct (is_open expanded r); [|set_solver].
  assert (concat (map (open_ids expanded) ks) ⊆ idss ks) as Hsub.
  { induction IH as [|k ks' Hk _ IHks]; simpl; [done|]. set_solver. }
  set_solver.
Qed.

Lemma open_idss_subset f : concat (map (open_ids expanded) f) ⊆ idss f.
Proof.
  induction f as [|n f IH]; simpl; [done|]. pose proof (open_ids_subset n). set_solver.
Qed.

Lemma NoDup_idss_cons i f : NoDup (i :: idss f) → i ∉ idss f ∧ NoDup (idss f).
Proof. apply NoDup_cons. Qed.

(** The "expand" loop over the children of a node reveals them. The lists of
    identifiers are pairwise distinct, so no row of a collapsed branch matches. *)
Lemma expand_rows_forest p f prev rest :
  Forall (wf_node (Some p)) f → p ∈ prev → NoDup (idss f) →
  (∀ i, i ∈ idss f → i ∉ prev) →
  expand_rows expanded prev (flattens f ++ rest) =
  flattens (map (reveal expanded) f) ++
  expand_rows expanded (prev ++ concat (map (open_ids expanded) f)) rest.
Proof.
  enough (∀ n p prev rest, wf_node (Some p) n → p ∈ prev → NoDup (ids n) →
    (∀ i, i ∈ ids n → i ∉ prev) →
    expand_rows expanded prev (flatten n ++ rest) =
    flatten (reveal expanded n) ++
    expand_rows expanded (prev ++ open_ids expanded n) rest) as Hnode.
  { intros Hf. revert prev. induction Hf as [|n f Hn _ IH]; intros prev Hp Hnd Hdis; simpl in *.
    { by rewrite app_nil_r. }
    apply NoDup_app in Hnd as (Hnd1 & Hcross & Hnd2).
    rewrite <-!(assoc_L (++)), (Hnode n p) by set_solver. f_equal.
    rewrite IH; [by rewrite <-(assoc_L (++))|set_solver..|].
    intros i Hi. pose proof (open_ids_subset n). set_solver. }
  clear. intros n. induction n as [i r ks IH] using node_nested_ind.
  intros p prev rest Hwf Hp Hnd Hdis. inversion_clear Hwf as [???? Hr Hi Hpne Hks].
  simpl in Hnd. apply NoDup_idss_cons in Hnd as [Hni Hnd]. simpl.
  rewrite Hr, truthy_ne, (truthy_ne p), (proj2 (js_includes_true p prev)) by congruence.
  simpl. f_equal. unfold is_open. case_bool_decide as Hop.
  - rewrite decide_True by done.
    rewrite (cons_middle i prev (concat (map (open_ids expanded) ks))), (assoc_L (++) prev).
    assert (∀ j, j ∈ idss ks → j ∉ prev ++ [i]) as Hdis2.
    { intros j Hj [Hjp|Hji]%elem_of_app; [by apply (Hdis j); [right|]|].
      apply list_elem_of_singleton in Hji as ->. done. }
    assert (i ∈ prev ++ [i]) as Hin by (apply elem_of_app; right; by left).
    revert Hdis2 Hin. generalize (prev ++ [i]). clear Hr Hni Hdis Hp Hop.
    induction IH as [|k ks' Hk _ IHks]; intros q Hdis Hq; simpl; [by rewrite app_nil_r|].
    apply Forall_cons in Hks as [Hwk Hwks]. simpl in *.
    apply NoDup_app in Hnd as (Hnd1 & Hcross & Hnd2).
    rewrite <-!(assoc_L (++)), (Hk i) by set_solver. f_equal.
    rewrite IHks; [by rewrite <-(assoc_L (++))|done|done| |set_solver].
    intros j Hj. pose proof (open_ids_subset k). set_solver.
  - rewrite decide_False, app_nil_r by done. apply expand_rows_skip.
    + eapply wf_forest_outside; [done|..].
      { intros ? [= <-]. apply Hdis. by left. }
      intros j Hj. apply Hdis. by right.
    + eapply wf_forest_has_id; done.
Qed.

Lemma toggle_in_notin t n : t ∉ ids n → toggle_in expanded collapsed t n = n.
Proof.
  induction n as [i r ks IH] using node_nested_ind. simpl. intros Hnot.
  rewrite decide_False by set_solver. f_equal.
  induction IH as [|k ks' Hk _ IHks]; simpl in *; [done|].
  rewrite Hk by set_solver. f_equal. apply IHks. set_solver.
Qed.

Lemma toggles_notin t f : t ∉ idss f → map (toggle_in expanded collapsed t) f = f.
Proof.
  induction f as [|n f IH]; simpl; [done|]. intros.
  rewrite toggle_in_notin, IH by set_solver. done.
Qed.

(** The node [t] splits the listing in three: the rows before it, its own rows,
    and rows that do not hang below it. *)
Definition split_at (t : string) (s : list string) (before after : list row) : Prop :=
  ∃ pre sub post p, before = pre ++ flatten sub ++ post ∧
    after = pre ++ flatten (toggle_node expanded collapsed sub) ++ post ∧
    nid sub = t ∧ wf_node p sub ∧ NoDup (ids sub) ∧ outside (ids sub) post ∧ ids sub ⊆ s.

Definition splits (t : string) (n : node) : Prop :=
  ∀ par, wf_node par n → NoDup (ids n) → (∀ p, par = Some p → p ∉ ids n) → t ∈ ids n →
  split_at t (ids n) (flatten n) (flatten (toggle_in expanded collapsed t n)).

Lemma split_at_prefix t s s' l before after :
  s ⊆ s' → split_at t s before after → split_at t s' (l ++ before) (l ++ after).
Proof.
  intros Hs (pre & sub & post & p & -> & -> & ? & ? & ? & ? & ?).
  exists (l ++ pre), sub, post, p. rewrite <-!(assoc_L (++)). naive_solver set_solver.
Qed.

Lemma split_at_suffix t s s' l before after :
  s ⊆ s' → outside s l → split_at t s before after →
  split_at t s' (before ++ l) (after ++ l).
Proof.
  intros Hs Hl (pre & sub & post & p & -> & -> & ? & ? & ? & ? & Hsub).
  exists pre, sub, (post ++ l), p. rewrite <-!(assoc_L (++)). do 5 (split; [done|]). split.
  - apply Forall_app. split; [done|]. eapply Forall_impl; [exact Hl|]. naive_solver.
  - set_solver.
Qed.

Lemma splits_forest t par f :
  Forall (splits t) f → Forall (wf_node par) f → NoDup (idss f) →
  (∀ p, par = Some p → p ∉ idss f) → t ∈ idss f →
  split_at t (idss f) (flattens f) (flattens (map (toggle_in expanded collapsed t) f)).
Proof.
  intros HI. induction HI as [|n f Hn _ IH]; simpl; intros Hf Hnd Hpar Ht; [by inversion Ht|].
  apply Forall_cons in Hf as [Hwn Hf].
  apply NoDup_app in Hnd as (Hnd1 & Hcross & Hnd2).
  apply elem_of_app in Ht as [Ht|Ht].
  - rewrite (toggles_notin t f) by naive_solver.
    apply split_at_suffix with (ids n); [set_solver|..|apply (Hn par); set_solver].
    eapply wf_forest_outside; [done|set_solver|]. naive_solver.
  - rewrite toggle_in_notin by naive_solver.
    apply split_at_prefix with (idss f); [set_solver|]. apply IH; set_solver.
Qed.

Lemma splits_node t n : splits t n.
Proof.
  induction n as [i r ks IH] using node_nested_ind. intros par Hwf Hnd Hpar Ht.
  assert (Hwf' := Hwf). inversion_clear Hwf' as [???? Hr Hi Hpne Hks]. simpl.
  case_decide as Heq.
  - exists [], (Node i r ks), [], par. simpl. rewrite !app_nil_r.
    repeat split; try done. constructor.
  - simpl in *. apply NoDup_idss_cons in Hnd as [Hni Hnd].
    apply (split_at_prefix _ (idss ks) _ [r]); [set_solver|].
    eapply splits_forest; [done|done|done|naive_solver|].
    apply elem_of_cons in Ht as [->|?]; done.
Qed.

(** A table that lists a forest: identifiers are distinct and no root row hangs
    below a row of the table. *)
Definition wf_forest (f : list node) : Prop :=
  Forall (wf_node None) f ∧ NoDup (idss f).

Lemma lookup_id_unique f k r t pre r' rest :
  wf_forest f → flattens f = pre ++ r' :: rest → flattens f !! k = Some r →
  fst (get_ids (row_class r)) = Some t → fst (get_ids (row_class r')) = Some t →
  k = length pre.
Proof.
  intros [Hf Hnd] Hrows Hk Hr Hr'.
  pose proof (wf_forest_ids None f Hf) as Hids.
  set (g := λ r, fst (get_ids (row_class r))) in *.
  assert (NoDup (map g (flattens f))) as Hnd'.
  { rewrite Hids. apply NoDup_fmap_2; [apply _|done]. }
  apply (NoDup_lookup (map g (flattens f)) _ _ (Some t)); [done|..].
  - change (map g) with (fmap (M:=list) g). rewrite list_lookup_fmap, Hk. cbn. by f_equal.
  - change (map g) with (fmap (M:=list) g). rewrite list_lookup_fmap, Hrows.
    rewrite list_lookup_middle by done. cbn. by f_equal.
Qed.

(** The loops of the handler, run on the rows that follow a node. *)
Lemma click_node alt t p i r ks pre post :
  wf_node p (Node i r ks) → NoDup (ids (Node i r ks)) → outside (ids (Node i r ks)) post →
  i = t → (icon r = Some expanded ∨ icon r = Some collapsed) →
  click alt expanded collapsed (length pre) t (pre ++ flatten (Node i r ks) ++ post) =
  update_colors alt
    (pre ++ flatten (toggle_node expanded collapsed (Node i r ks)) ++ post).
Proof.
  intros Hwf Hnd Hout <- Hicon. inversion_clear Hwf as [???? Hr Hi Hpne Hks].
  simpl in Hnd, Hout. apply NoDup_idss_cons in Hnd as [Hni Hnd]. unfold click.
  change (flatten (Node i r ks) ++ post) with (r :: flattens ks ++ post).
  rewrite list_lookup_middle by done. unfold toggle_node, is_open.
  rewrite take_app_length.
  replace (drop (S (length pre)) (pre ++ r :: flattens ks ++ post)) with (flattens ks ++ post)
    by (by rewrite (cons_middle r), (assoc_L (++)), drop_app_length'
         by (rewrite length_app; simpl; lia)).
  case_bool_decide as Hop.
  - rewrite decide_True by done. do 2 f_equal. simpl. f_equal.
    rewrite (collapse_rows_forest i) by (done || by left).
    by rewrite collapse_rows_outside by done.
  - rewrite decide_False, !decide_True by naive_solver. do 2 f_equal. simpl. f_equal.
    rewrite (expand_rows_forest i); [|done|by left|done|set_solver].
    rewrite expand_rows_outside; [done|].
    eapply Forall_impl; [exact Hout|]. intros x Hx q Hq. specialize (Hx q Hq).
    pose proof (open_idss_subset ks). set_solver.
Qed.

(** Clicking the icon of the row with identifier [t] toggles the node [t] of the
    forest the table lists: the refinement of the handler's two row loops. *)
Lemma click_toggles alt f k r t :
  wf_forest f → flattens f !! k = Some r → fst (get_ids (row_class r)) = Some t →
  (icon r = Some expanded ∨ icon r = Some collapsed) →
  click alt expanded collapsed k t (flattens f) =
  update_colors alt (flattens (map (toggle_in expanded collapsed t) f)).
Proof.
  intros Hwf Hk Hr Hicon. pose proof Hwf as [Hf Hnd].
  assert (t ∈ idss f) as Ht.
  { apply (list_elem_of_fmap_inj Some). rewrite <-(wf_forest_ids None f Hf).
    rewrite <-Hr. apply list_elem_of_fmap. exists r. split; [done|].
    by eapply list_elem_of_lookup_2. }
  destruct (splits_forest t None f) as (pre & [i r' ks] & post & p & E1 & E2 & Hid & Hwn & Hnds & Hout & _);
    [apply Forall_true; intros; apply splits_node|done..|].
  rewrite E1, E2. simpl in Hid. subst i.
  assert (k = length pre) as ->.
  { eapply (lookup_id_unique f); [done|exact E1|done|done|].
    inversion_clear Hwn as [???? Hr' _ _ _]. by rewrite Hr'. }
  rewrite E1 in Hk. simpl in Hk. rewrite list_lookup_middle in Hk by done. simplify_eq.
  by eapply click_node.
Qed.

(** *** Visibility at the level of the forest *)

Lemma well_shown_hide_all n anc :
  well_shown expanded anc n → well_shown expanded false (hide_all n).
Proof.
  revert anc. induction n as [i r ks IH] using node_nested_ind.
  intros anc Hn. inversion_clear Hn as [???? Hv Hks]. constructor; [done|].
  rewrite andb_false_l. clear Hv. revert Hks. generalize (anc && is_open expanded r).
  intros b Hks. induction IH as [|k ks' Hk _ IHks]; simpl; [constructor|].
  apply Forall_cons in Hks as [??]. constructor; eauto.
Qed.

Lemma well_shown_reveal n :
  well_shown expanded false n → well_shown expanded true (reveal expanded n).
Proof.
  induction n as [i r ks IH] using node_nested_ind.
  intros Hn. inversion_clear Hn as [???? Hv Hks]. simpl. rewrite andb_false_l in Hks.
  constructor; [done|]. change (is_open expanded (set_visible true r)) with (is_open expanded r).
  destruct (is_open expanded r); [|done].
  induction IH as [|k ks' Hk _ IHks]; simpl; [constructor|].
  apply Forall_cons in Hks as [??]. constructor; eauto.
Qed.

Lemma Forall_map_impl {A} (P Q : A → Prop) (g : A → A) l :
  Forall P l → (∀ x, P x → Q (g x)) → Forall Q (map g l).
Proof. induction 1; simpl; constructor; eauto. Qed.

Lemma map_id_Forall {A} (g : A → A) l : Forall (λ x, g x = x) l → map g l = l.
Proof. induction 1; simpl; congruence. Qed.

Lemma hide_reveal n : hide_all (reveal expanded n) = hide_all n.
Proof.
  induction n as [i r ks IH] using node_nested_ind. simpl. f_equal.
  destruct (is_open expanded r); [|done].
  induction IH; simpl; congruence.
Qed.

Lemma hide_hidden n : well_shown expanded false n → hide_all n = n.
Proof.
  induction n as [i r ks IH] using node_nested_ind.
  intros Hn. inversion_clear Hn as [???? Hv Hks]. rewrite andb_false_l in Hks. simpl.
  f_equal; [by destruct r; simpl in *; subst|]. apply map_id_Forall.
  eapply Forall_impl; [apply Forall_and; split; [exact IH|exact Hks]|]. naive_solver.
Qed.

Lemma reveal_hidden n : well_shown expanded true n → reveal expanded (hide_all n) = n.
Proof.
  induction n as [i r ks IH] using node_nested_ind.
  intros Hn. inversion_clear Hn as [???? Hv Hks]. rewrite andb_true_l in Hks. simpl.
  f_equal; [by destruct r; simpl in *; subst|].
  change (is_open expanded (set_visible false r)) with (is_open expanded r).
  destruct (is_open expanded r).
  - rewrite map_map. apply map_id_Forall.
    eapply Forall_impl; [apply Forall_and; split; [exact IH|exact Hks]|]. naive_solver.
  - apply map_id_Forall. eapply Forall_impl; [exact Hks|]. apply hide_hidden.
Qed.

Section Toggle.
Context (Hne : collapsed ≠ expanded).

(** The rows with identifier [t] are displayed. *)
Definition displayed (t : string) (rows : list row) : Prop :=
  Forall (λ r, fst (get_ids (row_class r)) = Some t → visible r = true) rows.

Lemma displayed_concat t f : displayed t (flattens f) → Forall (λ n, displayed t (flatten n)) f.
Proof. induction f as [|n f IH]; simpl; constructor; apply Forall_app in H as []; auto. Qed.

Lemma is_open_set_icon c r : is_open expanded (set_icon c r) = bool_decide (c = expanded).
Proof. apply bool_decide_ext. simpl. naive_solver. Qed.

Lemma well_shown_toggle_node anc i r ks :
  visible r = true → well_shown expanded anc (Node i r ks) →
  well_shown expanded anc (toggle_node expanded collapsed (Node i r ks)).
Proof.
  intros Hv Hn. assert (Hn' := Hn). inversion_clear Hn' as [???? Ha Hks].
  rewrite Hv in Ha. subst anc. simpl in *. destruct (is_open expanded r) eqn:Hop.
  - constructor; [done|]. rewrite is_open_set_icon, bool_decide_false by done. simpl.
    eapply Forall_map_impl; [exact Hks|]. intros; by eapply well_shown_hide_all.
  - case_decide; [|done]. constructor; [done|].
    rewrite is_open_set_icon, bool_decide_true by done. simpl.
    eapply Forall_map_impl; [exact Hks|]. apply well_shown_reveal.
Qed.

Lemma well_shown_toggle t n anc par :
  wf_node par n → displayed t (flatten n) → well_shown expanded anc n →
  well_shown expanded anc (toggle_in expanded collapsed t n).
Proof.
  revert anc par. induction n as [i r ks IH] using node_nested_ind. intros anc par Hwf Hd Hn.
  inversion_clear Hwf as [???? Hr _ _ Hwks]. apply Forall_cons in Hd as [Hd Hdks].
  cbn [toggle_in]. case_decide as Heq.
  - apply well_shown_toggle_node; [|done]. apply Hd. rewrite Hr. by subst.
  - inversion_clear Hn as [???? Ha Hks]. constructor; [done|].
    apply displayed_concat in Hdks. revert Hks. generalize (anc && is_open expanded r).
    intros b Hks. clear Ha Hr Hd. induction IH as [|k ks' Hk _ IHks]; simpl; [constructor|].
    decompose_Forall_hyps. eauto.
Qed.

Lemma toggle_node_twice anc i r ks :
  visible r = true → well_shown expanded anc (Node i r ks) →
  toggle_node expanded collapsed (toggle_node expanded collapsed (Node i r ks)) = Node i r ks.
Proof.
  intros Hv Hn. inversion_clear Hn as [???? Ha Hks]. rewrite Hv in Ha. subst anc. simpl in *.
  destruct (is_open expanded r) eqn:Hop.
  - simpl. rewrite is_open_set_icon, bool_decide_false, decide_True by done.
    apply bool_decide_eq_true in Hop. f_equal; [destruct r; simpl in *; by subst|].
    rewrite map_map. apply map_id_Forall. eapply Forall_impl; [exact Hks|]. apply reveal_hidden.
  - destruct (decide (icon r = Some collapsed)) as [Hc|Hc]; simpl.
    + rewrite is_open_set_icon, bool_decide_true by done.
      f_equal; [destruct r; simpl in *; by subst|].
      rewrite map_map. apply map_id_Forall. eapply Forall_impl; [exact Hks|].
      intros x Hx. rewrite hide_reveal. by apply hide_hidden.
    + by rewrite Hop, decide_False.
Qed.

Lemma nid_toggle_node n : nid (toggle_node expanded collapsed n) = nid n.
Proof. destruct n as [i r ks]; simpl. destruct (is_open expanded r); [done|]. by case_decide. Qed.

Lemma toggle_in_twice t n anc par :
  wf_node par n → displayed t (flatten n) → well_shown expanded anc n →
  toggle_in expanded collapsed t (toggle_in expanded collapsed t n) = n.
Proof.
  revert anc par. induction n as [i r ks IH] using node_nested_ind. intros anc par Hwf Hd Hn.
  inversion_clear Hwf as [???? Hr _ _ Hwks]. apply Forall_cons in Hd as [Hd Hdks].
  cbn [toggle_in]. case_decide as Heq.
  - pose proof (nid_toggle_node (Node i r ks)) as Hid.
    erewrite <-(toggle_node_twice anc i r ks) at 2; [|apply Hd; rewrite Hr; by subst|done].
    destruct (toggle_node expanded collapsed (Node i r ks)) as [i' r' ks'].
    simpl in Hid. subst i'. cbn [toggle_in]. by rewrite decide_True.
  - cbn [toggle_in]. rewrite decide_False by done. f_equal. rewrite map_map.
    inversion_clear Hn as [???? Ha Hks].
    apply displayed_concat in Hdks. revert Hks. generalize (anc && is_open expanded r).
    intros b Hks. clear Ha Hr Hd. apply map_id_Forall.
    induction IH as [|k ks' Hk _ IHks]; [constructor|].
    decompose_Forall_hyps. constructor; eauto.
Qed.

End Toggle.

(** *** The handler keeps the table a listing of a forest *)

(** Two nodes with the same shape, identifiers and class attributes. *)
Inductive same_shape : node → node → Prop :=
| same_shape_intro i r r' ks ks' :
    row_class r' = row_class r → Forall2 same_shape ks ks' →
    same_shape (Node i r ks) (Node i r' ks').

Lemma same_shape_map (g : node → node) ks :
  Forall (λ k, same_shape k (g k)) ks → Forall2 same_shape ks (map g ks).
Proof. induction 1; simpl; constructor; auto. Qed.

Lemma same_shape_refl n : same_shape n n.
Proof.
  induction n as [i r ks IH] using node_nested_ind. constructor; [done|].
  rewrite <-(map_id ks) at 2. by apply same_shape_map.
Qed.

Lemma same_shape_hide n : same_shape n (hide_all n).
Proof.
  induction n as [i r ks IH] using node_nested_ind. simpl. constructor; [done|].
  by apply same_shape_map.
Qed.

Lemma same_shape_reveal n : same_shape n (reveal expanded n).
Proof.
  induction n as [i r ks IH] using node_nested_ind. simpl. constructor; [done|].
  destruct (is_open expanded r); [by apply same_shape_map|].
  rewrite <-(map_id ks) at 2. apply same_shape_map, Forall_true. apply same_shape_refl.
Qed.

Lemma same_shape_toggle t n : same_shape n (toggle_in expanded collapsed t n).
Proof.
  induction n as [i r ks IH] using node_nested_ind. cbn [toggle_in]. case_decide.
  - simpl. destruct (is_open expanded r); [|case_decide].
    + constructor; [done|]. apply same_shape_map, Forall_true, same_shape_hide.
    + constructor; [done|]. apply same_shape_map, Forall_true, same_shape_reveal.
    + apply same_shape_refl.
  - constructor; [done|]. by apply same_shape_map.
Qed.

Lemma same_shape_wf n n' : same_shape n n' → ids n' = ids n ∧ ∀ par, wf_node par n → wf_node par n'.
Proof.
  revert n'. induction n as [i r ks IH] using node_nested_ind. intros n' Hs.
  inversion_clear Hs as [????? Hc Hks].
  assert (idss ks' = idss ks ∧ ∀ par, Forall (wf_node par) ks → Forall (wf_node par) ks') as [E Hw].
  { induction Hks as [|k k' ks ks' Hk _ IHks]; [done|]. apply Forall_cons in IH as [IHk IH].
    destruct (IHk _ Hk) as [E1 W1], (IHks IH) as [E2 W2]. simpl. rewrite E1, E2.
    split; [done|]. intros par [??]%Forall_cons. constructor; auto. }
  simpl. rewrite E. split; [done|]. intros par Hwf. inversion_clear Hwf as [???? Hr ?? ?].
  constructor; [by rewrite Hc|done..|auto].
Qed.

Lemma wf_forest_toggle t f : wf_forest f → wf_forest (map (toggle_in expanded collapsed t) f).
Proof.
  assert (idss (map (toggle_in expanded collapsed t) f) = idss f) as E.
  { induction f as [|n f IH]; simpl; [done|]. rewrite IH.
    by rewrite (proj1 (same_shape_wf _ _ (same_shape_toggle t n))). }
  intros [Hf Hnd]. split; [|by rewrite E].
  eapply Forall_map_impl; [exact Hf|]. intros n. apply same_shape_wf, same_shape_toggle.
Qed.

(** Rows up to their background, which only [update_colors] writes. *)
Definition plain (r : row) : row :=
  Row (row_class r) (icon r) (icon_style r) (indent r) (visible r) None.

Lemma plain_update_colors alt rows : map plain (update_colors alt rows) = map plain rows.
Proof.
  destruct alt; [|done]. simpl. generalize false.
  induction rows as [|r rows IH]; intros b; simpl; [done|].
  destruct (visible r) eqn:Hv; simpl; rewrite IH; [|done]. unfold plain; simpl. by rewrite Hv.
Qed.

Lemma plain_collapse prev rows :
  map plain (collapse_rows prev rows) = collapse_rows prev (map plain rows).
Proof.
  revert prev. induction rows as [|r rows IH]; intros prev; simpl; [done|].
  destruct (get_ids (row_class r)) as [[?|] [?|]]; try done. case_match; simpl; [|done].
  by rewrite IH.
Qed.

Lemma plain_expand prev rows :
  map plain (expand_rows expanded prev rows) = expand_rows expanded prev (map plain rows).
Proof.
  revert prev. induction rows as [|r rows IH]; intros prev; simpl; [done|].
  destruct (get_ids (row_class r)) as [[?|] ?]; [|done]. case_match; [|done].
  case_match; simpl; by rewrite IH.
Qed.

Lemma plain_click alt k t rows :
  map plain (click alt expanded collapsed k t rows) =
  click false expanded collapsed k t (map plain rows).
Proof.
  unfold click. change (map plain rows) with (plain <$> rows). rewrite list_lookup_fmap.
  destruct (rows !! k) as [r|] eqn:Hk; simpl; [|done].
  case_decide; [|case_decide; [|done]]; rewrite plain_update_colors, map_app; simpl;
    rewrite ?plain_collapse, ?plain_expand, firstn_map, skipn_map; done.
Qed.

(** The table invariant: up to colours, the rows list a well-formed forest whose
    rows are displayed exactly when all their ancestors are expanded. *)
Definition table_ok (rows : list row) : Prop :=
  ∃ f, wf_forest f ∧ Forall (well_shown expanded true) f ∧ map plain rows = flattens f.

Lemma lookup_plain rows k r : rows !! k = Some r → map plain rows !! k = Some (plain r).
Proof. intros Hk. change (map plain rows) with (plain <$> rows). by rewrite list_lookup_fmap, Hk. Qed.

(** A toggled row keeps its position and still has one of the two icons. *)
Lemma toggled_icon t f k r :
  wf_forest f → flattens f !! k = Some r → fst (get_ids (row_class r)) = Some t →
  (icon r = Some expanded ∨ icon r = Some collapsed) →
  ∃ r', flattens (map (toggle_in expanded collapsed t) f) !! k = Some r' ∧
    fst (get_ids (row_class r')) = Some t ∧
    (icon r' = Some expanded ∨ icon r' = Some collapsed).
Proof.
  intros Hwf Hk Hr Hicon.
  pose proof (click_toggles false f k r t Hwf Hk Hr Hicon) as Hc. simpl in Hc. rewrite <-Hc.
  unfold click. rewrite Hk. pose proof (lookup_lt_Some _ _ _ Hk) as Hlt. simpl.
  destruct (decide (icon r = Some expanded)); [|rewrite decide_True by naive_solver];
    eexists; rewrite lookup_app_r by (rewrite length_take; lia);
    rewrite length_take, Nat.min_l, Nat.sub_diag by lia; simpl; eauto.
Qed.

Lemma displayed_lookup f rows k r t :
  wf_forest f → map plain rows = flattens f → rows !! k = Some r →
  fst (get_ids (row_class r)) = Some t → visible r = true →
  Forall (λ n, displayed t (flatten n)) f.
Proof.
  intros Hwf Hrows Hk Hr Hv. apply displayed_concat, Forall_lookup. intros k' r' Hk' Hr'.
  pose proof (lookup_plain _ _ _ Hk) as Hp. rewrite Hrows in Hp.
  assert (k' = k) as ->; [|rewrite Hp in Hk'; by simplify_eq].
  rewrite <-(length_take_le (flattens f) k) by (apply Nat.lt_le_incl; by eapply lookup_lt_Some).
  eapply lookup_id_unique; [done|symmetry; by eapply take_drop_middle|done|done|done].
Qed.

End Handler.


(** ** Properties *)

Section Properties.
Context (expanded collapsed : list string) (Hne : collapsed ≠ expanded).

(** C24: clicking a displayed expander icon keeps the table invariant: the rows still
    list the same kind of forest and a row is displayed iff all its ancestors are
    expanded, whatever the position of the row and whether it was expanded,
    collapsed or a leaf. *)
Theorem click_keeps_table_ok alt rows k r t :
  table_ok expanded rows → rows !! k = Some r → visible r = true →
  fst (get_ids (row_class r)) = Some t →
  table_ok expanded (click alt expanded collapsed k t rows).
Proof.
  intros (f & Hwf & Hs & Hrows) Hk Hv Hr.
  pose proof (displayed_lookup _ _ _ _ _ Hwf Hrows Hk Hr Hv) as Hd.
  pose proof (lookup_plain _ _ _ Hk) as Hp. unfold table_ok. rewrite plain_click, Hrows in *.
  destruct (decide (icon r = Some expanded ∨ icon r = Some collapsed)) as [Hi|Hi].
  - rewrite (click_toggles _ _ false f k (plain r)) by done. simpl.
    eexists; split_and!; [by apply wf_forest_toggle| |done].
    destruct Hwf as [Hf _]. clear Hrows Hp.
    induction f; decompose_Forall_hyps; constructor; eauto using well_shown_toggle.
  - exists f. split_and!; [done..|]. unfold click. rewrite Hp. simpl.
    by rewrite !decide_False by naive_solver.
Qed.

(** C36: collapsing a displayed row and expanding it again (or the other way round)
    gives back every row of the table, its icon and its visibility; only the
    alternating colours may differ. *)
Theorem click_twice_restores alt rows k r t :
  table_ok expanded rows → rows !! k = Some r → visible r = true →
  fst (get_ids (row_class r)) = Some t →
  map plain (click alt expanded collapsed k t (click alt expanded collapsed k t rows))
  = map plain rows.
Proof.
  intros (f & Hwf & Hs & Hrows) Hk Hv Hr.
  pose proof (displayed_lookup _ _ _ _ _ Hwf Hrows Hk Hr Hv) as Hd.
  pose proof (lookup_plain _ _ _ Hk) as Hp. rewrite !plain_click, Hrows in *.
  destruct (decide (icon r = Some expanded ∨ icon r = Some collapsed)) as [Hi|Hi].
  - rewrite (click_toggles _ _ false f k (plain r)) by done. simpl.
    destruct (toggled_icon expanded collapsed t f k (plain r)) as (r' & Hk' & Hr' & Hi'); try done.
    rewrite (click_toggles _ _ false _ k r') by (done || by apply wf_forest_toggle).
    simpl. f_equal. f_equal. rewrite (map_map (toggle_in _ _ t)). apply map_id_Forall.
    destruct Hwf as [Hf _]. clear -Hf Hs Hd Hne.
    induction f; decompose_Forall_hyps; constructor; eauto using toggle_in_twice.
  - unfold click. rewrite Hp. simpl. by rewrite !decide_False, Hp, !decide_False by naive_solver.
Qed.

End Properties.

(** [update_colors] on a table with the [alternate-color] class paints the
    displayed rows white and blue in turn, starting with white, and leaves the
    hidden rows alone. *)
Theorem update_colors_alternates rows i r :
  filter (λ r, visible r = true) (update_colors true rows) !! i = Some r →
  background r = Some (if Nat.even i then "white" else "#f0fcfe") ∧
  filter (λ r, visible r = false) (update_colors true rows) =
  filter (λ r, visible r = false) rows.
Proof.
  intros Hi. split.
  - unfold update_colors in Hi. assert (∀ rows b i,
      filter (λ r, visible r = true) (update_colors_from b rows) !! i = Some r →
      background r = Some (if xorb b (Nat.even i) then "white" else "#f0fcfe")) as Hgen.
    { clear. intros rows. induction rows as [|q rows IH]; intros b i; simpl; [done|].
      destruct (visible q) eqn:Hq.
      - rewrite filter_cons_True by done. destruct i as [|i].
        + intros [= <-]. simpl. by destruct b.
        + intros Hi%IH. rewrite Hi, Nat.even_succ, <-Nat.negb_even. by destruct b, (Nat.even i).
      - rewrite filter_cons_False by (simpl; congruence). apply IH. }
    apply Hgen in Hi. by destruct (Nat.even i).
  - enough (∀ b, filter (λ r, visible r = false) (update_colors_from b rows) =
                 filter (λ r, visible r = false) rows) as Hgen by apply Hgen.
    clear. induction rows as [|q rows IH]; intros b; simpl; [done|].
    destruct (visible q) eqn:Hq; [rewrite !filter_cons_False by (simpl; congruence)
                                 |rewrite !filter_cons_True by done]; by rewrite ?IH.
Qed.

(** ** Witnesses: a preset directory with two jobs, one of them with a decision *)

Definition opened : list string := ["folder"; "open"; "link"; "violet"; "icon"].
Definition closed : list string := ["folder"; "link"; "violet"; "icon"].
Definition demo_row (c : list string) (i : list string) (v : bool) : row :=
  Row c (Some i) None (Some 0%Z) v None.
Definition demo : list node :=
  [Node "p1" (demo_row ["treegrid-p1"] opened true)
     [Node "j1" (demo_row ["treegrid-j1"; "treegrid-parent-p1"] closed true)
        [Node "d1" (demo_row ["treegrid-d1"; "treegrid-parent-j1"] [] false) []];
      Node "j2" (demo_row ["treegrid-j2"; "treegrid-parent-p1"] closed true) []];
   Node "p2" (demo_row ["treegrid-p2"] closed true) []].

Lemma demo_wf : wf_forest demo.
Proof.
  split; [|by apply (bool_decide_unpack _)].
  repeat (constructor; try done).
Qed.

Lemma demo_ok : table_ok opened (concat (map flatten demo)).
Proof.
  exists demo. split; [exact demo_wf|]. split; [|done]. repeat (constructor; try done).
Qed.

(** Collapsing [p1] hides its two jobs; the handler then paints the two root rows. *)
Example demo_click :
  map (λ r, (visible r, background r)) (click true opened closed 0 "p1" (concat (map flatten demo)))
  = [(true, Some "white"); (false, None); (false, None); (false, None); (true, Some "#f0fcfe")].
Proof. reflexivity. Qed.

Lemma click_keeps_table_ok_witness :
  table_ok opened (click true opened closed 0 "p1" (concat (map flatten demo))).
Proof.
  eapply (click_keeps_table_ok opened closed); [discriminate|exact demo_ok|reflexivity..].
Defined.

Lemma click_twice_restores_witness :
  map plain (click true opened closed 1 "j1"
    (click true opened closed 1 "j1" (concat (map flatten demo))))
  = map plain (concat (map flatten demo)).
Proof.
  eapply (click_twice_restores opened closed); [discriminate|exact demo_ok|reflexivity..].
Defined.

Lemma update_colors_alternates_witness :
  background (demo_row [] [] true) = None ∧
  ∃ r, filter (λ r, visible r = true) (update_colors true (concat (map flatten demo))) !! 3 = Some r ∧
    background r = Some "#f0fcfe".
Proof.
  split; [reflexivity|]. eexists. split; [reflexivity|].
  refine (proj1 (update_colors_alternates (concat (map flatten demo)) 3 _ _)). reflexivity.
Defined.

End TreeTable.
