(* ===== verification/Url.v ===== *)
(** * URLs, query parameters and message templates

    The string functions of bridge.js: query parameters in URLs, their encoding, the
    templates of messages, names of files. Strings are lists of bytes, those of the
    UTF-8 encoding of the JavaScript string. *)

From Stdlib Require Import Ascii.
From stdpp Require Import pretty.
From S2P Require Import Prelude.

Module Url.

Abbreviation jstr := (list ascii).
Definition str (s : string) : jstr := String.list_ascii_of_string s.
#[global] Arguments str : simpl never.

(** ** String functions of the language *)

(** [s] without the prefix [p]. *)
Fixpoint strip (p s : jstr) : option jstr :=
  match p, s with
  | [], _ => Some s
  | a :: p, b :: s => if decide (a = b) then strip p s else None
  | _, [] => None
  end.

(** The first occurrence of [p]: what is before and what is after it. *)
Fixpoint find_sub (p s : jstr) : option (jstr * jstr) :=
  match strip p s with
  | Some t => Some ([], t)
  | None => match s with
            | [] => None
            | a :: s => (λ r, (a :: r.1, r.2)) <$> find_sub p s
            end
  end.

Definition has_sub (p s : jstr) : bool := bool_decide (is_Some (find_sub p s)).

(** The longest prefix that satisfies [P], and the rest. *)
Fixpoint span (P : ascii → bool) (s : jstr) : jstr * jstr :=
  match s with
  | [] => ([], [])
  | a :: s' => if P a then (a :: (span P s').1, (span P s').2) else ([], s)
  end.

(** [s.split(c)] *)
Fixpoint split (c : ascii) (s : jstr) : list jstr :=
  match s with
  | [] => [[]]
  | a :: s => if decide (a = c) then [] :: split c s
              else match split c s with
                   | [] => [[a]]
                   | w :: ws => (a :: w) :: ws
                   end
  end.

(** [ss.join(c)] *)
Fixpoint join (c : jstr) (ss : list jstr) : jstr :=
  match ss with
  | [] => []
  | [s] => s
  | s :: ss => s ++ c ++ join c ss
  end.

(** [encodeURIComponent]: letters, digits and [-_.!~*'()] stay, other bytes become
    [%XX]. *)
Definition unreserved (a : ascii) : bool :=
  let n := nat_of_ascii a in
  bool_decide (48 ≤ n ≤ 57) || bool_decide (65 ≤ n ≤ 90) || bool_decide (97 ≤ n ≤ 122)
  || js_includes a (str "-_.!~*'()").

Definition hex_digit (n : nat) : ascii := ascii_of_nat (if decide (n < 10) then 48 + n else 55 + n).
Definition hex_value (a : ascii) : option nat :=
  let n := nat_of_ascii a in
  if decide (48 ≤ n ≤ 57) then Some (n - 48)
  else if decide (65 ≤ n ≤ 70) then Some (n - 55)
  else if decide (97 ≤ n ≤ 102) then Some (n - 87) else None.

Definition encode_byte (a : ascii) : jstr :=
  if unreserved a then [a]
  else ["%"%char; hex_digit (nat_of_ascii a / 16); hex_digit (nat_of_ascii a mod 16)].
Definition encodeURIComponent (s : jstr) : jstr := concat (map encode_byte s).

(** [decodeURIComponent]; [None] is the URIError of a malformed escape. *)
Fixpoint decodeURIComponent (s : jstr) : option jstr :=
  match s with
  | [] => Some []
  | a :: s =>
      if decide (a = "%"%char) then
        match s with
        | h :: l :: s =>
            h ← hex_value h; l ← hex_value l; t ← decodeURIComponent s;
            Some (ascii_of_nat (16 * h + l) :: t)
        | _ => None
        end
      else cons a <$> decodeURIComponent s
  end.

(** ** bridge.js *)

Definition csrfSafeMethod (method : jstr) : bool :=
  js_includes method [str "GET"; str "HEAD"; str "OPTIONS"; str "TRACE"].

(** [isASCII(str)]: no byte above 0x7F. *)
Definition isASCII (s : jstr) : bool := forallb (λ a, bool_decide (nat_of_ascii a ≤ 127)) s.

Definition encodeQueryData (data : list (jstr * jstr)) : jstr :=
  join (str "&") (map (λ kv, join (str "=") (map encodeURIComponent [kv.1; kv.2])) data).

(** [getFileExtension(name)]: what follows the last dot. *)
Definition getFileExtension (name : jstr) : jstr :=
  match split "."%char name with
  | [] | [_] => []
  | ws => List.last ws []
  end.

Definition readable_extensions : list jstr :=
  map str ["txt"; "json"; "xml"; "c"; "aspect"; "i"; "h"; "tmpl"; "python"; "yml"]%string.
Definition isFileReadable (name : jstr) : bool :=
  js_includes (getFileExtension name) readable_extensions || bool_decide (name = str "README").

(** [window.location.search] of a URL: from the first question mark on, without the
    fragment, and nothing when only the question mark is left. *)
Definition location_search (url : jstr) : jstr :=
  let before := (span (λ a, negb (bool_decide (a = "#"%char))) url).1 in
  match (span (λ a, negb (bool_decide (a = "?"%char))) before).2 with
  | [] | [_] => []
  | q => q
  end.

(** [getUrlParameter(sParam)] on a page with the given URL. *)
Inductive parameter := Absent | Present | Value (v : jstr) | URIError.

Fixpoint getUrlParameter_from (sParam : jstr) (vars : list jstr) : parameter :=
  match vars with
  | [] => Absent
  | v :: vars =>
      let parts := split "="%char v in
      if decide (parts !! 0 = Some sParam) then
        match parts !! 1 with
        | None => Present
        | Some x => match decodeURIComponent x with Some y => Value y | None => URIError end
        end
      else getUrlParameter_from sParam vars
  end.
Definition getUrlParameter (sParam url : jstr) : parameter :=
  getUrlParameter_from sParam (split "&"%char (drop 1 (location_search url))).

Definition not_amp (a : ascii) : bool := negb (bool_decide (a = "&"%char)).

(** One parameter of [get_url_with_get_parameters]. *)
Definition set_parameter (url : jstr) (kv : jstr * jstr) : jstr :=
  let key := kv.1 ++ str "=" in
  match find_sub key url with
  | Some (before, after) => before ++ key ++ kv.2 ++ (span not_amp after).2
  | None => if has_sub (str "?") url then url ++ str "&" ++ key ++ kv.2
            else url ++ str "?" ++ key ++ kv.2
  end.
Definition get_url_with_get_parameters (url : jstr) (params : list (jstr * jstr)) : jstr :=
  foldl set_parameter url params.

(** [url.replace(/(key=).*?(&|$)/, '')], when the URL has the parameter. *)
Definition clear_parameter (url : jstr) (get_param : jstr) : jstr :=
  match find_sub (get_param ++ str "=") url with
  | Some (before, after) => before ++ drop 1 (span not_amp after).2
  | None => url
  end.
Definition view_parameters : list jstr := map str ["page"; "view"; "view_id"; "view_type"]%string.
Definition clear_query_params (url : jstr) : jstr :=
  let url := foldl clear_parameter url view_parameters in
  if has_sub (str "?") url then
    match last url with
    | Some c => if decide (c ≠ "&"%char ∧ c ≠ "?"%char) then url ++ str "&" else url
    | None => url ++ str "&"
    end
  else url ++ str "?".

(** [format]: the placeholders [{n}] with a decimal [n]; a missing or empty argument
    leaves the placeholder. *)
Definition is_digit (a : ascii) : bool := bool_decide (48 ≤ nat_of_ascii a ≤ 57).

Definition argument (args : list jstr) (n : jstr) : option jstr :=
  match list_find (λ i, str (pretty i) = n) (seq 0 (length args)) with
  | Some (_, i) => match args !! i with Some [] | None => None | a => a end
  | None => None
  end.

Fixpoint format_from (n : nat) (args : list jstr) (s : jstr) : jstr :=
  match n, s with
  | S n, a :: s =>
      let '(digits, rest) := span is_digit s in
      match rest with
      | b :: rest =>
          if decide (a = "{"%char ∧ digits ≠ [] ∧ b = "}"%char)
          then default ([a] ++ digits ++ [b]) (argument args digits) ++ format_from n args rest
          else a :: format_from n args s
      | [] => a :: format_from n args s
      end
  | _, _ => s
  end.
Definition format (s : jstr) (args : list jstr) : jstr := format_from (length s) args s.

(** ** Lemmas on the string functions *)

Lemma strip_Some p s t : strip p s = Some t ↔ s = p ++ t.
Proof.
  revert s. induction p as [|a p IH]; intros s; simpl; [naive_solver|].
  destruct s as [|b s]; [naive_solver|]. case_decide; [subst; rewrite IH; naive_solver|naive_solver].
Qed.

Lemma strip_None p s : strip p s = None ↔ ∀ t, s ≠ p ++ t.
Proof.
  split.
  - intros Hn t ->. by rewrite (proj2 (strip_Some p (p ++ t) t)) in Hn.
  - intros Hn. destruct (strip p s) as [t|] eqn:Hs; [|done]. apply strip_Some in Hs. by destruct (Hn t).
Qed.

Lemma span_app P w c s :
  Forall (λ a, P a = true) w → P c = false → span P (w ++ c :: s) = (w, c :: s).
Proof. intros Hw Hc. induction Hw as [|a w Ha _ IH]; simpl; [by rewrite Hc|]. by rewrite Ha, IH. Qed.

Lemma span_all P w : Forall (λ a, P a = true) w → span P w = (w, []).
Proof. intros Hw. induction Hw as [|a w Ha _ IH]; simpl; [done|]. by rewrite Ha, IH. Qed.

Lemma find_sub_cons p a s :
  (∀ t, a :: s ≠ p ++ t) → find_sub p (a :: s) = (λ r, (a :: r.1, r.2)) <$> find_sub p s.
Proof. intros Hn%strip_None. simpl. by rewrite Hn. Qed.

(** [find_sub] gives the text around an occurrence, and there is none before it. *)
Lemma find_sub_Some p s b t : find_sub p s = Some (b, t) → s = b ++ p ++ t.
Proof.
  revert b. induction s as [|a s IH]; intros b; simpl; destruct (strip p _) as [u|] eqn:Hs; try done.
  - intros [= <- <-]. by apply strip_Some in Hs.
  - intros [= <- <-]. by apply strip_Some in Hs.
  - destruct (find_sub p s) as [[b' t']|] eqn:Hf; [|done]. intros [= <- <-]. simpl. f_equal. by apply IH.
Qed.

Lemma find_sub_None p s : find_sub p s = None ↔ ∀ b t, s ≠ b ++ p ++ t.
Proof.
  split.
  - intros Hn b. revert s Hn. induction b as [|a b IH]; intros s Hn t ->; simpl in Hn.
    + destruct (p ++ t) eqn:E; simpl in Hn; rewrite <-E in *;
        by rewrite (proj2 (strip_Some p (p ++ t) t)) in Hn.
    + destruct (strip p _); [done|]. destruct (find_sub p (b ++ p ++ t)) eqn:Hf; [done|].
      by apply (IH (b ++ p ++ t) Hf t).
  - intros Hn. destruct (find_sub p s) as [[b t]|] eqn:Hf; [|done].
    apply find_sub_Some in Hf. by destruct (Hn b t).
Qed.

(** ** Clean URLs *)

(** The characters that structure a query, and the one that ends it. *)
Definition special (a : ascii) : bool :=
  bool_decide (a = "?"%char) || bool_decide (a = "&"%char) || bool_decide (a = "="%char) || bool_decide (a = "#"%char).
Definition plain (w : jstr) : Prop := Forall (λ a, special a = false) w.

(** A query, with and without a separator after the last parameter. *)
Definition pair (kv : jstr * jstr) : jstr := kv.1 ++ ["="%char] ++ kv.2.
Definition pairs (ps : list (jstr * jstr)) : jstr := concat (map (λ kv, pair kv ++ ["&"%char]) ps).
Definition body (ps : list (jstr * jstr)) : jstr := join ["&"%char] (map pair ps).
Definition print (base : jstr) (ps : list (jstr * jstr)) : jstr :=
  match ps with [] => base | _ => base ++ ["?"%char] ++ body ps end.

Definition clean (ps : list (jstr * jstr)) : Prop := Forall (λ kv, plain kv.1 ∧ plain kv.2) ps.

(** No parameter has a longer name that ends in [k]. *)
Definition unambiguous (k : jstr) (ps : list (jstr * jstr)) : Prop :=
  Forall (λ kv, k `suffix_of` kv.1 → kv.1 = k) ps.

Lemma body_cons kv ps : ps ≠ [] → body (kv :: ps) = pair kv ++ ["&"%char] ++ body ps.
Proof. by destruct ps. Qed.

Lemma body_snoc_pairs p1 kv p2 :
  body (p1 ++ kv :: p2) = pairs p1 ++ pair kv ++ match p2 with [] => [] | _ => ["&"%char] ++ body p2 end.
Proof.
  induction p1 as [|x p1 IH]; simpl app.
  - destruct p2; [unfold body; simpl; by rewrite app_nil_r|by rewrite body_cons].
  - rewrite body_cons by by destruct p1. rewrite IH. unfold pairs. simpl. by rewrite <-!app_assoc.
Qed.

Lemma pairs_cons k v ps s :
  pairs ((k, v) :: ps) ++ s = k ++ "="%char :: v ++ "&"%char :: pairs ps ++ s.
Proof. unfold pairs, pair. simpl. by rewrite <-!app_assoc. Qed.

Lemma pairs_app p1 p2 : pairs (p1 ++ p2) = pairs p1 ++ pairs p2.
Proof. unfold pairs. by rewrite map_app, concat_app. Qed.

Lemma pairs_snoc ps kv : pairs (ps ++ [kv]) = (pairs ps ++ pair kv) ++ ["&"%char].
Proof. unfold pairs. rewrite map_app, concat_app. cbn [map concat]. by rewrite app_nil_r, app_assoc. Qed.

Lemma plain_span w c s :
  plain w → special c = true → span (λ a, negb (special a)) (w ++ c :: s) = (w, c :: s).
Proof.
  intros Hw Hc. apply span_app; [|by rewrite Hc].
  eapply Forall_impl; [exact Hw|]. intros a Ha. simpl in Ha. by rewrite Ha.
Qed.

Lemma plain_split w c s w' c' s' :
  plain w → plain w' → special c = true → special c' = true →
  w ++ c :: s = w' ++ c' :: s' → w = w' ∧ c = c' ∧ s = s'.
Proof.
  intros Hw Hw' Hc Hc' E. pose proof (plain_span w c s Hw Hc) as H1. rewrite E in H1.
  rewrite plain_span in H1 by done. by simplify_eq.
Qed.

Lemma plain_no_special w c : plain w → special c = true → c ∉ w.
Proof. intros Hw Hc Hin. eapply Forall_forall in Hw; [|exact Hin]. simpl in Hw. congruence. Qed.

(** Where the search for [k=] passes over a piece of a URL. *)
Lemma find_sub_prefix p w s :
  (∀ w1 w2 t, w = w1 ++ w2 → w2 ≠ [] → w2 ++ s ≠ p ++ t) →
  find_sub p (w ++ s) = (λ r, (w ++ r.1, r.2)) <$> find_sub p s.
Proof.
  induction w as [|a w IH]; intros Hn; simpl app.
  - by destruct (find_sub p s) as [[]|].
  - rewrite find_sub_cons by (intros t; by apply (Hn [] (a :: w) t)).
    rewrite IH by (intros w1 w2 t ->; by apply (Hn (a :: w1) w2 t)).
    by destruct (find_sub p s).
Qed.

Lemma find_past_value k w c s :
  plain k → plain w → special c = true → c ≠ "="%char →
  find_sub (k ++ str "=") (w ++ c :: s) =
  (λ r, (w ++ [c] ++ r.1, r.2)) <$> find_sub (k ++ str "=") s.
Proof.
  intros Hk Hw Hc Hne. change (w ++ c :: s) with (w ++ [c] ++ s). rewrite app_assoc.
  rewrite find_sub_prefix; [by destruct (find_sub _ s) as [[]|]; simpl; rewrite <-?app_assoc|].
  intros w1 w2 t Hw2 Hne2 E. rewrite <-app_assoc in E. simpl in E.
  destruct (exists_last Hne2) as (w3 & x & ->). rewrite app_assoc in Hw2. apply app_inj_tail in Hw2 as [-> <-].
  apply Forall_app in Hw as [_ Hw]. rewrite <-app_assoc in E. simpl in E.
  apply plain_split in E as (_ & ? & _); done.
Qed.

Lemma find_past_key k w s :
  plain k → plain w → ¬ k `suffix_of` w →
  find_sub (k ++ str "=") (w ++ "="%char :: s) =
  (λ r, (w ++ ["="%char] ++ r.1, r.2)) <$> find_sub (k ++ str "=") s.
Proof.
  intros Hk Hw Hn. change (w ++ "="%char :: s) with (w ++ ["="%char] ++ s). rewrite app_assoc.
  rewrite find_sub_prefix; [by destruct (find_sub _ s) as [[]|]; simpl; rewrite <-?app_assoc|].
  intros w1 w2 t Hw2 Hne2 E. rewrite <-app_assoc in E. simpl in E.
  destruct (exists_last Hne2) as (w3 & x & ->). rewrite app_assoc in Hw2. apply app_inj_tail in Hw2 as [-> <-].
  apply Forall_app in Hw as [_ Hw]. rewrite <-app_assoc in E. simpl in E.
  apply plain_split in E as (-> & _ & _); try done. apply Hn. by exists w1.
Qed.

Lemma find_at_key k s : find_sub (k ++ str "=") (k ++ "="%char :: s) = Some ([], s).
Proof.
  assert (strip (k ++ str "=") (k ++ "="%char :: s) = Some s) as Hs
    by (apply strip_Some; by rewrite <-app_assoc).
  destruct (k ++ "="%char :: s) eqn:E; [by destruct k|]. cbn [find_sub]. by rewrite Hs.
Qed.

Lemma find_in_plain k w : plain w → find_sub (k ++ str "=") w = None.
Proof.
  intros Hw. apply find_sub_None. intros b t ->. unfold plain in Hw. rewrite !Forall_app in Hw.
  destruct Hw as (_ & [_ Hw] & _). by inversion Hw.
Qed.

Lemma find_past_pairs k ps s :
  plain k → clean ps → Forall (λ kv, ¬ k `suffix_of` kv.1) ps →
  find_sub (k ++ str "=") (pairs ps ++ s) =
  (λ r, (pairs ps ++ r.1, r.2)) <$> find_sub (k ++ str "=") s.
Proof.
  intros Hk Hps Hs. induction Hps as [|[k' v'] ps [Hk' Hv'] _ IH].
  - simpl. by destruct (find_sub _ s) as [[]|].
  - inversion Hs as [|? ? Hn Hs']; subst. simpl in *.
    rewrite pairs_cons, find_past_key, find_past_value, IH by done.
    destruct (find_sub (k ++ str "=") s) as [[]|]; [|done]. simpl. by rewrite pairs_cons.
Qed.

(** The search in a whole query, when the parameter is there and when it is not. *)
Lemma find_in_body k p1 v p2 :
  plain k → clean p1 → Forall (λ kv, ¬ k `suffix_of` kv.1) p1 →
  find_sub (k ++ str "=") (body (p1 ++ (k, v) :: p2)) =
  Some (pairs p1, v ++ match p2 with [] => [] | _ => ["&"%char] ++ body p2 end).
Proof.
  intros Hk Hc Hn. rewrite body_snoc_pairs, find_past_pairs by done. unfold pair. simpl.
  rewrite <-app_assoc. simpl. rewrite find_at_key. simpl. by rewrite app_nil_r.
Qed.

Lemma find_not_in_body k ps :
  plain k → clean ps → Forall (λ kv, ¬ k `suffix_of` kv.1) ps →
  find_sub (k ++ str "=") (body ps) = None.
Proof.
  intros Hk. destruct ps as [|x ps] using rev_ind; intros Hc Hn; [apply (find_in_plain k []); constructor|].
  apply Forall_app in Hc as [Hc Hx], Hn as [Hn Hnx]. clear IHps.
  rewrite body_snoc_pairs, app_nil_r, find_past_pairs by done.
  inversion Hx as [|? ? [Hk' Hv'] _]; inversion Hnx; subst. unfold pair. simpl.
  rewrite find_past_key, find_in_plain by done. done.
Qed.

Lemma find_in_base k base s :
  plain k → plain base →
  find_sub (k ++ str "=") (base ++ ["?"%char] ++ s) =
  (λ r, (base ++ ["?"%char] ++ r.1, r.2)) <$> find_sub (k ++ str "=") s.
Proof. intros. simpl. by rewrite find_past_value. Qed.

(** The first parameter with a name. *)
Lemma split_at_key k (ps : list (jstr * jstr)) :
  unambiguous k ps →
  (∃ p1 v p2, ps = p1 ++ (k, v) :: p2 ∧ Forall (λ kv, ¬ k `suffix_of` kv.1) p1) ∨
  Forall (λ kv, ¬ k `suffix_of` kv.1) ps.
Proof.
  induction 1 as [|[k' v'] ps Hk _ IH]; [by right|]. simpl in Hk.
  destruct (decide (k = k')) as [->|Hne]; [left; by exists [], v', ps|].
  assert (¬ k `suffix_of` k') as Hns by naive_solver.
  destruct IH as [(p1 & v & p2 & -> & Hp1)|Hps]; [|right; by constructor].
  left. exists ((k', v') :: p1), v, p2. split; [done|]. by constructor.
Qed.

(** ** Setting parameters *)

Fixpoint set_param (k v : jstr) (ps : list (jstr * jstr)) : list (jstr * jstr) :=
  match ps with
  | [] => [(k, v)]
  | (k', v') :: ps => if decide (k' = k) then (k, v) :: ps else (k', v') :: set_param k v ps
  end.

Lemma not_suffix_ne k ps : Forall (λ kv : jstr * jstr, ¬ k `suffix_of` kv.1) ps → Forall (λ kv, kv.1 ≠ k) ps.
Proof. intros H. eapply Forall_impl; [exact H|]. intros [k' v'] Hn E. apply Hn. by rewrite E. Qed.

Lemma set_param_in k v p1 v0 p2 :
  Forall (λ kv : jstr * jstr, kv.1 ≠ k) p1 → set_param k v (p1 ++ (k, v0) :: p2) = p1 ++ (k, v) :: p2.
Proof.
  induction 1 as [|[k' v'] p1 Hne _ IH]; simpl; [by rewrite decide_True|].
  rewrite decide_False by done. by f_equal.
Qed.

Lemma set_param_new k v ps : Forall (λ kv : jstr * jstr, kv.1 ≠ k) ps → set_param k v ps = ps ++ [(k, v)].
Proof.
  induction 1 as [|[k' v'] ps Hne _ IH]; simpl; [done|].
  rewrite decide_False by done. by f_equal.
Qed.

Lemma has_sub_true p s b t : s = b ++ p ++ t → has_sub p s = true.
Proof.
  intros E. apply bool_decide_eq_true. destruct (find_sub p s) eqn:Hf; [done|].
  by destruct (proj1 (find_sub_None p s) Hf b t).
Qed.

Lemma has_question base ps : plain base → has_sub (str "?") (print base ps) = bool_decide (ps ≠ []).
Proof.
  intros Hb. destruct ps as [|kv ps].
  - simpl. apply bool_decide_eq_false. rewrite <-eq_None_not_Some. apply find_sub_None.
    intros b t ->. unfold plain in Hb. rewrite !Forall_app in Hb. destruct Hb as (_ & Hb & _). inversion Hb. done.
  - rewrite (bool_decide_true (_ ≠ [])) by done. by apply (has_sub_true _ _ base (body (kv :: ps))).
Qed.

Lemma body_snoc ps kv : ps ≠ [] → body (ps ++ [kv]) = body ps ++ ["&"%char] ++ pair kv.
Proof.
  intros Hne. induction ps as [|x ps IH]; [done|]. simpl app. rewrite body_cons by by destruct ps.
  destruct ps as [|y ps]; [done|]. rewrite IH, (body_cons x) by done. by rewrite <-!app_assoc.
Qed.

Lemma span_value v rest :
  plain v → rest = [] ∨ (∃ s, rest = "&"%char :: s) → (span not_amp (v ++ rest)).2 = rest.
Proof.
  intros Hv Hr. assert (Forall (λ a, not_amp a = true) v) as Hv'.
  { eapply Forall_impl; [exact Hv|]. intros a Ha. simpl in Ha. unfold special in Ha. unfold not_amp.
    destruct (bool_decide (a = "&"%char)); [|done]. by rewrite orb_true_r in Ha. }
  destruct Hr as [-> |[s ->]]; [by rewrite app_nil_r, span_all|by rewrite span_app].
Qed.

Lemma set_parameter_print base ps k v :
  plain base → plain k → clean ps → unambiguous k ps →
  set_parameter (print base ps) (k, v) = print base (set_param k v ps).
Proof.
  intros Hb Hk Hc Hu. unfold set_parameter. cbn [fst snd].
  destruct (split_at_key k ps Hu) as [(p1 & v0 & p2 & -> & Hn)|Hn].
  - apply Forall_app in Hc as [Hc1 Hc2]. inversion Hc2 as [|? ? [_ Hv0] _]; subst. simpl in Hv0.
    rewrite set_param_in by by apply not_suffix_ne. unfold print at 1.
    destruct (p1 ++ (k, v0) :: p2) eqn:E; [by destruct p1|]. rewrite <-E.
    rewrite find_in_base, find_in_body by done. cbn [fmap option_fmap option_map fst snd].
    rewrite span_value by (done || destruct p2; eauto). unfold print.
    destruct (p1 ++ (k, v) :: p2) eqn:E'; [by destruct p1|]. rewrite <-E', body_snoc_pairs.
    unfold pair. cbn [fst snd]. by rewrite <-!app_assoc.
  - rewrite set_param_new by by apply not_suffix_ne. rewrite has_question by done.
    assert (find_sub (k ++ str "=") (print base ps) = None) as ->.
    { destruct ps as [|x ps]; [by apply find_in_plain|]. unfold print.
      by rewrite find_in_base, find_not_in_body. }
    destruct ps as [|x ps]; 
      [rewrite bool_decide_false by naive_solver; simpl; by rewrite <-!app_assoc|].
    rewrite bool_decide_true by done. unfold print.
    destruct ((x :: ps) ++ [(k, v)]) eqn:E; [done|]. rewrite <-E, body_snoc by done.
    unfold pair. cbn [fst snd]. by rewrite <-!app_assoc.
Qed.

Lemma set_param_keys k v ps kv : kv ∈ set_param k v ps → kv = (k, v) ∨ kv ∈ ps.
Proof.
  induction ps as [|[k' v'] ps IH]; simpl; [by intros ->%list_elem_of_singleton; left|].
  case_decide; rewrite !elem_of_cons; intuition.
Qed.

(** No name of a parameter ends in the name of another one. *)
Definition distinguishable (ks : list jstr) : Prop :=
  ∀ k k', k ∈ ks → k' ∈ ks → k `suffix_of` k' → k = k'.

Lemma distinguishable_check ks :
  bool_decide (Forall (λ k, Forall (λ k', k `suffix_of` k' → k = k') ks) ks) = true → distinguishable ks.
Proof.
  rewrite bool_decide_eq_true, Forall_forall. intros H k k' Hk Hk'. specialize (H k Hk).
  rewrite Forall_forall in H. by apply H.
Qed.

(** Setting parameters of a clean URL gives the URL with exactly these parameters
    changed: each gets its new value in place, those that are not there are appended, and
    the separators are right in all cases. *)
Theorem get_url_sets_parameters base ps params :
  plain base → clean ps → clean params → distinguishable (map fst ps ++ map fst params) →
  get_url_with_get_parameters (print base ps) params =
  print base (foldl (λ ps kv, set_param kv.1 kv.2 ps) ps params).
Proof.
  intros Hb. revert ps. induction params as [|[k v] params IH]; intros ps Hc Hp Hd; [done|].
  unfold get_url_with_get_parameters. simpl. inversion Hp as [|? ? [Hk Hv] Hp']; subst. simpl in *.
  rewrite set_parameter_print; [|done..|].
  - apply IH; [|done|].
    + apply Forall_forall. intros kv [-> |Hkv]%set_param_keys; [done|].
      by apply (proj1 (Forall_forall _ _) Hc).
    + intros k1 k2 H1 H2. apply Hd.
      * apply elem_of_app in H1 as [H1|H1]; rewrite elem_of_app, elem_of_cons; [|by right; right].
        apply list_elem_of_fmap in H1 as (kv & -> & [-> |Hkv]%set_param_keys); [by right; left|].
        left. apply list_elem_of_fmap. by exists kv.
      * apply elem_of_app in H2 as [H2|H2]; rewrite elem_of_app, elem_of_cons; [|by right; right].
        apply list_elem_of_fmap in H2 as (kv & -> & [-> |Hkv]%set_param_keys); [by right; left|].
        left. apply list_elem_of_fmap. by exists kv.
  - apply Forall_forall. intros kv Hkv Hs. symmetry. apply Hd; [|by apply elem_of_app; left; apply list_elem_of_fmap_2|done].
    rewrite elem_of_app, elem_of_cons. by right; left.
Qed.

Lemma get_url_sets_parameters_witness :
  get_url_with_get_parameters (str "/jobs/?page=3&sort=date") [(str "page", str "1"); (str "view", str "7")] =
  str "/jobs/?page=1&sort=date&view=7".
Proof.
  apply (get_url_sets_parameters (str "/jobs/") [(str "page", str "3"); (str "sort", str "date")]
    [(str "page", str "1"); (str "view", str "7")]); try js_decide.
  apply distinguishable_check. vm_compute. reflexivity.
Defined.

(** ** Clearing parameters *)

(** A URL between the steps of [clear_query_params]: its query may end in a separator. *)
Definition print_open (open : bool) (base : jstr) (ps : list (jstr * jstr)) : jstr :=
  if open then base ++ ["?"%char] ++ pairs ps else print base ps.

Fixpoint remove_param (k : jstr) (ps : list (jstr * jstr)) : list (jstr * jstr) :=
  match ps with
  | [] => []
  | kv :: ps => if decide (kv.1 = k) then ps else kv :: remove_param k ps
  end.

Lemma remove_param_in k p1 v p2 :
  Forall (λ kv : jstr * jstr, kv.1 ≠ k) p1 → remove_param k (p1 ++ (k, v) :: p2) = p1 ++ p2.
Proof.
  induction 1 as [|kv p1 Hne _ IH]; simpl; [by rewrite decide_True|].
  rewrite decide_False by done. by f_equal.
Qed.

Lemma remove_param_none k ps : Forall (λ kv : jstr * jstr, kv.1 ≠ k) ps → remove_param k ps = ps.
Proof.
  induction 1 as [|kv ps Hne _ IH]; simpl; [done|]. rewrite decide_False by done. by f_equal.
Qed.

Lemma body_app p1 p2 : p2 ≠ [] → body (p1 ++ p2) = pairs p1 ++ body p2.
Proof.
  induction p1 as [|x p1 IH]; intros Hne; simpl app; [done|].
  rewrite body_cons, IH by (done || by destruct p1). unfold pairs. simpl. by rewrite <-!app_assoc.
Qed.

Lemma clear_parameter_none k open base ps :
  plain base → plain k → clean ps → Forall (λ kv, ¬ k `suffix_of` kv.1) ps →
  clear_parameter (print_open open base ps) k = print_open open base ps.
Proof.
  intros Hb Hk Hc Hn. unfold clear_parameter.
  assert (find_sub (k ++ str "=") (print_open open base ps) = None) as ->; [|done].
  unfold print_open. destruct open.
  - rewrite find_in_base by done. rewrite <-(app_nil_r (pairs ps)), find_past_pairs by done.
    rewrite (find_in_plain k []) by constructor. done.
  - destruct ps as [|x ps]; [by apply find_in_plain|]. unfold print.
    by rewrite find_in_base, find_not_in_body.
Qed.

Lemma clear_parameter_print k open base ps :
  plain base → plain k → clean ps → unambiguous k ps →
  ∃ open', clear_parameter (print_open open base ps) k = print_open open' base (remove_param k ps).
Proof.
  intros Hb Hk Hc Hu. destruct (split_at_key k ps Hu) as [(p1 & v & p2 & -> & Hn)|Hn].
  2: { exists open. by rewrite remove_param_none, clear_parameter_none by (done || by apply not_suffix_ne). }
  rewrite remove_param_in by by apply not_suffix_ne. unfold clear_parameter.
  apply Forall_app in Hc as [Hc1 Hc2]. inversion Hc2 as [|? ? [_ Hv] _]; subst. simpl in Hv.
  unfold print_open at 1. destruct open.
  - exists true. rewrite find_in_base by done.
    assert (find_sub (k ++ str "=") (pairs (p1 ++ (k, v) :: p2)) =
            Some (pairs p1, v ++ "&"%char :: pairs p2)) as ->.
    { rewrite pairs_app, find_past_pairs by done.
      rewrite <-(app_nil_r (pairs ((k, v) :: p2))), pairs_cons, find_at_key. simpl. by rewrite !app_nil_r. }
    cbn [fmap option_fmap option_map fst snd]. rewrite span_value by eauto. simpl.
    by rewrite pairs_app, <-!app_assoc.
  - unfold print. destruct (p1 ++ (k, v) :: p2) eqn:E; [by destruct p1|]. rewrite <-E.
    rewrite find_in_base, find_in_body by done. cbn [fmap option_fmap option_map fst snd].
    rewrite span_value by (done || destruct p2; eauto). destruct p2 as [|x p2].
    + exists true. simpl. by rewrite !app_nil_r.
    + exists false. unfold print_open, print. destruct (p1 ++ x :: p2) eqn:E'; [by destruct p1|].
      rewrite <-E', body_app by done. simpl. by rewrite <-!app_assoc.
Qed.

Lemma remove_param_sub k ps kv : kv ∈ remove_param k ps → kv ∈ ps.
Proof.
  induction ps as [|x ps IH]; simpl; [done|]. case_decide; rewrite !elem_of_cons; intuition.
Qed.

Lemma clear_parameters_print ks open base ps :
  plain base → clean ps → Forall plain ks → Forall (λ k, unambiguous k ps) ks →
  ∃ open', foldl clear_parameter (print_open open base ps) ks =
           print_open open' base (foldl (λ ps k, remove_param k ps) ps ks).
Proof.
  intros Hb. revert open ps. induction ks as [|k ks IH]; intros open ps Hc Hk Hu; simpl; [eauto|].
  inversion Hk; inversion Hu; subst.
  destruct (clear_parameter_print k open base ps) as [open' ->]; [done..|].
  apply IH; [|done|].
  - apply Forall_forall. intros kv Hkv%remove_param_sub. by apply (proj1 (Forall_forall _ _) Hc).
  - eapply Forall_impl; [eassumption|]. intros k' Hk'. apply Forall_forall.
    intros kv Hkv%remove_param_sub. by apply (proj1 (Forall_forall _ _) Hk').
Qed.

Lemma last_body ps c : clean ps → ps ≠ [] → last (body ps) = Some c → c ≠ "&"%char ∧ c ≠ "?"%char.
Proof.
  intros Hc. destruct ps as [|[k v] ps _] using rev_ind; [done|]. intros _.
  apply Forall_app in Hc as [_ Hc]. inversion Hc as [|? ? [_ Hv] _]; subst. simpl in Hv.
  assert (∃ w, body (ps ++ [(k, v)]) = w ++ "="%char :: v) as [w ->].
  { rewrite body_snoc_pairs, app_nil_r. unfold pair. simpl. exists (pairs ps ++ k). by rewrite <-!app_assoc. }
  destruct v as [|y v _] using rev_ind; [rewrite last_snoc; by intros [= <-]|].
  rewrite app_comm_cons, app_assoc, last_snoc. intros [= <-].
  apply Forall_app in Hv as [_ Hy]. inversion Hy as [|? ? Hs _]. by split; intros ->.
Qed.

Lemma body_pairs ps : ps ≠ [] → body ps ++ ["&"%char] = pairs ps.
Proof.
  intros Hne. destruct ps as [|kv ps _] using rev_ind; [done|].
  by rewrite body_snoc_pairs, pairs_snoc, app_nil_r.
Qed.

Lemma view_parameters_plain : Forall plain view_parameters.
Proof. repeat constructor. Qed.

Lemma clear_query_params_form base ps :
  plain base → clean ps → Forall (λ k, unambiguous k ps) view_parameters →
  clear_query_params (print base ps) =
  base ++ ["?"%char] ++ pairs (foldl (λ ps k, remove_param k ps) ps view_parameters).
Proof.
  intros Hb Hc Hu. unfold clear_query_params.
  destruct (clear_parameters_print view_parameters false base ps) as [open Ho];
    [done|done|apply view_parameters_plain|done|]. cbv zeta.
  change (print base ps) with (print_open false base ps). rewrite Ho.
  assert (clean (foldl (λ ps k, remove_param k ps) ps view_parameters)) as Hc'.
  { generalize view_parameters. intros ks. clear -Hc. revert ps Hc. induction ks as [|k ks IH]; intros ps Hc; simpl; [done|].
    apply IH, Forall_forall. intros kv Hkv%remove_param_sub. by apply (proj1 (Forall_forall _ _) Hc). }
  set (qs := foldl _ ps view_parameters) in *. clearbody qs. unfold print_open. destruct open.
  - rewrite (has_sub_true _ _ base (pairs qs)) by reflexivity. destruct qs as [|kv qs _] using rev_ind.
    + unfold pairs. simpl. rewrite last_snoc, decide_False by (by intros []). done.
    + assert (base ++ ["?"%char] ++ pairs (qs ++ [kv]) =
              (base ++ ["?"%char] ++ pairs qs ++ pair kv) ++ ["&"%char]) as E.
      { rewrite pairs_snoc, !app_assoc. done. }
      rewrite E, last_snoc, decide_False by (by intros []). done.
  - rewrite has_question by done. destruct qs as [|kv qs]; [by rewrite bool_decide_false by naive_solver|].
    rewrite bool_decide_true by done. unfold print.
    assert (body (kv :: qs) ≠ []) as Hne.
    { destruct kv as [[|] ?], qs; done. }
    destruct (exists_last Hne) as (w & c & Ew). rewrite !app_assoc.
    assert (last ((base ++ ["?"%char]) ++ body (kv :: qs)) = Some c) as Hl
      by by rewrite Ew, app_assoc, last_snoc.
    rewrite Hl. rewrite decide_True; [rewrite <-app_assoc; f_equal; by apply body_pairs|].
    apply (last_body (kv :: qs)); [done..|]. by rewrite Ew, last_snoc.
Qed.

(** Clearing the parameters of a view from a clean URL removes the first parameter of
    each of the four names, keeps all others in order, and leaves the query open for more
    parameters: it ends in [?] or [&]. *)
Theorem clear_query_params_print base ps :
  plain base → clean ps → Forall (λ k, unambiguous k ps) view_parameters →
  clear_query_params (print base ps) =
    base ++ ["?"%char] ++ pairs (foldl (λ ps k, remove_param k ps) ps view_parameters) ∧
  ∃ c, last (clear_query_params (print base ps)) = Some c ∧ (c = "?"%char ∨ c = "&"%char).
Proof.
  intros Hb Hc Hu. rewrite clear_query_params_form by done. split; [done|].
  destruct (foldl _ ps view_parameters) as [|kv qs _] using rev_ind.
  - exists "?"%char. split; [|by left]. unfold pairs. simpl. by rewrite last_snoc.
  - exists "&"%char. split; [|by right]. by rewrite pairs_snoc, !app_assoc, last_snoc.
Qed.

Lemma clear_query_params_print_witness :
  clear_query_params (str "/jobs/?page=3&sort=date&view=7") = str "/jobs/?sort=date&".
Proof.
  exact (proj1 (clear_query_params_print (str "/jobs/")
    [(str "page", str "3"); (str "sort", str "date"); (str "view", str "7")]
    ltac:(js_decide) ltac:(js_decide) ltac:(js_decide))).
Defined.

(** ** Encoding *)

Lemma split_nonempty c s : split c s ≠ [].
Proof. destruct s as [|a s]; simpl; [done|]. case_decide; [done|]. by destruct (split c s). Qed.

Lemma split_app c w s : c ∉ w → split c (w ++ c :: s) = w :: split c s.
Proof.
  induction w as [|a w IH]; intros Hc; simpl; [by rewrite decide_True|].
  apply not_elem_of_cons in Hc as [Hne Hc]. rewrite decide_False by done. by rewrite IH.
Qed.

Lemma split_none c w : c ∉ w → split c w = [w].
Proof.
  induction w as [|a w IH]; intros Hc; simpl; [done|].
  apply not_elem_of_cons in Hc as [Hne Hc]. rewrite decide_False by done. by rewrite IH.
Qed.

Lemma split_join c ws : ws ≠ [] → Forall (λ w, c ∉ w) ws → split c (join [c] ws) = ws.
Proof.
  induction ws as [|w ws IH]; intros Hne Hf; [done|]. inversion Hf; subst.
  destruct ws as [|w' ws]; [by apply split_none|].
  change (join [c] (w :: w' :: ws)) with (w ++ c :: join [c] (w' :: ws)).
  rewrite split_app, IH by done. done.
Qed.

(** A property of bytes is decided by trying all of them. *)
Lemma byte_check (P : ascii → Prop) `{∀ a, Decision (P a)} :
  forallb (λ a, bool_decide (P a)) (map ascii_of_nat (seq 0 256)) = true → ∀ a, P a.
Proof.
  intros HP a. eapply forallb_forall in HP; [by apply bool_decide_eq_true in HP|].
  apply in_map_iff. exists (nat_of_ascii a). split; [apply ascii_nat_embedding|].
  apply in_seq. pose proof (nat_ascii_bounded a). lia.
Qed.

(** The two digits of an escape give the byte back. *)
Definition escape_value (a : ascii) : option ascii :=
  h ← hex_value (hex_digit (nat_of_ascii a / 16));
  l ← hex_value (hex_digit (nat_of_ascii a mod 16)); Some (ascii_of_nat (16 * h + l)).

Lemma escape_value_eq : ∀ a, escape_value a = Some a.
Proof. apply byte_check with (H := λ a, decide (escape_value a = Some a)). vm_compute. reflexivity. Qed.

Lemma decode_byte a s : decodeURIComponent (encode_byte a ++ s) = cons a <$> decodeURIComponent s.
Proof.
  unfold encode_byte. destruct (unreserved a) eqn:Hu.
  - assert (a ≠ "%"%char) by by intros ->. simpl. by rewrite decide_False.
  - pose proof (escape_value_eq a) as Hb. unfold escape_value in Hb.
    cbn [app decodeURIComponent]. rewrite decide_True by done.
    destruct (hex_value (hex_digit (nat_of_ascii a / 16))) as [h|]; [|done].
    destruct (hex_value (hex_digit (nat_of_ascii a mod 16))) as [l|]; [|done].
    cbn [mbind option_bind] in *. apply (inj Some) in Hb. rewrite Hb.
    by destruct (decodeURIComponent s).
Qed.

Lemma encode_byte_plain : ∀ a, Forall (λ b, special b = false) (encode_byte a).
Proof.
  apply byte_check with (H := λ a, decide (Forall (λ b, special b = false) (encode_byte a))).
  vm_compute. reflexivity.
Qed.

Lemma encode_plain s : plain (encodeURIComponent s).
Proof.
  induction s as [|a s IH]; [constructor|]. apply Forall_app. split; [apply encode_byte_plain|done].
Qed.

(** C0: Decoding an encoded component gives it back; encoding never produces a character
    that structures a query. *)
Theorem decode_encode s :
  decodeURIComponent (encodeURIComponent s) = Some s ∧
  Forall (λ a, special a = false) (encodeURIComponent s).
Proof.
  split; [|apply encode_plain]. induction s as [|a s IH]; [done|].
  change (encodeURIComponent (a :: s)) with (encode_byte a ++ encodeURIComponent s).
  by rewrite decode_byte, IH.
Qed.

Lemma decode_encode_eq s : decodeURIComponent (encodeURIComponent s) = Some s.
Proof.
  induction s as [|a s IH]; [done|].
  change (encodeURIComponent (a :: s)) with (encode_byte a ++ encodeURIComponent s).
  by rewrite decode_byte, IH.
Qed.

(** Names that encoding does not change. *)
Definition simple_name (k : jstr) : Prop := k ≠ [] ∧ Forall (λ a, unreserved a = true) k.

Lemma encode_simple k : simple_name k → encodeURIComponent k = k.
Proof.
  intros [_ Hk]. induction Hk as [|a k Ha _ IH]; [done|].
  change (encodeURIComponent (a :: k)) with (encode_byte a ++ encodeURIComponent k).
  unfold encode_byte. by rewrite Ha, IH.
Qed.

Lemma simple_plain k : simple_name k → plain k.
Proof. intros Hk. pose proof (encode_plain k) as Hp. by rewrite encode_simple in Hp. Qed.

Lemma encodeQueryData_cons kv data :
  encodeQueryData (kv :: data) =
  join ["&"%char] (map (λ kv, encodeURIComponent kv.1 ++ "="%char :: encodeURIComponent kv.2) (kv :: data)).
Proof. done. Qed.

Definition lookup_first (k : jstr) (data : list (jstr * jstr)) : option jstr :=
  snd <$> find (λ kv, bool_decide (kv.1 = k)) data.

Lemma parameter_of_vars k data rest :
  Forall (λ kv, simple_name kv.1) data →
  getUrlParameter_from k
    (map (λ kv, encodeURIComponent kv.1 ++ "="%char :: encodeURIComponent kv.2) data ++ rest) =
  match lookup_first k data with Some v => Value v | None => getUrlParameter_from k rest end.
Proof.
  induction 1 as [|[k' v'] data Hk _ IH]; simpl; [done|]. simpl in Hk. unfold lookup_first. simpl.
  rewrite encode_simple by done.
  rewrite split_app by by apply plain_no_special; [apply simple_plain|].
  rewrite (split_none _ (encodeURIComponent v')) by by apply plain_no_special; [apply encode_plain|].
  simpl. destruct (decide (k' = k)) as [->|Hne].
  - rewrite decide_True, bool_decide_true by done. by rewrite decode_encode_eq.
  - rewrite decide_False, bool_decide_false by naive_solver. by rewrite IH.
Qed.

Lemma drop_question s : drop 1 (str "?" ++ s) = s.
Proof. done. Qed.

(** What a page reads as its query. *)
Lemma search_of_query base q :
  plain base → "#"%char ∉ q → drop 1 (location_search (base ++ "?"%char :: q)) = q.
Proof.
  intros Hb Hq. unfold location_search.
  assert (Forall (λ a, negb (bool_decide (a = "#"%char)) = true) (base ++ "?"%char :: q)) as Hh.
  { apply Forall_forall. intros a Ha. case_bool_decide as E; [|done]. subst a.
    apply elem_of_app in Ha as [Ha|[Ha|Ha]%elem_of_cons]; [|done|done]. by destruct (plain_no_special base "#"%char Hb). }
  assert (Forall (λ a, negb (bool_decide (a = "?"%char)) = true) base) as Hm.
  { apply Forall_forall. intros a Ha. case_bool_decide as E; [|done]. subst a. by destruct (plain_no_special base "?"%char Hb). }
  rewrite (span_all _ _ Hh). cbn [fst]. rewrite span_app by done. by destruct q.
Qed.

Lemma plain_no_hash w : plain w → "#"%char ∉ w.
Proof. intros Hw. by apply plain_no_special. Qed.

Lemma encodeQueryData_no_hash data : "#"%char ∉ encodeQueryData data.
Proof.
  unfold encodeQueryData. match goal with |- _ ∉ join _ ?l => set (ws := l) end.
  assert (Forall (λ w : jstr, "#"%char ∉ w) ws) as Hws.
  { unfold ws. apply Forall_fmap, Forall_forall. intros kv _. simpl.
    rewrite not_elem_of_app, not_elem_of_cons. split_and!; try done; apply plain_no_hash, encode_plain. }
  clearbody ws. induction Hws as [|w ws Hw Hws IH]; [by apply not_elem_of_nil|].
  destruct ws as [|v ws]; [done|]. change (join ["&"%char] (w :: v :: ws)) with (w ++ "&"%char :: join ["&"%char] (v :: ws)).
  by intros [H|[H|H]%elem_of_cons]%elem_of_app.
Qed.

Lemma pairs_no_hash ps : clean ps → "#"%char ∉ pairs ps.
Proof.
  induction 1 as [|[k v] ps [Hk Hv] _ IH]; [by apply not_elem_of_nil|]. simpl in Hk, Hv.
  rewrite <-(app_nil_r (pairs _)), pairs_cons, app_nil_r. intros [H|[H|[H|[H|H]%elem_of_cons]%elem_of_app]%elem_of_cons]%elem_of_app;
    [by destruct (plain_no_hash k Hk)|done|by destruct (plain_no_hash v Hv)|done|by destruct IH].
Qed.

(** Reading a parameter of an encoded query gives the first value stored under its
    name, and nothing when there is none. *)
Theorem getUrlParameter_encoded base k data :
  plain base → simple_name k → Forall (λ kv, simple_name kv.1) data →
  getUrlParameter k (base ++ "?"%char :: encodeQueryData data) =
  match lookup_first k data with Some v => Value v | None => Absent end.
Proof.
  intros Hb Hk Hd. unfold getUrlParameter. rewrite search_of_query by (done || apply encodeQueryData_no_hash).
  destruct data as [|kv data].
  - destruct k as [|a k]; [by destruct Hk|]. done.
  - rewrite encodeQueryData_cons, split_join; [|done|].
    + pose proof (parameter_of_vars k (kv :: data) [] Hd) as Hp. rewrite app_nil_r in Hp. by rewrite Hp.
    + apply Forall_fmap, Forall_forall. intros kv' _. simpl.
      rewrite elem_of_app, elem_of_cons. intros [Hin|[Hin|Hin]]; try done;
        (eapply plain_no_special; [apply encode_plain| |exact Hin]; done).
Qed.

Lemma getUrlParameter_encoded_witness :
  getUrlParameter (str "view") (str "/jobs/" ++ "?"%char :: encodeQueryData [(str "page", str "3"); (str "view", str "a&b c#")]) =
  Value (str "a&b c#").
Proof.
  exact (getUrlParameter_encoded (str "/jobs/") (str "view") [(str "page", str "3"); (str "view", str "a&b c#")]
    ltac:(js_decide) ltac:(split; [discriminate|js_decide])
    ltac:(repeat constructor; solve [discriminate|js_decide])).
Defined.

(** A question mark in the fragment starts no query. *)
Example fragment_is_no_query :
  getUrlParameter (str "view") (str "/jobs/#?view=1") = Absent ∧
  getUrlParameter (str "view") (str "/jobs/?view=2#view=1") = Value (str "2").
Proof. vm_compute. done. Qed.

Lemma split_pairs ps s :
  clean ps → split "&"%char (pairs ps ++ s) = map pair ps ++ split "&"%char s.
Proof.
  induction 1 as [|[k v] ps [Hk Hv] _ IH]; simpl; [done|]. rewrite pairs_cons.
  simpl in *. change (k ++ "="%char :: v ++ "&"%char :: pairs ps ++ s)
    with (k ++ ["="%char] ++ v ++ "&"%char :: pairs ps ++ s).
  rewrite !app_assoc. rewrite <-(app_assoc (k ++ _)).
  rewrite app_assoc, split_app, IH; [unfold pair; simpl; by rewrite <-app_assoc|].
  rewrite !elem_of_app. intros [[Hin|Hin]|Hin]; [by apply (plain_no_special k "&"%char)| |
    by apply (plain_no_special v "&"%char)].
  by apply list_elem_of_singleton in Hin.
Qed.

Lemma skip_pairs k ps vars :
  clean ps → Forall (λ kv, kv.1 ≠ k) ps →
  getUrlParameter_from k (map pair ps ++ vars) = getUrlParameter_from k vars.
Proof.
  induction 1 as [|[k' v'] ps [Hk Hv] _ IH]; intros Hn; simpl; [done|]. inversion Hn; subst. simpl in *.
  change (pair (k', v')) with (k' ++ "="%char :: v'). rewrite split_app by by apply plain_no_special.
  simpl. rewrite decide_False by naive_solver. by apply IH.
Qed.

Lemma remove_param_ne k k' ps :
  Forall (λ kv : jstr * jstr, kv.1 ≠ k) ps → Forall (λ kv, kv.1 ≠ k) (remove_param k' ps).
Proof.
  intros H. apply Forall_forall. intros kv Hkv%remove_param_sub. by apply (proj1 (Forall_forall _ _) H).
Qed.

(** A parameter occurs at most once. *)
Definition once (ps : list (jstr * jstr)) : Prop := NoDup (map fst ps).

Lemma remove_param_once k ps : once ps → Forall (λ kv, kv.1 ≠ k) (remove_param k ps) ∧ once (remove_param k ps).
Proof.
  unfold once. induction ps as [|[k' v'] ps IH]; simpl; [done|].
  intros [Hnin Hnd]%NoDup_cons. destruct (IH Hnd) as [H1 H2]. case_decide as Hd; subst.
  - split; [|done]. apply Forall_forall. intros kv Hin E. apply Hnin. rewrite <-E.
    by apply list_elem_of_fmap_2.
  - simpl. split; [by constructor|]. apply NoDup_cons. split; [|done].
    intros (kv & -> & Hkv%remove_param_sub)%list_elem_of_fmap. apply Hnin. by apply list_elem_of_fmap_2.
Qed.

Lemma clear_all_gone ks ps k :
  k ∈ ks → once ps → Forall (λ kv, kv.1 ≠ k) (foldl (λ ps k, remove_param k ps) ps ks).
Proof.
  intros Hin Ho. revert ps Ho. induction ks as [|k' ks IH]; intros ps Ho; [by apply not_elem_of_nil in Hin|].
  simpl. apply elem_of_cons in Hin as [->|Hin].
  - destruct (remove_param_once k' ps Ho) as [Hg _]. revert Hg. generalize (remove_param k' ps).
    clear -ks. induction ks as [|k ks IH]; intros qs Hq; simpl; [done|]. by apply IH, remove_param_ne.
  - apply IH; [done|]. by apply remove_param_once.
Qed.



(** ** Message templates *)

(** A template: plain texts and placeholders. *)
Inductive piece := Text (w : jstr) | Hole (n : nat).
Definition hole (n : nat) : jstr := str "{" ++ str (pretty n) ++ str "}".
Definition template (t : list piece) : jstr :=
  concat (map (λ p, match p with Text w => w | Hole n => hole n end) t).
Definition render (args : list jstr) (t : list piece) : jstr :=
  concat (map (λ p, match p with
                    | Text w => w
                    | Hole n => match args !! n with
                                | Some [] | None => hole n
                                | Some a => a
                                end
                    end) t).

Lemma str_app s t : str (s +:+ t) = str s ++ str t.
Proof. induction s as [|a s IH]; [done|]. unfold str in *. simpl. by rewrite IH. Qed.

Lemma str_inj s t : str s = str t → s = t.
Proof.
  intros E. apply (f_equal String.string_of_list_ascii) in E. unfold str in E.
  by rewrite !String.string_of_list_ascii_of_string in E.
Qed.

Lemma pretty_digits_go x s :
  Forall (λ a, is_digit a = true) (str s) →
  Forall (λ a, is_digit a = true) (str (pretty_N_go x s)) ∧
  ((0 < x)%N ∨ s ≠ "" → str (pretty_N_go x s) ≠ []).
Proof.
  revert s. induction (N.lt_wf_0 x) as [x _ IH]. intros s Hs. destruct (decide (x = 0%N)) as [->|Hx].
  - rewrite pretty_N_go_0. split; [done|]. intros [?|Hne] E; [lia|]. by destruct s.
  - rewrite pretty_N_go_step by lia. destruct (IH (x `div` 10)%N) with (s := String (pretty_N_char (x `mod` 10)) s) as [H1 H2].
    + apply N.div_lt; lia.
    + unfold str. simpl. constructor; [|done]. unfold pretty_N_char. by repeat case_match.
    + split; [done|]. intros _. apply H2. by right.
Qed.

Lemma pretty_digits (n : nat) :
  Forall (λ a, is_digit a = true) (str (pretty n)) ∧ str (pretty n) ≠ [].
Proof.
  unfold pretty, pretty_nat, pretty, pretty_N. case_decide; [by repeat constructor|].
  destruct (pretty_digits_go (N.of_nat n) "") as [H1 H2]; [constructor|]. split; [done|].
  apply H2. left. lia.
Qed.

Lemma argument_pretty args n :
  argument args (str (pretty n)) = match args !! n with Some [] | None => None | a => a end.
Proof.
  unfold argument. destruct (list_find _ (seq 0 (length args))) as [[j i]|] eqn:Hf.
  - apply list_find_Some in Hf as (_ & Hi%str_inj & _). apply (inj pretty) in Hi. by subst.
  - destruct (args !! n) as [a|] eqn:Hn; [|done]. exfalso. apply list_find_None in Hf.
    apply lookup_lt_Some in Hn. apply (proj1 (Forall_forall _ _) Hf n); [|done].
    apply elem_of_seq. lia.
Qed.

Lemma format_from_text n args w s :
  "{"%char ∉ w → length (w ++ s) ≤ n →
  format_from n args (w ++ s) = w ++ format_from (n - length w) args s.
Proof.
  revert n. induction w as [|a w IH]; intros n Hw Hn; simpl app.
  { by rewrite Nat.sub_0_r. }
  apply not_elem_of_cons in Hw as [Ha Hw]. destruct n as [|n]; [simpl in Hn; lia|]. simpl in *.
  destruct (span is_digit (w ++ s)) as [ds rest]. destruct rest as [|b rest];
    [|rewrite decide_False by naive_solver]; rewrite IH by (done || lia); done.
Qed.

Lemma format_from_hole n args k s :
  length (hole k ++ s) ≤ n →
  ∃ m, length s ≤ m ∧ format_from n args (hole k ++ s) = render args [Hole k] ++ format_from m args s.
Proof.
  intros Hn. destruct (pretty_digits k) as [Hd Hne]. unfold hole in *.
  replace ((str "{" ++ str (pretty k) ++ str "}") ++ s)
    with ("{"%char :: str (pretty k) ++ "}"%char :: s) in * by (simpl; by rewrite <-app_assoc).
  destruct n as [|n]; [simpl in Hn; lia|]. exists n. split.
  { simpl in Hn. rewrite length_app in Hn. simpl in Hn. lia. }
  cbn [format_from]. rewrite span_app by done. rewrite decide_True by done.
  rewrite argument_pretty. unfold render. cbn [map concat]. rewrite app_nil_r. unfold hole.
  by destruct (args !! k) as [[|]|].
Qed.

Lemma format_render t args :
  Forall (λ p, match p with Text w => "{"%char ∉ w | Hole _ => True end) t →
  format (template t) args = render args t.
Proof.
  intros Ht. unfold format. assert (length (template t) ≤ length (template t)) as Hn by done.
  revert Hn. generalize (length (template t)) at 2 3. induction Ht as [|[w|k] t Hp _ IH]; intros n Hn.
  - by destruct n.
  - change (template (Text w :: t)) with (w ++ template t) in *.
    rewrite format_from_text by done. unfold render. simpl. f_equal. apply IH.
    rewrite length_app in Hn. lia.
  - change (template (Hole k :: t)) with (hole k ++ template t) in *.
    destruct (format_from_hole n args k (template t) Hn) as (m & Hm & ->).
    rewrite IH by done. unfold render. simpl. by rewrite app_nil_r.
Qed.

(** Formatting a template replaces every placeholder [{n}] by the n-th argument and
    keeps all other text; a placeholder whose argument is missing or empty stays. *)
Theorem format_template t args :
  Forall (λ p, match p with Text w => "{"%char ∉ w | Hole _ => True end) t →
  format (template t) args = render args t.
Proof. apply format_render. Qed.

Lemma format_template_witness :
  format (str "{0}: {1} of {2}") [str "Size"; str "3"] = str "Size: 3 of {2}".
Proof.
  exact (format_template [Hole 0; Text (str ": "); Hole 1; Text (str " of "); Hole 2] [str "Size"; str "3"]
    ltac:(repeat constructor; js_decide)).
Defined.

(** ** File names *)

Lemma split_last c s w : c ∉ w → List.last (split c (s ++ c :: w)) [] = w.
Proof.
  intros Hw. induction s as [|a s IH]; simpl.
  - rewrite decide_True by done. by rewrite split_none.
  - pose proof (split_nonempty c (s ++ c :: w)). case_decide.
    + destruct (split c (s ++ c :: w)); [done|]. exact IH.
    + assert (∃ u v vs, split c (s ++ c :: w) = u :: v :: vs) as (u & v & vs & E).
      { clear IH H. induction s as [|b s IHs]; simpl.
        - rewrite decide_True, split_none by done. eauto.
        - destruct IHs as (u & v & vs & E). rewrite E. case_decide; eauto. }
      rewrite E in *. exact IH.
Qed.

(** The extension of a file name is what follows its last dot, and is empty without
    a dot; a file is shown as text when its extension is a known one, or it is README. *)
Theorem getFileExtension_spec s w :
  "."%char ∉ w →
  getFileExtension (s ++ "."%char :: w) = w ∧ getFileExtension w = [] ∧
  isFileReadable (s ++ "."%char :: w) = bool_decide (w ∈ readable_extensions).
Proof.
  intros Hw. assert (getFileExtension (s ++ "."%char :: w) = w) as He.
  { unfold getFileExtension. pose proof (split_last "."%char s w Hw) as Hl.
    destruct (split "."%char (s ++ "."%char :: w)) as [|x [|y ws]] eqn:E; [| |exact Hl].
    - by apply split_nonempty in E.
    - exfalso. clear Hl. revert x E. induction s as [|a s IH]; intros x; simpl.
      + intros [= _ E]. by apply split_nonempty in E.
      + pose proof (split_nonempty "."%char (s ++ "."%char :: w)).
        case_decide; [intros [= _ E]; by destruct (split _ _)|].
        destruct (split "."%char (s ++ "."%char :: w)) as [|u [|v vs]]; intros [=]; [done|].
        by apply (IH u). }
  split_and!; [done|unfold getFileExtension; by rewrite split_none|].
  unfold isFileReadable. rewrite He, (bool_decide_false (_ = str "README")); [by rewrite orb_false_r|].
  intros E. assert ("."%char ∈ str "README") as Hin.
  { rewrite <-E. apply elem_of_app. right. by left. }
  vm_compute in Hin. repeat (apply elem_of_cons in Hin as [Hin|Hin]; [done|]). by apply not_elem_of_nil in Hin.
Qed.

Lemma getFileExtension_spec_witness :
  getFileExtension (str "a.tar.gz") = str "gz" ∧ getFileExtension (str "gz") = [] ∧
  isFileReadable (str "a.tar.gz") = false.
Proof.
  destruct (getFileExtension_spec (str "a.tar") (str "gz") ltac:(js_decide)) as (H1 & H2 & H3).
  split; [exact H1|split; [exact H2|exact H3]].
Defined.

End Url.
