(* ===== verification/MxGeometry.v ===== *)
(** * Points, rectangles and cell geometries of mxGraph

    Models mxPoint.js, mxRectangle.js and mxGeometry.js. Coordinates are integers:
    the arithmetic of JavaScript numbers is exact on integers below [2^53]. *)

From S2P Require Import Prelude.

Module MxGeometry.

Local Open Scope Z_scope.

Record mxPoint := Point { px : Z; py : Z }.
#[global] Instance mxPoint_eq_dec : EqDecision mxPoint.
Proof. solve_decision. Defined.

(** [new mxPoint(x, y)]: missing coordinates are zero. *)
Definition new_mxPoint (x y : option Z) : mxPoint := Point (default 0 x) (default 0 y).

Definition point_equals (p : mxPoint) (obj : option mxPoint) : bool :=
  match obj with
  | Some q => (px q =? px p) && (py q =? py p)
  | None => false
  end.

Record mxRectangle := Rect { rx : Z; ry : Z; rwidth : Z; rheight : Z }.
#[global] Instance mxRectangle_eq_dec : EqDecision mxRectangle.
Proof. solve_decision. Defined.

Definition new_mxRectangle (x y w h : option Z) : mxRectangle :=
  Rect (default 0 x) (default 0 y) (default 0 w) (default 0 h).

Definition rect_add (this : mxRectangle) (rect : option mxRectangle) : mxRectangle :=
  match rect with
  | None => this
  | Some r =>
      let minX := Z.min (rx this) (rx r) in
      let minY := Z.min (ry this) (ry r) in
      let maxX := Z.max (rx this + rwidth this) (rx r + rwidth r) in
      let maxY := Z.max (ry this + rheight this) (ry r + rheight r) in
      Rect minX minY (maxX - minX) (maxY - minY)
  end.

Definition rect_intersect (this : mxRectangle) (rect : option mxRectangle) : mxRectangle :=
  match rect with
  | None => this
  | Some r =>
      let r1 := rx this + rwidth this in
      let r2 := rx r + rwidth r in
      let b1 := ry this + rheight this in
      let b2 := ry r + rheight r in
      let x := Z.max (rx this) (rx r) in
      let y := Z.max (ry this) (ry r) in
      Rect x y (Z.min r1 r2 - x) (Z.min b1 b2 - y)
  end.

Definition rect_grow (this : mxRectangle) (amount : Z) : mxRectangle :=
  Rect (rx this - amount) (ry this - amount) (rwidth this + 2 * amount) (rheight this + 2 * amount).

Definition rect_equals (this : mxRectangle) (obj : option mxRectangle) : bool :=
  match obj with
  | Some r => (rx r =? rx this) && (ry r =? ry this)
              && (rwidth r =? rwidth this) && (rheight r =? rheight this)
  | None => false
  end.

(** A geometry object. [geo_ref] is the identity of the JavaScript object: the model
    compares geometries by identity, and [clone] makes a new object. *)
Record mxGeometry := Geometry {
  geo_ref : nat;
  bounds : mxRectangle;
  alternateBounds : option mxRectangle;
  sourcePoint : option mxPoint;
  targetPoint : option mxPoint;
  points : option (list (option mxPoint));
  offset : option mxPoint;
  relative : bool
}.

Definition new_mxGeometry (ref : nat) (x y w h : option Z) : mxGeometry :=
  Geometry ref (new_mxRectangle x y w h) None None None None None false.

(** [mxUtils.clone]: a deep copy, so only the identity differs. *)
Definition geo_clone (ref : nat) (g : mxGeometry) : mxGeometry :=
  Geometry ref (bounds g) (alternateBounds g) (sourcePoint g) (targetPoint g)
           (points g) (offset g) (relative g).

Definition swap (g : mxGeometry) : mxGeometry :=
  match alternateBounds g with
  | None => g
  | Some alt => Geometry (geo_ref g) alt (Some (bounds g)) (sourcePoint g) (targetPoint g)
                         (points g) (offset g) (relative g)
  end.

Definition getTerminalPoint (g : mxGeometry) (isSource : bool) : option mxPoint :=
  if isSource then sourcePoint g else targetPoint g.

Definition setTerminalPoint (g : mxGeometry) (point : option mxPoint) (isSource : bool) : mxGeometry :=
  if isSource
  then Geometry (geo_ref g) (bounds g) (alternateBounds g) point (targetPoint g)
                (points g) (offset g) (relative g)
  else Geometry (geo_ref g) (bounds g) (alternateBounds g) (sourcePoint g) point
                (points g) (offset g) (relative g).

Definition move_point (dx dy : Z) (p : mxPoint) : mxPoint := Point (px p + dx) (py p + dy).

(** [TRANSLATE_CONTROL_POINTS] is the prototype's value, true. *)
Definition translate (dx dy : Z) (g : mxGeometry) : mxGeometry :=
  Geometry (geo_ref g)
    (if relative g then bounds g
     else Rect (rx (bounds g) + dx) (ry (bounds g) + dy) (rwidth (bounds g)) (rheight (bounds g)))
    (alternateBounds g)
    (move_point dx dy <$> sourcePoint g) (move_point dx dy <$> targetPoint g)
    ((fmap (M:=list) (fmap (M:=option) (move_point dx dy))) <$> points g)
    (offset g) (relative g).

Definition opt_equals {A} (eq : A → option A → bool) (a b : option A) : bool :=
  match a with
  | None => match b with None => true | Some _ => false end
  | Some x => eq x b
  end.

End MxGeometry.
