(* ===== verification/MxCell.v ===== *)
(** * Cells of an mxGraph and the heap they live in

    Models mxCell.js. A cell is a JavaScript object; references to cells are heap
    addresses, so the sharing of cells between [parent], [children], [source],
    [target] and [edges] is explicit. *)

From S2P Require Import Prelude MxGeometry.
Import MxGeometry.

Module MxCell.

Abbreviation ref := nat.

Record mxCell := Cell {
  id : option string;
  value : option string;
  geometry : option mxGeometry;
  style : option string;
  vertex : bool;
  edge : bool;
  connectable : bool;
  visible : bool;
  collapsed : bool;
  parent : option ref;
  source : option ref;
  target : option ref;
  children : option (list ref);
  edges : option (list ref)
}.

(** [new mxCell(value, geometry, style)] *)
Definition new_mxCell (v : option string) (g : option mxGeometry) (s : option string) : mxCell :=
  Cell None v g s false false true true false None None None None None.

#[global] Instance mxCell_inhabited : Inhabited mxCell := populate (new_mxCell None None None).

Abbreviation heap := (gmap ref mxCell).

(** Reading and writing the fields of an object. *)
Definition upd (c : ref) (f : mxCell → mxCell) (h : heap) : heap := <[c := f (h !!! c)]> h.

Definition set_id (i : option string) (c : mxCell) : mxCell :=
  Cell i (value c) (geometry c) (style c) (vertex c) (edge c) (connectable c) (visible c)
       (collapsed c) (parent c) (source c) (target c) (children c) (edges c).
Definition set_value (v : option string) (c : mxCell) : mxCell :=
  Cell (id c) v (geometry c) (style c) (vertex c) (edge c) (connectable c) (visible c)
       (collapsed c) (parent c) (source c) (target c) (children c) (edges c).
Definition set_geometry (g : option mxGeometry) (c : mxCell) : mxCell :=
  Cell (id c) (value c) g (style c) (vertex c) (edge c) (connectable c) (visible c)
       (collapsed c) (parent c) (source c) (target c) (children c) (edges c).
Definition set_style (s : option string) (c : mxCell) : mxCell :=
  Cell (id c) (value c) (geometry c) s (vertex c) (edge c) (connectable c) (visible c)
       (collapsed c) (parent c) (source c) (target c) (children c) (edges c).
Definition set_visible (b : bool) (c : mxCell) : mxCell :=
  Cell (id c) (value c) (geometry c) (style c) (vertex c) (edge c) (connectable c) b
       (collapsed c) (parent c) (source c) (target c) (children c) (edges c).
Definition set_collapsed (b : bool) (c : mxCell) : mxCell :=
  Cell (id c) (value c) (geometry c) (style c) (vertex c) (edge c) (connectable c) (visible c)
       b (parent c) (source c) (target c) (children c) (edges c).
Definition set_parent (p : option ref) (c : mxCell) : mxCell :=
  Cell (id c) (value c) (geometry c) (style c) (vertex c) (edge c) (connectable c) (visible c)
       (collapsed c) p (source c) (target c) (children c) (edges c).
Definition set_source (t : option ref) (c : mxCell) : mxCell :=
  Cell (id c) (value c) (geometry c) (style c) (vertex c) (edge c) (connectable c) (visible c)
       (collapsed c) (parent c) t (target c) (children c) (edges c).
Definition set_target (t : option ref) (c : mxCell) : mxCell :=
  Cell (id c) (value c) (geometry c) (style c) (vertex c) (edge c) (connectable c) (visible c)
       (collapsed c) (parent c) (source c) t (children c) (edges c).
Definition set_children (l : option (list ref)) (c : mxCell) : mxCell :=
  Cell (id c) (value c) (geometry c) (style c) (vertex c) (edge c) (connectable c) (visible c)
       (collapsed c) (parent c) (source c) (target c) l (edges c).
Definition set_edges (l : option (list ref)) (c : mxCell) : mxCell :=
  Cell (id c) (value c) (geometry c) (style c) (vertex c) (edge c) (connectable c) (visible c)
       (collapsed c) (parent c) (source c) (target c) (children c) l.

(** ** Terminals *)

Definition getTerminal (h : heap) (c : ref) (isSource : bool) : option ref :=
  if isSource then source (h !!! c) else target (h !!! c).

Definition setTerminal (h : heap) (c : ref) (terminal : option ref) (isSource : bool) : heap :=
  if isSource then upd c (set_source terminal) h else upd c (set_target terminal) h.

(** ** Children *)

Definition getChildCount (h : heap) (c : ref) : nat :=
  match children (h !!! c) with None => 0 | Some l => length l end.

(** [mxUtils.indexOf(array, obj)] *)
Definition indexOf (array : option (list ref)) (obj : ref) : Z :=
  match array with
  | None => -1
  | Some l => match list_find (.= obj) l with Some (i, _) => Z.of_nat i | None => -1 end
  end.

Definition getIndex (h : heap) (c child : ref) : Z := indexOf (children (h !!! c)) child.

Definition getChildAt (h : heap) (c : ref) (index : Z) : option ref :=
  match children (h !!! c) with
  | None => None
  | Some l => if decide (0 ≤ index)%Z then l !! Z.to_nat index else None
  end.

(** [remove(index)] *)
Definition remove (h : heap) (this : ref) (index : Z) : heap * option ref :=
  match children (h !!! this) with
  | Some l =>
      if decide (0 ≤ index)%Z then
        match getChildAt h this index with
        | Some child =>
            (upd child (set_parent None)
               (upd this (set_children (Some (js_splice l index 1 []))) h), Some child)
        | None => (h, None)
        end
      else (h, None)
  | None => (h, None)
  end.

Definition removeFromParent (h : heap) (this : ref) : heap :=
  match parent (h !!! this) with
  | Some p => (remove h p (getIndex h p this)).1
  | None => h
  end.

(** [insert(child, index)]; an undefined index appends the child. *)
Definition insert (h : heap) (this : ref) (child : option ref) (index : option Z) : heap * option ref :=
  match child with
  | None => (h, None)
  | Some ch =>
      let i :=
        match index with
        | Some i => i
        | None => let n := Z.of_nat (getChildCount h this) in
                  if decide (parent (h !!! ch) = Some this) then (n - 1)%Z else n
        end in
      let h1 := removeFromParent h ch in
      let h2 := upd ch (set_parent (Some this)) h1 in
      let l := match children (h2 !!! this) with
               | None => [ch]
               | Some l => js_splice l i 0 [ch]
               end in
      (upd this (set_children (Some l)) h2, Some ch)
  end.

(** ** Edges of a terminal *)

Definition getEdgeCount (h : heap) (c : ref) : nat :=
  match edges (h !!! c) with None => 0 | Some l => length l end.

Definition getEdgeIndex (h : heap) (c e : ref) : Z := indexOf (edges (h !!! c)) e.

Definition getEdgeAt (h : heap) (c : ref) (index : Z) : option ref :=
  match edges (h !!! c) with
  | None => None
  | Some l => if decide (0 ≤ index)%Z then l !! Z.to_nat index else None
  end.

Definition removeEdge (h : heap) (this : ref) (e : option ref) (isOutgoing : bool) : heap :=
  match e with
  | None => h
  | Some e =>
      let h1 :=
        if decide (getTerminal h e (negb isOutgoing) ≠ Some this) then
          match edges (h !!! this) with
          | Some l =>
              let index := getEdgeIndex h this e in
              if decide (0 ≤ index)%Z
              then upd this (set_edges (Some (js_splice l index 1 []))) h else h
          | None => h
          end
        else h in
      setTerminal h1 e None isOutgoing
  end.

Definition removeFromTerminal (h : heap) (this : ref) (isSource : bool) : heap :=
  match getTerminal h this isSource with
  | Some terminal => removeEdge h terminal (Some this) isSource
  | None => h
  end.

Definition insertEdge (h : heap) (this : ref) (e : option ref) (isOutgoing : bool) : heap :=
  match e with
  | None => h
  | Some e =>
      let h1 := removeFromTerminal h e isOutgoing in
      let h2 := setTerminal h1 e (Some this) isOutgoing in
      if bool_decide (edges (h2 !!! this) = None) || negb (bool_decide (getTerminal h2 e (negb isOutgoing) = Some this))
         || (indexOf (edges (h2 !!! this)) e <? 0)%Z
      then upd this (set_edges (Some (default [] (edges (h2 !!! this)) ++ [e]))) h2
      else h2
  end.

(** ** Copies *)

(** [clone()]: a deep copy of the fields that are not in [mxTransient], with the user
    object, here a label string, copied by [cloneValue]. [gref] is the identity of the
    copied geometry. *)
Definition clone (gref : nat) (c : mxCell) : mxCell :=
  Cell None (value c) (geo_clone gref <$> geometry c) (style c) (vertex c) (edge c)
       (connectable c) (visible c) (collapsed c) None None None None None.

(** ** Lemmas on the heap *)

Lemma upd_lookup h c d f : upd c f h !!! d = if decide (c = d) then f (h !!! c) else h !!! d.
Proof.
  unfold upd. case_decide as Heq; [subst; by rewrite lookup_total_insert_eq|].
  by rewrite lookup_total_insert_ne.
Qed.

(** Children and edges as lists, a missing array being empty. *)
Definition kids (h : heap) (c : ref) : list ref := default [] (children (h !!! c)).
Definition eds (h : heap) (c : ref) : list ref := default [] (edges (h !!! c)).

(** Evaluates the field reads of an updated heap. *)
Ltac heap_simpl :=
  repeat (rewrite upd_lookup; case_decide; simplify_eq/=).

Lemma list_find_eq_Some (l : list ref) x i y :
  list_find (.= x) l = Some (i, y) → y = x ∧ l !! i = Some x.
Proof. intros (?&->&?)%list_find_Some. done. Qed.

Lemma indexOf_elem l x :
  x ∈ default [] l → ∃ i, indexOf l x = Z.of_nat i ∧ default [] l !! i = Some x.
Proof.
  destruct l as [l|]; [|by intros ?%not_elem_of_nil]. simpl. intros Hx.
  destruct (list_find_elem_of (.= x) l x) as [[i y] Hi]; [done|done|].
  rewrite Hi. apply list_find_eq_Some in Hi as [-> ?]. eauto.
Qed.

Lemma indexOf_notin l x : x ∉ default [] l → indexOf l x = (-1)%Z.
Proof.
  destruct l as [l|]; [|done]. simpl. intros Hx.
  destruct (list_find (.= x) l) as [[i y]|] eqn:Hi; [|done].
  apply list_find_eq_Some in Hi as [-> Hi]. by apply list_elem_of_lookup_2 in Hi.
Qed.

(** ** The tree invariant *)

(** [parent] and [children] agree and no cell is listed twice. *)
Record tree_ok (h : heap) : Prop := {
  tree_parent : ∀ p c, c ∈ kids h p ↔ parent (h !!! c) = Some p;
  tree_nodup : ∀ p, NoDup (kids h p)
}.

Lemma remove_kids h p c :
  tree_ok h → parent (h !!! c) = Some p →
  ∀ d, (remove h p (getIndex h p c)).1 !!! d =
    (if decide (d = c) then set_parent None else λ x, x)
      ((if decide (d = p) then set_children (Some (filter (.≠ c) (kids h p))) else λ x, x) (h !!! d)).
Proof.
  intros [Hp Hnd] Hc d. apply Hp in Hc as Hin. unfold remove, getIndex.
  destruct (indexOf_elem _ _ Hin) as (i & Hi & Hl). fold (kids h p) in Hl.
  rewrite Hi. unfold getChildAt, kids in *.
  destruct (children (h !!! p)) as [l|] eqn:Hch; [|by apply not_elem_of_nil in Hin].
  simpl in *. destruct (decide (0 ≤ Z.of_nat i)%Z); [|lia]. rewrite Nat2Z.id, Hl. simpl.
  rewrite js_splice_remove by (eapply lookup_lt_Some; eauto).
  rewrite (filter_ne_delete l i c) by (done || (specialize (Hnd p); by rewrite Hch in Hnd)).
  rewrite !upd_lookup. repeat case_decide; subst; congruence || done.
Qed.

Lemma removeFromParent_lookup h c :
  tree_ok h → ∀ d, removeFromParent h c !!! d =
    (if decide (d = c) then set_parent None else λ x, x)
      ((if decide (parent (h !!! c) = Some d)
        then set_children (Some (filter (.≠ c) (kids h d))) else λ x, x) (h !!! d)).
Proof.
  intros Ht d. unfold removeFromParent. destruct (parent (h !!! c)) as [p|] eqn:Hp.
  - rewrite remove_kids by done. repeat case_decide; simplify_eq/=; done.
  - repeat case_decide; simplify_eq/=; [|done..].
    destruct (h !!! c) eqn:E; simpl in *. by subst.
Qed.

(** After [removeFromParent] the cell has no parent and is in no list of children;
    everything else is as before. *)
Lemma removeFromParent_parent h c d :
  tree_ok h → parent (removeFromParent h c !!! d) = if decide (d = c) then None else parent (h !!! d).
Proof. intros Ht. rewrite removeFromParent_lookup by done. by repeat case_decide. Qed.

Lemma removeFromParent_kids h c d :
  tree_ok h → kids (removeFromParent h c) d = filter (.≠ c) (kids h d).
Proof.
  intros Ht.
  unfold kids at 1. rewrite removeFromParent_lookup by done.
  assert (parent (h !!! c) ≠ Some d → filter (.≠ c) (kids h d) = kids h d) as Hid.
  { intros Hp. apply filter_ne_id. by rewrite (tree_parent h Ht). }
  repeat case_decide; simpl; try done; by rewrite Hid.
Qed.

Lemma removeFromParent_ok h c : tree_ok h → tree_ok (removeFromParent h c).
Proof.
  intros Ht. split.
  - intros p d. rewrite removeFromParent_kids, removeFromParent_parent by done.
    rewrite list_elem_of_filter, (tree_parent h Ht). case_decide; naive_solver.
  - intros p. rewrite removeFromParent_kids by done. apply NoDup_filter, (tree_nodup h Ht).
Qed.

(** The index [insert] uses. *)
Definition insert_index (h : heap) (this ch : ref) (index : option Z) : Z :=
  match index with
  | Some i => i
  | None => if decide (parent (h !!! ch) = Some this)
            then Z.of_nat (getChildCount h this) - 1 else Z.of_nat (getChildCount h this)
  end%Z.

Lemma insert_parent h this ch index d :
  tree_ok h →
  parent ((insert h this (Some ch) index).1 !!! d) =
  if decide (d = ch) then Some this else parent (h !!! d).
Proof.
  intros Ht. simpl. rewrite !upd_lookup.
  pose proof (removeFromParent_parent h ch d Ht) as Hd.
  pose proof (removeFromParent_parent h ch this Ht) as Hthis.
  repeat case_decide; simplify_eq/=; done.
Qed.

Lemma insert_kids h this ch index d :
  tree_ok h →
  kids (insert h this (Some ch) index).1 d =
  if decide (d = this)
  then js_splice (filter (.≠ ch) (kids h this)) (insert_index h this ch index) 0 [ch]
  else filter (.≠ ch) (kids h d).
Proof.
  intros Ht. unfold insert. cbv zeta. cbn [fst]. fold (insert_index h this ch index).
  set (i := insert_index h this ch index). unfold kids at 1. rewrite upd_lookup.
  destruct (decide (this = d)) as [->|Hne].
  - rewrite decide_True by done. simpl.
    rewrite <-(removeFromParent_kids h ch d Ht). unfold kids. rewrite upd_lookup.
    destruct (decide (ch = d)) as [->|?]; simpl;
      (destruct (children (removeFromParent h _ !!! d)); simpl; [done|]); unfold js_splice;
      simpl; rewrite take_nil, drop_nil; done.
  - rewrite decide_False, <-(removeFromParent_kids h ch d Ht) by done. unfold kids.
    rewrite upd_lookup. by case_decide; subst.
Qed.

Lemma insert_ok h this ch index : tree_ok h → tree_ok (insert h this (Some ch) index).1.
Proof.
  intros Ht. split.
  - intros p d. rewrite insert_kids, insert_parent by done.
    destruct (decide (p = this)) as [->|Hp].
    + rewrite js_splice_insert_perm, elem_of_cons, list_elem_of_filter, (tree_parent h Ht).
      case_decide; naive_solver.
    + rewrite list_elem_of_filter, (tree_parent h Ht). case_decide; naive_solver.
  - intros p. rewrite insert_kids by done. case_decide.
    + rewrite js_splice_insert_perm. apply NoDup_cons. split.
      * rewrite list_elem_of_filter. naive_solver.
      * apply NoDup_filter, (tree_nodup h Ht).
    + apply NoDup_filter, (tree_nodup h Ht).
Qed.

(** ** The edge invariant *)

(** A cell lists only edges that name it as source or target, and each once. *)
Record edges_sound (h : heap) : Prop := {
  edges_incident : ∀ t e, e ∈ eds h t → ∃ b, getTerminal h e b = Some t;
  edges_nodup : ∀ t, NoDup (eds h t)
}.

(** An edge is attached when both its terminals list it, and detached when no cell
    does, as after its removal from the model: it then still names its terminals. *)
Definition attached (h : heap) (e : ref) : Prop :=
  ∀ b t, getTerminal h e b = Some t → e ∈ eds h t.
Definition detached (h : heap) (e : ref) : Prop := ∀ t, e ∉ eds h t.

Lemma getTerminal_setTerminal h c t b d b' :
  getTerminal (setTerminal h c t b) d b' =
  if decide (d = c ∧ b' = b) then t else getTerminal h d b'.
Proof.
  unfold getTerminal, setTerminal. destruct b, b'; rewrite upd_lookup;
    repeat case_decide; destruct_and?; subst; simpl; naive_solver.
Qed.

Lemma eds_setTerminal h c t b d : eds (setTerminal h c t b) d = eds h d.
Proof. unfold eds, setTerminal. destruct b; rewrite upd_lookup; by case_decide; subst. Qed.

Lemma getTerminal_set_edges h c l d b : getTerminal (upd c (set_edges l) h) d b = getTerminal h d b.
Proof. unfold getTerminal. destruct b; rewrite upd_lookup; by case_decide; subst. Qed.

Lemma removeEdge_terminal h this e b d b' :
  getTerminal (removeEdge h this (Some e) b) d b' =
  if decide (d = e ∧ b' = b) then None else getTerminal h d b'.
Proof.
  unfold removeEdge. rewrite getTerminal_setTerminal. case_decide; [done|].
  destruct (decide (getTerminal h e (negb b) ≠ Some this)); [|done].
  destruct (edges (h !!! this)); [|done]. case_decide; [|done]. apply getTerminal_set_edges.
Qed.

Lemma removeEdge_eds h this e b d :
  NoDup (eds h this) →
  eds (removeEdge h this (Some e) b) d =
  if decide (d = this ∧ getTerminal h e (negb b) ≠ Some this)
  then filter (.≠ e) (eds h d) else eds h d.
Proof.
  intros Hnd. unfold removeEdge. rewrite eds_setTerminal.
  destruct (decide (getTerminal h e (negb b) ≠ Some this)) as [Ho|Ho];
    [|by rewrite decide_False by naive_solver].
  destruct (decide (e ∈ eds h this)) as [Hin|Hin].
  - destruct (indexOf_elem _ _ Hin) as (i & Hi & Hl). unfold getEdgeIndex.
    destruct (edges (h !!! this)) as [l|] eqn:Hl'; [|by unfold eds in Hin; rewrite Hl' in Hin; set_solver].
    rewrite Hi. destruct (decide (0 ≤ Z.of_nat i)%Z); [|lia]. simpl in Hl.
    rewrite js_splice_remove by (eapply lookup_lt_Some; eauto).
    rewrite <-(filter_ne_delete l i e); [|by unfold eds in Hnd; rewrite Hl' in Hnd|done].
    unfold eds. rewrite upd_lookup. destruct (decide (this = d)) as [->|?].
    + rewrite decide_True by done. simpl. by rewrite Hl'.
    + by rewrite decide_False by naive_solver.
  - unfold getEdgeIndex. rewrite (indexOf_notin _ _ Hin).
    replace (if decide (d = this ∧ _) then filter (.≠ e) (eds h d) else eds h d) with (eds h d)
      by (case_decide; [|done]; destruct_and?; subst; by rewrite filter_ne_id).
    by destruct (edges (h !!! this)).
Qed.

(** [removeFromTerminal] empties the terminal and, unless the edge is a loop at it,
    takes the edge off the terminal's list. *)
Lemma removeFromTerminal_terminal h e b d b' :
  getTerminal (removeFromTerminal h e b) d b' =
  if decide (d = e ∧ b' = b) then None else getTerminal h d b'.
Proof.
  unfold removeFromTerminal. destruct (getTerminal h e b) as [t|] eqn:Ht.
  - apply removeEdge_terminal.
  - case_decide; [|done]. destruct_and?; by subst.
Qed.

Lemma removeFromTerminal_eds h e b d :
  edges_sound h →
  eds (removeFromTerminal h e b) d =
  if decide (getTerminal h e b = Some d ∧ getTerminal h e (negb b) ≠ Some d)
  then filter (.≠ e) (eds h d) else eds h d.
Proof.
  intros Hok. unfold removeFromTerminal. destruct (getTerminal h e b) as [t|].
  - rewrite removeEdge_eds by apply Hok. repeat case_decide; naive_solver.
  - rewrite decide_False by naive_solver. done.
Qed.

Lemma removeFromTerminal_elem h e b t e' :
  edges_sound h →
  e' ∈ eds (removeFromTerminal h e b) t ↔
  e' ∈ eds h t ∧ (e' = e → getTerminal h e (negb b) = Some t).
Proof.
  intros Hok. rewrite removeFromTerminal_eds by done. case_decide as Hd.
  - rewrite list_elem_of_filter. destruct Hd. intuition congruence.
  - split; [|by intros [? _]]. intros Hin. split; [done|]. intros ->.
    destruct (edges_incident h Hok t e Hin) as [b' Hb'].
    destruct (decide (getTerminal h e (negb b) = Some t)) as [|Ho]; [done|]. exfalso.
    apply Hd. split; [|done]. by destruct b, b'.
Qed.

Lemma removeFromTerminal_sound h e b :
  edges_sound h → edges_sound (removeFromTerminal h e b).
Proof.
  intros Hok. split.
  - intros t e'. rewrite removeFromTerminal_elem by done. intros [Hin He].
    destruct (decide (e' = e)) as [->|Hne].
    + exists (negb b). rewrite removeFromTerminal_terminal, decide_False by (by destruct b; intros []).
      auto.
    + destruct (edges_incident h Hok t e' Hin) as [b' Hb']. exists b'.
      by rewrite removeFromTerminal_terminal, decide_False by intuition.
  - intros t. rewrite removeFromTerminal_eds by done.
    case_decide; [apply NoDup_filter|]; apply Hok.
Qed.

Lemma insertEdge_terminal h this e b d b' :
  getTerminal (insertEdge h this (Some e) b) d b' =
  if decide (d = e ∧ b' = b) then Some this else getTerminal h d b'.
Proof.
  unfold insertEdge. cbv zeta. set (h2 := setTerminal _ _ _ _).
  transitivity (getTerminal h2 d b'); [case_match; [apply getTerminal_set_edges|done]|].
  unfold h2. rewrite getTerminal_setTerminal, removeFromTerminal_terminal.
  by repeat case_decide.
Qed.

(** [insertEdge] lists the edge at its new terminal unless it is listed there already. *)
Lemma insertEdge_eds h this e b d :
  edges_sound h →
  eds (insertEdge h this (Some e) b) d =
  let base := eds (removeFromTerminal h e b) d in
  if decide (d = this ∧ e ∉ base) then base ++ [e] else base.
Proof.
  intros Hok. unfold insertEdge. cbv zeta. set (h2 := setTerminal _ _ _ _).
  pose proof (removeFromTerminal_elem h e b this e Hok) as Hin.
  assert (∀ x, eds h2 x = eds (removeFromTerminal h e b) x) as Heds
    by (intros; apply eds_setTerminal).
  assert (getTerminal h2 e (negb b) = getTerminal h e (negb b)) as Ho.
  { unfold h2. rewrite getTerminal_setTerminal, removeFromTerminal_terminal.
    by repeat (rewrite decide_False by (by destruct b; intros [])). }
  rewrite <-!Heds in *. rewrite Ho. destruct (decide (e ∈ eds h2 this)) as [Hmem|Hmem].
  - destruct (indexOf_elem _ _ Hmem) as (i & Hi & _). rewrite Hi.
    rewrite (bool_decide_true (getTerminal _ _ _ = _)) by by apply Hin.
    rewrite (proj2 (Z.ltb_ge _ _)) by lia. rewrite orb_false_r. simpl. rewrite orb_false_r.
    rewrite bool_decide_false
      by (intros E; unfold eds in Hmem; rewrite E in Hmem; by apply not_elem_of_nil in Hmem).
    rewrite decide_False; [done|]. intros [-> ?]. done.
  - rewrite (indexOf_notin _ _ Hmem), orb_true_r.
    unfold eds at 1. rewrite upd_lookup. destruct (decide (this = d)) as [->|Hd].
    + by rewrite decide_True.
    + rewrite decide_False by (by intros [-> _]). done.
Qed.

Lemma insertEdge_elem h this e b t e' :
  edges_sound h →
  e' ∈ eds (insertEdge h this (Some e) b) t ↔
  (e' = e ∧ t = this) ∨ e' ∈ eds (removeFromTerminal h e b) t.
Proof.
  intros Hok. rewrite insertEdge_eds by done. simpl. case_decide as Hd.
  - rewrite elem_of_app, list_elem_of_singleton. intuition congruence.
  - split; [by right|]. intros [[-> ->]|]; [|done].
    destruct (decide (e ∈ eds (removeFromTerminal h e b) this)); intuition.
Qed.

Lemma insertEdge_sound h this e b :
  edges_sound h → edges_sound (insertEdge h this (Some e) b).
Proof.
  intros Hok. pose proof (removeFromTerminal_sound h e b Hok) as Hrem. split.
  - intros t e'. rewrite insertEdge_elem by done. setoid_rewrite insertEdge_terminal.
    intros [[-> ->]|Hin]; [exists b; by rewrite decide_True|].
    destruct (edges_incident _ Hrem t e' Hin) as [b' Hb'].
    rewrite removeFromTerminal_terminal in Hb'. exists b'. by case_decide.
  - intros t. rewrite insertEdge_eds by done. simpl. case_decide as Hd; [|apply Hrem].
    apply NoDup_app. split; [apply Hrem|]. split; [|apply NoDup_singleton].
    intros x Hx ->%list_elem_of_singleton. by destruct Hd.
Qed.

(** Reconnecting one side of an edge keeps every other edge as it was. *)
Lemma insertEdge_other h this e b e' :
  edges_sound h → e' ≠ e →
  (∀ t, e' ∈ eds (insertEdge h this (Some e) b) t ↔ e' ∈ eds h t) ∧
  (∀ b', getTerminal (insertEdge h this (Some e) b) e' b' = getTerminal h e' b').
Proof.
  intros Hok Hne. split.
  - intros t. rewrite insertEdge_elem, removeFromTerminal_elem by done. intuition congruence.
  - intros b'. by rewrite insertEdge_terminal, decide_False by intuition.
Qed.

(** ** Frames: the two groups of operations do not touch each other's fields *)

Lemma tree_ok_ext h h' :
  (∀ d, kids h' d = kids h d) → (∀ d, parent (h' !!! d) = parent (h !!! d)) →
  tree_ok h → tree_ok h'.
Proof.
  intros Hk Hp [H1 H2]. split; intros; rewrite ?Hk, ?Hp; auto.
Qed.

(** The fields an operation on edges keeps, and those an operation on children keeps. *)
Definition same_tree (h h' : heap) : Prop :=
  ∀ d, children (h' !!! d) = children (h !!! d) ∧ parent (h' !!! d) = parent (h !!! d).
Definition same_edges (h h' : heap) : Prop :=
  ∀ d, edges (h' !!! d) = edges (h !!! d) ∧ source (h' !!! d) = source (h !!! d) ∧
       target (h' !!! d) = target (h !!! d).

#[global] Instance same_tree_preorder : PreOrder same_tree.
Proof. split; [done|]. intros x y z H1 H2 d. destruct (H1 d), (H2 d). split; congruence. Qed.
#[global] Instance same_edges_preorder : PreOrder same_edges.
Proof.
  split; [done|]. intros x y z H1 H2 d. destruct (H1 d) as (?&?&?), (H2 d) as (?&?&?).
  split_and!; congruence.
Qed.

Lemma same_tree_ok h h' : same_tree h h' → tree_ok h → tree_ok h'.
Proof.
  intros Hs. apply tree_ok_ext; intros d; destruct (Hs d) as [E1 E2]; unfold kids; congruence.
Qed.

Lemma same_edges_eds h h' : same_edges h h' →
  (∀ d, eds h' d = eds h d) ∧ ∀ d b, getTerminal h' d b = getTerminal h d b.
Proof.
  intros Hs. split; intros d; [|intros []];
    destruct (Hs d) as (E1 & E2 & E3); unfold eds, getTerminal; congruence.
Qed.

Lemma same_edges_sound h h' : same_edges h h' → edges_sound h → edges_sound h'.
Proof.
  intros [He Ht]%same_edges_eds [H1 H2].
  split; intros; rewrite ?He in *; [|done]. setoid_rewrite Ht. by apply H1.
Qed.

Lemma setTerminal_same_tree h c t b : same_tree h (setTerminal h c t b).
Proof. intros d. unfold setTerminal. destruct b; rewrite upd_lookup; case_decide; by subst. Qed.
#[export] Hint Resolve setTerminal_same_tree : js.

Lemma set_edges_same_tree h c l : same_tree h (upd c (set_edges l) h).
Proof. intros d. rewrite upd_lookup; case_decide; by subst. Qed.
#[export] Hint Resolve set_edges_same_tree : js.

Lemma removeEdge_same_tree h this e b : same_tree h (removeEdge h this e b).
Proof.
  destruct e as [e|]; [|done]. unfold removeEdge.
  etrans; [|apply setTerminal_same_tree].
  destruct (decide _); [|done]. destruct (edges _); [|done]. case_decide; auto with js. done.
Qed.

Lemma removeFromTerminal_same_tree h e b : same_tree h (removeFromTerminal h e b).
Proof. unfold removeFromTerminal. destruct (getTerminal h e b); [apply removeEdge_same_tree|done]. Qed.

Lemma insertEdge_same_tree h this e b : same_tree h (insertEdge h this e b).
Proof.
  destruct e as [e|]; [|done]. unfold insertEdge. cbv zeta.
  etrans; [apply (removeFromTerminal_same_tree h e b)|].
  etrans; [apply setTerminal_same_tree|]. case_match; [apply set_edges_same_tree|done].
Qed.

Lemma upd_same_edges c f h :
  (∀ x, edges (f x) = edges x ∧ source (f x) = source x ∧ target (f x) = target x) →
  same_edges h (upd c f h).
Proof. intros Hf d. rewrite upd_lookup. case_decide; subst; auto. Qed.

Lemma remove_same_edges h p i : same_edges h (remove h p i).1.
Proof.
  unfold remove. destruct (children _); [|done]. case_decide; [|done].
  destruct (getChildAt _ _ _); [|done]. simpl.
  etrans; apply upd_same_edges; done.
Qed.

Lemma removeFromParent_same_edges h c : same_edges h (removeFromParent h c).
Proof. unfold removeFromParent. destruct (parent _); [apply remove_same_edges|done]. Qed.

Lemma insert_same_edges h this ch i : same_edges h (insert h this ch i).1.
Proof.
  destruct ch as [ch|]; [|done]. simpl.
  etrans; [apply (removeFromParent_same_edges h ch)|].
  etrans; apply upd_same_edges; done.
Qed.

End MxCell.
