(* ===== verification/JsNumber.v ===== *)
(** * Whole numbers of JavaScript

    The numbers that ids count with (mxGraphModel.js): doubles that hold whole numbers,
    how they are incremented, written and read. Whole numbers below 2^53 are exact; above,
    sums are rounded to 53 bits, ties to the even neighbour. *)

From stdpp Require Import pretty.
From S2P Require Import Prelude.

Module JsNumber.

Local Open Scope N_scope.

Definition exact_bound : N := 2 ^ 53.
#[global] Arguments exact_bound : simpl never.

(** The double nearest to a whole number. *)
Definition to_double (n : N) : N :=
  if n <? exact_bound then n
  else
    let unit := 2 ^ (N.log2 n - 52) in
    let q := n / unit in
    let r := n mod unit in
    let up := (unit <? 2 * r) || ((unit =? 2 * r) && N.odd q) in
    (if up then q + 1 else q) * unit.
#[global] Arguments to_double : simpl never.

(** [n++] *)
Definition js_succ (n : N) : N := to_double (n + 1).
#[global] Arguments js_succ : simpl never.

(** *** Writing *)

(** The fewest digits that are read back as [n]: their value and the power of ten. *)
Fixpoint shortest_from (fuel : nat) (size k n : N) : N * N :=
  let unit := 10 ^ (size - k) in
  let s := (n + unit / 2) / unit in
  match fuel with
  | O => (s, unit)
  | S fuel => if to_double (s * unit) =? n then (s, unit) else shortest_from fuel size (k + 1) n
  end.
Definition decimals (n : N) : N := N.of_nat (String.length (pretty n)).
Definition shortest (n : N) : N * N := shortest_from 17 (decimals n) 1 n.

Fixpoint drop_zeros (fuel : nat) (n : N) : N :=
  match fuel with
  | O => n
  | S fuel => if (n mod 10 =? 0) && (0 <? n) then drop_zeros fuel (n / 10) else n
  end.

Definition js_string (n : N) : string :=
  if n <? exact_bound then pretty n
  else
    let '(s, unit) := shortest n in
    if n <? 10 ^ 21 then pretty (s * unit)
    else
      let exponent := decimals (s * unit) - 1 in
      match pretty (drop_zeros 17 s) with
      | String a w => String a (match w with EmptyString => "" | _ => "." +:+ w end) +:+ "e+" +:+ pretty exponent
      | EmptyString => ""
      end.
#[global] Arguments js_string : simpl never.

(** *** Reading *)

Definition digit (a : Ascii.ascii) : option N :=
  let n := Ascii.N_of_ascii a in
  if decide (48 <= n ∧ n <= 57) then Some (n - 48) else None.

Fixpoint parse_digits (acc : N) (s : string) : option N :=
  match s with
  | EmptyString => Some acc
  | String a s => match digit a with Some k => parse_digits (10 * acc + k) s | None => None end
  end.

(** [isNumeric] and the conversion of [Math.max], for strings of decimal digits: ids that
    are fractions, exponents or padded with blanks are not modelled. Numbers from 2^1024
    on are infinite and no numbers for [isNumeric]. *)
Definition numeric (s : string) : option N :=
  match s with
  | EmptyString => None
  | _ => n ← parse_digits 0 s; if to_double n <? 2 ^ 1024 then Some (to_double n) else None
  end.

(** *** Laws *)

Lemma to_double_exact n : n < exact_bound → to_double n = n.
Proof. intros Hn. unfold to_double. by rewrite (proj2 (N.ltb_lt _ _) Hn). Qed.

(** A number that is not exact is not rounded below the bound. *)
Lemma to_double_large n : exact_bound <= n → exact_bound <= to_double n.
Proof.
  intros Hn. unfold to_double. rewrite (proj2 (N.ltb_ge _ _) Hn).
  set (u := 2 ^ (N.log2 n - 52)).
  assert (53 <= N.log2 n) as Hl by (apply N.log2_le_pow2; [|done]; unfold exact_bound in Hn; lia).
  assert (2 ^ 52 <= n / u) as Hq.
  { apply N.div_le_lower_bound; [unfold u; apply N.pow_nonzero; lia|]. unfold u. rewrite <- N.pow_add_r.
    replace (N.log2 n - 52 + 52) with (N.log2 n) by lia. apply N.log2_spec. unfold exact_bound in Hn. lia. }
  assert (2 <= u) as Hu by (unfold u; change 2 with (2 ^ 1) at 1; apply N.pow_le_mono_r; lia).
  assert (exact_bound = 2 ^ 52 * 2) as -> by done.
  etrans; [apply (N.mul_le_mono _ _ _ _ Hq Hu)|]. apply N.mul_le_mono_r. destruct (_ || _); lia.
Qed.

Lemma js_succ_exact n : n + 1 < exact_bound → js_succ n = n + 1.
Proof. apply to_double_exact. Qed.

Lemma js_succ_bound n : js_succ n < exact_bound → js_succ n = n + 1 ∧ n + 1 < exact_bound.
Proof.
  intros H. destruct (N.lt_ge_cases (n + 1) exact_bound) as [Hn|Hn]; [by rewrite js_succ_exact|].
  apply to_double_large in Hn. unfold js_succ in H. lia.
Qed.

Lemma js_string_exact n : n < exact_bound → js_string n = pretty n.
Proof. intros Hn. unfold js_string. by rewrite (proj2 (N.ltb_lt _ _) Hn). Qed.

(** At the bound the counter stops. *)
Lemma js_succ_stops : js_succ exact_bound = exact_bound.
Proof. vm_compute. done. Qed.

(** Strings that engines print. *)
Example string_2_53 : js_string (2 ^ 53) = "9007199254740992".
Proof. vm_compute. done. Qed.
Example string_2_60 : js_string (2 ^ 60) = "1152921504606847000".
Proof. vm_compute. done. Qed.
Example string_1e23 : js_string (to_double (10 ^ 23)) = "1e+23".
Proof. vm_compute. done. Qed.
Example string_30_digits : js_string (to_double 123456789012345678901234567890) = "1.2345678901234568e+29".
Proof. vm_compute. done. Qed.
Example odd_is_rounded : numeric "9007199254740993" = Some (2 ^ 53).
Proof. vm_compute. done. Qed.

End JsNumber.
