(* ===== verification/MxModel.v ===== *)
(** * The graph model: data, tree queries and atomic changes

    Models the parts of mxGraphModel.js that work on the tree of cells: the queries, the
    dictionary of ids, and the changes (mxRootChange to mxVisibleChange) as functions on
    the data of a model. *)

From stdpp Require Import pretty.
From S2P Require Import Prelude JsNumber MxGeometry MxCell.
Import JsNumber MxGeometry MxCell.

Module MxModel.

(** ** State *)

(** The settings of a model, fixed while it is used. *)
Record config := Config {
  createIds : bool;
  prefix : string;
  postfix : string;
  maintainEdgeParent : bool;
  ignoreRelativeEdgeParent : bool
}.

(** [mxGraphModel.prototype] *)
Definition default_config : config := Config true "" "" true true.

(** The graph data: the heap of cells, [root], [cells] (the dictionary by id),
    [nextId], and the supply of identities for new geometry objects. *)
Record data := Data {
  hp : heap;
  root : option ref;
  cells : option (gmap string ref);
  nextId : N;
  georef : nat
}.

Definition set_hp (h : heap) (d : data) : data := Data h (root d) (cells d) (nextId d) (georef d).
Definition set_cells (m : option (gmap string ref)) (d : data) : data :=
  Data (hp d) (root d) m (nextId d) (georef d).
Definition set_nextId (n : N) (d : data) : data := Data (hp d) (root d) (cells d) n (georef d).

(** Loops along parents and recursions over children need at most one step per cell. *)
Definition fuel (h : heap) : nat := S (size h).
#[global] Arguments fuel : simpl never.

(** ** Queries *)

Definition getParent (h : heap) (cell : option ref) : option ref :=
  cell ≫= λ c, parent (h !!! c).

Fixpoint ancestor_loop (n : nat) (h : heap) (par child : option ref) : option ref :=
  match n with
  | 0 => child
  | S n => if decide (child ≠ None ∧ child ≠ par)
           then ancestor_loop n h par (getParent h child) else child
  end.

Definition isAncestor (h : heap) (par child : option ref) : bool :=
  bool_decide (ancestor_loop (fuel h) h par child = par).

Definition contains (d : data) (cell : option ref) : bool := isAncestor (hp d) (root d) cell.

Fixpoint root_loop (n : nat) (h : heap) (cell : ref) : ref :=
  match n with
  | 0 => cell
  | S n => match parent (h !!! cell) with
           | Some p => root_loop n h p
           | None => cell
           end
  end.

(** [getRoot(cell)]: the topmost ancestor of the cell, or the root of the model. *)
Definition getRoot (d : data) (cell : option ref) : option ref :=
  match cell with
  | Some c => Some (root_loop (fuel (hp d)) (hp d) c)
  | None => root d
  end.

Definition isRoot (d : data) (cell : option ref) : bool :=
  bool_decide (cell ≠ None ∧ root d = cell).
Definition isLayer (d : data) (cell : option ref) : bool := isRoot d (getParent (hp d) cell).

(** [filterDescendants(filter, parent)] *)
Fixpoint filterDescendants_from (n : nat) (h : heap) (f : ref → bool) (par : ref) : list ref :=
  match n with
  | 0 => []
  | S n => (if f par then [par] else []) ++
           concat (map (filterDescendants_from n h f) (kids h par))
  end.

(** Without a parent the recursion starts at the root of the model; a model without
    root gives the array that holds [null] if the filter accepts it. *)
Definition filterDescendants (d : data) (f : option ref → bool) (par : option ref) : list (option ref) :=
  match (match par with Some p => Some p | None => root d end) with
  | Some p => Some <$> filterDescendants_from (fuel (hp d)) (hp d) (f ∘ Some) p
  | None => if f None then [None] else []
  end.

Definition getDescendants (d : data) (par : option ref) : list (option ref) :=
  filterDescendants d (λ _, true) par.

Definition getCell (d : data) (i : string) : option ref := cells d ≫= λ m, m !! i.

Definition getChildCells (h : heap) (par : ref) (vertices edges : bool) : list ref :=
  filter (λ child, ((negb edges && negb vertices) || (edges && edge (h !!! child))
                    || (vertices && vertex (h !!! child))) = true) (kids h par).

Definition getEdges (h : heap) (cell : ref) (incoming outgoing includeLoops : bool) : list ref :=
  filter (λ e, let source := getTerminal h e true in
               let target := getTerminal h e false in
               ((includeLoops && bool_decide (source = target))
                || (negb (bool_decide (source = target))
                    && ((incoming && bool_decide (target = Some cell))
                        || (outgoing && bool_decide (source = Some cell))))) = true)
         (eds h cell).

Definition getConnections (h : heap) (cell : ref) : list ref := getEdges h cell true true false.
Definition getIncomingEdges (h : heap) (cell : ref) : list ref := getEdges h cell true false false.
Definition getOutgoingEdges (h : heap) (cell : ref) : list ref := getEdges h cell false true false.

Definition getDirectedEdgeCount (h : heap) (cell : ref) (outgoing : bool) (ignoredEdge : option ref) : nat :=
  length (filter (λ e, Some e ≠ ignoredEdge ∧ getTerminal h e outgoing = Some cell) (eds h cell)).

(** Searches the shorter of the two lists of edges. *)
Definition getEdgesBetween (h : heap) (src trg : ref) (directed : bool) : list ref :=
  let terminal := if decide (getEdgeCount h trg < getEdgeCount h src) then trg else src in
  filter (λ e, (getTerminal h e true = Some src ∧ getTerminal h e false = Some trg) ∨
               (directed = false ∧ getTerminal h e false = Some src ∧ getTerminal h e true = Some trg))
         (eds h terminal).

Definition opposite (h : heap) (terminal : ref) (sources targets : bool) (e : ref) : option ref :=
  let source := getTerminal h e true in
  let target := getTerminal h e false in
  if decide (source = Some terminal ∧ target ≠ None ∧ target ≠ Some terminal ∧ targets = true)
  then target
  else if decide (target = Some terminal ∧ source ≠ None ∧ source ≠ Some terminal ∧ sources = true)
  then source else None.

Definition getOpposites (h : heap) (es : list ref) (terminal : ref) (sources targets : bool) : list ref :=
  omap (opposite h terminal sources targets) es.

Fixpoint has_ancestor_in (n : nat) (h : heap) (s : list ref) (par : option ref) : bool :=
  match n, par with
  | S n, Some p => bool_decide (p ∈ s) || has_ancestor_in n h s (parent (h !!! p))
  | _, _ => false
  end.

Definition getTopmostCells (h : heap) (cs : list ref) : list ref :=
  filter (λ c, has_ancestor_in (fuel h) h cs (parent (h !!! c)) = false) cs.

Definition getParents (h : heap) (cs : list ref) : list ref :=
  foldl (λ acc c, match parent (h !!! c) with
                  | Some p => if decide (p ∈ acc) then acc else acc ++ [p]
                  | None => acc
                  end) [] cs.

(** ** Identifiers *)

Section Model.
Context (cfg : config).

Definition createId (d : data) : data * string :=
  (set_nextId (js_succ (nextId d)) d, prefix cfg +:+ js_string (nextId d) +:+ postfix cfg).

(** The loop of [cellAdded] that renames the cell while another cell has its id. It ends
    within one step per id of the dictionary as long as the counter is below 2^53; a
    counter at 2^53 stops, and the loop of the code may not end. *)
Fixpoint rename_loop (n : nat) (cell : ref) (d : data) : data :=
  match n with
  | 0 => d
  | S n =>
      match id (hp d !!! cell) ≫= getCell d with
      | None => d
      | Some _ =>
          let '(d, i) := createId d in
          rename_loop n cell (set_hp (upd cell (set_id (Some i)) (hp d)) d)
      end
  end.

(** The part of [cellAdded] before the recursion over the children. *)
Definition register (cell : ref) (d : data) : data :=
  let d := match id (hp d !!! cell) with
           | None => if createIds cfg then
                       let '(d, i) := createId d in set_hp (upd cell (set_id (Some i)) (hp d)) d
                     else d
           | Some _ => d
           end in
  let d := match id (hp d !!! cell) with
           | None => d
           | Some i =>
               if decide (getCell d i = Some cell) then d
               else let d := rename_loop (S (size (default ∅ (cells d)))) cell d in
                    match id (hp d !!! cell) with
                    | Some i => set_cells (Some (<[i := cell]> (default ∅ (cells d)))) d
                    | None => d
                    end
           end in
  match id (hp d !!! cell) ≫= numeric with
  | Some k => set_nextId (N.max (nextId d) k) d
  | None => d
  end.

Fixpoint cellAdded_from (n : nat) (d : data) (cell : ref) : data :=
  match n with
  | 0 => d
  | S n => let d := register cell d in foldl (cellAdded_from n) d (kids (hp d) cell)
  end.

Definition cellAdded (d : data) (cell : option ref) : data :=
  match cell with
  | Some c => cellAdded_from (fuel (hp d)) d c
  | None => d
  end.

Fixpoint cellRemoved_from (n : nat) (d : data) (cell : ref) : data :=
  match n with
  | 0 => d
  | S n =>
      match cells d with
      | None => d
      | Some _ =>
          let d := foldl (cellRemoved_from n) d (reverse (kids (hp d) cell)) in
          match cells d, id (hp d !!! cell) with
          | Some m, Some i => set_cells (Some (delete i m)) d
          | _, _ => d
          end
      end
  end.

Definition cellRemoved (d : data) (cell : option ref) : data :=
  match cell with
  | Some c => cellRemoved_from (fuel (hp d)) d c
  | None => d
  end.

(** ** The effects of the atomic changes; each returns the previous value *)

Definition rootChanged (d : data) (r : option ref) : data * option ref :=
  (cellAdded (Data (hp d) r None 0%N (georef d)) r, root d).

Definition parentForCellChanged (d : data) (cell : ref) (par : option ref) (index : option Z)
    : data * option ref :=
  let previous := parent (hp d !!! cell) in
  let h := match par with
           | Some p =>
               if decide (par ≠ previous ∨ Some (getIndex (hp d) p cell) ≠ index)
               then (insert (hp d) p (Some cell) index).1 else hp d
           | None =>
               match previous with
               | Some q => (remove (hp d) q (getIndex (hp d) q cell)).1
               | None => hp d
               end
           end in
  let d := set_hp h d in
  let par_in := contains d par in
  let pre_in := contains d previous in
  (if par_in && negb pre_in then cellAdded d (Some cell)
   else if pre_in && negb par_in then cellRemoved d (Some cell)
   else d, previous).

Definition terminalForCellChanged (h : heap) (e : ref) (terminal : option ref) (isSource : bool)
    : heap * option ref :=
  let previous := getTerminal h e isSource in
  (match terminal with
   | Some t => insertEdge h t (Some e) isSource
   | None => match previous with
             | Some p => removeEdge h p (Some e) isSource
             | None => h
             end
   end, previous).

(** [mxChildChange.connect] for one cell. *)
Definition connect_cell (h : heap) (cell : ref) (isConnect : bool) : heap :=
  let source := getTerminal h cell true in
  let target := getTerminal h cell false in
  let h := match source with
           | Some _ => (terminalForCellChanged h cell (if isConnect then source else None) true).1
           | None => h
           end in
  let h := match target with
           | Some _ => (terminalForCellChanged h cell (if isConnect then target else None) false).1
           | None => h
           end in
  setTerminal (setTerminal h cell source true) cell target false.

Fixpoint connect_from (isConnect : bool) (n : nat) (h : heap) (cell : ref) : heap :=
  match n with
  | 0 => h
  | S n => let h := connect_cell h cell isConnect in
           foldl (connect_from isConnect n) h (kids h cell)
  end.

Definition connect (h : heap) (cell : ref) (isConnect : bool) : heap :=
  connect_from isConnect (fuel h) h cell.

(** ** The atomic changes *)

Inductive change :=
| mxRootChange (croot previous : option ref)
| mxChildChange (cparent previous : option ref) (child : option ref) (index previousIndex : option Z)
| mxTerminalChange (cell : option ref) (terminal previous : option ref) (isSource : bool)
| mxValueChange (cell : option ref) (v previous : option string)
| mxStyleChange (cell : option ref) (s previous : option string)
| mxGeometryChange (cell : option ref) (g previous : option mxGeometry)
| mxCollapseChange (cell : option ref) (b previous : bool)
| mxVisibleChange (cell : option ref) (b previous : bool).

(** The constructors called by the model. *)
Definition new_mxRootChange (r : option ref) : change := mxRootChange r r.
Definition new_mxChildChange (par child : option ref) (index : option Z) : change :=
  mxChildChange par par child index index.
Definition new_mxTerminalChange (cell terminal : option ref) (isSource : bool) : change :=
  mxTerminalChange cell terminal terminal isSource.
Definition new_mxValueChange (cell : option ref) (v : option string) : change := mxValueChange cell v v.
Definition new_mxStyleChange (cell : option ref) (s : option string) : change := mxStyleChange cell s s.
Definition new_mxGeometryChange (cell : option ref) (g : option mxGeometry) : change :=
  mxGeometryChange cell g g.
Definition new_mxCollapseChange (cell : option ref) (b : bool) : change := mxCollapseChange cell b b.
Definition new_mxVisibleChange (cell : option ref) (b : bool) : change := mxVisibleChange cell b b.

Definition field_changed (c : ref) (f : mxCell → mxCell) (d : data) : data := set_hp (upd c f (hp d)) d.

Definition execute_child (d : data) (previous : option ref) (child : ref) (previousIndex : option Z)
    : data * change :=
  let tmp := parent (hp d !!! child) in
  let tmp2 := match tmp with Some p => getIndex (hp d) p child | None => 0%Z end in
  let d := match previous with None => set_hp (connect (hp d) child false) d | Some _ => d end in
  let '(d, tmp) := parentForCellChanged d child previous previousIndex in
  let d := match previous with Some _ => set_hp (connect (hp d) child true) d | None => d end in
  (d, mxChildChange previous tmp (Some child) previousIndex (Some tmp2)).

Definition execute_root (d : data) (previous : option ref) : data * change :=
  let '(d, old) := rootChanged d previous in (d, mxRootChange previous old).

Definition execute_terminal (d : data) (c : ref) (previous : option ref) (isSource : bool) : data * change :=
  let '(h, old) := terminalForCellChanged (hp d) c previous isSource in
  (set_hp h d, mxTerminalChange (Some c) previous old isSource).

Definition execute_value (d : data) (c : ref) (previous : option string) : data * change :=
  (field_changed c (set_value previous) d, mxValueChange (Some c) previous (value (hp d !!! c))).
Definition execute_style (d : data) (c : ref) (previous : option string) : data * change :=
  (field_changed c (set_style previous) d, mxStyleChange (Some c) previous (style (hp d !!! c))).
Definition execute_geometry (d : data) (c : ref) (previous : option mxGeometry) : data * change :=
  (field_changed c (set_geometry previous) d,
   mxGeometryChange (Some c) previous (geometry (hp d !!! c))).
Definition execute_collapse (d : data) (c : ref) (previous : bool) : data * change :=
  (field_changed c (set_collapsed previous) d,
   mxCollapseChange (Some c) previous (collapsed (hp d !!! c))).
Definition execute_visible (d : data) (c : ref) (previous : bool) : data * change :=
  (field_changed c (set_visible previous) d,
   mxVisibleChange (Some c) previous (visible (hp d !!! c))).

(** [change.execute()]: every change swaps its value with the one in the model, so
    executing it again undoes it. *)
Definition execute_change (d : data) (ch : change) : data * change :=
  match ch with
  | mxRootChange _ previous => execute_root d previous
  | mxChildChange _ previous (Some child) _ previousIndex => execute_child d previous child previousIndex
  | mxTerminalChange (Some c) _ previous isSource => execute_terminal d c previous isSource
  | mxValueChange (Some c) _ previous => execute_value d c previous
  | mxStyleChange (Some c) _ previous => execute_style d c previous
  | mxGeometryChange (Some c) _ previous => execute_geometry d c previous
  | mxCollapseChange (Some c) _ previous => execute_collapse d c previous
  | mxVisibleChange (Some c) _ previous => execute_visible d c previous
  | _ => (d, ch)
  end.

End Model.

(** ** Parent chains *)

(** [depth h c n]: the cell [c] has [n] proper ancestors. *)
Inductive depth (h : heap) : ref → nat → Prop :=
| depth_top c : parent (h !!! c) = None → depth h c 0
| depth_up c p n : parent (h !!! c) = Some p → depth h p n → depth h c (S n).

(** Every chain of parents ends. *)
Definition acyclic (h : heap) : Prop := ∀ c, ∃ n, depth h c n.

Lemma depth_fun h c n m : depth h c n → depth h c m → n = m.
Proof.
  intros Hn. revert m. induction Hn as [c Hc|c p n Hc _ IH]; intros m Hm;
    inversion_clear Hm; simplify_eq; [done|congruence..|f_equal; auto].
Qed.

(** A chain of parents visits distinct cells of the heap, so [fuel] is enough. *)
Lemma depth_chain h c n :
  depth h c n → ∃ l, length l = n ∧ NoDup l ∧
    ∀ x, x ∈ l → x ∈ dom h ∧ ∃ k, 0 < k ≤ n ∧ depth h x k.
Proof.
  intros Hd. induction Hd as [c Hc|c p n Hc Hp IH].
  { exists []. split_and!; [done|constructor|]. by intros x ?%not_elem_of_nil. }
  destruct IH as (l & Hlen & Hnd & Hl). exists (c :: l). split_and!.
  - simpl. by rewrite Hlen.
  - apply NoDup_cons. split; [|done]. intros (_ & k & Hk & Hck)%Hl.
    assert (k = S n) by (eapply depth_fun; [done|by econstructor]). lia.
  - intros x [->|Hx]%elem_of_cons.
    + split; [|exists (S n); split; [lia|by econstructor]].
      destruct (h !! c) eqn:Hhc; [by eapply elem_of_dom_2|].
      by rewrite (lookup_total_alt h c), Hhc in Hc.
    + destruct (Hl x Hx) as (? & k & ? & ?). split; [done|]. exists k. split; [lia|done].
Qed.

Lemma depth_fuel h c n : depth h c n → n < fuel h.
Proof.
  intros (l & <- & Hnd & Hl)%depth_chain. unfold fuel.
  enough (length l ≤ size (dom h)) by (rewrite size_dom in *; lia).
  rewrite <-(size_list_to_set (C:=gset ref) l) by done.
  apply subseteq_size. intros x. rewrite elem_of_list_to_set. naive_solver.
Qed.

(** The ancestor relation of the specification. *)
Definition step_up (h : heap) (x y : ref) : Prop := parent (h !!! x) = Some y.
Abbreviation ancestor h p c := (rtc (step_up h) c p).

Lemma ancestor_loop_None n h par : ancestor_loop n h par None = None.
Proof. by destruct n. Qed.

Lemma stop_at_parent (c p : ref) : ¬ (Some c ≠ None ∧ Some c ≠ Some p) → Some c = Some p.
Proof. intros Hn. destruct (decide (c = p)) as [->|]; [done|]. exfalso. apply Hn. naive_solver. Qed.

Lemma ancestor_loop_spec h c n m p :
  depth h c m → m < n →
  ancestor_loop n h (Some p) (Some c) = Some p ↔ ancestor h p c.
Proof.
  intros Hd. revert n. induction Hd as [c Hc|c q m Hc Hd IH]; intros [|n] Hn; try lia; simpl.
  - case_decide as Hcp.
    + unfold getParent. simpl. rewrite Hc, ancestor_loop_None. split; [done|].
      intros Ha; inversion Ha as [|? y ? Hy]; simplify_eq; [naive_solver|].
      unfold step_up in Hy; congruence.
    + split; [intros [= ->]; constructor|]. intros _. by apply stop_at_parent.
  - case_decide as Hcp.
    + unfold getParent. simpl. rewrite Hc, IH by lia. split.
      * intros Ha. by econstructor.
      * intros Ha. inversion Ha as [|? y ? Hy]; simplify_eq; [naive_solver|].
        unfold step_up in Hy. by simplify_eq.
    + split; [intros [= ->]; constructor|]. intros _. by apply stop_at_parent.
Qed.

Lemma isAncestor_spec h p c :
  acyclic h → isAncestor h (Some p) (Some c) = true ↔ ancestor h p c.
Proof.
  intros Hac. destruct (Hac c) as [m Hm]. unfold isAncestor. rewrite bool_decide_eq_true.
  eapply ancestor_loop_spec; [done|]. by eapply depth_fuel.
Qed.

(** ** Connecting and disconnecting the edges of a subtree *)

(** The fields of a cell that neither tree nor edge operations write. *)
Definition attrs (c : mxCell) :=
  (value c, geometry c, style c, vertex c, edge c, connectable c, visible c, collapsed c).
Definition same_attrs (h h' : heap) : Prop := ∀ d, attrs (h' !!! d) = attrs (h !!! d).

#[global] Instance same_attrs_preorder : PreOrder same_attrs.
Proof. split; [done|]. intros x y z H1 H2 d. by rewrite H2, H1. Qed.

Lemma upd_same_attrs c f h : (∀ x, attrs (f x) = attrs x) → same_attrs h (upd c f h).
Proof. intros Hf d. rewrite upd_lookup. case_decide; subst; auto. Qed.

Lemma setTerminal_same_attrs h c t b : same_attrs h (setTerminal h c t b).
Proof. unfold setTerminal. destruct b; by apply upd_same_attrs. Qed.

Lemma removeEdge_same_attrs h this e b : same_attrs h (removeEdge h this e b).
Proof.
  destruct e as [e|]; [|done]. unfold removeEdge.
  etrans; [|apply setTerminal_same_attrs].
  destruct (decide _); [|done]. destruct (edges _); [|done].
  case_decide; [by apply upd_same_attrs|done].
Qed.

Lemma removeFromTerminal_same_attrs h e b : same_attrs h (removeFromTerminal h e b).
Proof. unfold removeFromTerminal. destruct (getTerminal h e b); [apply removeEdge_same_attrs|done]. Qed.

Lemma insertEdge_same_attrs h this e b : same_attrs h (insertEdge h this e b).
Proof.
  destruct e as [e|]; [|done]. unfold insertEdge. cbv zeta.
  etrans; [apply (removeFromTerminal_same_attrs h e b)|].
  etrans; [apply setTerminal_same_attrs|]. case_match; [by apply upd_same_attrs|done].
Qed.

Lemma remove_same_attrs h p i : same_attrs h (remove h p i).1.
Proof.
  unfold remove. destruct (children _); [|done]. case_decide; [|done].
  destruct (getChildAt _ _ _); [|done]. simpl. etrans; by apply upd_same_attrs.
Qed.

Lemma insert_same_attrs h this ch i : same_attrs h (insert h this ch i).1.
Proof.
  destruct ch as [ch|]; [|done]. simpl. unfold removeFromParent.
  etrans; [|by apply upd_same_attrs]. etrans; [|by apply upd_same_attrs].
  destruct (parent _); [apply remove_same_attrs|done].
Qed.

(** What [connect] does: the cells of [l] become attached (or detached), nothing else
    changes. *)
Record connects (b : bool) (l : list ref) (h h' : heap) : Prop := {
  connects_sound : edges_sound h';
  connects_tree : same_tree h h';
  connects_attrs : same_attrs h h';
  connects_terminal : ∀ d s, getTerminal h' d s = getTerminal h d s;
  connects_in : ∀ e, e ∈ l → if b then attached h' e else detached h' e;
  connects_out : ∀ e t, e ∉ l → e ∈ eds h' t ↔ e ∈ eds h t
}.

Lemma restore_terminals h h' e :
  (∀ d s, d ≠ e → getTerminal h' d s = getTerminal h d s) →
  ∀ d s, getTerminal (setTerminal (setTerminal h' e (getTerminal h e true) true)
                                  e (getTerminal h e false) false) d s = getTerminal h d s.
Proof.
  intros Ho d s. rewrite !getTerminal_setTerminal. repeat case_decide; destruct_and?; subst; try done.
  destruct (decide (d = e)) as [->|]; [|by apply Ho]. destruct s; exfalso; intuition.
Qed.

Lemma connect_cell_true h e : edges_sound h → connects true [e] h (connect_cell h e true).
Proof.
  intros Hok. unfold connect_cell, terminalForCellChanged. cbn [fst].
  set (h1 := match getTerminal h e true with Some _ => _ | None => _ end).
  set (h2 := match getTerminal h e false with Some _ => _ | None => _ end).
  assert (edges_sound h1 ∧ same_tree h h1 ∧ same_attrs h h1 ∧
    (∀ d s, getTerminal h1 d s = getTerminal h d s) ∧
    (∀ s, getTerminal h e true = Some s → e ∈ eds h1 s) ∧
    (∀ d t, d ≠ e → d ∈ eds h1 t ↔ d ∈ eds h t)) as (S1 & T1 & A1 & G1 & I1 & O1).
  { unfold h1. destruct (getTerminal h e true) as [s|] eqn:Hs; [|done]. split_and!.
    - by apply insertEdge_sound.
    - apply insertEdge_same_tree.
    - apply insertEdge_same_attrs.
    - intros d b. rewrite insertEdge_terminal. case_decide; [destruct_and!; congruence|done].
    - intros ? [= ->]. rewrite insertEdge_elem by done. by left.
    - intros d t Hd. by apply insertEdge_other. }
  assert (edges_sound h2 ∧ same_tree h1 h2 ∧ same_attrs h1 h2 ∧
    (∀ d s, getTerminal h2 d s = getTerminal h d s) ∧
    (∀ b s, getTerminal h e b = Some s → e ∈ eds h2 s) ∧
    (∀ d t, d ≠ e → d ∈ eds h2 t ↔ d ∈ eds h t)) as (S2 & T2 & A2 & G2 & I2 & O2).
  { unfold h2. destruct (getTerminal h e false) as [t|] eqn:Ht; [split_and!|].
    - by apply insertEdge_sound.
    - apply insertEdge_same_tree.
    - apply insertEdge_same_attrs.
    - intros d b. rewrite insertEdge_terminal, G1. case_decide; [destruct_and!; congruence|done].
    - intros b s Hb. rewrite insertEdge_elem, removeFromTerminal_elem, G1 by done. destruct b; [right; split; [auto|done]|left; split; [done|congruence]].
    - intros d t' Hd. rewrite <-O1 by done. by apply insertEdge_other.
    - split_and!; try done. intros [] s Hb; [auto|congruence]. }
  pose proof (restore_terminals h h2 e ltac:(auto)) as G3. split.
  - split; intros t; [intros d|]; rewrite !eds_setTerminal; [|apply S2].
    setoid_rewrite G3. intros Hin. destruct (edges_incident h2 S2 t d Hin) as [b Hb].
    exists b. by rewrite <-G2.
  - etrans; [exact T1|]. etrans; [exact T2|].
    etrans; [|apply setTerminal_same_tree]. apply setTerminal_same_tree.
  - etrans; [exact A1|]. etrans; [exact A2|].
    etrans; [|apply setTerminal_same_attrs]. apply setTerminal_same_attrs.
  - exact G3.
  - intros ? ->%list_elem_of_singleton b t. rewrite G3, !eds_setTerminal. apply I2.
  - intros d t Hd%not_elem_of_cons. rewrite !eds_setTerminal. apply O2. by destruct Hd.
Qed.

Lemma connect_cell_false h e : edges_sound h → connects false [e] h (connect_cell h e false).
Proof.
  intros Hok. unfold connect_cell.
  assert (connect_off : ∀ h b, match getTerminal h e b with
    | Some _ => (terminalForCellChanged h e None b).1 | None => h end = removeFromTerminal h e b).
  { intros h' b. unfold terminalForCellChanged, removeFromTerminal. by destruct (getTerminal h' e b). }
  rewrite connect_off. set (h1 := removeFromTerminal h e true).
  assert (getTerminal h1 e false = getTerminal h e false) as <-.
  { unfold h1. by rewrite removeFromTerminal_terminal, decide_False by (by intros []). }
  rewrite connect_off. set (h2 := removeFromTerminal h1 e false).
  assert (S1 : edges_sound h1) by by apply removeFromTerminal_sound.
  assert (S2 : edges_sound h2) by by apply removeFromTerminal_sound.
  assert (G1 : ∀ d s, getTerminal h1 d s = if decide (d = e ∧ s = true) then None else getTerminal h d s)
    by (intros; apply removeFromTerminal_terminal).
  assert (E2 : ∀ d t, d ∈ eds h2 t ↔ d ∈ eds h t ∧ d ≠ e).
  { intros d t. unfold h2, h1. rewrite !removeFromTerminal_elem by done.
    rewrite removeFromTerminal_terminal, decide_True by done. intuition congruence. }
  rewrite (G1 e false), decide_False by (by intros []).
  assert (G2 : ∀ d s, d ≠ e → getTerminal h2 d s = getTerminal h d s).
  { intros d s Hd. unfold h2. rewrite removeFromTerminal_terminal, G1.
    by rewrite !decide_False by (by intros []). }
  pose proof (restore_terminals h h2 e G2) as G3. split.
  - split; intros t; [intros d|]; rewrite !eds_setTerminal; [|apply S2].
    setoid_rewrite G3. rewrite E2. intros [Hin _]. by apply Hok.
  - do 2 (etrans; [|apply setTerminal_same_tree]).
    etrans; [apply (removeFromTerminal_same_tree h e true)|apply removeFromTerminal_same_tree].
  - do 2 (etrans; [|apply setTerminal_same_attrs]).
    etrans; [apply (removeFromTerminal_same_attrs h e true)|apply removeFromTerminal_same_attrs].
  - exact G3.
  - intros ? ->%list_elem_of_singleton t. rewrite !eds_setTerminal, E2. intuition.
  - intros d t Hd%not_elem_of_cons. rewrite !eds_setTerminal, E2. intuition.
Qed.

Lemma connect_cell_spec b h e : edges_sound h → connects b [e] h (connect_cell h e b).
Proof. destruct b; [apply connect_cell_true|apply connect_cell_false]. Qed.

Lemma connects_kids b l h h' d : connects b l h h' → kids h' d = kids h d.
Proof. intros Hc. unfold kids. by rewrite (proj1 (connects_tree _ _ _ _ Hc d)). Qed.

Lemma connects_app b l1 l2 h1 h2 h3 :
  connects b l1 h1 h2 → connects b l2 h2 h3 → connects b (l1 ++ l2) h1 h3.
Proof.
  intros [? T1 A1 G1 I1 O1] [S3 T2 A2 G2 I2 O2]. split.
  - done.
  - by etrans.
  - by etrans.
  - intros. by rewrite G2, G1.
  - intros e He. destruct (decide (e ∈ l2)) as [HQ|HQ]; [by apply I2|].
    assert (e ∈ l1) as HP by (apply elem_of_app in He; tauto). specialize (I1 e HP).
    destruct b; [intros s t Ht; rewrite O2 by done; apply (I1 s); by rewrite <-G2
                |intros t; rewrite O2 by done; apply I1].
  - intros e t [??]%not_elem_of_app. by rewrite O2, O1.
Qed.

Lemma connects_nil b h : edges_sound h → connects b [] h h.
Proof. intros. split; try done. by intros e ?%not_elem_of_nil. Qed.

(** The cells of a subtree, in the order the recursions visit them. *)
Abbreviation subtree n h c := (filterDescendants_from n h (λ _, true) c).

Lemma same_tree_subtree n h h' c : same_tree h h' → subtree n h' c = subtree n h c.
Proof.
  intros Hs. assert (∀ d, kids h' d = kids h d) as Hk
    by (intros d; unfold kids; by rewrite (proj1 (Hs d))).
  revert c. induction n as [|n IH]; intros c; simpl; [done|]. f_equal. rewrite Hk.
  induction (kids h c) as [|k l IHl]; simpl; [done|]. by rewrite IH, IHl.
Qed.

Lemma connect_from_spec b n h c :
  edges_sound h → connects b (subtree n h c) h (connect_from b n h c).
Proof.
  revert h c. induction n as [|n IH]; intros h c Hok; simpl; [by apply connects_nil|].
  pose proof (connect_cell_spec b h c Hok) as H1.
  rewrite (connects_kids _ _ _ _ c H1).
  assert (∀ l h1, edges_sound h1 → same_tree h h1 →
    connects b (concat (map (filterDescendants_from n h (λ _, true)) l)) h1
             (foldl (connect_from b n) h1 l)) as Hl.
  { intros l. induction l as [|k l IHl]; intros h1 Hs1 Ht1; simpl; [by apply connects_nil|].
    pose proof (IH h1 k Hs1) as Hk. rewrite (same_tree_subtree n h h1 k Ht1) in Hk.
    eapply connects_app; [exact Hk|apply IHl; [apply Hk|]].
    etrans; [exact Ht1|apply Hk]. }
  apply (connects_app b [c] _ _ _ _ H1), Hl; apply H1.
Qed.

(** The subtree consists of the cells below [c]. *)
Lemma subtree_ancestor n h c x : tree_ok h → x ∈ subtree n h c → ancestor h c x.
Proof.
  intros Ht. revert c. induction n as [|n IH]; intros c; simpl; [by intros ?%not_elem_of_nil|].
  intros [->|Hx]%elem_of_cons; [constructor|].
  apply elem_of_concat in Hx as (l & Hx & Hl).
  apply list_elem_of_fmap in Hl as (k & -> & Hk). apply (tree_parent h Ht) in Hk.
  eapply rtc_r; [by apply IH|done].
Qed.

Lemma depth_ancestor h c x n m : depth h c n → depth h x m → ancestor h c x → n ≤ m.
Proof.
  intros Hc Hx Ha. revert m Hx. induction Ha as [x|x y z Hxy Ha IH]; intros m Hx.
  - by rewrite (depth_fun _ _ _ _ Hc Hx).
  - inversion Hx as [? Hn|? p m' Hp Hm]; subst; unfold step_up in Hxy; simplify_eq.
    specialize (IH Hc m' Hm). lia.
Qed.

Lemma ancestor_subtree n h c x dc dx :
  tree_ok h → depth h c dc → depth h x dx → dx < n + dc → ancestor h c x → x ∈ subtree n h c.
Proof.
  intros Ht. revert c dc. induction n as [|n IH]; intros c dc Hc Hx Hlt Ha.
  { pose proof (depth_ancestor _ _ _ _ _ Hc Hx Ha). lia. }
  simpl. apply rtc_inv_r in Ha as [->|(k & Ha & Hk)]; [by left|]. right.
  apply elem_of_concat. exists (subtree n h k). split.
  - apply (IH k (S dc)); [by econstructor|done|lia|done].
  - apply list_elem_of_fmap. exists k. split; [done|]. by apply (tree_parent h Ht).
Qed.

Lemma subtree_spec h c x :
  tree_ok h → acyclic h → x ∈ subtree (fuel h) h c ↔ ancestor h c x.
Proof.
  intros Ht Hac. split; [by apply subtree_ancestor|]. intros Ha.
  destruct (Hac c) as [dc Hc], (Hac x) as [dx Hx].
  eapply ancestor_subtree; [done..| |done]. apply depth_fuel in Hx. lia.
Qed.

End MxModel.
