(* ===== verification/MxUndo.v ===== *)
(** * Undoing and redoing changes of the graph model

    Models mxUndoableEdit.js on top of the atomic changes, and proves that executing a
    change twice gives the model back. The undo manager is in MxEditor. *)

From S2P Require Import Prelude JsNumber MxGeometry MxCell MxModel.
Import JsNumber MxGeometry MxCell MxModel.

Module MxUndo.

(** ** Models that look the same *)

(** Two heaps that agree on everything a query of the model can see except ids: the
    same attributes, parents, children in order, terminals, and the same edges at
    every terminal, in any order. *)
Record heap_equiv (h h' : heap) : Prop := {
  he_attrs : ∀ x, attrs (h' !!! x) = attrs (h !!! x);
  he_parent : ∀ x, parent (h' !!! x) = parent (h !!! x);
  he_kids : ∀ x, kids h' x = kids h x;
  he_terminal : ∀ x b, getTerminal h' x b = getTerminal h x b;
  he_eds : ∀ x, eds h' x ≡ₚ eds h x
}.

#[global] Instance heap_equiv_equivalence : Equivalence heap_equiv.
Proof.
  split.
  - done.
  - intros h h' [H1 H2 H3 H4 H5]. by split; intros; symmetry.
  - intros h1 h2 h3 [A1 P1 K1 T1 E1] [A2 P2 K2 T2 E2].
    split; intros; [by rewrite A2|by rewrite P2|by rewrite K2|by rewrite T2|by rewrite E2].
Qed.

#[global] Instance tree_ok_proper : Proper (heap_equiv ==> impl) tree_ok.
Proof. intros h h' He Ht. eapply tree_ok_ext; [apply He|apply He|done]. Qed.

#[global] Instance edges_sound_proper : Proper (heap_equiv ==> impl) edges_sound.
Proof.
  intros h h' He [H1 H2]. split.
  - intros t e. rewrite (he_eds _ _ He). intros [b Hb]%H1. exists b. by rewrite (he_terminal _ _ He).
  - intros t. by rewrite (he_eds _ _ He).
Qed.

#[global] Instance depth_proper : Proper (heap_equiv ==> eq ==> eq ==> impl) depth.
Proof.
  intros h h' He x ? <- n ? <- Hd. induction Hd.
  - constructor. by rewrite (he_parent _ _ He).
  - econstructor; [by rewrite (he_parent _ _ He)|done].
Qed.

#[global] Instance acyclic_proper : Proper (heap_equiv ==> impl) acyclic.
Proof. intros h h' He Hac c. destruct (Hac c) as [n Hn]. exists n. by rewrite <-He. Qed.

Lemma ancestor_ext h h' c x :
  (∀ y, y ≠ c → parent (h' !!! y) = parent (h !!! y)) → ancestor h c x → ancestor h' c x.
Proof.
  intros Hp Ha. induction Ha as [|x y c Hxy Ha IH]; [constructor|].
  destruct (decide (x = c)) as [->|Hne]; [constructor|].
  eapply rtc_l; [|by apply IH]. unfold step_up. by rewrite Hp.
Qed.

#[global] Instance attached_proper : Proper (heap_equiv ==> eq ==> impl) attached.
Proof.
  intros h h' He e ? <- Hat b t. rewrite (he_terminal _ _ He), (he_eds _ _ He). apply Hat.
Qed.

#[global] Instance detached_proper : Proper (heap_equiv ==> eq ==> impl) detached.
Proof. intros h h' He e ? <- Hd t. rewrite (he_eds _ _ He). apply Hd. Qed.

(** The invariant of the model's heap. *)
Record wf (h : heap) : Prop := {
  wf_tree : tree_ok h;
  wf_acyclic : acyclic h;
  wf_edges : edges_sound h
}.
#[global] Instance wf_proper : Proper (heap_equiv ==> impl) wf.
Proof. intros h h' He [H1 H2 H3]. split; by rewrite <-He. Qed.

Definition data_equiv (d d' : data) : Prop := heap_equiv (hp d) (hp d') ∧ root d' = root d.
#[global] Instance data_equiv_equivalence : Equivalence data_equiv.
Proof.
  split; [done|intros ?? [??]; by split; symmetry|].
  intros ??? [??] [??]. split; [by etrans|congruence].
Qed.

(** ** Adding cells to and removing them from the dictionary *)

Definition same_but_id (h h' : heap) : Prop := ∀ x, h' !!! x = set_id (id (h' !!! x)) (h !!! x).

Lemma set_id_id c : set_id (id c) c = c.
Proof. by destruct c. Qed.

#[global] Instance same_but_id_preorder : PreOrder same_but_id.
Proof.
  split; [intros h x; by rewrite set_id_id|].
  intros h1 h2 h3 H1 H2 x. rewrite (H2 x), (H1 x). done.
Qed.

Lemma same_but_id_upd h c i : same_but_id h (upd c (set_id i) h).
Proof. intros x. rewrite upd_lookup. case_decide; subst; [done|]. by rewrite set_id_id. Qed.

Lemma same_but_id_kids h h' c : same_but_id h h' → kids h' c = kids h c.
Proof. intros Hs. unfold kids. by rewrite (Hs c). Qed.

Lemma same_but_id_equiv h h' : same_but_id h h' → heap_equiv h h'.
Proof.
  intros Hs. split; intros x; try (intros []); unfold attrs, kids, eds, getTerminal;
    by rewrite (Hs x).
Qed.

Section Undo.
Context (cfg : config).

Lemma rename_loop_same n c d :
  same_but_id (hp d) (hp (rename_loop cfg n c d)) ∧ root (rename_loop cfg n c d) = root d.
Proof.
  revert d. induction n as [|n IH]; intros d; simpl; [done|].
  destruct (id (hp d !!! c) ≫= getCell d); [|done].
  match goal with |- context [rename_loop cfg n c ?e] => destruct (IH e) as [H1 H2] end.
  split; [|by rewrite H2]. etrans; [|exact H1]. apply same_but_id_upd.
Qed.

Lemma register_same c d :
  same_but_id (hp d) (hp (register cfg c d)) ∧ root (register cfg c d) = root d.
Proof.
  unfold register.
  set (d1 := match id (hp d !!! c) with Some _ => d | None => _ end).
  assert (same_but_id (hp d) (hp d1) ∧ root d1 = root d) as [S1 R1].
  { unfold d1. destruct (id (hp d !!! c)); [done|]. destruct (createIds cfg); [|done].
    split; [apply same_but_id_upd|done]. }
  set (d2 := match id (hp d1 !!! c) with Some _ => _ | None => d1 end).
  assert (same_but_id (hp d1) (hp d2) ∧ root d2 = root d1) as [S2 R2].
  { unfold d2. destruct (id (hp d1 !!! c)) as [i|]; [|done]. case_decide; [done|].
    match goal with |- context [rename_loop cfg ?n c d1] =>
      destruct (rename_loop_same n c d1) as [Sm Rt];
      by destruct (id (hp (rename_loop cfg n c d1) !!! c)) end. }
  assert (same_but_id (hp d) (hp d2)) by by etrans.
  destruct (id (hp d2 !!! c) ≫= numeric); split; simpl; congruence || done.
Qed.

Lemma cellAdded_same d c :
  same_but_id (hp d) (hp (cellAdded cfg d c)) ∧ root (cellAdded cfg d c) = root d.
Proof.
  destruct c as [c|]; [|done]. unfold cellAdded. generalize (fuel (hp d)). intros n. revert d c.
  induction n as [|n IH]; intros d c; simpl; [done|].
  destruct (register_same c d) as [S1 R1]. generalize (kids (hp (register cfg c d)) c).
  intros l. assert (∀ d, same_but_id (hp d) (hp (foldl (cellAdded_from cfg n) d l)) ∧
    root (foldl (cellAdded_from cfg n) d l) = root d) as Hl.
  { clear d c S1 R1. induction l as [|k l IHl]; intros d; simpl; [done|].
    destruct (IH d k) as [S R], (IHl (cellAdded_from cfg n d k)) as [S' R'].
    split; [by etrans|congruence]. }
  destruct (Hl (register cfg c d)) as [S2 R2]. split; [by etrans|congruence].
Qed.

Lemma cellRemoved_same d c :
  hp (cellRemoved d c) = hp d ∧ root (cellRemoved d c) = root d.
Proof.
  destruct c as [c|]; [|done]. unfold cellRemoved. generalize (fuel (hp d)). intros n. revert d c.
  induction n as [|n IH]; intros d c; simpl; [done|]. destruct (cells d) eqn:Hc; [|done].
  generalize (reverse (kids (hp d) c)). intros l.
  assert (∀ d, hp (foldl (cellRemoved_from n) d l) = hp d ∧
    root (foldl (cellRemoved_from n) d l) = root d) as Hl.
  { clear -IH. induction l as [|k l IHl]; intros d; simpl; [done|].
    destruct (IH d k) as [E R], (IHl (cellRemoved_from n d k)) as [E' R']. split; congruence. }
  destruct (Hl d). by repeat case_match.
Qed.

(** ** Moving a cell in the tree *)

Lemma splice_back (l : list ref) i x :
  NoDup l → l !! i = Some x → js_splice (filter (.≠ x) l) (Z.of_nat i) 0 [x] = l.
Proof.
  intros Hnd Hi. rewrite (filter_ne_delete l i x) by done.
  pose proof (lookup_lt_Some _ _ _ Hi) as Hlt.
  unfold js_splice. rewrite length_delete by eauto.
  rewrite splice_pos_of_nat, Nat.add_0_r by lia. rewrite delete_take_drop.
  assert (length (take i l) = i) as Hlen by (rewrite length_take; lia).
  rewrite take_app_length', drop_app_length' by done. by apply take_drop_middle.
Qed.

Lemma filter_js_splice (l : list ref) i x : filter (.≠ x) (js_splice l i 0 [x]) = filter (.≠ x) l.
Proof.
  unfold js_splice. rewrite Nat.add_0_r, !filter_app, filter_cons_False by naive_solver.
  rewrite <-filter_app. simpl. by rewrite <-filter_app, take_drop.
Qed.

Lemma indexOf_default l x : indexOf l x = indexOf (Some (default [] l)) x.
Proof. by destruct l. Qed.

(** The heap after [c] became a child of [par] at [i]; no parent means a top cell. *)
Record moved (c : ref) (par : option ref) (i : option Z) (h h' : heap) : Prop := {
  moved_kids : ∀ x, kids h' x =
    if decide (par = Some x)
    then js_splice (filter (.≠ c) (kids h x)) (insert_index h x c i) 0 [c]
    else filter (.≠ c) (kids h x);
  moved_parent : ∀ x, parent (h' !!! x) = if decide (x = c) then par else parent (h !!! x);
  moved_attrs : same_attrs h h';
  moved_terminal : ∀ x b, getTerminal h' x b = getTerminal h x b;
  moved_eds : ∀ x, eds h' x = eds h x
}.

Lemma moved_insert h p c i : tree_ok h → moved c (Some p) i h (insert h p (Some c) i).1.
Proof.
  intros Ht. destruct (same_edges_eds _ _ (insert_same_edges h p (Some c) i)) as [He Hg]. split.
  - intros x. rewrite insert_kids by done. repeat case_decide; simplify_eq; done.
  - intros x. by rewrite insert_parent.
  - apply insert_same_attrs.
  - done.
  - done.
Qed.

Lemma moved_remove h c i : tree_ok h → moved c None i h (removeFromParent h c).
Proof.
  intros Ht. destruct (same_edges_eds _ _ (removeFromParent_same_edges h c)) as [He Hg]. split.
  - intros x. rewrite decide_False by done. by apply removeFromParent_kids.
  - intros x. by rewrite removeFromParent_parent.
  - unfold removeFromParent. destruct (parent _); [apply remove_same_attrs|done].
  - done.
  - done.
Qed.

(** Where a cell is among the children of its parent. *)
Definition cur_index (h : heap) (c : ref) : Z :=
  match parent (h !!! c) with Some p => getIndex h p c | None => 0%Z end.

Lemma kids_back h c p :
  tree_ok h → parent (h !!! c) = Some p →
  js_splice (filter (.≠ c) (kids h p)) (getIndex h p c) 0 [c] = kids h p.
Proof.
  intros Ht Hp. apply (tree_parent h Ht) in Hp.
  destruct (indexOf_elem _ _ Hp) as (k & Hk & Hl). unfold getIndex. rewrite Hk.
  apply splice_back; [by apply Ht|done].
Qed.

Lemma moved_stay h c p i :
  tree_ok h → parent (h !!! c) = Some p → i = Some (getIndex h p c) → moved c (Some p) i h h.
Proof.
  intros Ht Hp ->. split; try done.
  - intros x. case_decide; simplify_eq; simpl; [by rewrite kids_back|].
    rewrite filter_ne_id; [done|]. rewrite (tree_parent h Ht). congruence.
  - intros x. by case_decide; subst.
Qed.

Lemma moved_tree_ok c par i h h' : moved c par i h h' → tree_ok h → tree_ok h'.
Proof.
  intros [Hk Hp _ _ _] Ht. split.
  - intros p x. rewrite Hk, Hp. case_decide.
    + rewrite js_splice_insert_perm, elem_of_cons, list_elem_of_filter, (tree_parent h Ht).
      case_decide; intuition congruence.
    + rewrite list_elem_of_filter, (tree_parent h Ht). case_decide; intuition congruence.
  - intros p. rewrite Hk. assert (NoDup (filter (.≠ c) (kids h p))) as Hn
      by apply NoDup_filter, Ht.
    case_decide; [|done]. rewrite js_splice_insert_perm. apply NoDup_cons. split; [|done].
    rewrite list_elem_of_filter. intuition.
Qed.

Lemma moved_edges_sound c par i h h' : moved c par i h h' → edges_sound h → edges_sound h'.
Proof.
  intros Hm [H1 H2]. split; intros t; rewrite (moved_eds _ _ _ _ _ Hm); [|done].
  intros e. setoid_rewrite (moved_terminal _ _ _ _ _ Hm). apply H1.
Qed.

Lemma moved_below c par i h h' x : moved c par i h h' → ancestor h' c x ↔ ancestor h c x.
Proof.
  intros Hm. split; apply ancestor_ext; intros y Hy;
    by rewrite (moved_parent _ _ _ _ _ Hm), decide_False.
Qed.

Lemma moved_equiv c par i h h1 h2 : moved c par i h h1 → same_but_id h1 h2 → moved c par i h h2.
Proof.
  intros Hm Hs. split; intros x; unfold kids, eds, getTerminal; intros;
    rewrite (Hs x); simpl; apply Hm.
Qed.

(** A place that keeps the tree a tree: the new parent is not below the cell. *)
Definition no_cycle (h : heap) (c : ref) (par : option ref) : Prop :=
  ∀ p, par = Some p → ¬ ancestor h c p.

Lemma moved_acyclic c par i h h' :
  moved c par i h h' → no_cycle h c par → acyclic h → acyclic h'.
Proof.
  intros Hm Hn Hac. pose proof (moved_parent _ _ _ _ _ Hm) as Hp.
  assert (∀ x n, depth h x n → ¬ ancestor h c x → depth h' x n) as Hout.
  { intros x n Hd. induction Hd as [x Hx|x q n Hx _ IH]; intros Hna;
      (assert (x ≠ c) by (intros ->; apply Hna; constructor)).
    - constructor. by rewrite Hp, decide_False.
    - apply (depth_up _ _ q); [by rewrite Hp, decide_False|]. apply IH. intros Ha. apply Hna.
      by eapply rtc_l. }
  assert (∃ n, depth h' c n) as [nc Hc].
  { destruct par as [p|].
    - destruct (Hac p) as [n Hd]. exists (S n). apply (depth_up _ _ p); [by rewrite Hp, decide_True|].
      apply Hout; auto.
    - exists 0. constructor. by rewrite Hp, decide_True. }
  intros x. destruct (Hac x) as [n Hd]. induction Hd as [x Hx|x q n Hx _ [m IH]].
  - destruct (decide (x = c)) as [->|]; [eauto|]. exists 0. constructor. by rewrite Hp, decide_False.
  - destruct (decide (x = c)) as [->|]; [eauto|]. exists (S m).
    apply (depth_up _ _ q); [by rewrite Hp, decide_False|done].
Qed.

Lemma parentForCellChanged_spec d c par i :
  tree_ok (hp d) →
  moved c par i (hp d) (hp (parentForCellChanged cfg d c par i).1) ∧
  root (parentForCellChanged cfg d c par i).1 = root d ∧
  (parentForCellChanged cfg d c par i).2 = parent (hp d !!! c).
Proof.
  intros Ht. unfold parentForCellChanged. cbv zeta. cbn [fst snd].
  set (h1 := match par with Some _ => _ | None => _ end).
  assert (moved c par i (hp d) h1) as Hm.
  { unfold h1. destruct par as [p|].
    - case_decide as Hd; [by apply moved_insert|].
      destruct (decide (parent (hp d !!! c) = Some p)) as [Hp|Hp]; [|exfalso; apply Hd; left; congruence].
      apply moved_stay; [done..|].
      destruct (decide (i = Some (getIndex (hp d) p c))) as [|Hi]; [done|].
      exfalso. apply Hd. right. congruence.
    - fold (removeFromParent (hp d) c). by apply moved_remove. }
  destruct (cellAdded_same (set_hp h1 d) (Some c)) as [S1 R1].
  destruct (cellRemoved_same (set_hp h1 d) (Some c)) as [S2 R2].
  split_and!; [|by repeat case_match|done].
  repeat case_match; [by eapply moved_equiv|by rewrite S2|done].
Qed.

(** ** The effect of executing a child change *)

(** As [moved], and the edges below the cell are connected to their terminals when it
    has a parent, and taken off them when it has none. *)
Record child_moved (c : ref) (par : option ref) (i : option Z) (h h' : heap) : Prop := {
  cm_kids : ∀ x, kids h' x =
    if decide (par = Some x)
    then js_splice (filter (.≠ c) (kids h x)) (insert_index h x c i) 0 [c]
    else filter (.≠ c) (kids h x);
  cm_parent : ∀ x, parent (h' !!! x) = if decide (x = c) then par else parent (h !!! x);
  cm_attrs : same_attrs h h';
  cm_terminal : ∀ x b, getTerminal h' x b = getTerminal h x b;
  cm_wf : wf h';
  cm_in : ∀ e, ancestor h c e → if par is Some _ then attached h' e else detached h' e;
  cm_out : ∀ e t, ¬ ancestor h c e → e ∈ eds h' t ↔ e ∈ eds h t
}.

Lemma same_tree_kids h h' x : same_tree h h' → kids h' x = kids h x.
Proof. intros Hs. unfold kids. by rewrite (proj1 (Hs x)). Qed.

Lemma same_tree_acyclic h h' : same_tree h h' → acyclic h → acyclic h'.
Proof.
  intros Hs Hac x. destruct (Hac x) as [n Hd]. exists n. induction Hd as [x Hx|x q n Hx _ IH].
  - constructor. by rewrite (proj2 (Hs x)).
  - econstructor; [by rewrite (proj2 (Hs x))|done].
Qed.

Lemma same_tree_insert_index h h' x c i :
  same_tree h h' → insert_index h' x c i = insert_index h x c i.
Proof.
  intros Hs. unfold insert_index, getChildCount. by rewrite (proj2 (Hs c)), (proj1 (Hs x)).
Qed.

Lemma connect_moved h c i h1 h2 :
  wf h → connects false (subtree (fuel h) h c) h h1 → moved c None i h1 h2 →
  child_moved c None i h h2.
Proof.
  intros [Ht Hac Hs] Hc Hm. destruct Hc as [S1 T1 A1 G1 I1 O1].
  assert (tree_ok h1) as Ht1 by by eapply same_tree_ok.
  assert (acyclic h1) as Hac1 by by eapply same_tree_acyclic.
  pose proof Hm as [K2 P2 A2 G2 E2]. split.
  - intros x. rewrite K2. repeat case_decide; [done..|]. by rewrite (same_tree_kids h h1).
  - intros x. rewrite P2. case_decide; [done|]. apply T1.
  - by etrans.
  - intros. by rewrite G2.
  - split; [by eapply moved_tree_ok| |by eapply moved_edges_sound].
    eapply moved_acyclic; [done|by intros ?|done].
  - intros e He t. rewrite E2. apply I1. by apply subtree_spec.
  - intros e t He. rewrite E2. apply O1. by rewrite subtree_spec.
Qed.

Lemma moved_connect h c p i h1 h2 :
  wf h → no_cycle h c (Some p) → moved c (Some p) i h h1 →
  connects true (subtree (fuel h1) h1 c) h1 h2 → child_moved c (Some p) i h h2.
Proof.
  intros [Ht Hac Hs] Hn Hm [S2 T2 A2 G2 I2 O2]. pose proof Hm as [K1 P1 A1 G1 E1].
  assert (tree_ok h1) as Ht1 by by eapply moved_tree_ok.
  assert (acyclic h1) as Hac1 by by eapply moved_acyclic.
  split.
  - intros x. by rewrite (same_tree_kids h1 h2).
  - intros x. by rewrite (proj2 (T2 x)).
  - by etrans.
  - intros. by rewrite G2.
  - split; [by eapply same_tree_ok|by eapply same_tree_acyclic|done].
  - intros e He. apply I2, subtree_spec; [done..|]. by eapply moved_below.
  - intros e t He. rewrite O2, E1; [done|]. rewrite subtree_spec by done.
    by erewrite moved_below.
Qed.

Lemma execute_child_spec d par c i :
  wf (hp d) → no_cycle (hp d) c par →
  child_moved c par i (hp d) (hp (execute_child cfg d par c i).1) ∧
  root (execute_child cfg d par c i).1 = root d ∧
  (execute_child cfg d par c i).2 =
    mxChildChange par (parent (hp d !!! c)) (Some c) i (Some (cur_index (hp d) c)).
Proof.
  intros Hwf Hn. unfold execute_child. fold (cur_index (hp d) c). cbv zeta. destruct par as [p|].
  - pose proof (parentForCellChanged_spec d c (Some p) i (wf_tree _ Hwf)) as (Hm & Hr & Ho).
    destruct (parentForCellChanged cfg d c (Some p) i) as [d1 old]. simpl in *. subst old.
    split_and!; [|done..]. eapply moved_connect; [done..|].
    apply connect_from_spec. eapply moved_edges_sound, Hwf. done.
  - pose proof (connect_from_spec false (fuel (hp d)) (hp d) c (wf_edges _ Hwf)) as Hc.
    fold (connect (hp d) c false) in Hc. set (h1 := connect (hp d) c false) in *.
    pose proof (parentForCellChanged_spec (set_hp h1 d) c None i) as (Hm & Hr & Ho).
    { eapply same_tree_ok; [apply Hc|apply Hwf]. }
    destruct (parentForCellChanged cfg (set_hp h1 d) c None i) as [d1 old]. simpl in *. subst old.
    rewrite (proj2 (connects_tree _ _ _ _ Hc c)). split_and!; [|done..].
    by eapply connect_moved.
Qed.

Lemma attached_iff h e t : edges_sound h → attached h e → e ∈ eds h t ↔ ∃ b, getTerminal h e b = Some t.
Proof. intros Hs Ha. split; [apply Hs|]. intros [b Hb]. by eapply Ha. Qed.

Lemma eds_perm h h' t :
  edges_sound h → edges_sound h' → (∀ e, e ∈ eds h' t ↔ e ∈ eds h t) → eds h' t ≡ₚ eds h t.
Proof. intros Hs Hs' He. apply NoDup_Permutation; [apply Hs'|apply Hs|done]. Qed.

(** Cells that have a parent are connected to their terminals, those without are not:
    the state of a subtree before a child change. *)
Definition coherent (h : heap) (c : ref) : Prop :=
  ∀ e, ancestor h c e → if parent (h !!! c) is Some _ then attached h e else detached h e.

Lemma equiv_below h h' c x : heap_equiv h h' → ancestor h' c x ↔ ancestor h c x.
Proof. intros He. split; apply ancestor_ext; intros; by rewrite (he_parent _ _ He). Qed.

Lemma equiv_insert_index h h' x c i : heap_equiv h h' → insert_index h' x c i = insert_index h x c i.
Proof.
  intros He. unfold insert_index. rewrite (he_parent _ _ He).
  assert (∀ h, getChildCount h x = length (kids h x)) as Hc
    by (intros k; unfold getChildCount, kids; by destruct (children _)).
  by rewrite !Hc, (he_kids _ _ He).
Qed.

Lemma equiv_cur_index h h' c : heap_equiv h h' → cur_index h' c = cur_index h c.
Proof.
  intros He. unfold cur_index, getIndex. rewrite (he_parent _ _ He). case_match; [|done].
  rewrite indexOf_default, (indexOf_default (children (h !!! _))).
  do 2 f_equal. apply (he_kids _ _ He).
Qed.

Lemma child_moved_below c par i h h' x : child_moved c par i h h' → ancestor h' c x ↔ ancestor h c x.
Proof.
  intros Hm. split; apply ancestor_ext; intros y Hy;
    by rewrite (cm_parent _ _ _ _ _ Hm), decide_False.
Qed.

Lemma child_moved_coherent c par i h h' : child_moved c par i h h' → coherent h' c.
Proof.
  intros Hm e. rewrite (child_moved_below _ _ _ _ _ _ Hm), (cm_parent _ _ _ _ _ Hm), decide_True by done.
  apply Hm.
Qed.

Lemma child_moved_det c par i h1 h1' h2 h2' :
  heap_equiv h1 h2 → child_moved c par i h1 h1' → child_moved c par i h2 h2' → heap_equiv h1' h2'.
Proof.
  intros He [K1 P1 A1 G1 W1 I1 O1] [K2 P2 A2 G2 W2 I2 O2].
  assert (∀ x b, getTerminal h2' x b = getTerminal h1' x b) as Hg
    by (intros; by rewrite G1, G2, (he_terminal _ _ He)).
  split; intros x.
  - by rewrite A1, A2, (he_attrs _ _ He).
  - by rewrite P1, P2, (he_parent _ _ He).
  - by rewrite K1, K2, (he_kids _ _ He), (equiv_insert_index _ _ _ _ _ He).
  - done.
  - apply eds_perm; [apply W1|apply W2|]. intros e.
    destruct (decide (isAncestor h1' (Some c) (Some e) = true)) as [Ha|Ha];
      rewrite isAncestor_spec in Ha by apply W1.
    + assert (ancestor h1 c e) as Ha1.
      { eapply ancestor_ext, Ha. intros. by rewrite P1, decide_False. }
      specialize (I1 e Ha1). specialize (I2 e (proj2 (equiv_below _ _ _ _ He) Ha1)).
      destruct par.
      * rewrite !attached_iff by (done || apply W1 || apply W2). by setoid_rewrite Hg.
      * split; intros Hin; [by apply I2 in Hin|by apply I1 in Hin].
    + assert (¬ ancestor h1 c e) as Ha1.
      { intros Hx. apply Ha. eapply ancestor_ext, Hx. intros. by rewrite P1, decide_False. }
      rewrite O1, O2; [by rewrite (he_eds _ _ He)|by rewrite equiv_below|done].
Qed.

Lemma parent_not_below h c p : acyclic h → parent (h !!! c) = Some p → ¬ ancestor h c p.
Proof.
  intros Hac Hp Ha. destruct (Hac c) as [n Hc], (Hac p) as [m Hm].
  pose proof (depth_ancestor _ _ _ _ _ Hc Hm Ha).
  assert (n = S m) by (eapply depth_fun; [done|by econstructor]). lia.
Qed.

(** A child change sends the cell back to where the previous one took it from. *)
Lemma child_moved_back c par i h h1 h2 :
  wf h → coherent h c → child_moved c par i h h1 →
  child_moved c (parent (h !!! c)) (Some (cur_index h c)) h1 h2 → heap_equiv h h2.
Proof.
  intros Hwf Hco Hm1 Hm2. pose proof Hm1 as [K1 P1 A1 G1 W1 I1 O1].
  pose proof Hm2 as [K2 P2 A2 G2 W2 I2 O2].
  assert (∀ x, filter (.≠ c) (kids h1 x) = filter (.≠ c) (kids h x)) as Hf.
  { intros x. rewrite K1. case_decide; rewrite ?filter_js_splice; apply list_filter_all, Forall_forall;
      intros y; by rewrite list_elem_of_filter; intros []. }
  split.
  - intros x. by rewrite A2, A1.
  - intros x. rewrite P2, P1. by case_decide; subst.
  - intros x. rewrite K2, Hf. simpl. unfold cur_index. case_decide as Hx.
    + rewrite Hx. apply kids_back; [apply Hwf|done].
    + apply filter_ne_id. by rewrite (tree_parent h (wf_tree _ Hwf)).
  - intros. by rewrite G2.
  - intros x. apply eds_perm; [apply Hwf|apply W2|]. intros e.
    destruct (decide (isAncestor h (Some c) (Some e) = true)) as [Ha|Ha];
      rewrite isAncestor_spec in Ha by apply Hwf.
    + specialize (I2 e (proj2 (child_moved_below _ _ _ _ _ _ Hm1) Ha)). specialize (Hco e Ha).
      destruct (parent (h !!! c)).
      * rewrite !attached_iff by (done || apply Hwf || apply W2).
        setoid_rewrite G2. by setoid_rewrite G1.
      * split; intros Hin; [by apply I2 in Hin|by apply Hco in Hin].
    + rewrite O2, O1; [done..|]. by rewrite (child_moved_below _ _ _ _ _ _ Hm1).
Qed.

(** ** The effect of executing a terminal change *)

Record terminal_set (e : ref) (t : option ref) (s : bool) (h h' : heap) : Prop := {
  ts_tree : same_tree h h';
  ts_attrs : same_attrs h h';
  ts_terminal : ∀ x b, getTerminal h' x b = if decide (x = e ∧ b = s) then t else getTerminal h x b;
  ts_sound : edges_sound h';
  ts_eds : ∀ x e', e' ∈ eds h' x ↔
    (e' = e ∧ t = Some x) ∨ (e' ∈ eds h x ∧ (e' = e → getTerminal h e (negb s) = Some x))
}.

Lemma terminalForCellChanged_spec h e t s :
  edges_sound h → terminal_set e t s h (terminalForCellChanged h e t s).1.
Proof.
  intros Hs. unfold terminalForCellChanged. cbn [fst]. destruct t as [t|]; [split|].
  - apply insertEdge_same_tree.
  - apply insertEdge_same_attrs.
  - intros. apply insertEdge_terminal.
  - by apply insertEdge_sound.
  - intros x e'. rewrite insertEdge_elem, removeFromTerminal_elem by done. intuition congruence.
  - fold (removeFromTerminal h e s). split.
    + apply removeFromTerminal_same_tree.
    + apply removeFromTerminal_same_attrs.
    + intros. apply removeFromTerminal_terminal.
    + by apply removeFromTerminal_sound.
    + intros x e'. rewrite removeFromTerminal_elem by done. intuition congruence.
Qed.

Lemma terminal_set_attached e t s h h' :
  terminal_set e t s h h' → attached h e → attached h' e.
Proof.
  intros Hm Ha b x. rewrite (ts_terminal _ _ _ _ _ Hm), (ts_eds _ _ _ _ _ Hm). case_decide as Hd.
  - intros ->. by left.
  - intros Hb. right. split; [by eapply Ha|]. intros _. destruct b, s; try done; exfalso; intuition.
Qed.

Lemma terminal_set_det e t s h1 h1' h2 h2' :
  heap_equiv h1 h2 → terminal_set e t s h1 h1' → terminal_set e t s h2 h2' → heap_equiv h1' h2'.
Proof.
  intros He [T1 A1 G1 S1 E1] [T2 A2 G2 S2 E2]. split; intros x.
  - by rewrite A1, A2, (he_attrs _ _ He).
  - by rewrite (proj2 (T1 x)), (proj2 (T2 x)), (he_parent _ _ He).
  - by rewrite (same_tree_kids h1 h1'), (same_tree_kids h2 h2'), (he_kids _ _ He).
  - intros b. by rewrite G1, G2, (he_terminal _ _ He).
  - apply eds_perm; [done..|]. intros e'.
    by rewrite E1, E2, (he_terminal _ _ He), (he_eds _ _ He).
Qed.

Lemma terminal_set_back e t s h h1 h2 :
  edges_sound h → attached h e → terminal_set e t s h h1 →
  terminal_set e (getTerminal h e s) s h1 h2 → heap_equiv h h2.
Proof.
  intros Hs Ha Hm1 Hm2. pose proof Hm1 as [T1 A1 G1 S1 E1]. pose proof Hm2 as [T2 A2 G2 S2 E2].
  assert (∀ x b, getTerminal h2 x b = getTerminal h x b) as Hg.
  { intros x b. rewrite G2, G1. case_decide; [destruct_and?; by subst|done]. }
  split; intros x.
  - by rewrite A2, A1.
  - by rewrite (proj2 (T2 x)), (proj2 (T1 x)).
  - by rewrite (same_tree_kids h1 h2), (same_tree_kids h h1).
  - done.
  - apply eds_perm; [done..|]. intros e'. destruct (decide (e' = e)) as [->|Hne].
    + assert (attached h2 e) by (eapply terminal_set_attached, terminal_set_attached; done).
      rewrite !attached_iff by done. by setoid_rewrite Hg.
    + rewrite E2, E1. intuition.
Qed.

(** ** Changes of one attribute *)

(** A write to a field that is neither part of the tree nor of the edges. *)
Record attr_write (f : mxCell → mxCell) : Prop := {
  aw_attrs : ∀ x y, attrs x = attrs y → attrs (f x) = attrs (f y);
  aw_parent : ∀ x, parent (f x) = parent x;
  aw_children : ∀ x, children (f x) = children x;
  aw_source : ∀ x, source (f x) = source x;
  aw_target : ∀ x, target (f x) = target x;
  aw_edges : ∀ x, edges (f x) = edges x
}.

Lemma attr_write_frame c f h :
  attr_write f → same_tree h (upd c f h) ∧ same_edges h (upd c f h).
Proof.
  intros [_ Hp Hc Hs Ht He]. split; intros d; rewrite upd_lookup; case_decide; subst; try done.
Qed.

Lemma attr_write_det c f h1 h2 :
  attr_write f → heap_equiv h1 h2 → heap_equiv (upd c f h1) (upd c f h2).
Proof.
  intros Hf He. destruct (attr_write_frame c f h1 Hf) as [T1 [E1 G1]%same_edges_eds],
    (attr_write_frame c f h2 Hf) as [T2 [E2 G2]%same_edges_eds].
  split; intros x.
  - rewrite !upd_lookup. case_decide; subst; [apply Hf|]; apply (he_attrs _ _ He).
  - by rewrite (proj2 (T1 x)), (proj2 (T2 x)), (he_parent _ _ He).
  - rewrite (same_tree_kids h1 _ x T1), (same_tree_kids h2 _ x T2). apply He.
  - intros b. by rewrite G1, G2, (he_terminal _ _ He).
  - by rewrite E1, E2, (he_eds _ _ He).
Qed.

Lemma attr_write_wf c f h : attr_write f → wf h → wf (upd c f h).
Proof.
  intros [T E]%(attr_write_frame c f h) [H1 H2 H3].
  split; [by eapply same_tree_ok|by eapply same_tree_acyclic|by eapply same_edges_sound].
Qed.

Lemma attr_write_back c f g h :
  attr_write f → attr_write g → g (f (h !!! c)) = h !!! c → heap_equiv h (upd c g (upd c f h)).
Proof.
  intros Hf Hg Hb. assert (∀ x, upd c g (upd c f h) !!! x = h !!! x) as Hx.
  { intros x. rewrite !upd_lookup. repeat case_decide; subst; congruence || done. }
  split; intros x; intros; unfold kids, eds, getTerminal; by rewrite Hx.
Qed.

Lemma attr_writes :
  (∀ v, attr_write (set_value v)) ∧ (∀ v, attr_write (set_style v)) ∧
  (∀ v, attr_write (set_geometry v)) ∧ (∀ v, attr_write (set_collapsed v)) ∧
  (∀ v, attr_write (set_visible v)).
Proof.
  split_and!; intros v; split; try done; intros [] []; unfold attrs; simpl; intros; by simplify_eq.
Qed.

(** ** Executing a change, and executing it again *)

(** When a change may be executed: a cell is not moved below itself, what is moved or
    reconnected is connected as its place in or out of the tree demands. *)
Definition admissible (h : heap) (ch : change) : Prop :=
  match ch with
  | mxChildChange _ par (Some c) _ _ => no_cycle h c par ∧ coherent h c
  | mxTerminalChange (Some e) _ _ _ => attached h e
  | _ => True
  end.

Lemma admissible_proper h h' ch : heap_equiv h h' → admissible h ch → admissible h' ch.
Proof.
  intros He. destruct ch as [| ? par [c|] | [e|] | | | | |]; simpl; try done.
  - intros [Hn Hc]. split.
    + intros p Hp Ha. apply (Hn p Hp). by rewrite <-(equiv_below _ _ _ _ He).
    + intros x. rewrite (equiv_below _ _ _ _ He), (he_parent _ _ He). intros Hx.
      specialize (Hc x Hx). by destruct (parent _); rewrite <-He.
  - by rewrite He.
Qed.

Lemma rootChanged_spec d r :
  heap_equiv (hp d) (hp (rootChanged cfg d r).1) ∧ root (rootChanged cfg d r).1 = r ∧
  (rootChanged cfg d r).2 = root d.
Proof.
  unfold rootChanged. cbn [fst snd].
  destruct (cellAdded_same (Data (hp d) r None 0%N (georef d)) r) as [Hs Hr]. split_and!; [|done..].
  by apply same_but_id_equiv in Hs.
Qed.

Ltac exec_cases ch :=
  destruct ch as [? r | ? par [c|] ? i | [e|] ? t s | [c|] ? v | [c|] ? v | [c|] ? v | [c|] ? v | [c|] ? v];
  destruct attr_writes as (AV & AS & AG & AC & AI); cbn [execute_change admissible];
  unfold execute_root, execute_terminal, execute_value, execute_style, execute_geometry, execute_collapse, execute_visible.

Lemma exec_wf d ch : wf (hp d) → admissible (hp d) ch → wf (hp (execute_change cfg d ch).1).
Proof.
  intros Hwf. exec_cases ch; intros Had; try done; try (by apply attr_write_wf).
  - destruct (rootChanged_spec d r) as (He & _ & _). destruct (rootChanged cfg d r). simpl in *.
    by rewrite <-He.
  - destruct Had. by apply execute_child_spec.
  - destruct (terminalForCellChanged_spec (hp d) e t s (wf_edges _ Hwf)) as [T _ _ Hs _].
    destruct (terminalForCellChanged _ _ _ _). simpl in *. destruct Hwf.
    split; [by eapply same_tree_ok|by eapply same_tree_acyclic|done].
Qed.

(** Executing a change in two models that look the same gives models that look the
    same, and the change keeps the same values. *)
Lemma exec_proper d1 d2 ch :
  data_equiv d1 d2 → wf (hp d1) → admissible (hp d1) ch →
  data_equiv (execute_change cfg d1 ch).1 (execute_change cfg d2 ch).1 ∧
  (execute_change cfg d2 ch).2 = (execute_change cfg d1 ch).2.
Proof.
  intros [He Hr] Hwf Had. assert (wf (hp d2)) as Hwf2 by by rewrite <-He.
  pose proof (admissible_proper _ _ _ He Had) as Had2.
  assert (∀ x, attrs (hp d2 !!! x) = attrs (hp d1 !!! x)) as Ha by apply He.
  revert Had Had2. exec_cases ch; intros Had Had2; try done;
    try (split; [split; [by apply attr_write_det|done]|];
         specialize (Ha c); unfold attrs in Ha; simpl; congruence).
  - destruct (rootChanged_spec d1 r) as (He1 & Hr1 & Ho1), (rootChanged_spec d2 r) as (He2 & Hr2 & Ho2).
    destruct (rootChanged cfg d1 r), (rootChanged cfg d2 r). simpl in *. split; [|congruence].
    split; [|congruence].
    transitivity (hp d1); [by symmetry|]. by transitivity (hp d2).
  - destruct Had, Had2.
    destruct (execute_child_spec d1 par c i) as (M1 & R1 & C1); [done..|].
    destruct (execute_child_spec d2 par c i) as (M2 & R2 & C2); [done..|].
    split; [split; [by eapply child_moved_det|congruence]|].
    by rewrite C1, C2, (he_parent _ _ He), (equiv_cur_index _ _ _ He).
  - pose proof (terminalForCellChanged_spec (hp d1) e t s (wf_edges _ Hwf)) as M1.
    pose proof (terminalForCellChanged_spec (hp d2) e t s (wf_edges _ Hwf2)) as M2.
    split; [split; [by eapply terminal_set_det|done]|]. simpl. by rewrite (he_terminal _ _ He).
Qed.

(** The change that undoes a change may be executed. *)
Lemma exec_admissible d ch :
  wf (hp d) → admissible (hp d) ch →
  admissible (hp (execute_change cfg d ch).1) (execute_change cfg d ch).2.
Proof.
  intros Hwf. exec_cases ch; intros Had; try done.
  - destruct Had as [Hn Hc]. destruct (execute_child_spec d par c i) as (Hm & _ & ->); [done..|].
    split; [|by eapply child_moved_coherent].
    intros p Hp. rewrite (child_moved_below _ _ _ _ _ _ Hm).
    by apply parent_not_below; [apply Hwf|].
  - pose proof (terminalForCellChanged_spec (hp d) e t s (wf_edges _ Hwf)) as Hm.
    by eapply terminal_set_attached.
Qed.

(** Executing a change a second time takes it back. *)
Lemma exec_back d ch :
  wf (hp d) → admissible (hp d) ch →
  data_equiv d (execute_change cfg (execute_change cfg d ch).1 (execute_change cfg d ch).2).1.
Proof.
  intros Hwf Had. pose proof (exec_wf d ch Hwf Had) as Hwf1.
  pose proof (exec_admissible d ch Hwf Had) as Had1. revert Had Hwf1 Had1.
  exec_cases ch; intros Had Hwf1 Had1; try done;
    try (split; [apply attr_write_back; [done..|by destruct (hp d !!! c)]|done]).
  - destruct (rootChanged_spec d r) as (He & Hr & Ho).
    destruct (rootChanged cfg d r) as [d1 o]. cbn [fst snd execute_change] in *; unfold execute_root in *. subst o.
    destruct (rootChanged_spec d1 (root d)) as (He1 & Hr1 & _).
    destruct (rootChanged cfg d1 (root d)). cbn [fst snd] in *. split; [by transitivity (hp d1)|done].
  - destruct Had as [Hn Hc]. destruct (execute_child_spec d par c i) as (Hm & Hr & Ho); [done..|].
    rewrite Ho in *. destruct Had1 as [Hn1 _].
    destruct (execute_child_spec (execute_child cfg d par c i).1 (parent (hp d !!! c)) c
      (Some (cur_index (hp d) c))) as (Hm1 & Hr1 & _); [exact Hwf1|exact Hn1|].
    cbn [execute_change]. split; [by eapply child_moved_back|]. by rewrite Hr1, Hr.
  - split; [|done]. eapply terminal_set_back; [apply Hwf|done| |].
    + by apply (terminalForCellChanged_spec (hp d) e t s), Hwf.
    + by apply (terminalForCellChanged_spec _ e _ s), Hwf1.
Qed.

(** ** Lists of changes *)

(** Executes changes in order; the changes are updated in place. *)
Fixpoint exec_list (d : data) (l : list change) : data * list change :=
  match l with
  | [] => (d, [])
  | ch :: l =>
      let '(d, ch) := execute_change cfg d ch in
      let '(d, l) := exec_list d l in (d, ch :: l)
  end.

(** Every change may be executed when its turn comes. *)
Fixpoint adm_all (d : data) (l : list change) : Prop :=
  match l with
  | [] => True
  | ch :: l => admissible (hp d) ch ∧ adm_all (execute_change cfg d ch).1 l
  end.

Lemma exec_list_cons d ch l :
  exec_list d (ch :: l) =
  ((exec_list (execute_change cfg d ch).1 l).1,
   (execute_change cfg d ch).2 :: (exec_list (execute_change cfg d ch).1 l).2).
Proof. cbn [exec_list]. destruct (execute_change cfg d ch). cbn [fst snd]. by destruct (exec_list _ l). Qed.

Lemma exec_list_app d l1 l2 :
  exec_list d (l1 ++ l2) =
  ((exec_list (exec_list d l1).1 l2).1, (exec_list d l1).2 ++ (exec_list (exec_list d l1).1 l2).2).
Proof.
  revert d. induction l1 as [|ch l1 IH]; intros d.
  - cbn [app exec_list fst snd]. by destruct (exec_list d l2).
  - rewrite <-app_comm_cons, !exec_list_cons, IH. done.
Qed.

Lemma exec_list_length d l : length (exec_list d l).2 = length l.
Proof. revert d. induction l as [|ch l IH]; intros d; [done|]. rewrite exec_list_cons. simpl. by rewrite IH. Qed.

Lemma adm_all_app d l1 l2 : adm_all d (l1 ++ l2) ↔ adm_all d l1 ∧ adm_all (exec_list d l1).1 l2.
Proof.
  revert d. induction l1 as [|ch l1 IH]; intros d.
  - simpl. tauto.
  - rewrite exec_list_cons. cbn [fst app adm_all]. rewrite IH. tauto.
Qed.

Lemma exec_list_wf d l : wf (hp d) → adm_all d l → wf (hp (exec_list d l).1).
Proof.
  revert d. induction l as [|ch l IH]; intros d Hwf; [done|].
  rewrite exec_list_cons. cbn [fst adm_all]. intros [Ha Hl]. apply IH; [by apply exec_wf|done].
Qed.

Lemma exec_list_proper d1 d2 l :
  data_equiv d1 d2 → wf (hp d1) → adm_all d1 l →
  adm_all d2 l ∧ data_equiv (exec_list d1 l).1 (exec_list d2 l).1 ∧
  (exec_list d2 l).2 = (exec_list d1 l).2.
Proof.
  revert d1 d2. induction l as [|ch l IH]; intros d1 d2 He Hwf; [done|].
  rewrite !exec_list_cons. cbn [fst snd adm_all]. intros [Ha Hl].
  destruct (exec_proper d1 d2 ch He Hwf Ha) as [He' Hc].
  destruct (IH _ _ He' (exec_wf _ _ Hwf Ha) Hl) as (? & ? & ?).
  split_and!; [by eapply admissible_proper; [apply He|]|done..|by f_equal].
Qed.

(** Executing the changes again in the opposite order takes them all back. *)
Lemma exec_list_back d l :
  wf (hp d) → adm_all d l →
  adm_all (exec_list d l).1 (reverse (exec_list d l).2) ∧
  data_equiv d (exec_list (exec_list d l).1 (reverse (exec_list d l).2)).1.
Proof.
  revert d. induction l as [|ch l IH]; intros d Hwf; [done|].
  rewrite exec_list_cons. cbn [fst snd adm_all]. intros [Ha Hl].
  pose proof (exec_wf _ _ Hwf Ha) as Hwf1. destruct (IH _ Hwf1 Hl) as [Hadm He].
  set (d1 := (execute_change cfg d ch).1) in *. set (c1 := (execute_change cfg d ch).2).
  rewrite reverse_cons, exec_list_app, adm_all_app. cbn [fst].
  assert (admissible (hp d1) c1) as Hc1 by by apply exec_admissible.
  destruct (exec_proper _ _ c1 He Hwf1 Hc1) as [Hb _].
  split; [split; [done|]|].
  - split; [|done]. eapply admissible_proper; [apply He|done].
  - rewrite exec_list_cons. cbn [fst exec_list]. etrans; [by apply exec_back|done].
Qed.

(** ** Undoable edits *)

Record mxUndoableEdit := Edit {
  changes : list change;
  significant : bool;
  undone : bool;
  redone : bool
}.

Definition new_mxUndoableEdit (sig : bool) : mxUndoableEdit := Edit [] sig false false.
Definition edit_isEmpty (e : mxUndoableEdit) : bool := bool_decide (length (changes e) = 0).
Definition isSignificant (e : mxUndoableEdit) : bool := significant e.
Definition edit_add (e : mxUndoableEdit) (ch : change) : mxUndoableEdit :=
  Edit (changes e ++ [ch]) (significant e) (undone e) (redone e).

(** The events of the model, with what they carry. *)
Inductive event :=
| BEGIN_UPDATE | START_EDIT | END_EDIT
| END_UPDATE (e : mxUndoableEdit) | BEFORE_UNDO (e : mxUndoableEdit)
| CHANGE (e : mxUndoableEdit) | NOTIFY (e : mxUndoableEdit) | UNDO (e : mxUndoableEdit)
| EXECUTE (ch : change) | EXECUTED (ch : change).

(** [edit.notify], as [createUndoableEdit] sets it. *)
Definition notify (e : mxUndoableEdit) : list event := [CHANGE e; NOTIFY e].

Definition edit_undo (d : data) (e : mxUndoableEdit) : data * mxUndoableEdit * list event :=
  if undone e then (d, e, notify e)
  else
    let '(d, l) := exec_list d (reverse (changes e)) in
    let e := Edit (reverse l) (significant e) true false in
    (d, e, [START_EDIT] ++ (EXECUTED <$> l) ++ [END_EDIT] ++ notify e).

Definition edit_redo (d : data) (e : mxUndoableEdit) : data * mxUndoableEdit * list event :=
  if redone e then (d, e, notify e)
  else
    let '(d, l) := exec_list d (changes e) in
    let e := Edit l (significant e) false true in
    (d, e, [START_EDIT] ++ (EXECUTED <$> l) ++ [END_EDIT] ++ notify e).

(** ** Checking the invariants of a given heap *)

Definition tree_check (h : heap) : bool :=
  bool_decide (map_Forall (λ p _, NoDup (kids h p) ∧ Forall (λ c, parent (h !!! c) = Some p) (kids h p)) h)
  && bool_decide (map_Forall (λ c _, Forall (λ p, c ∈ kids h p) (option_list (parent (h !!! c)))) h).

Definition edges_check (h : heap) : bool :=
  bool_decide (map_Forall (λ t _, NoDup (eds h t) ∧
    Forall (λ e, getTerminal h e true = Some t ∨ getTerminal h e false = Some t) (eds h t)) h).

Definition acyclic_check (h : heap) : bool :=
  bool_decide (map_Forall (λ c _, parent (h !!! root_loop (fuel h) h c) = None) h).

Definition wf_check (h : heap) : bool := tree_check h && acyclic_check h && edges_check h.

Lemma no_cell (h : heap) x : h !! x = None → h !!! x = new_mxCell None None None.
Proof. intros Hx. by rewrite lookup_total_alt, Hx. Qed.

Lemma tree_check_sound h : tree_check h = true → tree_ok h.
Proof.
  intros [H1%bool_decide_eq_true H2%bool_decide_eq_true]%andb_true_iff. split.
  - intros p c. split; intros H.
    + destruct (h !! p) as [x|] eqn:Hp.
      * destruct (H1 p x Hp) as [_ Hf]. by apply (proj1 (Forall_forall _ _) Hf).
      * unfold kids in H. rewrite (no_cell h p Hp) in H. by apply not_elem_of_nil in H.
    + destruct (h !! c) as [x|] eqn:Hc; [|by rewrite (no_cell h c Hc) in H].
      specialize (H2 c x Hc). simpl in H2. rewrite H in H2. by inversion H2.
  - intros p. destruct (h !! p) as [x|] eqn:Hp; [by apply (H1 p x Hp)|].
    unfold kids. rewrite (no_cell h p Hp). constructor.
Qed.

Lemma edges_check_sound h : edges_check h = true → edges_sound h.
Proof.
  intros H%bool_decide_eq_true. split.
  - intros t e Hin. destruct (h !! t) as [x|] eqn:Ht.
    + destruct (H t x Ht) as [_ Hf].
      destruct (proj1 (Forall_forall _ _) Hf e Hin); [by exists true|by exists false].
    + unfold eds in Hin. rewrite (no_cell h t Ht) in Hin. by apply not_elem_of_nil in Hin.
  - intros t. destruct (h !! t) as [x|] eqn:Ht; [by apply (H t x Ht)|].
    unfold eds. rewrite (no_cell h t Ht). constructor.
Qed.

Lemma root_loop_depth n h c : parent (h !!! root_loop n h c) = None → ∃ k, depth h c k.
Proof.
  revert c. induction n as [|n IH]; intros c; simpl; [exists 0; by constructor|].
  destruct (parent (h !!! c)) as [p|] eqn:Hp; [|exists 0; by constructor].
  intros [k Hk]%IH. exists (S k). by econstructor.
Qed.

Lemma wf_check_sound h : wf_check h = true → wf h.
Proof.
  intros [[Ht Ha]%andb_true_iff He]%andb_true_iff.
  split; [by apply tree_check_sound| |by apply edges_check_sound].
  apply bool_decide_eq_true in Ha. intros c. destruct (h !! c) as [x|] eqn:Hc.
  - eapply root_loop_depth, (Ha c x Hc).
  - exists 0. constructor. by rewrite (no_cell h c Hc).
Qed.

Definition attached_check (h : heap) (e : ref) : bool :=
  forallb (λ b, match getTerminal h e b with Some t => bool_decide (e ∈ eds h t) | None => true end)
    [true; false].

Definition admissible_check (h : heap) (ch : change) : bool :=
  match ch with
  | mxChildChange _ par (Some c) _ _ =>
      match par with Some p => negb (isAncestor h (Some c) (Some p)) | None => true end
      && forallb (λ e, if parent (h !!! c) is Some _ then attached_check h e
                       else bool_decide (map_Forall (λ t _, e ∉ eds h t) h)) (subtree (fuel h) h c)
  | mxTerminalChange (Some e) _ _ _ => attached_check h e
  | _ => true
  end.

Lemma attached_check_sound h e : attached_check h e = true → attached h e.
Proof.
  unfold attached_check. cbn [forallb]. rewrite andb_true_r, andb_true_iff. intros [H1 H2] b t Hb.
  destruct b; [rewrite Hb in H1|rewrite Hb in H2]; by eapply bool_decide_eq_true.
Qed.

Lemma admissible_check_sound h ch : wf h → admissible_check h ch = true → admissible h ch.
Proof.
  intros [Ht Hac _]. destruct ch as [| ? par [c|] | [e|] | | | | |]; cbn [admissible_check admissible]; try done;
    [|by apply attached_check_sound].
  intros [H1 H2]%andb_true_iff. split.
  - intros p ->. apply negb_true_iff in H1. by rewrite <-isAncestor_spec, H1.
  - intros e He. apply (subtree_spec h c e Ht Hac) in He.
    pose proof (proj1 (forallb_forall _ _) H2 e (proj1 (list_elem_of_In _ _) He)) as Hx.
    simpl in Hx. destruct (parent (h !!! c)); [by apply attached_check_sound|].
    apply bool_decide_eq_true in Hx. intros t Hin. destruct (h !! t) as [x|] eqn:Hl.
    + by apply (Hx t x Hl).
    + unfold eds in Hin. rewrite (no_cell h t Hl) in Hin. by apply not_elem_of_nil in Hin.
Qed.

Fixpoint adm_check (d : data) (l : list change) : bool :=
  match l with
  | [] => true
  | ch :: l => admissible_check (hp d) ch && adm_check (execute_change cfg d ch).1 l
  end.

Lemma adm_check_sound d l : wf (hp d) → adm_check d l = true → adm_all d l.
Proof.
  revert d. induction l as [|ch l IH]; intros d Hwf; cbn [adm_check adm_all]; [done|].
  intros [H1 H2]%andb_true_iff. assert (admissible (hp d) ch) by by apply admissible_check_sound.
  split; [done|]. apply IH; [by apply exec_wf|done].
Qed.

End Undo.

(** ** A small graph *)

(** A root (0) with a layer (1) that holds two vertices (2, 3) and an edge (4). *)
Definition cell_in (par : option ref) (ch es : option (list ref)) (isV isE : bool) (s t : option ref) : mxCell :=
  Cell None None None None isV isE true true false par s t ch es.
Definition sample : data :=
  Data (list_to_map
    [(0, cell_in None (Some [1]) None false false None None);
     (1, cell_in (Some 0) (Some [2; 3; 4]) None false false None None);
     (2, cell_in (Some 1) None (Some [4]) true false None None);
     (3, cell_in (Some 1) None (Some [4]) true false None None);
     (4, cell_in (Some 1) None None false true (Some 2) (Some 3))]) (Some 0) None 0 0.

Lemma sample_wf : wf (hp sample).
Proof. apply wf_check_sound. by vm_compute. Qed.

End MxUndo.
