(* ===== verification/MxIds.v ===== *)
(** * The dictionary of cells by id

    [cellAdded] of mxGraphModel.js: as long as the counter of ids stays below 2^53, new
    cells get an id nobody has, the loop that looks for one ends, and every cell below the
    added one is found under its id; a counter that has reached 2^53 can keep the loop from
    ending. *)

From stdpp Require Import pretty.
From S2P Require Import Prelude JsNumber MxGeometry MxCell MxModel MxUndo.
Import JsNumber MxGeometry MxCell MxModel MxUndo.

Module MxIds.

(** ** Fresh names *)

Lemma string_app_length s t : String.length (s +:+ t) = String.length s + String.length t.
Proof. induction s; simpl; [done|]. by f_equal. Qed.

Lemma string_app_inv_tail (x y p : string) : x +:+ p = y +:+ p → x = y.
Proof.
  revert y. induction x as [|a x IH]; intros [|b y] H; simpl in H; [done| | |].
  - apply (f_equal String.length) in H. simpl in H. rewrite ?string_app_length in H. simpl in H. lia.
  - apply (f_equal String.length) in H. simpl in H. rewrite ?string_app_length in H. simpl in H. lia.
  - injection H as -> H. by rewrite (IH y H).
Qed.

Section Ids.
Context (cfg : config).

(** The id [createId] makes from the counter. *)
Definition name (k : N) : string := prefix cfg +:+ js_string k +:+ postfix cfg.

Lemma name_inj j k : (j < exact_bound)%N → (k < exact_bound)%N → name j = name k → j = k.
Proof.
  unfold name. intros Hj Hk H. rewrite !js_string_exact in H by done.
  apply (inj (String.append (prefix cfg))) in H.
  apply string_app_inv_tail in H. by apply (inj pretty) in H.
Qed.

(** The counter of [d]: it counts exactly, and once it does not it never does again. *)
Definition exact (d : data) : Prop := (nextId d < exact_bound)%N.

Lemma createId_exact d : exact (createId cfg d).1 → nextId (createId cfg d).1 = (nextId d + 1)%N ∧ exact d.
Proof. unfold exact. simpl. intros [H ?]%js_succ_bound. split; [done|lia]. Qed.

Lemma rename_loop_exact n c d : exact (rename_loop cfg n c d) → exact d.
Proof.
  revert d. induction n as [|n IH]; intros d; simpl; [done|].
  destruct (id (hp d !!! c) ≫= getCell d); [|done]. intros H%IH. by apply createId_exact.
Qed.

(** The cell is named by the last value of the counter; [X] are the ids already tried. *)
Lemma rename_loop_renamed n c d (X : gset string) k :
  id (hp d !!! c) = Some (name k) → nextId d = (k + 1)%N → exact (rename_loop cfg n c d) →
  X ⊆ dom (default ∅ (cells d)) → (∀ j, (k ≤ j)%N → (j < exact_bound)%N → name j ∉ X) →
  size (dom (default ∅ (cells d))) ≤ n + size X →
  ∃ i, id (hp (rename_loop cfg n c d) !!! c) = Some i ∧ getCell d i = None.
Proof.
  revert d X k. induction n as [|n IH]; intros d X k Hid Hk Hex HX Hfree Hsize.
  all: pose proof (rename_loop_exact _ _ _ Hex) as Hd; unfold exact in Hd; rewrite Hk in Hd; simpl.
  - exists (name k). split; [done|]. unfold getCell. destruct (cells d) as [m|]; simpl in *; [|done].
    assert (X ≡ dom m) as HXd by (apply set_subseteq_size_equiv; [done|lia]).
    apply not_elem_of_dom. rewrite <-HXd. apply Hfree; lia.
  - rewrite Hid. simpl. destruct (getCell d (name k)) as [x|] eqn:Hx; [|by exists (name k)].
    simpl in Hex. rewrite Hid in Hex. simpl in Hex. rewrite Hx in Hex.
    pose proof (rename_loop_exact _ _ _ Hex) as Hd2. unfold exact in Hd2. simpl in Hd2.
    apply js_succ_bound in Hd2 as [Hs Hd2]. rewrite Hk in Hs, Hd2.
    unfold getCell in Hx. destruct (cells d) as [m|] eqn:Hm; [|done]. simpl in *.
    match goal with |- context [rename_loop cfg n c ?e] =>
      destruct (IH e (X ∪ {[name k]}) (k + 1)%N) as (i & Hi & Hg) end; simpl; rewrite ?Hm, ?Hk; simpl.
    + rewrite upd_lookup, decide_True by done. done.
    + done.
    + by rewrite Hk in Hex.
    + apply union_least; [done|]. apply singleton_subseteq_l, elem_of_dom. eauto.
    + intros j Hj Hje. rewrite not_elem_of_union, not_elem_of_singleton. split; [apply Hfree; lia|].
      intros ->%name_inj; lia.
    + rewrite size_union, size_singleton; [lia|]. apply disjoint_singleton_r, Hfree; lia.
    + exists i. unfold getCell in *. simpl in *. rewrite Hk in *. by rewrite Hm in *.
Qed.

(** The loop stops at an id that is free; it never runs out of fuel. *)
Lemma rename_loop_free c d i0 :
  let d' := rename_loop cfg (S (size (default ∅ (cells d)))) c d in
  id (hp d !!! c) = Some i0 → exact d' → ∃ i, id (hp d' !!! c) = Some i ∧ getCell d i = None.
Proof.
  cbv zeta. intros Hid. cbn [rename_loop]. rewrite Hid. simpl. destruct (getCell d i0) eqn:Hg; [|by exists i0].
  intros Hex. pose proof (rename_loop_exact _ _ _ Hex) as [Hs Hd]%js_succ_bound. revert Hex.
  match goal with |- context [rename_loop cfg ?n c ?e] =>
    intros Hex; destruct (rename_loop_renamed n c e ∅ (nextId d)) as (i & Hi & Hf) end; simpl.
  - by rewrite upd_lookup, decide_True.
  - done.
  - done.
  - apply empty_subseteq.
  - intros j _ _. apply not_elem_of_empty.
  - rewrite size_dom. lia.
  - by exists i.
Qed.

(** With the counter at 2^53 and its id taken the loop never finds a free id. *)
Lemma rename_loop_stuck n c d x :
  nextId d = exact_bound → getCell d (name exact_bound) = Some x → id (hp d !!! c) = Some (name exact_bound) →
  let d' := rename_loop cfg n c d in
  id (hp d' !!! c) = Some (name exact_bound) ∧ getCell d' (name exact_bound) = Some x ∧ nextId d' = exact_bound.
Proof.
  cbv zeta. revert d. induction n as [|n IH]; intros d Hn Hx Hid; simpl; [done|]. rewrite Hid. simpl. rewrite Hx.
  apply IH; simpl; [by rewrite Hn, js_succ_stops|done|]. rewrite upd_lookup, decide_True by done. simpl. by rewrite Hn.
Qed.

(** ** Registering one cell *)

(** The dictionary lists cells under their own ids. *)
Definition reg_ok (d : data) : Prop := ∀ i x, getCell d i = Some x → id (hp d !!! x) = Some i.

(** [getCell(cell.getId()) == cell] *)
Definition registered (d : data) (c : ref) : Prop :=
  ∃ i, id (hp d !!! c) = Some i ∧ getCell d i = Some c.

(** What adding cells does to the dictionary. *)
Record grows (d d' : data) : Prop := {
  grows_ok : reg_ok d';
  grows_old : ∀ i x, getCell d i = Some x → getCell d' i = Some x;
  grows_heap : same_but_id (hp d) (hp d')
}.

Lemma grows_refl d : reg_ok d → grows d d.
Proof. by split. Qed.
Lemma grows_trans d1 d2 d3 : grows d1 d2 → grows d2 d3 → grows d1 d3.
Proof. intros [A1 B1 C1] [A2 B2 C2]. split; [done|eauto|by etrans]. Qed.

Lemma grows_registered d d' c : grows d d' → registered d c → registered d' c.
Proof.
  intros [H1 H2 _] (i & _ & Hi). apply H2 in Hi. exists i. split; [by apply H1|done].
Qed.

(** Two cells of the dictionary never share an id. *)
Lemma registered_inj d c c' :
  registered d c → registered d c' → id (hp d !!! c) = id (hp d !!! c') → c = c'.
Proof. intros (i & Hi & Hc) (j & Hj & Hc') E. congruence. Qed.

Lemma rename_loop_cells n c d :
  cells (rename_loop cfg n c d) = cells d ∧
  ∀ x, x ≠ c → hp (rename_loop cfg n c d) !!! x = hp d !!! x.
Proof.
  revert d. induction n as [|n IH]; intros d; simpl; [done|].
  destruct (id (hp d !!! c) ≫= getCell d); [|done].
  match goal with |- context [rename_loop cfg n c ?e] => destruct (IH e) as [H1 H2] end.
  split; [by rewrite H1|]. intros x Hx. rewrite H2 by done. simpl.
  by rewrite upd_lookup, decide_False.
Qed.

Lemma getCell_set_nextId n d i : getCell (set_nextId n d) i = getCell d i.
Proof. done. Qed.

(** Entering a cell that is listed nowhere, under a free id. *)
Lemma enter_grows d d' c i :
  reg_ok d → (∀ j, getCell d j ≠ Some c) → getCell d i = None →
  cells d' = Some (<[i := c]> (default ∅ (cells d))) →
  id (hp d' !!! c) = Some i → same_but_id (hp d) (hp d') →
  (∀ x, x ≠ c → id (hp d' !!! x) = id (hp d !!! x)) → grows d d' ∧ registered d' c.
Proof.
  intros Hok Hno Hfree Hc Hid Hs Ho.
  assert (∀ j, getCell d' j = if decide (j = i) then Some c else getCell d j) as Hg.
  { intros j. unfold getCell. rewrite Hc. simpl. case_decide; subst; [by rewrite lookup_insert_eq|].
    rewrite lookup_insert_ne by done. by destruct (cells d). }
  split; [split|].
  - intros j x. rewrite Hg. case_decide; [intros [= ->]; by subst|]. intros Hx.
    rewrite Ho; [by apply Hok|]. intros ->. by apply (Hno j).
  - intros j x Hx. rewrite Hg. case_decide; [congruence|done].
  - done.
  - exists i. split; [done|]. by rewrite Hg, decide_True.
Qed.

Lemma not_listed d c i :
  reg_ok d → id (hp d !!! c) = Some i → getCell d i ≠ Some c → ∀ j, getCell d j ≠ Some c.
Proof. intros Hok Hi Hn j Hj. assert (id (hp d !!! c) = Some j) by by apply Hok. congruence. Qed.

Lemma register_grows c d :
  createIds cfg = true → reg_ok d → exact (register cfg c d) →
  grows d (register cfg c d) ∧ registered (register cfg c d) c ∧ exact d.
Proof.
  intros Hci Hok. unfold register. rewrite Hci.
  set (d1 := match id (hp d !!! c) with Some _ => d | None => _ end).
  assert (exact d1 → exact d) as E1.
  { unfold d1. destruct (id (hp d !!! c)); [done|]. intros H. by apply createId_exact. }
  assert (grows d d1 ∧ cells d1 = cells d ∧ ∃ i, id (hp d1 !!! c) = Some i) as (G1 & C1 & i & Hi).
  { unfold d1. destruct (id (hp d !!! c)) as [i|] eqn:Hid; [split; [by apply grows_refl|eauto]|].
    split_and!; [|done|exists (name (nextId d)); simpl; by rewrite upd_lookup, decide_True].
    split; [|done|apply same_but_id_upd]. intros j x Hx. simpl. rewrite upd_lookup. case_decide; subst.
    - apply Hok in Hx. congruence.
    - by apply Hok. }
  rewrite Hi. set (d2 := if decide (getCell d1 i = Some c) then d1 else _).
  assert (exact d2 → (grows d1 d2 ∧ registered d2 c) ∧ exact d1) as G2.
  { unfold d2. case_decide as Hreg; [split; [split; [apply grows_refl, G1|by exists i]|done]|]. intros Hex.
    assert (exact (rename_loop cfg (S (size (default ∅ (cells d1)))) c d1)) as Hex3.
    { revert Hex. by destruct (id (hp (rename_loop cfg _ c d1) !!! c)). }
    split; [|by eapply rename_loop_exact].
    destruct (rename_loop_free c d1 i Hi Hex3) as (i' & Hi' & Hfree).
    destruct (rename_loop_cells (S (size (default ∅ (cells d1)))) c d1) as [Hc Ho].
    destruct (rename_loop_same cfg (S (size (default ∅ (cells d1)))) c d1) as [Hs _].
    set (d3 := rename_loop cfg _ c d1) in *. rewrite Hi'. apply (enter_grows d1 _ c i'); try done.
    - apply G1.
    - eapply not_listed; [apply G1|done..].
    - by rewrite <-Hc.
    - intros x Hx. simpl. by rewrite Ho. }
  intros Hex. assert (exact d2) as Hex2.
  { revert Hex. destruct (id (hp d2 !!! c) ≫= numeric); [|done]. unfold exact. simpl. lia. }
  destruct (G2 Hex2) as [[G R2] Hex1]. split_and!; [| |by apply E1].
  - assert (grows d d2) as [] by by eapply grows_trans. destruct (id (hp d2 !!! c) ≫= numeric); by split.
  - destruct R2 as (j & ? & ?). destruct (id (hp d2 !!! c) ≫= numeric); by exists j.
Qed.

(** ** Adding a subtree *)

Lemma register_exact c d : exact (register cfg c d) → exact d.
Proof.
  unfold register. set (d1 := match id (hp d !!! c) with None => _ | Some _ => d end).
  assert (exact d1 → exact d) as E1.
  { unfold d1. destruct (id (hp d !!! c)); [done|]. destruct (createIds cfg); [|done]. intros H. by apply createId_exact. }
  set (d2 := match id (hp d1 !!! c) with None => d1 | Some _ => _ end).
  assert (exact d2 → exact d1) as E2.
  { unfold d2. destruct (id (hp d1 !!! c)) as [i|]; [|done]. case_decide; [done|]. intros Hex.
    apply (rename_loop_exact (S (size (default ∅ (cells d1)))) c). revert Hex.
    by destruct (id (hp (rename_loop cfg _ c d1) !!! c)). }
  intros Hex. apply E1, E2. revert Hex. destruct (id (hp d2 !!! c) ≫= numeric); [|done]. unfold exact. simpl. lia.
Qed.

Lemma cellAdded_from_exact n d c : exact (cellAdded_from cfg n d c) → exact d.
Proof.
  revert d c. induction n as [|n IH]; intros d c; simpl; [done|].
  assert (∀ l d2, exact (foldl (cellAdded_from cfg n) d2 l) → exact d2) as Hl.
  { induction l as [|k l IHl]; intros d2; simpl; [done|]. intros H%IHl. by apply IH in H. }
  intros H%Hl. by apply register_exact in H.
Qed.

Lemma cellAdded_from_grows n d c :
  createIds cfg = true → reg_ok d → exact (cellAdded_from cfg n d c) →
  grows d (cellAdded_from cfg n d c) ∧
  ∀ x, x ∈ subtree n (hp d) c → registered (cellAdded_from cfg n d c) x.
Proof.
  intros Hci. revert d c. induction n as [|n IH]; intros d c Hok Hex; simpl.
  { split; [by apply grows_refl|]. by intros x ?%not_elem_of_nil. }
  assert (∀ l d2, exact (foldl (cellAdded_from cfg n) d2 l) → exact d2) as Hle.
  { induction l as [|k l IHl]; intros d2; simpl; [done|]. intros H%IHl. by apply cellAdded_from_exact in H. }
  simpl in Hex. destruct (register_grows c d Hci Hok) as (G & R & _); [by eapply Hle|].
  set (d1 := register cfg c d) in *.
  rewrite (same_but_id_kids _ _ c (grows_heap _ _ G)) in Hex |- *.
  assert (∀ l d2, grows d d2 → exact (foldl (cellAdded_from cfg n) d2 l) →
    grows d2 (foldl (cellAdded_from cfg n) d2 l) ∧
    ∀ x, x ∈ concat (map (filterDescendants_from n (hp d) (λ _, true)) l) →
         registered (foldl (cellAdded_from cfg n) d2 l) x) as Hl.
  { induction l as [|k l IHl]; intros d2 G2 Hex2; simpl in *.
    - split; [apply grows_refl, G2|]. by intros x ?%not_elem_of_nil.
    - destruct (IH d2 k) as [G3 R3]; [apply G2|by eapply Hle|].
      destruct (IHl (cellAdded_from cfg n d2 k)) as [G4 R4]; [by eapply grows_trans|done|].
      split; [by eapply grows_trans|]. intros x [Hx|Hx]%elem_of_app; [|by apply R4].
      eapply grows_registered; [exact G4|]. apply R3.
      replace (subtree n (hp d2) k) with (subtree n (hp d) k); [done|].
      symmetry. apply same_tree_subtree. intros y. rewrite (grows_heap _ _ G2 y). done. }
  destruct (Hl (kids (hp d) c) d1 G Hex) as [G5 R5]. split; [by eapply grows_trans|].
  intros x [->|Hx]%elem_of_cons; [by eapply grows_registered|by apply R5].
Qed.

(** C28: After a cell was added and the counter of ids is still below 2^53, every cell
    below it has an id under which [getCell] finds it, no two cells of the dictionary share
    an id, and every cell that was in the dictionary before is still found under the same
    id. *)
Theorem cellAdded_registers d c :
  createIds cfg = true → reg_ok d → tree_ok (hp d) → acyclic (hp d) →
  (nextId (cellAdded cfg d (Some c)) < 2 ^ 53)%N →
  let d' := cellAdded cfg d (Some c) in
  (∀ x, ancestor (hp d) c x → ∃ i, id (hp d' !!! x) = Some i ∧ getCell d' i = Some x) ∧
  (∀ i x, getCell d i = Some x → getCell d' i = Some x ∧ id (hp d' !!! x) = Some i) ∧
  (∀ i x, getCell d' i = Some x → id (hp d' !!! x) = Some i).
Proof.
  intros Hci Hok Ht Hac Hex. cbv zeta. unfold cellAdded in *.
  destruct (cellAdded_from_grows (fuel (hp d)) d c Hci Hok Hex) as [G R]. split_and!.
  - intros x Hx. apply R. by apply subtree_spec.
  - intros i x Hx. assert (getCell (cellAdded_from cfg (fuel (hp d)) d c) i = Some x) by by apply G.
    split; [done|]. by apply G.
  - apply G.
Qed.

(** Setting a root rebuilds the dictionary: afterwards exactly one id leads to each
    cell below the root, whatever ids the cells had before. *)
Theorem rootChanged_registers d r :
  createIds cfg = true → tree_ok (hp d) → acyclic (hp d) →
  (nextId (rootChanged cfg d (Some r)).1 < 2 ^ 53)%N →
  let d' := (rootChanged cfg d (Some r)).1 in
  root d' = Some r ∧
  (∀ x, ancestor (hp d) r x → ∃ i, id (hp d' !!! x) = Some i ∧ getCell d' i = Some x) ∧
  (∀ x y, ancestor (hp d) r x → ancestor (hp d) r y →
          id (hp d' !!! x) = id (hp d' !!! y) → x = y).
Proof.
  intros Hci Ht Hac Hex. unfold rootChanged in *. cbn [fst] in *. unfold cellAdded in *. set (d0 := Data _ _ _ _ _).
  assert (reg_ok d0) as Hok by done.
  destruct (cellAdded_from_grows (fuel (hp d0)) d0 r Hci Hok Hex) as [G R].
  assert (∀ x, ancestor (hp d) r x → registered (cellAdded_from cfg (fuel (hp d0)) d0 r) x) as Hr
    by (intros x Hx; apply R; by apply subtree_spec).
  split_and!; [|done|intros x y Hx Hy; by apply registered_inj; apply Hr].
  by destruct (cellAdded_same cfg d0 (Some r)) as [_ ?].
Qed.

End Ids.

Lemma sample_reg_ok : reg_ok sample.
Proof. by intros i x. Qed.

Lemma cellAdded_registers_witness :
  ∃ i, id (hp (cellAdded default_config sample (Some 1)) !!! 4) = Some i ∧
       getCell (cellAdded default_config sample (Some 1)) i = Some 4.
Proof.
  destruct (cellAdded_registers default_config sample 1 eq_refl sample_reg_ok
    (wf_tree _ sample_wf) (wf_acyclic _ sample_wf)) as [H _]; [vm_compute; reflexivity|].
  apply H. apply rtc_once. reflexivity.
Defined.

Lemma rootChanged_registers_witness :
  root (rootChanged default_config sample (Some 1)).1 = Some 1 ∧
  ∃ i, id (hp (rootChanged default_config sample (Some 1)).1 !!! 4) = Some i ∧
       getCell (rootChanged default_config sample (Some 1)).1 i = Some 4.
Proof.
  destruct (rootChanged_registers default_config sample 1 eq_refl
    (wf_tree _ sample_wf) (wf_acyclic _ sample_wf)) as (H1 & H2 & _); [vm_compute; reflexivity|].
  split; [exact H1|]. apply H2. apply rtc_once. reflexivity.
Defined.

(** A cell (5) that comes with the id 7, and a new cell (6) without id. *)
Definition numbered : data :=
  Data (list_to_map
    [(5, set_id (Some "7") (new_mxCell None None None)); (6, new_mxCell None None None)])
    None None 0%N 0.

(** The counter of ids is raised to the number of an added cell and not past it, so
    the id of a deleted cell is given to the next new cell. *)
Theorem deleted_id_reused :
  let d1 := cellAdded default_config numbered (Some 5) in
  let d2 := cellRemoved d1 (Some 5) in
  let d3 := cellAdded default_config d2 (Some 6) in
  getCell d1 "7" = Some 5 ∧ getCell d2 "7" = None ∧ getCell d3 "7" = Some 6.
Proof. vm_compute. done. Qed.

End MxIds.
