(* ===== verification/MxPath.v ===== *)
(** * Paths of cells and the nearest common ancestor

    Models mxCellPath.js and [getNearestCommonAncestor] of mxGraphModel.js. A path is the
    string of the indices that lead from the top cell to a cell. *)

From Stdlib Require Import Ascii.
From stdpp Require Import pretty.
From S2P Require Import Prelude MxGeometry MxCell MxModel MxUndo Url.
Import MxGeometry MxCell MxModel MxUndo Url.

Module MxPath.

(** ** Definitions *)

Definition PATH_SEPARATOR : ascii := "."%char.

(** An index in a path. *)
Definition show_index (i : Z) : jstr := str (pretty i).

Fixpoint create_loop (n : nat) (h : heap) (cell : ref) (result : jstr) : jstr :=
  match n with
  | 0 => result
  | S n => match parent (h !!! cell) with
           | Some p => create_loop n h p (show_index (getIndex h p cell) ++ [PATH_SEPARATOR] ++ result)
           | None => result
           end
  end.

Definition create (h : heap) (cell : option ref) : jstr :=
  let result := match cell with Some c => create_loop (fuel h) h c [] | None => [] end in
  if decide (1 < length result) then take (length result - 1) result else result.

Definition getParentPath (path : option jstr) : option jstr :=
  match path with
  | None => None
  | Some p => match split PATH_SEPARATOR p with
              | [] | [_] => if decide (0 < length p) then Some [] else None
              | ws => Some (join [PATH_SEPARATOR] (removelast ws))
              end
  end.

(** [parseInt] on a text without leading blanks. *)
Definition digits_value (ds : jstr) : N :=
  foldl (λ acc a, 10 * acc + N.of_nat (nat_of_ascii a - 48))%N 0%N ds.
Definition parseInt (t : jstr) : option Z :=
  let '(neg, u) := match t with
                   | a :: u => if decide (a = "-"%char) then (true, u)
                               else if decide (a = "+"%char) then (false, u) else (false, t)
                   | [] => (false, [])
                   end in
  match (span is_digit u).1 with
  | [] => None
  | ds => Some (if neg : bool then - Z.of_N (digits_value ds) else Z.of_N (digits_value ds))%Z
  end.

(** The loop of [resolve]; the outer [None] is the TypeError of a child that is not
    there and is asked for a child. *)
Fixpoint resolve_loop (h : heap) (par : option ref) (tokens : list jstr) : option (option ref) :=
  match tokens with
  | [] => Some par
  | t :: tokens =>
      match par with
      | None => None
      | Some p => resolve_loop h (parseInt t ≫= getChildAt h p) tokens
      end
  end.

Definition resolve (h : heap) (root : option ref) (path : option jstr) : option (option ref) :=
  match path with
  | None => Some root
  | Some p => resolve_loop h root (split PATH_SEPARATOR p)
  end.

(** [mxCellPath.compare] on two lists of tokens. *)
Definition compare_token (a b : jstr) : Z :=
  if decide (a = [] ∨ b = []) then (if decide (a = b) then 0 else if decide (b = []) then 1 else -1)%Z
  else match parseInt a, parseInt b with
       | Some x, Some y => if decide (x = y) then 0 else if decide (x > y)%Z then 1 else -1
       | _, _ => -1
       end%Z.

Fixpoint first_difference (p1 p2 : list jstr) : Z :=
  match p1, p2 with
  | a :: p1, b :: p2 => if decide (a = b) then first_difference p1 p2 else compare_token a b
  | _, _ => 0
  end%Z.

Definition compare (p1 p2 : list jstr) : Z :=
  let comp := first_difference p1 p2 in
  if decide (comp = 0%Z) then
    (if decide (length p1 = length p2) then 0%Z else if decide (length p2 < length p1) then 1%Z else (-1)%Z)
  else comp.

(** [current + PATH_SEPARATOR], where [current] may have become [null]. *)
Definition with_separator (current : option jstr) : jstr := default (str "null") current ++ [PATH_SEPARATOR].

Fixpoint nca_loop (n : nat) (h : heap) (path : jstr) (cell : option ref) (current : option jstr) : option ref :=
  match n, cell with
  | S n, Some c =>
      let par := parent (h !!! c) in
      if bool_decide (is_Some (strip (with_separator current) path)) && bool_decide (par ≠ None)
      then Some c
      else nca_loop n h path par (getParentPath current)
  | _, _ => None
  end.

Definition getNearestCommonAncestor (h : heap) (cell1 cell2 : option ref) : option ref :=
  match cell1, cell2 with
  | Some _, Some _ =>
      let path := create h cell2 in
      if decide (0 < length path) then
        let current := create h cell1 in
        if decide (length path < length current)
        then nca_loop (fuel h) h current cell2 (Some path)
        else nca_loop (fuel h) h path cell1 (Some current)
      else None
  | _, _ => None
  end.

(** ** Numbers in paths *)

Lemma digits_value_go x s :
  foldl (λ acc a, 10 * acc + N.of_nat (nat_of_ascii a - 48))%N 0%N (str (pretty_N_go x s)) =
  foldl (λ acc a, 10 * acc + N.of_nat (nat_of_ascii a - 48))%N x (str s).
Proof.
  revert s. induction (N.lt_wf_0 x) as [x _ IH]. intros s. destruct (decide (x = 0%N)) as [->|Hx].
  - by rewrite pretty_N_go_0.
  - rewrite pretty_N_go_step by lia. rewrite IH by (apply N.div_lt; lia).
    change (str (String (pretty_N_char (x `mod` 10)) s)) with (pretty_N_char (x `mod` 10) :: str s).
    cbn [foldl]. f_equal.
    assert (∀ k, (k < 10)%N → N.of_nat (nat_of_ascii (pretty_N_char k) - 48) = k) as Hc.
    { intros k Hk. assert (k ∈ [0; 1; 2; 3; 4; 5; 6; 7; 8; 9]%N) as Hin.
      { assert (k = 0 ∨ k = 1 ∨ k = 2 ∨ k = 3 ∨ k = 4 ∨ k = 5 ∨ k = 6 ∨ k = 7 ∨ k = 8 ∨ k = 9)%N by lia. set_solver. }
      repeat (apply elem_of_cons in Hin as [->|Hin]; [done|]). by apply not_elem_of_nil in Hin. }
    rewrite Hc by (apply N.mod_lt; lia). symmetry. apply N.div_mod'.
Qed.

Lemma digits_value_pretty n : digits_value (str (pretty (N.of_nat n))) = N.of_nat n.
Proof.
  unfold pretty, pretty_N. case_decide as E; [by rewrite E|].
  apply (digits_value_go (N.of_nat n) "").
Qed.

Lemma show_index_nat (n : nat) : show_index (Z.of_nat n) = str (pretty (N.of_nat n)).
Proof. unfold show_index. by destruct n. Qed.

Lemma pretty_N_nat (n : nat) : str (pretty (N.of_nat n)) = str (pretty n).
Proof. done. Qed.

Lemma parseInt_show (n : nat) : parseInt (show_index (Z.of_nat n)) = Some (Z.of_nat n).
Proof.
  rewrite show_index_nat. pose proof (digits_value_pretty n) as Hv. rewrite pretty_N_nat in *.
  destruct (pretty_digits n) as [Hd Hne]. revert Hd Hne Hv. generalize (str (pretty n)). intros w Hd Hne Hv.
  destruct w as [|a u]; [done|]. unfold parseInt.
  assert (is_digit a = true) as Ha by by inversion Hd.
  rewrite !decide_False by (intros ->; done). rewrite span_all by done. cbn [fst].
  by rewrite Hv, nat_N_Z.
Qed.

Lemma show_index_no_sep (n : nat) : PATH_SEPARATOR ∉ show_index (Z.of_nat n) ∧ show_index (Z.of_nat n) ≠ [].
Proof.
  rewrite show_index_nat, pretty_N_nat. destruct (pretty_digits n) as [Hd Hne]. split; [|done].
  intros Hin. eapply Forall_forall in Hd; [|exact Hin]. done.
Qed.

Lemma show_index_inj (m n : nat) : show_index (Z.of_nat m) = show_index (Z.of_nat n) → m = n.
Proof. intros E. apply (f_equal parseInt) in E. rewrite !parseInt_show in E. by simplify_eq. Qed.

(** ** Paths as lists of indices *)

(** [ns] leads from [r] to [c]. *)
Inductive leads (h : heap) (r : ref) : ref → list nat → Prop :=
| leads_here : leads h r r []
| leads_child p c ns i : leads h r p ns → parent (h !!! c) = Some p → kids h p !! i = Some c →
                         leads h r c (ns ++ [i]).

Definition path_string (ns : list nat) : jstr := join [PATH_SEPARATOR] (map (show_index ∘ Z.of_nat) ns).

(** The text before the trailing separator is cut off. *)
Definition open_path (ns : list nat) : jstr :=
  concat (map (λ n : nat, show_index (Z.of_nat n) ++ [PATH_SEPARATOR]) ns).

Lemma open_path_app ns ms : open_path (ns ++ ms) = open_path ns ++ open_path ms.
Proof. unfold open_path. by rewrite map_app, concat_app. Qed.

Lemma open_path_string ns : ns ≠ [] → open_path ns = path_string ns ++ [PATH_SEPARATOR].
Proof.
  induction ns as [|n ns IH]; [done|]. intros _. unfold open_path, path_string in *. simpl.
  destruct ns as [|m ns]; [simpl; by rewrite app_nil_r|].
  rewrite IH by done. simpl. by rewrite <-!app_assoc.
Qed.

Lemma leads_inv h r c ns :
  leads h r c ns → (c = r ∧ ns = []) ∨
  ∃ p ms i, ns = ms ++ [i] ∧ leads h r p ms ∧ parent (h !!! c) = Some p ∧ kids h p !! i = Some c.
Proof. intros []; [by left|right; naive_solver]. Qed.

Lemma leads_unique h r c ns : tree_ok h → parent (h !!! r) = None → leads h r c ns →
  ∀ ms, leads h r c ms → ms = ns.
Proof.
  intros Ht Hr Hl. induction Hl as [|p c ns i Hl IH Hp Hk];
    intros ms [[E1 E2]|(p' & ms' & j & -> & Hl' & Hp' & Hk')]%leads_inv; try congruence.
  assert (p' = p) as -> by congruence. rewrite (IH ms') by done. do 2 f_equal.
  eapply NoDup_lookup; [apply (tree_nodup h Ht p)|done..].
Qed.

Lemma leads_fun h r c ns : leads h r c ns → parent (h !!! r) = None → ∀ c', leads h r c' ns → c' = c.
Proof.
  intros Hl Hr. induction Hl as [|p c ns i Hl IH Hp Hk];
    intros c' [[E1 E]|(p' & ms' & j & E & Hl' & Hp' & Hk')]%leads_inv;
    [done|by destruct ms'|by destruct ns|].
  apply app_inj_tail in E as [-> ->]. rewrite (IH p' Hl') in Hk'. congruence.
Qed.

Lemma leads_exists h r c : tree_ok h → ancestor h r c → ∃ ns, leads h r c ns.
Proof.
  intros Ht Ha. induction Ha as [|c p r Hcp Ha [ns IH]]; [exists []; constructor|].
  assert (c ∈ kids h p) as Hin by (by apply (tree_parent h Ht)).
  apply list_elem_of_lookup_1 in Hin as [i Hi]. exists (ns ++ [i]). by econstructor.
Qed.

Lemma leads_ancestor h r c ns : leads h r c ns → ancestor h r c.
Proof. induction 1; [constructor|]. by eapply rtc_l. Qed.

Lemma leads_depth h r c ns : parent (h !!! r) = None → leads h r c ns → depth h c (length ns).
Proof.
  intros Hr. induction 1; [by constructor|]. rewrite length_app, Nat.add_1_r. by econstructor.
Qed.

Lemma create_loop_leads h r c ns n acc :
  tree_ok h → parent (h !!! r) = None → leads h r c ns → length ns < n →
  create_loop n h c acc = open_path ns ++ acc.
Proof.
  intros Ht Hr Hl. revert n acc. induction Hl as [|p c ns i Hl IH Hp Hk]; intros n acc Hn;
    (destruct n as [|n]; [lia|]); simpl.
  - by rewrite Hr.
  - rewrite Hp. rewrite length_app in Hn. simpl in Hn. rewrite IH by lia.
    assert (getIndex h p c = Z.of_nat i) as ->.
    { assert (c ∈ kids h p) as Hin by by eapply list_elem_of_lookup_2.
      destruct (indexOf_elem _ _ Hin) as (j & Hj & Hl'). unfold getIndex. rewrite Hj. f_equal.
      eapply NoDup_lookup; [apply (tree_nodup h Ht p)|done..]. }
    rewrite open_path_app, <-app_assoc. f_equal. unfold open_path. simpl.
    by rewrite app_nil_r, <-app_assoc.
Qed.

Lemma create_leads h r c ns :
  tree_ok h → parent (h !!! r) = None → leads h r c ns → create h (Some c) = path_string ns.
Proof.
  intros Ht Hr Hl. unfold create.
  rewrite (create_loop_leads h r c ns) by (done || by eapply depth_fuel, leads_depth). rewrite app_nil_r.
  destruct ns as [|n ns]; [done|]. rewrite open_path_string by done. rewrite length_app. simpl length.
  rewrite decide_True; [by rewrite Nat.add_sub, take_app_length|].
  destruct (show_index_no_sep n) as [_ Hne]. unfold path_string. simpl.
  destruct (show_index (Z.of_nat n)) as [|a u] eqn:E; [done|]. destruct (map _ ns); simpl; lia.
Qed.

Lemma split_path ns : ns ≠ [] → split PATH_SEPARATOR (path_string ns) = map (show_index ∘ Z.of_nat) ns.
Proof.
  intros Hne. unfold path_string. apply split_join; [by destruct ns|].
  apply Forall_fmap, Forall_forall. intros n _. apply show_index_no_sep.
Qed.

Lemma resolve_loop_app h par ts t :
  resolve_loop h par (ts ++ [t]) =
  match resolve_loop h par ts with
  | Some (Some p) => Some (parseInt t ≫= getChildAt h p)
  | _ => None
  end.
Proof.
  revert par. induction ts as [|u ts IH]; intros par; simpl; [by destruct par|].
  destruct par; [apply IH|done].
Qed.

Lemma resolve_loop_leads h r c ns :
  leads h r c ns → resolve_loop h (Some r) (map (show_index ∘ Z.of_nat) ns) = Some (Some c).
Proof.
  induction 1 as [|p c ns i Hl IH Hp Hk]; [done|]. rewrite map_app. simpl map.
  rewrite resolve_loop_app, IH, parseInt_show. simpl. unfold getChildAt, kids in *.
  destruct (children (h !!! p)); [|done]. simpl in Hk. rewrite decide_True by lia. by rewrite Nat2Z.id, Hk.
Qed.

(** Resolving the path of a cell leads back to the cell, for every cell below the top
    one; for the top cell itself the path is empty and resolves to no cell. *)
Theorem resolve_create h r c :
  tree_ok h → acyclic h → parent (h !!! r) = None → ancestor h r c →
  resolve h (Some r) (Some (create h (Some c))) = Some (if decide (c = r) then None else Some c).
Proof.
  intros Ht Hac Hr Ha. destruct (leads_exists h r c Ht Ha) as [ns Hl]. unfold resolve.
  rewrite (create_leads h r c ns) by done. case_decide as Hc; [subst|].
  - rewrite (leads_unique h r r [] Ht Hr (leads_here h r) ns Hl). done.
  - assert (ns ≠ []) as Hne by
      (intros ->; apply leads_inv in Hl as [[? _]|(? & ms & ? & ? & _)]; [done|by destruct ms]).
    rewrite split_path by done. by apply resolve_loop_leads.
Qed.

(** ** The nearest common ancestor *)

Lemma leads_prefix h r x o ns ms :
  tree_ok h → parent (h !!! r) = None → leads h r x ns → leads h r o ms →
  ns `prefix_of` ms ↔ ancestor h x o.
Proof.
  intros Ht Hr Hx Ho. split.
  - revert ns x Hx. induction Ho as [|p o ms i Ho IH Hp Hk]; intros ns x Hx Hpre.
    + apply prefix_nil_inv in Hpre as ->. by rewrite (leads_fun h r r [] (leads_here h r) Hr x Hx).
    + destruct Hpre as [k Hpre]. destruct k as [|a k _] using rev_ind.
      * rewrite app_nil_r in Hpre. subst ns.
        assert (leads h r o (ms ++ [i])) as Ho' by by econstructor.
        by rewrite (leads_fun h r o _ Ho' Hr x Hx).
      * rewrite app_assoc in Hpre. apply app_inj_tail in Hpre as [-> _].
        eapply rtc_l; [exact Hp|]. eapply IH; [done|]. by exists k.
  - intros Ha. revert ms Ho. induction Ha as [|o p x Hop Ha IH]; intros ms Ho.
    + by rewrite (leads_unique h r _ ns Ht Hr Hx ms Ho).
    + unfold step_up in Hop. apply leads_inv in Ho as [[-> ->]|(p' & ms' & i & -> & Ho' & Hp' & Hk')];
        [congruence|]. simplify_eq. etrans; [by apply IH|]. by exists [i].
Qed.

Lemma path_string_app ns ms :
  ns ≠ [] → ms ≠ [] → path_string (ns ++ ms) = path_string ns ++ [PATH_SEPARATOR] ++ path_string ms.
Proof.
  intros Hn Hm. apply (app_inv_tail [PATH_SEPARATOR]). rewrite <-open_path_string by by destruct ns.
  rewrite open_path_app, !open_path_string by done. by rewrite <-!app_assoc.
Qed.

Lemma path_string_inj ns ms : ns ≠ [] → ms ≠ [] → path_string ns = path_string ms → ns = ms.
Proof.
  intros Hn Hm E. apply (f_equal (split PATH_SEPARATOR)) in E. rewrite !split_path in E by done.
  clear Hn Hm. revert ms E. induction ns as [|n ns IH]; intros [|m ms] E; simpl in E; try done.
  injection E as En E. apply show_index_inj in En as ->. f_equal. by apply IH.
Qed.

Lemma open_path_prefix ns ms t :
  ns ≠ [] → path_string ms = open_path ns ++ t → ∃ k, k ≠ [] ∧ ms = ns ++ k.
Proof.
  intros Hn E. assert (ms ≠ []) as Hm by (intros ->; rewrite open_path_string in E by done; by destruct (path_string ns)).
  apply (f_equal (split PATH_SEPARATOR)) in E. rewrite split_path in E by done.
  clear Hn. revert ms Hm E. induction ns as [|n ns IH]; intros ms Hm E.
  - exists ms. by split.
  - unfold open_path in E. simpl in E. rewrite <-!app_assoc in E. simpl in E.
    rewrite split_app in E by apply show_index_no_sep. destruct ms as [|m ms]; [done|]. simpl in E.
    injection E as Em E. apply show_index_inj in Em as ->.
    destruct (IH ms) as (k & Hk & ->); [|done|by exists k].
    intros ->. simpl in E. symmetry in E. by apply split_nonempty in E.
Qed.

(** The test of the loop: a proper prefix of the other path that is not empty. *)
Lemma prefix_test ns ms :
  ns ≠ [] → is_Some (strip (with_separator (Some (path_string ns))) (path_string ms)) ↔ ∃ k, k ≠ [] ∧ ms = ns ++ k.
Proof.
  intros Hn. unfold with_separator. simpl. rewrite <-open_path_string by done. split.
  - intros [t Ht%strip_Some]. by eapply open_path_prefix.
  - intros (k & Hk & ->). exists (path_string k). apply strip_Some.
    rewrite path_string_app, open_path_string by done. by rewrite <-app_assoc.
Qed.

Lemma getParentPath_snoc ns i : getParentPath (Some (path_string (ns ++ [i]))) = Some (path_string ns).
Proof.
  unfold getParentPath. rewrite split_path by by destruct ns. rewrite map_app. simpl map.
  destruct ns as [|n ns].
  - simpl. rewrite decide_True; [done|]. unfold path_string. simpl.
    destruct (show_index_no_sep i) as [_ Hne]. destruct (show_index (Z.of_nat i)); [done|simpl; lia].
  - unfold path_string. set (ws := map (show_index ∘ Z.of_nat) (n :: ns)).
    set (w := show_index (Z.of_nat i)). assert (ws ≠ []) as Hne by done. clearbody ws.
    transitivity (Some (join [PATH_SEPARATOR] (removelast (ws ++ [w])))); [|by rewrite removelast_last].
    destruct ws as [|u [|u' us]]; done.
Qed.

(** The loop climbs from [x] to the first cell above the other one. *)
Lemma nca_loop_spec h r x ns o ms n a :
  tree_ok h → acyclic h → parent (h !!! r) = None → leads h r x ns → leads h r o ms → length ns < n →
  ancestor h a x → ancestor h a o → ancestor h r a →
  (∀ b, ancestor h b x → ancestor h b o → ancestor h b a) →
  a ≠ o ∨ a = r →
  nca_loop n h (path_string ms) (Some x) (Some (path_string ns)) =
  if decide (parent (h !!! a) = None) then None else Some a.
Proof.
  intros Ht Hac Hr Hx Ho. revert n. induction Hx as [|p x ns i Hx IH Hp Hk]; intros n Hn Hax Hao Hra Hlow Hne.
  - destruct n as [|n]; [lia|]. simpl. rewrite Hr, (bool_decide_false (None ≠ None)), andb_false_r by (intros Hn'; by apply Hn').
    assert (a = r) as ->.
    { inversion Hax as [|? y ? Hy]; [done|]. unfold step_up in Hy. congruence. }
    rewrite decide_True by done. by destruct n.
  - destruct n as [|n]; [lia|]. cbn [nca_loop]. cbv zeta. rewrite length_app in Hn. simpl in Hn.
    assert (leads h r x (ns ++ [i])) as Hx' by by econstructor.
    rewrite Hp, (bool_decide_true (Some p ≠ None)), andb_true_r by done.
    assert (ancestor h x o ∨ ¬ ancestor h x o) as [Hxo|Hxo].
    { rewrite <-(leads_prefix h r x o (ns ++ [i]) ms) by done.
      destruct (decide ((ns ++ [i]) `prefix_of` ms)); tauto. }
    + assert (a = x) as ->.
      { assert (ancestor h x a) as Hxa by (apply Hlow; [constructor|done]).
        destruct (Hac a) as [da Hda], (Hac x) as [dx Hdx].
        inversion Hax as [|? y ? Hy Hya]; [done|]. exfalso. subst.
        pose proof (depth_ancestor _ _ _ _ _ Hdx Hda Hxa).
        destruct (Hac y) as [dy Hdy]. pose proof (depth_ancestor _ _ _ _ _ Hda Hdy Hya).
        assert (dx = S dy) by (eapply depth_fun; [exact Hdx|by econstructor]). lia. }
      rewrite bool_decide_true.
      * by rewrite decide_False by congruence.
      * apply prefix_test; [by destruct ns|]. apply (leads_prefix h r x o (ns ++ [i]) ms) in Hxo as [k Hk']; try done.
        exists k. split; [|done]. intros ->. rewrite app_nil_r in Hk'. subst.
        destruct Hne as [Hne|Hne]; [by apply Hne, (leads_fun h r o (ns ++ [i]))|congruence].
    + rewrite bool_decide_false.
      * rewrite getParentPath_snoc. apply IH; try done; [lia| |].
        -- inversion Hax as [|? y ? Hy Hya]; [by subst; destruct (Hxo Hao)|]. unfold step_up in Hy. by simplify_eq.
        -- intros b Hbp Hbo. apply Hlow; [|done]. eapply rtc_l; [exact Hp|done].
      * rewrite prefix_test by by destruct ns. intros (k & _ & Hk').
        apply Hxo, (leads_prefix h r x o (ns ++ [i]) ms); try done. by exists k.
Qed.

Lemma path_string_prefix_length ns ms :
  ns `prefix_of` ms → length (path_string ns) ≤ length (path_string ms) ∧
  (length (path_string ms) ≤ length (path_string ns) → ns ≠ [] → ns = ms).
Proof.
  intros [k ->]. destruct ns as [|n ns]; [split; [simpl; lia|done]|].
  destruct k as [|j k]; [by rewrite app_nil_r|].
  rewrite path_string_app, !length_app by done. simpl. split; lia.
Qed.

Lemma path_string_empty ns : length (path_string ns) = 0 → ns = [].
Proof.
  destruct ns as [|n ns]; [done|]. unfold path_string. simpl.
  destruct (show_index_no_sep n) as [_ Hne]. destruct (show_index (Z.of_nat n)); [done|].
  destruct (map _ ns); simpl; lia.
Qed.

Lemma nca_lowest h r c1 c2 a :
  tree_ok h → acyclic h → parent (h !!! r) = None → ancestor h r c1 → ancestor h r c2 → c1 ≠ c2 →
  ancestor h r a → ancestor h a c1 → ancestor h a c2 →
  (∀ b, ancestor h b c1 → ancestor h b c2 → ancestor h b a) →
  getNearestCommonAncestor h (Some c1) (Some c2) =
  if decide (parent (h !!! a) = None) then None else Some a.
Proof.
  intros Ht Hac Hr H1 H2 Hne Hra Ha1 Ha2 Hlow.
  destruct (leads_exists h r c1 Ht H1) as [ns Hns], (leads_exists h r c2 Ht H2) as [ms Hms].
  assert (∀ x y xs ys, leads h r x xs → leads h r y ys → a = x → ancestor h a y → xs `prefix_of` ys) as Hpre.
  { intros x y xs ys Hx Hy -> Ha. by apply (leads_prefix h r x y). }
  unfold getNearestCommonAncestor. rewrite (create_leads h r c1 ns), (create_leads h r c2 ms) by done. cbv zeta.
  case_decide as Hlen.
  - case_decide as Hlt.
    + apply (nca_loop_spec h r c2 ms c1 ns); try done.
      * by eapply depth_fuel, leads_depth.
      * by intros b Hb2 Hb1; apply Hlow.
      * left. intros E. apply (Hpre c1 c2 ns ms) in E; [|done..].
        apply path_string_prefix_length in E as [Hle _]. lia.
    + apply (nca_loop_spec h r c1 ns c2 ms); try done.
      * by eapply depth_fuel, leads_depth.
      * left. intros E. apply (Hpre c2 c1 ms ns) in E; [|done..].
        apply path_string_prefix_length in E as [_ He]. apply Hne.
        rewrite <-He in Hns; [|lia|intros ->; simpl in Hlen; lia]. by apply (leads_fun h r c2 ms).
  - assert (ms = []) as -> by (apply path_string_empty; lia).
    pose proof (leads_fun h r r [] (leads_here h r) Hr c2 Hms) as ->.
    assert (a = r) as ->; [|by rewrite decide_True].
    inversion Ha2 as [|? y ? Hy]; [done|]. unfold step_up in Hy. congruence.
Qed.

(** C20: For two different cells of one tree the search by path strings finds their lowest
    common ancestor, and answers [null] when that is the top cell of the tree. *)
Theorem getNearestCommonAncestor_lowest h r c1 c2 a :
  tree_ok h → acyclic h → parent (h !!! r) = None → ancestor h r c1 → ancestor h r c2 → c1 ≠ c2 →
  ancestor h r a → ancestor h a c1 → ancestor h a c2 →
  (∀ b, ancestor h b c1 → ancestor h b c2 → ancestor h b a) →
  getNearestCommonAncestor h (Some c1) (Some c2) =
  if decide (parent (h !!! a) = None) then None else Some a.
Proof. apply nca_lowest. Qed.

Lemma sample_top : parent (hp sample !!! 0) = None.
Proof. reflexivity. Qed.

Lemma sample_above : ancestor (hp sample) 0 2 ∧ ancestor (hp sample) 0 4 ∧ ancestor (hp sample) 1 2 ∧
  ancestor (hp sample) 1 4 ∧ ancestor (hp sample) 0 1.
Proof.
  assert (∀ x y, isAncestor (hp sample) (Some x) (Some y) = true → ancestor (hp sample) x y) as H.
  { intros x y. apply isAncestor_spec, sample_wf. }
  split_and!; apply H; by vm_compute.
Qed.

Lemma resolve_create_witness :
  create (hp sample) (Some 4) = str "0.2" ∧
  resolve (hp sample) (Some 0) (Some (create (hp sample) (Some 4))) = Some (Some 4).
Proof.
  split; [vm_compute; reflexivity|].
  exact (resolve_create (hp sample) 0 4 (wf_tree _ sample_wf) (wf_acyclic _ sample_wf) sample_top
    (proj1 (proj2 sample_above))).
Defined.

Lemma getNearestCommonAncestor_lowest_witness :
  getNearestCommonAncestor (hp sample) (Some 2) (Some 4) = Some 1.
Proof.
  destruct sample_above as (H1 & H2 & H3 & H4 & H5).
  refine (getNearestCommonAncestor_lowest (hp sample) 0 2 4 1 (wf_tree _ sample_wf) (wf_acyclic _ sample_wf)
    sample_top H1 H2 _ H5 H3 H4 _); [discriminate|].
  intros b Hb Hb4. apply rtc_inv in Hb as [<-|(y & Hy & Hb)].
  - apply (isAncestor_spec _ 2 4 (wf_acyclic _ sample_wf)) in Hb4. vm_compute in Hb4. discriminate Hb4.
  - unfold step_up in Hy. vm_compute in Hy. injection Hy as <-. exact Hb.
Defined.

End MxPath.
