(* ===== verification/MxEditor.v ===== *)
(** * Transactions on the graph model and the undo manager

    Models [execute], [beginUpdate] and [endUpdate] of mxGraphModel.js and the whole of
    mxUndoManager.js. An abstract editor keeps the graphs before and after the present
    one; the model with its undo manager is shown to implement it. *)

From S2P Require Import Prelude MxGeometry MxCell MxModel MxUndo.
Import MxGeometry MxCell MxModel MxUndo.

Module MxEditor.

Section Editor.
Context (cfg : config).

(** ** Sessions *)

(** A model in use: its graph, the nesting of updates, the edit that collects the
    changes, and the events fired so far. *)
Record session := Session {
  sdata : data;
  updateLevel : Z;
  endingUpdate : bool;
  currentEdit : mxUndoableEdit;
  log : list event
}.

Definition fire (evs : list event) (s : session) : session :=
  Session (sdata s) (updateLevel s) (endingUpdate s) (currentEdit s) (log s ++ evs).
Definition set_updateLevel (n : Z) (s : session) : session :=
  Session (sdata s) n (endingUpdate s) (currentEdit s) (log s).
Definition set_endingUpdate (b : bool) (s : session) : session :=
  Session (sdata s) (updateLevel s) b (currentEdit s) (log s).
Definition set_currentEdit (e : mxUndoableEdit) (s : session) : session :=
  Session (sdata s) (updateLevel s) (endingUpdate s) e (log s).
Definition set_sdata (d : data) (s : session) : session :=
  Session d (updateLevel s) (endingUpdate s) (currentEdit s) (log s).

Definition createUndoableEdit : mxUndoableEdit := new_mxUndoableEdit true.

Definition beginUpdate (s : session) : session :=
  let s := set_updateLevel (updateLevel s + 1) s in
  let s := fire [BEGIN_UPDATE] s in
  if decide (updateLevel s = 1%Z) then fire [START_EDIT] s else s.

Definition endUpdate (s : session) : session :=
  let s := set_updateLevel (updateLevel s - 1) s in
  let s := if decide (updateLevel s = 0%Z) then fire [END_EDIT] s else s in
  if endingUpdate s then s
  else
    let s := set_endingUpdate (bool_decide (updateLevel s = 0%Z)) s in
    let s := fire [END_UPDATE (currentEdit s)] s in
    let s := if endingUpdate s && negb (edit_isEmpty (currentEdit s)) then
               let tmp := currentEdit s in
               let s := fire [BEFORE_UNDO tmp] s in
               let s := set_currentEdit createUndoableEdit s in
               let s := fire (notify tmp) s in
               fire [UNDO tmp] s
             else s in
    set_endingUpdate false s.

Definition execute (ch : change) (s : session) : session :=
  let '(d, ch) := execute_change cfg (sdata s) ch in
  let s := beginUpdate (set_sdata d s) in
  let s := set_currentEdit (edit_add (currentEdit s) ch) s in
  let s := fire [EXECUTE ch; EXECUTED ch] s in
  endUpdate s.

(** Programs that use the model: changes, and blocks between [beginUpdate] and
    [endUpdate]. *)
Inductive prog :=
| Exec (ch : change)
| Block (ps : list prog).

Fixpoint run (p : prog) (s : session) : session :=
  match p with
  | Exec ch => execute ch s
  | Block ps => endUpdate (foldl (λ s p, run p s) (beginUpdate s) ps)
  end.

(** The changes of a program, in the order it makes them. *)
Fixpoint flat (p : prog) : list change :=
  match p with
  | Exec ch => [ch]
  | Block ps => concat (map flat ps)
  end.

(** The edits announced by UNDO events. *)
Definition edits_of (evs : list event) : list mxUndoableEdit :=
  omap (λ ev, match ev with UNDO e => Some e | _ => None end) evs.

(** No update is under way and no change is pending. *)
Definition idle (s : session) : Prop :=
  updateLevel s = 0%Z ∧ endingUpdate s = false ∧ currentEdit s = createUndoableEdit.

(** ** Transactions *)

Lemma edits_of_app l1 l2 : edits_of (l1 ++ l2) = edits_of l1 ++ edits_of l2.
Proof. apply omap_app. Qed.

Definition add_changes (e : mxUndoableEdit) (l : list change) : mxUndoableEdit :=
  Edit (changes e ++ l) (significant e) (undone e) (redone e).

(** What a program does inside an update: the changes are executed and collected, and
    no edit is announced. *)
Record inside (l : list change) (s s' : session) : Prop := {
  in_data : sdata s' = (exec_list cfg (sdata s) l).1;
  in_level : updateLevel s' = updateLevel s;
  in_ending : endingUpdate s' = endingUpdate s;
  in_edit : currentEdit s' = add_changes (currentEdit s) (exec_list cfg (sdata s) l).2;
  in_edits : edits_of (log s') = edits_of (log s)
}.

Lemma inside_app l1 l2 s1 s2 s3 : inside l1 s1 s2 → inside l2 s2 s3 → inside (l1 ++ l2) s1 s3.
Proof.
  intros [D1 L1 E1 C1 U1] [D2 L2 E2 C2 U2].
  split; rewrite ?exec_list_app; cbn [fst snd]; try congruence.
  rewrite C2, C1, D1. unfold add_changes. simpl. by rewrite app_assoc.
Qed.

Lemma inside_nil s : inside [] s s.
Proof.
  split; try done. destruct s as [? ? ? [] ?]; unfold add_changes; simpl. by rewrite app_nil_r.
Qed.

Lemma beginUpdate_inside s :
  sdata (beginUpdate s) = sdata s ∧ updateLevel (beginUpdate s) = (updateLevel s + 1)%Z ∧
  endingUpdate (beginUpdate s) = endingUpdate s ∧ currentEdit (beginUpdate s) = currentEdit s ∧
  edits_of (log (beginUpdate s)) = edits_of (log s).
Proof.
  unfold beginUpdate. cbv zeta. case_decide; simpl; rewrite !edits_of_app; simpl;
    by rewrite ?app_nil_r.
Qed.

(** The inner [endUpdate] of a nested update only lowers the level. *)
Lemma endUpdate_nested s :
  (1 < updateLevel s)%Z → endingUpdate s = false →
  sdata (endUpdate s) = sdata s ∧ updateLevel (endUpdate s) = (updateLevel s - 1)%Z ∧
  endingUpdate (endUpdate s) = false ∧ currentEdit (endUpdate s) = currentEdit s ∧
  edits_of (log (endUpdate s)) = edits_of (log s).
Proof.
  intros Hl He. unfold endUpdate. cbv zeta. simpl.
  rewrite decide_False by lia. simpl. rewrite He, bool_decide_false by lia. simpl.
  by rewrite edits_of_app, app_nil_r.
Qed.

(** The outermost [endUpdate] announces the edit if it has changes. *)
Lemma endUpdate_outer s :
  updateLevel s = 1%Z → endingUpdate s = false →
  sdata (endUpdate s) = sdata s ∧ updateLevel (endUpdate s) = 0%Z ∧
  endingUpdate (endUpdate s) = false ∧
  if edit_isEmpty (currentEdit s)
  then currentEdit (endUpdate s) = currentEdit s ∧ edits_of (log (endUpdate s)) = edits_of (log s)
  else currentEdit (endUpdate s) = createUndoableEdit ∧
       edits_of (log (endUpdate s)) = edits_of (log s) ++ [currentEdit s].
Proof.
  intros Hl He. unfold endUpdate. cbv zeta. simpl. rewrite Hl. simpl. rewrite He. simpl.
  destruct (edit_isEmpty (currentEdit s)); simpl; rewrite !edits_of_app; simpl;
    by rewrite ?app_nil_r.
Qed.

Lemma execute_inside ch s :
  (0 < updateLevel s)%Z → endingUpdate s = false → inside [ch] s (execute ch s).
Proof.
  intros Hl He. unfold execute. rewrite (surjective_pairing (execute_change cfg (sdata s) ch)).
  set (d := (execute_change cfg (sdata s) ch).1). set (ch' := (execute_change cfg (sdata s) ch).2).
  cbv zeta. destruct (beginUpdate_inside (set_sdata d s)) as (B1 & B2 & B3 & B4 & B5).
  set (s1 := beginUpdate (set_sdata d s)) in *. simpl in B2, B3, B4, B5.
  destruct (endUpdate_nested (fire [EXECUTE ch'; EXECUTED ch']
    (set_currentEdit (edit_add (currentEdit s1) ch') s1))) as (E1 & E2 & E3 & E4 & E5);
    [simpl; lia|by simpl; rewrite B3|].
  simpl in E1, E2, E4, E5. split; rewrite ?exec_list_cons; cbn [exec_list fst snd].
  - by rewrite E1, B1.
  - rewrite E2. lia.
  - by rewrite E3.
  - by rewrite E4, B4.
  - by rewrite E5, edits_of_app, app_nil_r, B5.
Qed.

(** Induction on programs through blocks. *)
Lemma prog_ind' (P : prog → Prop) :
  (∀ ch, P (Exec ch)) → (∀ ps, Forall P ps → P (Block ps)) → ∀ p, P p.
Proof.
  intros H1 H2. fix IH 1. intros [ch|ps]; [apply H1|]. apply H2.
  induction ps as [|p ps IHps]; constructor; [apply IH|apply IHps].
Qed.

Lemma run_list_inside ps s :
  Forall (λ p, ∀ s, (0 < updateLevel s)%Z → endingUpdate s = false → inside (flat p) s (run p s)) ps →
  (0 < updateLevel s)%Z → endingUpdate s = false →
  inside (concat (map flat ps)) s (foldl (λ s p, run p s) s ps).
Proof.
  intros Hps. revert s. induction Hps as [|p ps Hp _ IH]; intros s Hl He; simpl; [apply inside_nil|].
  pose proof (Hp s Hl He) as Hi. eapply inside_app; [exact Hi|].
  apply IH; [by rewrite (in_level _ _ _ Hi)|by rewrite (in_ending _ _ _ Hi)].
Qed.

Lemma run_inside p s :
  (0 < updateLevel s)%Z → endingUpdate s = false → inside (flat p) s (run p s).
Proof.
  revert s. induction p as [ch|ps IH] using prog_ind'; intros s Hl He; simpl.
  { by apply execute_inside. }
  destruct (beginUpdate_inside s) as (B1 & B2 & B3 & B4 & B5).
  destruct (run_list_inside ps (beginUpdate s) IH) as [I1 I2 I3 I4 I5]; [lia|congruence|].
  rewrite B1, B4 in *.
  destruct (endUpdate_nested (foldl (λ s p, run p s) (beginUpdate s) ps)) as (E1 & E2 & E3 & E4 & E5);
    [lia|congruence|].
  split; try congruence. lia.
Qed.

Lemma add_changes_new l : add_changes createUndoableEdit l = Edit l true false false.
Proof. done. Qed.

Lemma edit_isEmpty_Edit l b1 b2 b3 : edit_isEmpty (Edit l b1 b2 b3) = bool_decide (l = []).
Proof. unfold edit_isEmpty. simpl. apply bool_decide_ext. by rewrite length_zero_iff_nil. Qed.

Lemma run_idle p s :
  idle s →
  idle (run p s) ∧ sdata (run p s) = (exec_list cfg (sdata s) (flat p)).1 ∧
  edits_of (log (run p s)) = edits_of (log s) ++
    (if decide (flat p = []) then [] else [Edit (exec_list cfg (sdata s) (flat p)).2 true false false]).
Proof.
  intros (Hl & He & Hc).
  assert (∃ s1, run p s = endUpdate s1 ∧ updateLevel s1 = 1%Z ∧ endingUpdate s1 = false ∧
    sdata s1 = (exec_list cfg (sdata s) (flat p)).1 ∧ edits_of (log s1) = edits_of (log s) ∧
    currentEdit s1 = add_changes (currentEdit s) (exec_list cfg (sdata s) (flat p)).2)
    as (s1 & -> & L1 & E1 & D1 & U1 & C1).
  { destruct p as [ch|ps]; simpl.
    - unfold execute. rewrite (surjective_pairing (execute_change cfg (sdata s) ch)). cbv zeta.
      destruct (beginUpdate_inside (set_sdata (execute_change cfg (sdata s) ch).1 s))
        as (B1 & B2 & B3 & B4 & B5).
      eexists. split; [reflexivity|]. simpl in *. destruct (execute_change cfg (sdata s) ch); simpl in *.
      rewrite edits_of_app, app_nil_r. split_and!; [lia|congruence|by rewrite B1|by rewrite B5|by rewrite B4].
    - destruct (beginUpdate_inside s) as (B1 & B2 & B3 & B4 & B5).
      destruct (run_list_inside ps (beginUpdate s)) as [I1 I2 I3 I4 I5]; [|lia|congruence|].
      { apply Forall_true. intros p. apply run_inside. }
      rewrite B1, B4 in *. eexists. split; [reflexivity|]. split_and!; [lia|congruence..]. }
  destruct (endUpdate_outer s1 L1 E1) as (X1 & X2 & X3 & X4). rewrite C1, Hc, add_changes_new in X4.
  rewrite edit_isEmpty_Edit in X4. set (r := exec_list cfg (sdata s) (flat p)) in *.
  assert (r.2 = [] ↔ flat p = []) as Hnil.
  { rewrite <-!length_zero_iff_nil. unfold r. by rewrite exec_list_length. }
  destruct (decide (flat p = [])) as [Hf|Hf].
  - rewrite bool_decide_true in X4 by by apply Hnil. destruct X4 as [X4 X5].
    rewrite app_nil_r. split_and!; [|congruence..]. split_and!; [done..|].
    rewrite X4. by rewrite (proj2 Hnil Hf).
  - rewrite bool_decide_false in X4 by by rewrite Hnil. destruct X4 as [X4 X5].
    split_and!; [by split_and!|congruence..].
Qed.

(** ** The undo manager *)

Inductive manager_event :=
| M_CLEAR | M_UNDO (e : mxUndoableEdit) | M_REDO (e : mxUndoableEdit) | M_ADD (e : mxUndoableEdit).

(** A size of 0 stands for an unlimited history. *)
Record mxUndoManager := Manager {
  msize : nat;
  history : list mxUndoableEdit;
  indexOfNextAdd : nat;
  mlog : list manager_event
}.

Definition clear (m : mxUndoManager) : mxUndoManager := Manager (msize m) [] 0 (mlog m ++ [M_CLEAR]).
Definition new_mxUndoManager (size : option nat) : mxUndoManager :=
  clear (Manager (default 100 size) [] 0 []).
Definition manager_isEmpty (m : mxUndoManager) : bool := bool_decide (length (history m) = 0).
Definition canUndo (m : mxUndoManager) : bool := bool_decide (0 < indexOfNextAdd m).
Definition canRedo (m : mxUndoManager) : bool := bool_decide (indexOfNextAdd m < length (history m)).

Definition set_at (m : mxUndoManager) (i : nat) (e : mxUndoableEdit) (next : nat) : mxUndoManager :=
  Manager (msize m) (<[i := e]> (history m)) next (mlog m).
Definition mfire (ev : manager_event) (m : mxUndoManager) : mxUndoManager :=
  Manager (msize m) (history m) (indexOfNextAdd m) (mlog m ++ [ev]).

(** The loop of [undo], entered with [indexOfNextAdd = n]; an index outside the history
    is a TypeError. The third component collects the events of the model. *)
Fixpoint undo_loop (n : nat) (d : data) (m : mxUndoManager) (evs : list event)
    : option (data * mxUndoManager * list event) :=
  match n with
  | 0 => Some (d, m, evs)
  | S i =>
      match history m !! i with
      | None => None
      | Some edit =>
          let '(d, edit, ev) := edit_undo cfg d edit in
          let m := set_at m i edit i in
          if isSignificant edit then Some (d, mfire (M_UNDO edit) m, evs ++ ev)
          else undo_loop i d m (evs ++ ev)
      end
  end.
Definition undo (d : data) (m : mxUndoManager) : option (data * mxUndoManager * list event) :=
  undo_loop (indexOfNextAdd m) d m [].

(** The loop of [redo], entered with [n] edits left to redo. *)
Fixpoint redo_loop (n : nat) (d : data) (m : mxUndoManager) (evs : list event)
    : option (data * mxUndoManager * list event) :=
  match n with
  | 0 => Some (d, m, evs)
  | S n =>
      let i := indexOfNextAdd m in
      match history m !! i with
      | None => None
      | Some edit =>
          let '(d, edit, ev) := edit_redo cfg d edit in
          let m := set_at m i edit (S i) in
          if isSignificant edit then Some (d, mfire (M_REDO edit) m, evs ++ ev)
          else redo_loop n d m (evs ++ ev)
      end
  end.
Definition redo (d : data) (m : mxUndoManager) : option (data * mxUndoManager * list event) :=
  redo_loop (length (history m) - indexOfNextAdd m) d m [].

(** [trim]; [die] does nothing for the edits of a model. *)
Definition trim (m : mxUndoManager) : mxUndoManager :=
  if decide (indexOfNextAdd m < length (history m))
  then Manager (msize m)
         (js_splice (history m) (Z.of_nat (indexOfNextAdd m)) (length (history m) - indexOfNextAdd m) [])
         (indexOfNextAdd m) (mlog m)
  else m.

Definition undoableEditHappened (m : mxUndoManager) (e : mxUndoableEdit) : mxUndoManager :=
  let m := trim m in
  let h := if decide (0 < msize m ∧ msize m = length (history m)) then tail (history m) else history m in
  let h := h ++ [e] in
  mfire (M_ADD e) (Manager (msize m) h (length h) (mlog m)).

(** ** The editor: a model whose UNDO events feed the undo manager *)

Record editor := Editor { sess : session; mgr : mxUndoManager }.

Inductive action := Do (p : prog) | Undo | Redo.

Definition do_prog (p : prog) (ed : editor) : editor :=
  let s := run p (sess ed) in
  let fired := drop (length (log (sess ed))) (log s) in
  Editor s (foldl undoableEditHappened (mgr ed) (edits_of fired)).

Definition step (ed : editor) (a : action) : option editor :=
  match a with
  | Do p => Some (do_prog p ed)
  | Undo => r ← undo (sdata (sess ed)) (mgr ed);
            let '(d, m, evs) := r in Some (Editor (fire evs (set_sdata d (sess ed))) m)
  | Redo => r ← redo (sdata (sess ed)) (mgr ed);
            let '(d, m, evs) := r in Some (Editor (fire evs (set_sdata d (sess ed))) m)
  end.

Fixpoint steps (ed : editor) (l : list action) : option editor :=
  match l with
  | [] => Some ed
  | a :: l => step ed a ≫= λ ed, steps ed l
  end.

Definition new_editor (size : option nat) (d : data) : editor :=
  Editor (Session d 0 false createUndoableEdit []) (new_mxUndoManager size).

(** ** The abstract editor *)

(** The graphs one can go back to (the latest first), the present one, and the graphs
    one can go forward to. *)
Record timeline := Timeline { past : list data; present : data; future : list data }.

Definition bounded {A} (size : nat) (l : list A) : list A := if decide (size = 0) then l else take size l.

Definition spec_step (size : nat) (t : timeline) (a : action) : timeline :=
  match a with
  | Do p => if decide (flat p = []) then t
            else Timeline (bounded size (present t :: past t))
                          (exec_list cfg (present t) (flat p)).1 []
  | Undo => match past t with
            | [] => t
            | d :: ds => Timeline ds d (present t :: future t)
            end
  | Redo => match future t with
            | [] => t
            | d :: ds => Timeline (present t :: past t) d ds
            end
  end.

(** The changes an action makes may be made. *)
Definition allowed (t : timeline) (a : action) : Prop :=
  match a with Do p => adm_all cfg (present t) (flat p) | _ => True end.

Fixpoint all_allowed (size : nat) (t : timeline) (l : list action) : Prop :=
  match l with
  | [] => True
  | a :: l => allowed t a ∧ all_allowed size (spec_step size t a) l
  end.

(** ** Refinement *)

(** Events are only appended to the log. *)
Lemma begin_log s : log s `prefix_of` log (beginUpdate s).
Proof. unfold beginUpdate. cbv zeta. case_decide; simpl; rewrite <-?app_assoc; by apply prefix_app_r. Qed.

Lemma end_log s : log s `prefix_of` log (endUpdate s).
Proof.
  unfold endUpdate. cbv zeta. repeat (case_decide || case_match); simpl;
    rewrite <-?app_assoc; first [by apply prefix_app_r|done].
Qed.

Lemma execute_log ch s : log s `prefix_of` log (execute ch s).
Proof.
  unfold execute. destruct (execute_change cfg (sdata s) ch) as [d c]. cbv zeta.
  etrans; [|apply end_log]. simpl. apply prefix_app_r. apply (begin_log (set_sdata d s)).
Qed.

Lemma run_log p s : log s `prefix_of` log (run p s).
Proof.
  revert s. induction p as [ch|ps IH] using prog_ind'; intros s; simpl; [apply execute_log|].
  etrans; [|apply end_log]. etrans; [apply begin_log|]. generalize (beginUpdate s).
  induction IH as [|p ps Hp _ IHps]; intros s'; simpl; [done|]. etrans; [apply Hp|apply IHps].
Qed.

Lemma run_fired p s :
  idle s → edits_of (drop (length (log s)) (log (run p s))) =
  if decide (flat p = []) then [] else [Edit (exec_list cfg (sdata s) (flat p)).2 true false false].
Proof.
  intros (_ & _ & He)%(run_idle p s). destruct (run_log p s) as [l Hl]. rewrite Hl in *.
  rewrite drop_app_length. rewrite edits_of_app in He. by apply app_inv_head in He.
Qed.

(** The changes [l] lead from a graph that looks like [d] to one that looks like [d']. *)
Definition link (d : data) (l : list change) (d' : data) : Prop :=
  wf (hp d) ∧ adm_all cfg d l ∧ data_equiv (exec_list cfg d l).1 d'.

Lemma data_equiv_wf d d' : data_equiv d d' → wf (hp d) → wf (hp d').
Proof. intros [He _]. by rewrite He. Qed.

Lemma link_back d l d' : link d l d' → link d' (reverse (exec_list cfg d l).2) d.
Proof.
  intros (Hwf & Ha & He). destruct (exec_list_back cfg d l Hwf Ha) as [Hb1 Hb2].
  assert (wf (hp (exec_list cfg d l).1)) as Hwf1 by by apply exec_list_wf.
  destruct (exec_list_proper cfg _ _ _ He Hwf1 Hb1) as (H1 & H2 & _).
  split_and!; [by eapply data_equiv_wf|done|].
  etrans; [symmetry; exact H2|by symmetry].
Qed.

(** The edits that can be undone, the latest first, and those that can be redone. *)
Inductive undoable : data → list mxUndoableEdit → list data → Prop :=
| undoable_nil d : undoable d [] []
| undoable_cons d e es d' ds :
    significant e = true → undone e = false → link d (reverse (changes e)) d' →
    undoable d' es ds → undoable d (e :: es) (d' :: ds).

Inductive redoable : data → list mxUndoableEdit → list data → Prop :=
| redoable_nil d : redoable d [] []
| redoable_cons d e es d' ds :
    significant e = true → redone e = false → link d (changes e) d' →
    redoable d' es ds → redoable d (e :: es) (d' :: ds).

Lemma undoable_take n d es ds : undoable d es ds → undoable d (take n es) (take n ds).
Proof.
  intros H. revert n. induction H; intros [|n]; simpl; try constructor; auto.
Qed.

Lemma undoable_bounded n d es ds : undoable d es ds → undoable d (bounded n es) (bounded n ds).
Proof. unfold bounded. case_decide; [done|apply undoable_take]. Qed.

Lemma undoable_length d es ds : undoable d es ds → length es = length ds.
Proof. induction 1; simpl; congruence. Qed.
Lemma redoable_length d es ds : redoable d es ds → length es = length ds.
Proof. induction 1; simpl; congruence. Qed.

Record represents (ed : editor) (t : timeline) : Prop := {
  rep_idle : idle (sess ed);
  rep_wf : wf (hp (present t));
  rep_data : data_equiv (present t) (sdata (sess ed));
  rep_index : indexOfNextAdd (mgr ed) ≤ length (history (mgr ed));
  rep_size : 0 < msize (mgr ed) → length (history (mgr ed)) ≤ msize (mgr ed);
  rep_past : undoable (present t) (reverse (take (indexOfNextAdd (mgr ed)) (history (mgr ed)))) (past t);
  rep_future : redoable (present t) (drop (indexOfNextAdd (mgr ed)) (history (mgr ed))) (future t)
}.

Lemma trim_history m :
  indexOfNextAdd m ≤ length (history m) →
  history (trim m) = take (indexOfNextAdd m) (history m) ∧ msize (trim m) = msize m.
Proof.
  intros Hi. unfold trim. case_decide; simpl.
  - split; [|done]. unfold js_splice. rewrite splice_pos_of_nat by done.
    rewrite drop_ge by lia. simpl. by rewrite app_nil_r.
  - split; [|done]. by rewrite take_ge by lia.
Qed.

(** The history after an edit: the edits up to the present, at most [size], and it. *)
Lemma happened_history m e :
  indexOfNextAdd m ≤ length (history m) → (0 < msize m → length (history m) ≤ msize m) →
  let m' := undoableEditHappened m e in
  reverse (history m') = bounded (msize m) (e :: reverse (take (indexOfNextAdd m) (history m))) ∧
  indexOfNextAdd m' = length (history m') ∧ msize m' = msize m ∧
  (0 < msize m → length (history m') ≤ msize m).
Proof.
  intros Hi Hs. destruct (trim_history m Hi) as [Ht Hz]. unfold undoableEditHappened. cbv zeta. simpl.
  rewrite Hz, Ht. set (h := take (indexOfNextAdd m) (history m)).
  assert (0 < msize m → length h ≤ msize m) as Hh.
  { intros. unfold h. rewrite length_take. specialize (Hs ltac:(done)). lia. }
  unfold bounded. destruct (decide (msize m = 0)) as [E|E].
  { rewrite decide_False by lia. rewrite reverse_app. split_and!; [done..|lia]. }
  specialize (Hh ltac:(lia)). rewrite !length_app. simpl. case_decide as Hd.
  - destruct Hd as [_ Hd]. clearbody h. destruct h as [|x h']; [simpl in *; lia|]. simpl in *.
    rewrite reverse_app. split_and!; [|done..|lia].
    destruct (msize m) as [|k]; [lia|]. simpl. f_equal. rewrite (reverse_cons h' x).
    rewrite take_app_le by (rewrite length_reverse; lia). symmetry. apply take_ge.
    rewrite length_reverse. lia.
  - rewrite reverse_app. split_and!; [|done..|lia].
    simpl. rewrite take_ge; [done|]. simpl. rewrite length_reverse. lia.
Qed.

Lemma link_transport d l d' c :
  link d l d' → data_equiv d c →
  data_equiv d' (exec_list cfg c l).1 ∧ (exec_list cfg c l).2 = (exec_list cfg d l).2.
Proof.
  intros (Hwf & Ha & He) Hc. destruct (exec_list_proper cfg d c l Hc Hwf Ha) as (_ & H1 & H2).
  split; [|done]. etrans; [symmetry; exact He|done].
Qed.

Lemma do_represents p ed t :
  represents ed t → allowed t (Do p) →
  represents (do_prog p ed) (spec_step (msize (mgr ed)) t (Do p)).
Proof.
  intros [Hidle Hwf Hd Hi Hz Hp Hf] Ha. unfold do_prog. cbv zeta. rewrite run_fired by done.
  destruct (run_idle p (sess ed) Hidle) as (Hidle' & Hd' & _). simpl.
  destruct (exec_list_proper cfg _ _ _ Hd Hwf Ha) as (_ & He & Hl).
  destruct (decide (flat p = [])) as [Hn|Hn].
  { rewrite Hn in Hd'. simpl in Hd'. split; try done. simpl. by rewrite Hd'. }
  assert (link (present t) (flat p) (exec_list cfg (present t) (flat p)).1) as Hlink
    by by split_and!.
  set (e := Edit _ true false false). destruct (happened_history (mgr ed) e Hi Hz) as (H1 & H2 & H3 & H4).
  cbn [foldl]. split; cbn [sess mgr past present future].
  - done.
  - by apply exec_list_wf.
  - by rewrite Hd'.
  - lia.
  - rewrite H3. done.
  - rewrite H2, take_ge, H1 by done. apply undoable_bounded. constructor; [done..| |done].
    unfold e. simpl. rewrite Hl. by apply link_back.
  - rewrite H2, drop_ge by done. constructor.
Qed.

Lemma take_insert_lt {A} (l : list A) i x : take i (<[i := x]> l) = take i l.
Proof. by rewrite take_insert_ge. Qed.

Lemma fire_nil s : fire [] (set_sdata (sdata s) s) = s.
Proof. destruct s. unfold fire, set_sdata. simpl. by rewrite app_nil_r. Qed.

Lemma undo_represents ed t :
  represents ed t → ∃ ed', step ed Undo = Some ed' ∧ represents ed' (spec_step (msize (mgr ed)) t Undo) ∧
    msize (mgr ed') = msize (mgr ed).
Proof.
  intros Hrep. pose proof Hrep as [Hidle Hwf Hd Hi Hz Hp Hf].
  unfold step, undo. simpl. destruct (indexOfNextAdd (mgr ed)) as [|i] eqn:Ei.
  { simpl in *. rewrite fire_nil. exists ed. split; [by destruct ed|]. split; [|done].
    destruct (past t) eqn:Et; [done|inversion Hp]. }
  simpl. destruct (lookup_lt_is_Some_2 (history (mgr ed)) i) as [e He]; [lia|]. rewrite He.
  rewrite (take_S_r _ _ _ He), reverse_app in Hp. simpl in Hp.
  destruct (past t) as [|d' ds] eqn:Et; [by inversion Hp|].
  inversion Hp as [|? ? ? ? ? Hs Hu Hlink Hrest]; subst. unfold edit_undo. rewrite Hu.
  destruct (link_transport _ _ _ _ Hlink Hd) as [Hd' Hl].
  rewrite (surjective_pairing (exec_list cfg (sdata (sess ed)) _)). simpl. rewrite Hs.
  eexists. split; [reflexivity|]. split; [|done].
  clear Hp Et.
  pose proof (link_back _ _ _ Hlink) as Hb. split; simpl.
  - done.
  - apply Hb.
  - done.
  - rewrite length_insert. lia.
  - by rewrite length_insert.
  - by rewrite take_insert_lt.
  - rewrite (drop_S _ (Edit (reverse (exec_list cfg (sdata (sess ed)) (reverse (changes e))).2) true true false))
      by (apply list_lookup_insert_eq; lia).
    rewrite drop_insert_lt by lia. constructor; [done..| |done]. simpl. by rewrite Hl.
Qed.

Lemma redo_represents ed t :
  represents ed t → ∃ ed', step ed Redo = Some ed' ∧ represents ed' (spec_step (msize (mgr ed)) t Redo) ∧
    msize (mgr ed') = msize (mgr ed).
Proof.
  intros Hrep. pose proof Hrep as [Hidle Hwf Hd Hi Hz Hp Hf]. set (i := indexOfNextAdd (mgr ed)) in *.
  unfold step, redo. fold i. simpl.
  destruct (length (history (mgr ed)) - i) as [|n] eqn:En.
  { rewrite drop_ge in Hf by lia. simpl. rewrite fire_nil. exists ed. split; [by destruct ed|].
    split; [|done]. destruct (future t) eqn:Et; [done|inversion Hf]. }
  simpl. fold i. destruct (lookup_lt_is_Some_2 (history (mgr ed)) i) as [e He]; [lia|]. rewrite He.
  rewrite (drop_S _ _ _ He) in Hf.
  destruct (future t) as [|d' ds] eqn:Et; [by inversion Hf|].
  inversion Hf as [|? ? ? ? ? Hs Hu Hlink Hrest]; subst. unfold edit_redo. rewrite Hu.
  destruct (link_transport _ _ _ _ Hlink Hd) as [Hd' Hl].
  rewrite (surjective_pairing (exec_list cfg (sdata (sess ed)) _)). simpl. rewrite Hs.
  eexists. split; [reflexivity|]. split; [|done].
  clear Hf Et.
  pose proof (link_back _ _ _ Hlink) as Hb. split; simpl.
  - done.
  - apply Hb.
  - done.
  - rewrite length_insert. lia.
  - by rewrite length_insert.
  - erewrite take_S_r by (apply list_lookup_insert_eq; lia).
    rewrite reverse_app, take_insert_lt. simpl. constructor; [done..| |done]. simpl. by rewrite Hl.
  - by rewrite drop_insert_lt by lia.
Qed.

Lemma step_represents ed t a :
  represents ed t → allowed t a →
  ∃ ed', step ed a = Some ed' ∧ represents ed' (spec_step (msize (mgr ed)) t a) ∧
    msize (mgr ed') = msize (mgr ed).
Proof.
  intros Hrep Ha. destruct a as [p| |]; [|by apply undo_represents|by apply redo_represents].
  exists (do_prog p ed). split; [done|]. split; [by apply do_represents|].
  unfold do_prog. cbv zeta. rewrite run_fired by apply Hrep. case_decide; [done|].
  by apply happened_history; apply Hrep.
Qed.

Lemma steps_represents l ed t :
  represents ed t → all_allowed (msize (mgr ed)) t l →
  ∃ ed', steps ed l = Some ed' ∧ represents ed' (foldl (spec_step (msize (mgr ed))) t l) ∧
    msize (mgr ed') = msize (mgr ed).
Proof.
  revert ed t. induction l as [|a l IH]; intros ed t Hrep Ha; simpl; [eauto|].
  destruct Ha as [Ha Hl]. destruct (step_represents ed t a Hrep Ha) as (ed1 & -> & Hrep1 & Hs).
  simpl. rewrite <-Hs in *. by apply IH.
Qed.

Lemma new_represents size d : wf (hp d) → represents (new_editor size d) (Timeline [] d []).
Proof. intros Hwf. split; try done; simpl; try lia; constructor. Qed.

Lemma represents_canUndo ed t : represents ed t → canUndo (mgr ed) = bool_decide (past t ≠ []).
Proof.
  intros Hr. pose proof (undoable_length _ _ _ (rep_past _ _ Hr)) as Hl.
  pose proof (rep_index _ _ Hr). rewrite length_reverse, length_take in Hl.
  unfold canUndo. apply bool_decide_ext. destruct (past t); simpl in *; split; try done; lia.
Qed.

Lemma represents_canRedo ed t : represents ed t → canRedo (mgr ed) = bool_decide (future t ≠ []).
Proof.
  intros Hr. pose proof (redoable_length _ _ _ (rep_future _ _ Hr)) as Hl.
  rewrite length_drop in Hl.
  unfold canRedo. apply bool_decide_ext. destruct (future t); simpl in *; split; try done; lia.
Qed.

(** C1: The graph model with its undo manager implements the abstract editor: after any
    sequence of (possibly nested) update blocks, undos and redos the call has returned
    normally, the graph looks like the present graph of the timeline, undo and redo are
    available exactly when the timeline has a past and a future, no update is left open,
    and the history is never longer than its size. *)
Theorem editor_refines_timeline size d acts :
  wf (hp d) → all_allowed (default 100 size) (Timeline [] d []) acts →
  let t := foldl (spec_step (default 100 size)) (Timeline [] d []) acts in
  ∃ ed, steps (new_editor size d) acts = Some ed ∧
    data_equiv (present t) (sdata (sess ed)) ∧
    canUndo (mgr ed) = bool_decide (past t ≠ []) ∧
    canRedo (mgr ed) = bool_decide (future t ≠ []) ∧
    idle (sess ed) ∧
    (0 < default 100 size → length (history (mgr ed)) ≤ default 100 size).
Proof.
  intros Hwf Ha. destruct (steps_represents acts _ _ (new_represents size d Hwf) Ha) as (ed & Hs & Hr & Hz).
  exists ed. split_and!; [done|apply Hr|by apply represents_canUndo|by apply represents_canRedo|apply Hr|].
  intros. replace (default 100 size) with (msize (mgr ed)) by by rewrite Hz.
  apply Hr. by rewrite Hz.
Qed.

(** C26: A block of updates, nested to any depth, executes its changes in order and
    announces them as one undoable edit, and announces none if it has no changes. *)
Theorem block_is_one_edit ps s :
  idle s →
  let l := flat (Block ps) in
  let s' := run (Block ps) s in
  idle s' ∧ sdata s' = (exec_list cfg (sdata s) l).1 ∧
  edits_of (log s') = edits_of (log s) ++
    (if decide (l = []) then [] else [Edit (exec_list cfg (sdata s) l).2 true false false]).
Proof. apply (run_idle (Block ps)). Qed.

End Editor.

Definition sample_actions : list action :=
  [Do (Block [Exec (new_mxChildChange None (Some 4) None);
              Block [Exec (new_mxValueChange (Some 2) (Some "a"));
                     Exec (new_mxChildChange (Some 2) (Some 3) (Some 0%Z))]]);
   Do (Exec (new_mxChildChange (Some 1) (Some 4) None));
   Undo; Undo; Redo].

Lemma sample_allowed : all_allowed default_config 100 (Timeline [] sample []) sample_actions.
Proof.
  split; [|split; [|exact (conj I (conj I (conj I I)))]].
  - apply adm_check_sound; [apply sample_wf|by vm_compute].
  - apply adm_check_sound; [apply wf_check_sound|]; by vm_compute.
Qed.

Lemma editor_refines_timeline_witness :
  ∃ ed, steps default_config (new_editor None sample) sample_actions = Some ed ∧
    data_equiv (exec_list default_config sample
      [new_mxChildChange None (Some 4) None; new_mxValueChange (Some 2) (Some "a");
       new_mxChildChange (Some 2) (Some 3) (Some 0%Z)]).1 (sdata (sess ed)) ∧
    canRedo (mgr ed) = true.
Proof.
  destruct (editor_refines_timeline default_config None sample sample_actions sample_wf sample_allowed)
    as (ed & H1 & H2 & _ & H4 & _).
  exists ed. split; [exact H1|]. split; [exact H2|]. rewrite H4. reflexivity.
Defined.

Lemma block_is_one_edit_witness :
  edits_of (log (run default_config (Block [Exec (new_mxValueChange (Some 2) (Some "a"));
                                            Block [Exec (new_mxStyleChange (Some 3) (Some "b"))]])
                     (sess (new_editor None sample)))) =
  [Edit [mxValueChange (Some 2) (Some "a") None; mxStyleChange (Some 3) (Some "b") None] true false false].
Proof.
  destruct (block_is_one_edit default_config
    [Exec (new_mxValueChange (Some 2) (Some "a")); Block [Exec (new_mxStyleChange (Some 3) (Some "b"))]]
    (sess (new_editor None sample)) ltac:(repeat split)) as (_ & _ & H).
  exact H.
Defined.

End MxEditor.
