(* ===== verification/MxOps.v ===== *)
(** * The operations of the graph model

    The functions of mxGraphModel.js that programs call: [setRoot], [add], [remove],
    the setters of cells and terminals, and [updateEdgeParents], which keeps edges below
    the nearest common ancestor of their terminals. Each of them makes the changes of
    MxModel in the sessions of MxEditor. [add] and [updateEdgeParent] call each other, so
    they run on fuel and give [None] when it is used up; for edges that carry no cells it
    never is. *)

From S2P Require Import Prelude MxGeometry MxCell MxModel MxUndo MxPath MxEditor.
Import MxGeometry MxCell MxModel MxUndo MxPath MxEditor.

Module MxOps.

(** ** Reading cells that may be missing *)

Definition isVertex (h : heap) (cell : option ref) : bool :=
  match cell with Some c => vertex (h !!! c) | None => false end.
Definition isEdge (h : heap) (cell : option ref) : bool :=
  match cell with Some c => edge (h !!! c) | None => false end.
Definition isConnectable (h : heap) (cell : option ref) : bool :=
  match cell with Some c => connectable (h !!! c) | None => false end.
Definition getValue (h : heap) (cell : option ref) : option string := cell ≫= λ c, value (h !!! c).
Definition getGeometry (h : heap) (cell : option ref) : option mxGeometry := cell ≫= λ c, geometry (h !!! c).
Definition getStyle (h : heap) (cell : option ref) : option string := cell ≫= λ c, style (h !!! c).
Definition isCollapsed (h : heap) (cell : option ref) : bool :=
  match cell with Some c => collapsed (h !!! c) | None => false end.
Definition isVisible (h : heap) (cell : option ref) : bool :=
  match cell with Some c => visible (h !!! c) | None => false end.
Definition terminalOf (h : heap) (e : option ref) (isSource : bool) : option ref :=
  e ≫= λ e, getTerminal h e isSource.

(** [filterCells(cells, filter)] *)
Definition filterCells (cells : option (list ref)) (f : ref → bool) : option (list ref) :=
  (λ l, filter (λ c, f c = true) l) <$> cells.

(** [getOrigin(cell)]: the sum of the positions of the cell and its ancestors that are no
    edges. *)
Fixpoint origin_loop (n : nat) (h : heap) (cell : option ref) : mxPoint :=
  match n, cell with
  | S n, Some c =>
      let result := origin_loop n h (parent (h !!! c)) in
      if edge (h !!! c) then result
      else match geometry (h !!! c) with
           | Some geo => Point (px result + rx (bounds geo)) (py result + ry (bounds geo))
           | None => result
           end
  | _, _ => new_mxPoint None None
  end.
Definition getOrigin (h : heap) (cell : option ref) : mxPoint := origin_loop (fuel h) h cell.

(** The loops of [updateEdgeParent] that leave cells with a relative position. *)
Definition is_relative (h : heap) (c : ref) : bool :=
  negb (edge (h !!! c)) && match geometry (h !!! c) with Some geo => relative geo | None => false end.
Fixpoint skip_relative (n : nat) (h : heap) (cell : option ref) : option ref :=
  match n, cell with
  | S n, Some c => if is_relative h c then skip_relative n h (parent (h !!! c)) else Some c
  | _, _ => cell
  end.

(** [new mxCell()] in a new cell of the heap. *)
Definition new_cell (c : mxCell) (d : data) : data * ref :=
  let r := fresh (dom (hp d)) in (set_hp (<[r := c]> (hp d)) d, r).

Definition createRoot (d : data) : data * ref :=
  let '(d, cell) := new_cell (new_mxCell None None None) d in
  let '(d, child) := new_cell (new_mxCell None None None) d in
  (set_hp (insert (hp d) cell (Some child) None).1 d, cell).

Section Ops.
Context (cfg : config).

Abbreviation execute := (execute cfg).

(** ** Setters *)

Definition setRoot (r : option ref) (s : session) : session := execute (new_mxRootChange r) s.

Definition clear (s : session) : session :=
  let '(d, r) := createRoot (sdata s) in setRoot (Some r) (set_sdata d s).

Definition remove (cell : option ref) (s : session) : session :=
  if decide (cell = root (sdata s)) then setRoot None s
  else match getParent (hp (sdata s)) cell with
       | Some _ => execute (new_mxChildChange None cell None) s
       | None => s
       end.

Definition setValue (cell : option ref) (v : option string) (s : session) : session :=
  execute (new_mxValueChange cell v) s.

(** Geometries are compared as objects. *)
Definition setGeometry (cell : option ref) (g : option mxGeometry) (s : session) : session :=
  if decide (geo_ref <$> g ≠ geo_ref <$> getGeometry (hp (sdata s)) cell)
  then execute (new_mxGeometryChange cell g) s else s.

Definition setStyle (cell : option ref) (st : option string) (s : session) : session :=
  if decide (st ≠ getStyle (hp (sdata s)) cell) then execute (new_mxStyleChange cell st) s else s.

Definition setCollapsed (cell : option ref) (b : bool) (s : session) : session :=
  if decide (b ≠ isCollapsed (hp (sdata s)) cell) then execute (new_mxCollapseChange cell b) s else s.

Definition setVisible (cell : option ref) (b : bool) (s : session) : session :=
  if decide (b ≠ isVisible (hp (sdata s)) cell) then execute (new_mxVisibleChange cell b) s else s.

(** ** Edges and their parents *)

(** The cell [updateEdgeParent] finds for an edge: the nearest common ancestor of the
    terminals, below the root [r] of the tree that is updated. *)
Definition edge_home (h : heap) (e : ref) (r : option ref) : option ref :=
  let source := skip_relative (fuel h) h (getTerminal h e true) in
  let target := if ignoreRelativeEdgeParent cfg
                then skip_relative (fuel h) h (getTerminal h e false) else getTerminal h e false in
  if isAncestor h r source && isAncestor h r target then
    if decide (source = target) then getParent h source
    else getNearestCommonAncestor h source target
  else None.

(** Whether the edge moves there. *)
Definition moves_to (d : data) (e cell : ref) : bool :=
  (negb (bool_decide (parent (hp d !!! cell) = root d)) || isAncestor (hp d) (Some cell) (Some e))
  && negb (bool_decide (parent (hp d !!! e) = Some cell)).

(** The position of the edge relative to its new parent, as a new geometry. *)
Definition relocate (e cell : ref) (s : session) : session :=
  let h := hp (sdata s) in
  match geometry (h !!! e) with
  | None => s
  | Some geo =>
      let origin1 := getOrigin h (parent (h !!! e)) in
      let origin2 := getOrigin h (Some cell) in
      let dx := (px origin2 - px origin1)%Z in
      let dy := (py origin2 - py origin1)%Z in
      let d := sdata s in
      let s := set_sdata (Data (hp d) (root d) (cells d) (nextId d) (S (georef d))) s in
      setGeometry (Some e) (Some (translate (-dx) (-dy) (geo_clone (georef d) geo))) s
  end.

Section Parents.
(** The function [add] that [updateEdgeParent] calls. *)
Context (add : option ref → option ref → option Z → session → option session).

Definition updateEdgeParent (e : ref) (r : option ref) (s : session) : option session :=
  match edge_home (hp (sdata s)) e r with
  | Some cell =>
      if moves_to (sdata s) e cell then
        let s := relocate e cell s in
        add (Some cell) (Some e) (Some (Z.of_nat (getChildCount (hp (sdata s)) cell))) s
      else Some s
  | None => Some s
  end.

(** The loop over a copy of the list of edges. *)
Fixpoint update_edges (es : list ref) (r : ref) (s : session) : option session :=
  match es with
  | [] => Some s
  | e :: es =>
      s ← (if isAncestor (hp (sdata s)) (Some r) (Some e) then updateEdgeParent e (Some r) s else Some s);
      update_edges es r s
  end.

(** The loop over the children counts them first and then asks for each by its index. *)
Fixpoint update_children (rec : ref → session → option session) (cell : ref) (indices : list nat) (s : session)
    : option session :=
  match indices with
  | [] => Some s
  | i :: indices =>
      s ← match getChildAt (hp (sdata s)) cell (Z.of_nat i) with
          | Some child => rec child s
          | None => Some s
          end;
      update_children rec cell indices s
  end.

Fixpoint updateEdgeParents_from (n : nat) (r : ref) (cell : ref) (s : session) : option session :=
  match n with
  | 0 => None
  | S n =>
      s ← update_children (updateEdgeParents_from n r) cell (seq 0 (getChildCount (hp (sdata s)) cell)) s;
      update_edges (eds (hp (sdata s)) cell) r s
  end.

Definition updateEdgeParents (cell : ref) (s : session) : option session :=
  let h := hp (sdata s) in
  updateEdgeParents_from (S (fuel h)) (root_loop (fuel h) h cell) cell s.
End Parents.

(** [add(parent, child, index)]; [n] bounds the depth of the calls by which moving one
    edge moves another. *)
Fixpoint add (n : nat) (par child : option ref) (index : option Z) (s : session) : option session :=
  match par, child with
  | Some p, Some c =>
      if decide (c = p) then Some s
      else
        let index := match index with Some i => i | None => Z.of_nat (getChildCount (hp (sdata s)) p) end in
        let parentChanged := bool_decide (Some p ≠ parent (hp (sdata s) !!! c)) in
        let s := execute (new_mxChildChange par child (Some index)) s in
        if maintainEdgeParent cfg && parentChanged then
          match n with
          | 0 => None
          | S n => updateEdgeParents (add n) c s
          end
        else Some s
  | _, _ => Some s
  end.

(** ** Terminals *)

Definition setTerminal (n : nat) (e terminal : option ref) (isSource : bool) (s : session) : option session :=
  let terminalChanged := bool_decide (terminal ≠ terminalOf (hp (sdata s)) e isSource) in
  let s := execute (new_mxTerminalChange e terminal isSource) s in
  match e with
  | Some e => if maintainEdgeParent cfg && terminalChanged
              then updateEdgeParent (add n) e (getRoot (sdata s) None) s else Some s
  | None => Some s
  end.

Definition setTerminals (n : nat) (e source target : option ref) (s : session) : option session :=
  let s := beginUpdate s in
  s ← setTerminal n e source true s;
  s ← setTerminal n e target false s;
  Some (endUpdate s).

(** ** Executing one change in a session *)

Lemma endUpdate_data s : sdata (endUpdate s) = sdata s.
Proof. unfold endUpdate. cbv zeta. by repeat case_match. Qed.

Lemma execute_data ch s : sdata (MxEditor.execute cfg ch s) = (execute_change cfg (sdata s) ch).1.
Proof.
  unfold MxEditor.execute. destruct (execute_change cfg (sdata s) ch) as [d ch'].
  rewrite endUpdate_data. simpl. unfold beginUpdate. cbv zeta. by case_decide.
Qed.

End Ops.
(** ** Lemmas on new cells *)

(** Appending a child that has no parent yet. *)
Lemma insert_plain h this ch :
  parent (h !!! ch) = None → this ≠ ch →
  ∀ x, (insert h this (Some ch) None).1 !!! x =
    (if decide (x = this) then set_children (Some (kids h this ++ [ch])) (h !!! this)
     else if decide (x = ch) then set_parent (Some this) (h !!! ch) else h !!! x).
Proof.
  intros Hp Hne x. unfold insert. cbn [fst]. unfold removeFromParent. rewrite Hp.
  rewrite (decide_False (P := None = Some this)) by done. cbv zeta.
  rewrite !upd_lookup. rewrite (decide_False (P := ch = this)) by done.
  destruct (decide (x = this)) as [->|Hx].
  - rewrite decide_True by done. f_equal. unfold kids, getChildCount.
    destruct (children (h !!! this)) as [l|]; [|done]. simpl. unfold js_splice.
    by rewrite splice_pos_of_nat, firstn_all, Nat.add_0_r, drop_ge by lia.
  - rewrite decide_False by done. destruct (decide (x = ch)) as [->|]; [by rewrite decide_True|by rewrite decide_False].
Qed.

(** ** What the setters do *)

Section Setters.
Context (cfg : config).

(** Each setter of a cell makes its attribute read back as set (a geometry up to the
    object it is), touches no other cell, and does nothing at all, not even an edit, when a
    style, a state or a geometry is set to what it is. *)
Theorem setters_read_back c s :
  (∀ v, getValue (hp (sdata (setValue cfg (Some c) v s))) (Some c) = v) ∧
  (∀ v, getStyle (hp (sdata (setStyle cfg (Some c) v s))) (Some c) = v) ∧
  (∀ b, isCollapsed (hp (sdata (setCollapsed cfg (Some c) b s))) (Some c) = b) ∧
  (∀ b, isVisible (hp (sdata (setVisible cfg (Some c) b s))) (Some c) = b) ∧
  (∀ g, geo_ref <$> getGeometry (hp (sdata (setGeometry cfg (Some c) g s))) (Some c) = geo_ref <$> g) ∧
  (∀ v b g x, x ≠ c →
     hp (sdata (setValue cfg (Some c) v s)) !!! x = hp (sdata s) !!! x ∧
     hp (sdata (setStyle cfg (Some c) v s)) !!! x = hp (sdata s) !!! x ∧
     hp (sdata (setCollapsed cfg (Some c) b s)) !!! x = hp (sdata s) !!! x ∧
     hp (sdata (setVisible cfg (Some c) b s)) !!! x = hp (sdata s) !!! x ∧
     hp (sdata (setGeometry cfg (Some c) g s)) !!! x = hp (sdata s) !!! x) ∧
  setStyle cfg (Some c) (getStyle (hp (sdata s)) (Some c)) s = s ∧
  setCollapsed cfg (Some c) (isCollapsed (hp (sdata s)) (Some c)) s = s ∧
  setVisible cfg (Some c) (isVisible (hp (sdata s)) (Some c)) s = s ∧
  setGeometry cfg (Some c) (getGeometry (hp (sdata s)) (Some c)) s = s.
Proof.
  unfold setValue, setStyle, setCollapsed, setVisible, setGeometry. split_and!; intros;
    rewrite ?(decide_False (P := ¬ _)) by (intros Hn; by apply Hn); try done.
  - rewrite execute_data. simpl. by rewrite upd_lookup, decide_True.
  - case_decide as Hd; [rewrite execute_data; simpl; by rewrite upd_lookup, decide_True|].
    by symmetry.
  - case_decide as Hd; [rewrite execute_data; simpl; by rewrite upd_lookup, decide_True|].
    by symmetry.
  - case_decide as Hd; [rewrite execute_data; simpl; by rewrite upd_lookup, decide_True|].
    by symmetry.
  - case_decide as Hd; [rewrite execute_data; simpl; by rewrite upd_lookup, decide_True|].
    by symmetry.
  - split_and!; repeat case_decide; rewrite ?execute_data; simpl; by rewrite ?upd_lookup, ?decide_False.
Qed.

Lemma contains_top d c r : root d = Some r → c ≠ r → parent (hp d !!! c) = None → contains d (Some c) = false.
Proof.
  intros Hr Hne Hp. unfold contains, isAncestor, fuel. rewrite Hr. cbn [ancestor_loop].
  rewrite decide_True by (split; congruence). unfold getParent. simpl. rewrite Hp, ancestor_loop_None.
  by apply bool_decide_eq_false.
Qed.

(** C27: Removing the root empties the model. Removing another cell takes the cell out of the
    graph with everything below it: no terminal lists the edges below it any more, while the
    edges still know their terminals; the rest of the graph stays. *)
Theorem remove_detaches c r s :
  let h := hp (sdata s) in
  wf h → root (sdata s) = Some r →
  let s' := remove cfg (Some c) s in let h' := hp (sdata s') in
  wf h' ∧
  if decide (c = r) then root (sdata s') = None ∧ cells (sdata s') = None
  else parent (h !!! c) ≠ None →
       contains (sdata s') (Some c) = false ∧ root (sdata s') = Some r ∧
       (∀ x, parent (h' !!! x) = if decide (x = c) then None else parent (h !!! x)) ∧
       (∀ e, ancestor h c e → detached h' e) ∧
       (∀ e t, ¬ ancestor h c e → e ∈ eds h' t ↔ e ∈ eds h t) ∧
       (∀ x b, getTerminal h' x b = getTerminal h x b).
Proof.
  cbv zeta. intros Hw Hr. unfold remove. rewrite Hr. destruct (decide (c = r)) as [->|Hne].
  - rewrite decide_True by done. unfold setRoot. rewrite execute_data.
    destruct (rootChanged_spec cfg (sdata s) None) as (He & _ & _).
    cbn [execute_change new_mxRootChange]. unfold execute_root, rootChanged in *. cbn [fst] in *. split; [by rewrite <-He|done].
  - rewrite decide_False by congruence. unfold getParent. simpl.
    destruct (parent (hp (sdata s) !!! c)) as [p|] eqn:Ep; [|by split].
    rewrite execute_data. cbn [execute_change new_mxChildChange].
    destruct (execute_child_spec cfg (sdata s) None c None Hw) as (Hm & Hroot & _); [by intros ?|].
    destruct Hm as [_ Hp _ Ht Hw' Hin Hout]. split; [done|]. intros _. split_and!; try done; [|congruence].
    apply (contains_top _ c r); [congruence|done|]. by rewrite Hp, decide_True.
Qed.

(** Clearing a model gives it a new root with one empty layer and leaves all cells it had. *)
Theorem clear_gives_layer s :
  let h := hp (sdata s) in let h' := hp (sdata (clear cfg s)) in
  ∃ r l, root (sdata (clear cfg s)) = Some r ∧ r ∉ dom h ∧ l ∉ dom h ∧ r ≠ l ∧
    kids h' r = [l] ∧ parent (h' !!! r) = None ∧ kids h' l = [] ∧ parent (h' !!! l) = Some r ∧
    ∀ x, x ≠ r → x ≠ l → kids h' x = kids h x ∧ parent (h' !!! x) = parent (h !!! x) ∧ attrs (h' !!! x) = attrs (h !!! x).
Proof.
  cbv zeta. unfold clear, createRoot, new_cell. cbv zeta.
  set (r := fresh (dom (hp (sdata s)))). cbn [hp set_hp].
  set (h1 := <[r := _]> (hp (sdata s))). set (l := fresh (dom h1)).
  assert (r ∉ dom (hp (sdata s))) as Hr by apply is_fresh.
  assert (l ∉ dom h1) as Hl by apply is_fresh.
  unfold h1 in Hl. rewrite dom_insert, elem_of_union, elem_of_singleton in Hl.
  assert (r ≠ l ∧ l ∉ dom (hp (sdata s))) as [Hrl Hl'] by (split; naive_solver).
  set (h2 := <[l := _]> h1).
  assert (h2 !!! l = new_mxCell None None None) as El by apply lookup_total_insert_eq.
  assert (h2 !!! r = new_mxCell None None None) as Er.
  { unfold h2, h1. rewrite lookup_total_insert_ne by done. apply lookup_total_insert_eq. }
  assert (∀ x, x ≠ r → x ≠ l → h2 !!! x = hp (sdata s) !!! x) as Eo.
  { intros x H1 H2. unfold h2, h1. by rewrite !lookup_total_insert_ne. }
  pose proof (insert_plain h2 r l) as Hi. rewrite El in Hi. specialize (Hi eq_refl Hrl).
  set (h3 := (insert h2 r (Some l) None).1) in *. unfold setRoot. rewrite execute_data. cbn [sdata set_sdata].
  cbn [execute_change new_mxRootChange]. unfold execute_root. cbn [fst].
  match goal with |- context [rootChanged cfg ?d ?o] => destruct (rootChanged_spec cfg d o) as (He & Hroot & _) end.
  unfold rootChanged in *. cbn [fst snd hp set_hp] in *.
  match type of He with heap_equiv _ ?h => set (h4 := h) in * end.
  exists r, l. split_and!; try done; rewrite ?(he_kids _ _ He), ?(he_parent _ _ He), ?(he_attrs _ _ He); unfold kids; rewrite ?Hi.
  - rewrite decide_True by done. simpl. unfold kids. by rewrite Er.
  - rewrite decide_True by done. simpl. by rewrite Er.
  - rewrite decide_False, decide_True by done. done.
  - rewrite decide_False, decide_True by done. done.
  - intros x H1 H2. change (default [] (children (h4 !!! x))) with (kids h4 x).
    rewrite (he_kids _ _ He), (he_parent _ _ He), (he_attrs _ _ He). unfold kids. rewrite Hi, !decide_False by done. by rewrite Eo.
Qed.

End Setters.

Lemma remove_detaches_witness :
  let s' := remove default_config (Some 2) (Session sample 0 false createUndoableEdit []) in
  contains (sdata s') (Some 2) = false ∧ getTerminal (hp (sdata s')) 4 true = Some 2.
Proof.
  pose proof (remove_detaches default_config 2 0 (Session sample 0 false createUndoableEdit []) sample_wf eq_refl) as [_ H].
  cbv zeta in H. rewrite decide_False in H by discriminate.
  destruct (H ltac:(vm_compute; discriminate)) as (H1 & _ & _ & _ & _ & H2).
  cbv zeta. split; [exact H1|]. rewrite H2. reflexivity.
Defined.

End MxOps.
