(* ===== verification/MxHome.v ===== *)
(** * Keeping edges below the common ancestor of their terminals

    What [updateEdgeParents] of the model does when a cell gets a new parent: every edge
    at a cell below it ends up at its home, and nothing but edges moves. *)

From S2P Require Import Prelude MxGeometry MxCell MxModel MxUndo MxPath MxEditor MxOps.
Import MxGeometry MxCell MxModel MxUndo MxPath MxEditor MxOps.

Module MxHome.

Section Home.
Context (cfg : config).

(** ** Graphs whose edges carry no cells *)

(** Edges have no children and no edges of their own, and every cell listed as an edge
    is one and is listed by both its terminals. *)
Record plain_edges (h : heap) : Prop := {
  pe_leaf : ∀ e, edge (h !!! e) = true → kids h e = [] ∧ eds h e = [];
  pe_listed : ∀ t e, e ∈ eds h t → edge (h !!! e) = true ∧ attached h e
}.

(** The heap after some edges were moved: everything else is as it was. *)
Record edges_moved (h0 h : heap) : Prop := {
  em_wf : wf h;
  em_parent : ∀ x, edge (h0 !!! x) = false → parent (h !!! x) = parent (h0 !!! x);
  em_edge : ∀ x, edge (h !!! x) = edge (h0 !!! x);
  em_geometry : ∀ x, edge (h0 !!! x) = false → geometry (h !!! x) = geometry (h0 !!! x);
  em_terminal : ∀ x b, getTerminal h x b = getTerminal h0 x b;
  em_eds : ∀ e t, e ∈ eds h t ↔ e ∈ eds h0 t;
  em_leaf : ∀ x, edge (h0 !!! x) = true → kids h x = []
}.

Lemma edges_moved_refl h : wf h → plain_edges h → edges_moved h h.
Proof. intros Hw Hp. split; try done. intros x Hx. by apply Hp. Qed.

Lemma edges_moved_plain h0 h : plain_edges h0 → edges_moved h0 h → plain_edges h.
Proof.
  intros [P1 P2] [W P E G T D L]. split.
  - intros e He. rewrite E in He. split; [by apply L|].
    destruct (eds h e) as [|x l] eqn:Hl; [done|].
    assert (x ∈ eds h0 e) as Hx by (rewrite <-D, Hl; by left).
    destruct (P1 e He) as [_ Hn]. rewrite Hn in Hx. by apply not_elem_of_nil in Hx.
  - intros t e He. rewrite D in He. destruct (P2 t e He) as [H1 H2]. rewrite E. split; [done|].
    intros b u Hb. rewrite T in Hb. rewrite D. by eapply H2.
Qed.

Section Frame.
Context (h0 h : heap) (Hw0 : wf h0) (Hp0 : plain_edges h0) (Hm : edges_moved h0 h).

Lemma plain_parent h1 x p : plain_edges h1 → wf h1 → parent (h1 !!! x) = Some p → edge (h1 !!! p) = false.
Proof.
  intros [P1 _] [W _ _] Hx. destruct (edge (h1 !!! p)) eqn:E; [|done].
  apply P1 in E as [E _]. apply (tree_parent _ W) in Hx. rewrite E in Hx. by apply not_elem_of_nil in Hx.
Qed.

Lemma plain_terminal x b t :
  (∃ u, x ∈ eds h0 u) → getTerminal h0 x b = Some t → edge (h0 !!! t) = false.
Proof.
  intros [u Hu] Ht. destruct Hp0 as [P1 P2]. apply P2 in Hu as [_ Ha].
  destruct (edge (h0 !!! t)) eqn:E; [|done]. apply P1 in E as [_ E].
  apply Ha in Ht. rewrite E in Ht. by apply not_elem_of_nil in Ht.
Qed.

(** Cells that are no edges have the same ancestors, all of them no edges. *)
Lemma vertex_ancestor x a :
  edge (h0 !!! x) = false → ancestor h0 a x → ancestor h a x ∧ edge (h0 !!! a) = false.
Proof.
  intros Hx Ha. induction Ha as [x|x y z Hxy Ha IH]; [by split; [constructor|]|].
  pose proof (plain_parent h0 x y Hp0 Hw0 Hxy) as Hy. destruct (IH Hy) as [H1 H2].
  split; [|done]. eapply rtc_l; [|exact H1]. unfold step_up in *. by rewrite (em_parent _ _ Hm).
Qed.
Lemma vertex_ancestor_back x a :
  edge (h0 !!! x) = false → ancestor h a x → ancestor h0 a x ∧ edge (h0 !!! a) = false.
Proof.
  intros Hx Ha. induction Ha as [x|x y z Hxy Ha IH]; [by split; [constructor|]|].
  unfold step_up in Hxy. rewrite (em_parent _ _ Hm x Hx) in Hxy.
  pose proof (plain_parent h0 x y Hp0 Hw0 Hxy) as Hy. destruct (IH Hy) as [H1 H2].
  split; [|done]. by eapply rtc_l.
Qed.
Lemma vertex_ancestor_iff x a : edge (h0 !!! x) = false → ancestor h a x ↔ ancestor h0 a x.
Proof. intros Hx. split; intros Ha; [by apply vertex_ancestor_back|by apply vertex_ancestor]. Qed.
End Frame.

(** ** Lowest common ancestors *)

(** Two cells of one tree have a lowest common ancestor. *)
Lemma lowest_exists h r x y :
  acyclic h → ancestor h r x → ancestor h r y →
  ∃ a, ancestor h r a ∧ ancestor h a x ∧ ancestor h a y ∧
       ∀ b, ancestor h b x → ancestor h b y → ancestor h b a.
Proof.
  intros Hac Hx Hy. induction Hx as [x|x p r Hxp Hp IH].
  - exists x. split_and!; [constructor|constructor|done|done].
  - destruct (decide (isAncestor h (Some x) (Some y) = true)) as [E|E].
    + apply isAncestor_spec in E; [|done]. exists x. split_and!; [by eapply rtc_l|constructor|done|done].
    + rewrite isAncestor_spec in E by done. destruct (IH Hy) as (a & H1 & H2 & H3 & H4).
      exists a. split_and!; [done|by eapply rtc_l|done|]. intros b Hb Hby. apply H4; [|done].
      inversion Hb as [|? q ? Hq Hqb]; subst; [done|]. unfold step_up in *. by simplify_eq.
Qed.

Lemma skip_enough h n m c k :
  depth h c k → k < n → k < m → skip_relative n h (Some c) = skip_relative m h (Some c).
Proof.
  intros Hd. revert n m. induction Hd as [c Hc|c p k Hc Hd IH]; intros [|n] [|m] Hn Hm; try lia; simpl.
  - rewrite Hc. destruct (is_relative h c); [|done]. by destruct n, m.
  - rewrite Hc. destruct (is_relative h c); [|done]. apply IH; lia.
Qed.

Lemma skip_fuel h n c : acyclic h → size h < n → skip_relative n h c = skip_relative (fuel h) h c.
Proof.
  intros Hac Hn. destruct c as [c|]; [|by destruct n]. destruct (Hac c) as [k Hk].
  pose proof (depth_fuel _ _ _ Hk). unfold fuel in *. eapply skip_enough; [exact Hk|lia..].
Qed.

Lemma skip_moved h0 h n c :
  wf h0 → plain_edges h0 → edges_moved h0 h → (∀ x, c = Some x → edge (h0 !!! x) = false) →
  skip_relative n h c = skip_relative n h0 c ∧
  ∀ x, skip_relative n h0 c = Some x → edge (h0 !!! x) = false.
Proof.
  intros Hw Hp Hm. revert c. induction n as [|n IH]; intros [c|] Hc; simpl; try done.
  specialize (Hc c eq_refl). unfold is_relative. rewrite (em_edge _ _ Hm), (em_geometry _ _ Hm c Hc), Hc.
  simpl. rewrite (em_parent _ _ Hm c Hc). destruct (match geometry (h0 !!! c) with Some g => relative g | None => false end).
  - apply IH. intros x Hx. by eapply plain_parent.
  - split; [done|]. by intros x [= <-].
Qed.

(** Moved edges do not change where the terminals of an edge lead to. *)
Lemma skip_moved_fuel h0 h c :
  wf h0 → plain_edges h0 → edges_moved h0 h → (∀ x, c = Some x → edge (h0 !!! x) = false) →
  skip_relative (fuel h) h c = skip_relative (fuel h0) h0 c ∧
  ∀ x, skip_relative (fuel h0) h0 c = Some x → edge (h0 !!! x) = false.
Proof.
  intros Hw Hp Hm Hc. set (n := S (size h + size h0)).
  assert (size h < n ∧ size h0 < n) as [Hn Hn0] by (unfold n; lia).
  pose proof (wf_acyclic _ Hw) as A0. pose proof (wf_acyclic _ (em_wf _ _ Hm)) as A1.
  rewrite <-(skip_fuel h n), <-(skip_fuel h0 n) by done.
  by apply skip_moved.
Qed.

(** Whether a cell is below the root, for one that may be missing. *)
Lemma below_some h r c : acyclic h → isAncestor h (Some r) c = true ↔ ∃ x, c = Some x ∧ ancestor h r x.
Proof.
  intros Hac. destruct c as [x|].
  - rewrite isAncestor_spec by done. naive_solver.
  - unfold isAncestor. rewrite ancestor_loop_None. split; [|naive_solver].
    intros H. by apply bool_decide_eq_true in H.
Qed.

Lemma below_moved h0 h r c :
  wf h0 → plain_edges h0 → edges_moved h0 h → (∀ x, c = Some x → edge (h0 !!! x) = false) →
  isAncestor h (Some r) c = isAncestor h0 (Some r) c.
Proof.
  intros Hw Hp Hm Hc. pose proof (wf_acyclic _ Hw) as A0. pose proof (wf_acyclic _ (em_wf _ _ Hm)) as A1.
  apply eq_bool_prop_intro. rewrite !Is_true_true, !below_some by done.
  split; intros (x & -> & Ha); exists x; (split; [done|]);
    by apply (vertex_ancestor_iff h0 h Hw Hp Hm x r (Hc x eq_refl)).
Qed.

Lemma nca_moved h0 h r x y :
  wf h0 → plain_edges h0 → edges_moved h0 h → parent (h0 !!! r) = None → edge (h0 !!! r) = false →
  edge (h0 !!! x) = false → edge (h0 !!! y) = false → ancestor h0 r x → ancestor h0 r y → x ≠ y →
  getNearestCommonAncestor h (Some x) (Some y) = getNearestCommonAncestor h0 (Some x) (Some y) ∧
  ∀ a, getNearestCommonAncestor h0 (Some x) (Some y) = Some a → edge (h0 !!! a) = false ∧ ancestor h0 r a.
Proof.
  intros Hw Hp Hm Hr Hre Hx Hy Hrx Hry Hne.
  destruct (lowest_exists h0 r x y (wf_acyclic _ Hw) Hrx Hry) as (a & Hra & Hax & Hay & Hlow).
  pose proof (proj2 (vertex_ancestor h0 h Hw Hp Hm x a Hx Hax)) as Ha.
  rewrite (nca_lowest h0 r x y a) by (done || apply (wf_tree _ Hw) || apply (wf_acyclic _ Hw)).
  assert (∀ z b, edge (h0 !!! z) = false → ancestor h b z ↔ ancestor h0 b z) as Hiff
    by (intros; by eapply vertex_ancestor_iff).
  rewrite (nca_lowest h r x y a); try (by apply (em_wf _ _ Hm)); try done.
  - rewrite (em_parent _ _ Hm a Ha). split; [done|]. case_decide; [done|]. by intros ? [= <-].
  - by rewrite (em_parent _ _ Hm).
  - by apply Hiff.
  - by apply Hiff.
  - by apply Hiff.
  - by apply Hiff.
  - by apply Hiff.
  - intros b. rewrite !Hiff by done. apply Hlow.
Qed.

(** A cell that is listed as an edge. *)
Definition listed (h : heap) (e : ref) : Prop := ∃ u, e ∈ eds h u.

Lemma home_moved h0 h r e :
  wf h0 → plain_edges h0 → edges_moved h0 h → parent (h0 !!! r) = None → edge (h0 !!! r) = false →
  listed h0 e →
  edge_home cfg h e (Some r) = edge_home cfg h0 e (Some r) ∧
  ∀ a, edge_home cfg h0 e (Some r) = Some a → edge (h0 !!! a) = false ∧ ancestor h0 r a.
Proof.
  intros Hw Hp Hm Hr Hre He. unfold edge_home. rewrite !(em_terminal _ _ Hm).
  assert (∀ b x, getTerminal h0 e b = Some x → edge (h0 !!! x) = false) as Ht
    by (intros b x; by apply (plain_terminal h0 Hp)).
  destruct (skip_moved_fuel h0 h (getTerminal h0 e true) Hw Hp Hm (Ht true)) as [-> Es].
  destruct (skip_moved_fuel h0 h (getTerminal h0 e false) Hw Hp Hm (Ht false)) as [-> Et].
  set (s := skip_relative (fuel h0) h0 (getTerminal h0 e true)) in *.
  set (t := if ignoreRelativeEdgeParent cfg then _ else _).
  assert (∀ x, t = Some x → edge (h0 !!! x) = false) as Et'.
  { unfold t. destruct (ignoreRelativeEdgeParent cfg); [done|apply Ht]. }
  cbv zeta. rewrite (below_moved h0 h r s), (below_moved h0 h r t) by done.
  destruct (isAncestor h0 (Some r) s) eqn:Bs; [|done]. destruct (isAncestor h0 (Some r) t) eqn:Bt; [|done].
  apply below_some in Bs as (x & -> & Hx); [|apply Hw]. apply below_some in Bt as (y & -> & Hy); [|apply Hw].
  specialize (Es x eq_refl). specialize (Et' y eq_refl). simpl. case_decide as Hxy.
  - rewrite (em_parent _ _ Hm x Es). split; [done|]. intros a Ha.
    split; [by eapply plain_parent|]. inversion Hx as [|? q ? Hq Hqr]; subst; [congruence|].
    unfold step_up in Hq. by simplify_eq.
  - apply nca_moved; try done. by intros ->.
Qed.

(** ** Moving one edge *)

Lemma getChildCount_kids h c : getChildCount h c = length (kids h c).
Proof. unfold getChildCount, kids. by destruct (children (h !!! c)). Qed.

Lemma relocate_frame e a s :
  root (sdata (relocate cfg e a s)) = root (sdata s) ∧
  (hp (sdata (relocate cfg e a s)) = hp (sdata s) ∨
   ∃ g, hp (sdata (relocate cfg e a s)) = upd e (set_geometry g) (hp (sdata s))).
Proof.
  unfold relocate. destruct (geometry (hp (sdata s) !!! e)) as [geo|]; [|by split; [|left]].
  cbv zeta. unfold setGeometry. case_decide; [|by split; [|left]].
  rewrite execute_data. simpl. split; [done|]. right. by eexists.
Qed.

(** The new geometry is all [relocate] changes. *)
Lemma relocate_same h0 e a s :
  edge (h0 !!! e) = true → edges_moved h0 (hp (sdata s)) →
  let h' := hp (sdata (relocate cfg e a s)) in
  edges_moved h0 h' ∧ same_tree (hp (sdata s)) h'.
Proof.
  intros He Hm. cbv zeta. destruct (relocate_frame e a s) as [_ [->|[g ->]]]; [done|].
  set (h := hp (sdata s)) in *. destruct attr_writes as (_ & _ & AG & _).
  destruct (attr_write_frame e (set_geometry g) h (AG g)) as [Ht [Hed Hte]%same_edges_eds].
  split; [|done]. destruct Hm as [W P E G T D L]. split.
  - by apply attr_write_wf.
  - intros x Hx. by rewrite (proj2 (Ht x)), P.
  - intros x. rewrite <-E, upd_lookup. by case_decide; subst.
  - intros x Hx. rewrite <-G, upd_lookup by done. case_decide; subst; congruence.
  - intros. by rewrite Hte.
  - intros. by rewrite Hed.
  - intros x Hx. rewrite (same_tree_kids h _ x Ht). by apply L.
Qed.

(** An edge that carries nothing gets a new parent: it is the last child there. *)
Lemma move_leaf h0 h1 h2 e a :
  wf h0 → plain_edges h0 → edges_moved h0 h1 → edge (h0 !!! e) = true → edge (h0 !!! a) = false →
  listed h0 e → parent (h1 !!! e) ≠ Some a →
  child_moved e (Some a) (Some (Z.of_nat (length (kids h1 a)))) h1 h2 →
  edges_moved h0 h2 ∧ parent (h2 !!! e) = Some a ∧
  (∀ x, x ≠ e → parent (h2 !!! x) = parent (h1 !!! x)) ∧
  (∀ x, parent (h1 !!! e) ≠ Some x → kids h1 x `prefix_of` kids h2 x).
Proof.
  intros Hw0 Hp0 Hm He Ha Hl Hpa [K P A T W I O]. pose proof Hm as [W1 P1 E1 G1 T1 D1 L1].
  assert (attached h1 e) as Hat.
  { destruct Hl as [u Hu]. apply (pe_listed _ Hp0) in Hu as [_ Hu]. intros b t. rewrite T1, D1. apply Hu. }
  assert (∀ x, ancestor h1 e x → x = e) as Hbelow.
  { intros x Hx. apply rtc_inv_r in Hx as [->|(y & _ & Hy)]; [done|].
    apply (tree_parent _ (wf_tree _ W1)) in Hy. rewrite (L1 e He) in Hy. by apply not_elem_of_nil in Hy. }
  assert (∀ x, edge (h2 !!! x) = edge (h1 !!! x) ∧ geometry (h2 !!! x) = geometry (h1 !!! x)) as Hattr.
  { intros x. specialize (A x). unfold attrs in A. by simplify_eq. }
  split_and!.
  - split.
    + done.
    + intros x Hx. rewrite P, decide_False by congruence. by apply P1.
    + intros x. by rewrite (proj1 (Hattr x)).
    + intros x Hx. rewrite (proj2 (Hattr x)). by apply G1.
    + intros. by rewrite T.
    + intros x t. rewrite <-D1. destruct (decide (x = e)) as [->|Hx].
      * rewrite !attached_iff by (apply W1 || apply W || done || by apply (I e), rtc_refl). by setoid_rewrite T.
      * apply O. by intros ?%Hbelow.
    + intros x Hx. rewrite K. rewrite decide_False by congruence. by rewrite (L1 x Hx).
  - by rewrite P, decide_True.
  - intros x Hx. by rewrite P, decide_False.
  - intros x Hx. rewrite K. assert (e ∉ kids h1 x) as Hn by (rewrite (tree_parent _ (wf_tree _ W1)); done).
    rewrite (filter_ne_id _ _ Hn). case_decide as Hax; [|done]. injection Hax as ->. simpl.
    unfold js_splice. rewrite splice_pos_of_nat by done. rewrite firstn_all. by eexists.
Qed.

Lemma leaf_update adder e s :
  kids (hp (sdata s)) e = [] → eds (hp (sdata s)) e = [] → updateEdgeParents cfg adder e s = Some s.
Proof.
  intros Hk He. unfold updateEdgeParents, fuel. cbn [updateEdgeParents_from].
  rewrite getChildCount_kids, Hk. cbn [length seq update_children mbind option_bind]. by rewrite He.
Qed.

(** [updateEdgeParent] makes two changes when the edge is not at home: the position
    and the parent. *)
Lemma updateEdgeParent_moves n h0 s e r a :
  wf h0 → plain_edges h0 → edges_moved h0 (hp (sdata s)) → maintainEdgeParent cfg = true →
  listed h0 e → edge (h0 !!! a) = false →
  edge_home cfg (hp (sdata s)) e (Some r) = Some a → moves_to (sdata s) e a = true →
  let s1 := relocate cfg e a s in
  ∃ s2, updateEdgeParent cfg (add cfg (S n)) e (Some r) s = Some s2 ∧
    edges_moved h0 (hp (sdata s2)) ∧ root (sdata s2) = root (sdata s) ∧
    same_attrs (hp (sdata s1)) (hp (sdata s2)) ∧
    parent (hp (sdata s2) !!! e) = Some a ∧
    (∀ x, x ≠ e → parent (hp (sdata s2) !!! x) = parent (hp (sdata s) !!! x)) ∧
    (∀ x, parent (hp (sdata s) !!! e) ≠ Some x → kids (hp (sdata s)) x `prefix_of` kids (hp (sdata s2)) x).
Proof.
  intros Hw Hp Hm Hmaintain He Hav Eh Em. unfold updateEdgeParent. rewrite Eh, Em.
  pose proof He as [u Hu]. apply (pe_listed _ Hp) in Hu as [Hee _].
  assert (parent (hp (sdata s) !!! e) ≠ Some a) as Hpa.
  { unfold moves_to in Em. apply andb_prop in Em as [_ Em]. by apply negb_true_iff, bool_decide_eq_false in Em. }
  destruct (relocate_same h0 e a s Hee Hm) as [Hm1 Ht1].
  destruct (relocate_frame e a s) as [Hr1 _].
  set (s1 := relocate cfg e a s) in *. cbv zeta in Hm1, Ht1 |- *.
  assert (parent (hp (sdata s1) !!! e) ≠ Some a) as Hpa1 by by rewrite (proj2 (Ht1 e)).
  cbn [add]. rewrite decide_False by congruence. cbv zeta. rewrite Hmaintain, bool_decide_true by done. cbn [andb].
  assert (no_cycle (hp (sdata s1)) e (Some a)) as Hnc.
  { intros p [= <-] Hc. apply (vertex_ancestor_back h0 _ Hw Hp Hm1) in Hc as [_ Hc]; congruence. }
  destruct (execute_child_spec cfg (sdata s1) (Some a) e (Some (Z.of_nat (getChildCount (hp (sdata s1)) a))) (em_wf _ _ Hm1) Hnc)
    as (Hcm & Hr2 & _). rewrite getChildCount_kids in *.
  set (s2 := MxEditor.execute cfg _ s1).
  assert (sdata s2 = (execute_child cfg (sdata s1) (Some a) e (Some (Z.of_nat (length (kids (hp (sdata s1)) a))))).1) as E2
    by apply execute_data.
  rewrite <-E2 in Hcm, Hr2.
  destruct (move_leaf h0 _ _ e a Hw Hp Hm1 Hee Hav He Hpa1 Hcm) as (Hm2 & Hpe & Hpo & Hkids).
  exists s2. rewrite leaf_update.
  - split_and!; [done|done|congruence|apply Hcm|done| |].
    + intros x Hx. by rewrite Hpo, (proj2 (Ht1 x)).
    + intros x Hx. rewrite <-(same_tree_kids _ _ x Ht1). apply Hkids. by rewrite (proj2 (Ht1 e)).
  - by apply (em_leaf _ _ Hm2).
  - apply (edges_moved_plain _ _ Hp) in Hm2 as Hp2. apply Hp2. by rewrite (em_edge _ _ Hm2).
Qed.

(** ** The position of an edge *)

Lemma origin_enough h n m c k :
  depth h c k → k < n → k < m → origin_loop n h (Some c) = origin_loop m h (Some c).
Proof.
  intros Hd. revert n m. induction Hd as [c Hc|c p k Hc Hd IH]; intros [|n] [|m] Hn Hm; try lia; simpl; rewrite Hc.
  - by destruct n, m.
  - by rewrite (IH n m) by lia.
Qed.

(** Moving edges does not move the origin of other cells. *)
Lemma origin_moved h0 h c :
  wf h0 → plain_edges h0 → edges_moved h0 h → (∀ x, c = Some x → edge (h0 !!! x) = false) →
  getOrigin h c = getOrigin h0 c.
Proof.
  intros Hw Hp Hm Hc. destruct c as [c|]; [|done]. specialize (Hc c eq_refl).
  set (n := S (size h + size h0)). assert (size h < n ∧ size h0 < n) as [Hn Hn0] by (unfold n; lia).
  destruct (wf_acyclic _ Hw c) as [k0 Hk0], (wf_acyclic _ (em_wf _ _ Hm) c) as [k Hk].
  pose proof (depth_fuel _ _ _ Hk0) as F0. pose proof (depth_fuel _ _ _ Hk) as F.
  unfold getOrigin. unfold fuel in *.
  rewrite (origin_enough h _ n c k Hk), (origin_enough h0 _ n c k0 Hk0) by lia.
  clear Hn Hn0 Hk0 Hk F0 F k k0. revert c Hc. induction n as [|m IH]; intros c Hc; [done|]. simpl.
  rewrite (em_parent _ _ Hm c Hc), (em_edge _ _ Hm), Hc, (em_geometry _ _ Hm c Hc).
  destruct (parent (h0 !!! c)) as [p|] eqn:Ep; [|by destruct m].
  assert (edge (h0 !!! p) = false) as Hpe by by eapply plain_parent. by rewrite (IH p Hpe).
Qed.

(** Where the geometry of a cell puts it on the page: its ends and its control points are
    points of the coordinates of the parent, and so is its box, unless the geometry is
    relative; then the box is a place along the edge. *)
Record placement := Placed {
  box : mxRectangle;
  ends : option mxPoint * option mxPoint;
  controls : option (list (option mxPoint));
  label : option mxPoint * option mxRectangle * bool
}.

Definition page_point (o p : mxPoint) : mxPoint := Point (px o + px p) (py o + py p).

Definition placed (o : mxPoint) (g : mxGeometry) : placement :=
  Placed
    (if relative g then bounds g
     else Rect (px o + rx (bounds g)) (py o + ry (bounds g)) (rwidth (bounds g)) (rheight (bounds g)))
    (page_point o <$> sourcePoint g, page_point o <$> targetPoint g)
    (fmap (M:=list) (fmap (M:=option) (page_point o)) <$> points g)
    (offset g, alternateBounds g, relative g).

Definition position (h : heap) (c : ref) : option placement :=
  placed (getOrigin h (parent (h !!! c))) <$> geometry (h !!! c).

(** A point moved by the difference of two origins is the same point of the page. *)
Lemma moved_point o1 o2 p :
  page_point o2 (move_point (- (px o2 - px o1)) (- (py o2 - py o1)) p) = page_point o1 p.
Proof. unfold page_point, move_point. cbn. f_equal; lia. Qed.

Lemma moved_end o1 o2 (p : option mxPoint) :
  page_point o2 <$> (move_point (- (px o2 - px o1)) (- (py o2 - py o1)) <$> p) = page_point o1 <$> p.
Proof. destruct p as [p|]; [|done]. simpl. by rewrite moved_point. Qed.

Lemma placed_translate o1 o2 r g :
  placed o2 (translate (- (px o2 - px o1)) (- (py o2 - py o1)) (geo_clone r g)) = placed o1 g.
Proof.
  unfold placed, translate, geo_clone.
  cbn [relative bounds sourcePoint targetPoint points offset alternateBounds]. rewrite !moved_end. f_equal.
  - destruct (relative g); [done|]. cbn. f_equal; lia.
  - destruct (points g) as [ps|]; [|done]. simpl. f_equal. rewrite <-list_fmap_compose.
    apply list_fmap_ext. intros _ p _. apply moved_end.
Qed.

Lemma relocate_geometry e a s geo :
  geometry (hp (sdata s) !!! e) = Some geo → geo_ref geo ≠ georef (sdata s) →
  let o1 := getOrigin (hp (sdata s)) (parent (hp (sdata s) !!! e)) in
  let o2 := getOrigin (hp (sdata s)) (Some a) in
  ∃ g, geometry (hp (sdata (relocate cfg e a s)) !!! e) = Some g ∧ placed o2 g = placed o1 geo.
Proof.
  intros Hg Href. cbv zeta. unfold relocate. rewrite Hg. cbv zeta. unfold setGeometry. rewrite decide_True.
  - rewrite execute_data. cbn [execute_change new_mxGeometryChange execute_geometry field_changed sdata set_sdata hp set_hp fst].
    eexists. split; [rewrite upd_lookup, decide_True by done; reflexivity|]. apply placed_translate.
  - unfold getGeometry. simpl. rewrite Hg. simpl. intros [= E]. by apply Href.
Qed.

(** C35: When [updateEdgeParent] moves an edge to another parent, its geometry is shifted so
    that the box (of a geometry that is not relative), both ends and every control point
    stay where they are on the page; the place of the label along the edge and the size are
    unchanged. *)
Theorem updateEdgeParent_keeps_position n e r a s geo :
  let d := sdata s in let h := hp d in
  wf h → plain_edges h → parent (h !!! r) = None → edge (h !!! r) = false →
  maintainEdgeParent cfg = true → listed h e →
  edge_home cfg h e (Some r) = Some a → moves_to d e a = true →
  geometry (h !!! e) = Some geo → geo_ref geo ≠ georef d →
  ∃ s', updateEdgeParent cfg (add cfg (S n)) e (Some r) s = Some s' ∧
        parent (hp (sdata s') !!! e) = Some a ∧ position (hp (sdata s')) e = position h e.
Proof.
  cbv zeta. intros Hw Hp Hr Hre Hm He Eh Em Hg Href.
  pose proof (edges_moved_refl _ Hw Hp) as H0.
  destruct (proj2 (home_moved _ _ r e Hw Hp H0 Hr Hre He) a Eh) as [Hav _].
  destruct (updateEdgeParent_moves n _ s e r a Hw Hp H0 Hm He Hav Eh Em) as (s2 & -> & Hm2 & _ & Hat & Hpe & _).
  exists s2. split_and!; [done..|].
  destruct (relocate_geometry e a s geo Hg Href) as (g & Eg & Hpl).
  specialize (Hat e). unfold attrs in Hat. injection Hat as _ Hg2 _ _ _ _ _ _.
  unfold position. rewrite Hg2, Eg, Hg, Hpe. cbn [fmap option_fmap option_map].
  rewrite (origin_moved _ _ (Some a) Hw Hp Hm2) by by intros x [= <-]. by rewrite Hpl.
Qed.

(** ** The state during an update *)

Section Update.
Context (s0 : session) (r c : ref).
Local Abbreviation h0 := (hp (sdata s0)).

(** An edge is at home when [updateEdgeParent] leaves it where it is. *)
Definition at_home (d : data) (e : ref) : Prop :=
  ∀ a, edge_home cfg (hp d) e (Some r) = Some a → moves_to d e a = false.

(** The update starts with a new child [c] below the top cell [r]; the edges below [c]
    are at home. *)
Record start : Prop := {
  st_wf : wf h0;
  st_plain : plain_edges h0;
  st_top : parent (h0 !!! r) = None;
  st_vertex : edge (h0 !!! r) = false;
  st_inner : ∀ e, listed h0 e → ancestor h0 c e → at_home (sdata s0) e
}.
Context (Hst : start) (Hmaintain : maintainEdgeParent cfg = true).

Record updating (s : session) : Prop := {
  up_moved : edges_moved h0 (hp (sdata s));
  up_root : root (sdata s) = root (sdata s0);
  up_place : ∀ e, edge (h0 !!! e) = true →
    parent (hp (sdata s) !!! e) = parent (h0 !!! e) ∨
    ∃ a, parent (hp (sdata s) !!! e) = Some a ∧ edge_home cfg h0 e (Some r) = Some a ∧ ancestor h0 r e;
  up_kids : ∀ x, ancestor h0 c x → edge (h0 !!! x) = false → kids h0 x `prefix_of` kids (hp (sdata s)) x
}.

Lemma updating_start : updating s0.
Proof.
  split; try done; [|by left]. apply edges_moved_refl; apply Hst.
Qed.

Lemma up_home s e :
  updating s → listed h0 e →
  edge_home cfg (hp (sdata s)) e (Some r) = edge_home cfg h0 e (Some r) ∧
  ∀ a, edge_home cfg h0 e (Some r) = Some a → edge (h0 !!! a) = false ∧ ancestor h0 r a.
Proof. intros Hs He. apply home_moved; try done; apply Hst || apply Hs. Qed.

(** What is above an edge depends on its parent only. *)
Lemma above_edge h e a :
  edges_moved h0 h → edge (h0 !!! e) = true → edge (h0 !!! a) = false →
  ancestor h a e ↔ ∃ p, parent (h !!! e) = Some p ∧ ancestor h0 a p.
Proof.
  intros Hm He Ha. pose proof (edges_moved_plain _ _ (st_plain Hst) Hm) as Hp.
  assert (∀ p, parent (h !!! e) = Some p → ancestor h a p ↔ ancestor h0 a p) as Hup.
  { intros p Hpp. apply (vertex_ancestor_iff h0 h (st_wf Hst) (st_plain Hst) Hm).
    rewrite <-(em_edge _ _ Hm). eapply plain_parent; [exact Hp|apply Hm|done]. }
  split.
  - intros Hae. inversion Hae as [|? p ? Hpp Hap]; subst; [congruence|]. exists p. split; [done|].
    by apply Hup.
  - intros (p & Hpp & Hap). eapply rtc_l; [exact Hpp|]. by apply Hup.
Qed.

Lemma moves_to_same d d' e a :
  edges_moved h0 (hp d) → edges_moved h0 (hp d') → root d = root d' →
  edge (h0 !!! e) = true → edge (h0 !!! a) = false → parent (hp d !!! e) = parent (hp d' !!! e) →
  moves_to d e a = moves_to d' e a.
Proof.
  intros Hm Hm' Hr He Ha Hp. unfold moves_to. rewrite (em_parent _ _ Hm a Ha), (em_parent _ _ Hm' a Ha), Hr, Hp.
  f_equal. f_equal. apply eq_bool_prop_intro.
  rewrite !Is_true_true, !isAncestor_spec by (apply (em_wf _ _ Hm) || apply (em_wf _ _ Hm')).
  by rewrite !above_edge, Hp by done.
Qed.

Lemma up_at_home s s' e :
  updating s → updating s' → listed h0 e → parent (hp (sdata s) !!! e) = parent (hp (sdata s') !!! e) →
  at_home (sdata s) e → at_home (sdata s') e.
Proof.
  intros Hs Hs' He Hp Hh a Ha. destruct (up_home s' e Hs' He) as [Eq Hv]. rewrite Eq in Ha.
  destruct (Hv a Ha) as [Hav _]. specialize (Hh a). rewrite (proj1 (up_home s e Hs He)) in Hh.
  rewrite <-(Hh Ha). symmetry. destruct He as [u Hu]. apply (pe_listed _ (st_plain Hst)) in Hu as [Hu _].
  apply moves_to_same; try done; [apply Hs|apply Hs'|]. by rewrite (up_root _ Hs), (up_root _ Hs').
Qed.

(** What a part of the update does: it keeps the state, and edges at home stay there. *)
Record progress (s s' : session) : Prop := {
  pr_up : updating s';
  pr_home : ∀ e, listed h0 e → at_home (sdata s) e → at_home (sdata s') e
}.

Lemma progress_trans s1 s2 s3 : progress s1 s2 → progress s2 s3 → progress s1 s3.
Proof. intros [U1 H1] [U2 H2]. split; auto. Qed.

(** Moving an edge to its home. *)
Lemma updateEdgeParent_ok n s e :
  updating s → listed h0 e → ancestor h0 r e →
  ∃ s', updateEdgeParent cfg (add cfg (S n)) e (Some r) s = Some s' ∧ progress s s' ∧ at_home (sdata s') e.
Proof.
  intros Hs He Hre. destruct (up_home s e Hs He) as [Eq Hv].
  destruct (edge_home cfg (hp (sdata s)) e (Some r)) as [a|] eqn:Eh.
  2: { unfold updateEdgeParent. rewrite Eh. exists s. split_and!; [done|done|intros a; congruence]. }
  symmetry in Eq. destruct (Hv a Eq) as [Hav Hra].
  destruct (moves_to (sdata s) e a) eqn:Em.
  2: { unfold updateEdgeParent. rewrite Eh, Em. exists s. split_and!; [done|done|intros b; congruence]. }
  destruct (updateEdgeParent_moves n h0 s e r a (st_wf Hst) (st_plain Hst) (up_moved _ Hs) Hmaintain He Hav Eh Em)
    as (s2 & -> & Hm2 & Hr2 & _ & Hpe & Hpo & Hkids).
  pose proof He as [u Hu]. apply (pe_listed _ (st_plain Hst)) in Hu as [Hee _].
  assert (updating s2) as Hs2.
  { split; [done|by rewrite Hr2, (up_root _ Hs)| |].
    - intros x Hx. destruct (decide (x = e)) as [->|Hne]; [right; by exists a|].
      rewrite Hpo by done. by apply Hs.
    - intros x Hcx Hx. etrans; [by apply (up_kids _ Hs)|]. apply Hkids. intros Hp.
      destruct (up_place _ Hs e Hee) as [Hq|(b & Hq & Hb & _)].
      + assert (ancestor h0 c e) as Hce by (eapply rtc_l; [unfold step_up; by rewrite <-Hq|done]).
        assert (at_home (sdata s) e) as Hh.
        { eapply up_at_home; [apply updating_start|done..|by apply (st_inner Hst)]. }
        by rewrite (Hh a Eh) in Em.
      + unfold moves_to in Em. apply andb_prop in Em as [_ Em].
        apply negb_true_iff, bool_decide_eq_false in Em. apply Em. congruence. }
  exists s2. split_and!; [done| |].
  - split; [done|]. intros x Hx Hh. destruct (decide (x = e)) as [->|Hne].
    + by rewrite (Hh a Eh) in Em.
    + eapply up_at_home; [exact Hs|exact Hs2|done| |done]. by rewrite Hpo.
  - intros b Hb. rewrite (proj1 (up_home s2 e Hs2 He)), Eq in Hb. injection Hb as <-.
    unfold moves_to. rewrite Hpe, (bool_decide_true (Some a = Some a)) by done. by rewrite andb_false_r.
Qed.

(** ** The loops of the update *)

Lemma below_root s e :
  updating s → listed h0 e → isAncestor (hp (sdata s)) (Some r) (Some e) = true ↔ ancestor h0 r e.
Proof.
  intros Hs He. pose proof He as [u Hu]. apply (pe_listed _ (st_plain Hst)) in Hu as [Hee _].
  rewrite isAncestor_spec by apply (em_wf _ _ (up_moved _ Hs)).
  rewrite (above_edge _ e r) by (done || apply Hs || apply Hst).
  pose proof (above_edge h0 e r (edges_moved_refl _ (st_wf Hst) (st_plain Hst)) Hee (st_vertex Hst)) as H0.
  destruct (up_place _ Hs e Hee) as [Hp|(a & Hp & Ha & Hre)]; rewrite Hp; [by rewrite H0|].
  split; [done|]. intros _. exists a. split; [done|].
  apply (proj2 (up_home s0 e updating_start He) a). by rewrite <-Ha.
Qed.

Lemma update_edges_ok n es s :
  updating s → (∀ e, e ∈ es → listed h0 e) →
  ∃ s', update_edges cfg (add cfg (S n)) es r s = Some s' ∧ progress s s' ∧
        ∀ e, e ∈ es → ancestor h0 r e → at_home (sdata s') e.
Proof.
  revert s. induction es as [|e es IH]; intros s Hs Hes.
  { exists s. split_and!; [done|by split|]. by intros e ?%not_elem_of_nil. }
  assert (listed h0 e) as He by (apply Hes; left). cbn [update_edges].
  assert (∃ s1, (if isAncestor (hp (sdata s)) (Some r) (Some e)
                 then updateEdgeParent cfg (add cfg (S n)) e (Some r) s else Some s) = Some s1 ∧
    progress s s1 ∧ (ancestor h0 r e → at_home (sdata s1) e)) as (s1 & -> & Hp1 & Hh1).
  { pose proof (below_root s e Hs He) as Hb. destruct (isAncestor _ _ _).
    - destruct (updateEdgeParent_ok n s e Hs He) as (s1 & ? & ? & ?); [by apply Hb|]. by exists s1.
    - exists s. split_and!; [done|by split|]. intros Hr. by apply Hb in Hr. }
  cbn [mbind option_bind]. destruct (IH s1) as (s' & -> & Hp & Hh); [apply Hp1|intros; apply Hes; by right|].
  exists s'. split_and!; [done|by eapply progress_trans|].
  intros x [->|Hx]%elem_of_cons Hr; [apply (pr_home _ _ Hp); auto|auto].
Qed.

(** The edges at the cells below [x] are at home. *)
Definition covered (x : ref) (s : session) : Prop :=
  ∀ t e, ancestor h0 x t → e ∈ eds h0 t → ancestor h0 r e → at_home (sdata s) e.

Lemma covered_progress x s s' : progress s s' → covered x s → covered x s'.
Proof. intros Hp Hc t e Ht He Hr. apply (pr_home _ _ Hp); [by exists t|]. by eapply Hc. Qed.

Lemma leaf_from adder n y s :
  updating s → edge (h0 !!! y) = true →
  updateEdgeParents_from cfg adder (S n) r y s = Some s ∧ covered y s.
Proof.
  intros Hs Hy. pose proof (edges_moved_plain _ _ (st_plain Hst) (up_moved _ Hs)) as Hp. split.
  - destruct (pe_leaf _ Hp y) as [Hk He]; [by rewrite (em_edge _ _ (up_moved _ Hs))|].
    cbn [updateEdgeParents_from]. rewrite getChildCount_kids, Hk.
    cbn [length seq update_children mbind option_bind]. by rewrite He.
  - destruct (pe_leaf _ (st_plain Hst) y Hy) as [Hk He]. intros t e Ht Hte _.
    apply rtc_inv_r in Ht as [->|(z & _ & Hz)].
    + rewrite He in Hte. by apply not_elem_of_nil in Hte.
    + apply (tree_parent _ (wf_tree _ (st_wf Hst))) in Hz. rewrite Hk in Hz. by apply not_elem_of_nil in Hz.
Qed.

(** A child found by its index: the one of the start, or an edge that came later. *)
Lemma child_at s x i y :
  updating s → ancestor h0 c x → edge (h0 !!! x) = false →
  getChildAt (hp (sdata s)) x (Z.of_nat i) = Some y →
  parent (h0 !!! y) = Some x ∨ edge (h0 !!! y) = true.
Proof.
  intros Hs Hx Hv Hy. destruct (edge (h0 !!! y)) eqn:E; [by right|left].
  rewrite <-(em_parent _ _ (up_moved _ Hs) y E). apply (tree_parent _ (wf_tree _ (em_wf _ _ (up_moved _ Hs)))).
  unfold getChildAt, kids in *. destruct (children _) as [l|]; [|done].
  rewrite decide_True, Nat2Z.id in Hy by lia. by eapply list_elem_of_lookup_2.
Qed.

Lemma child_at_start s x i y :
  updating s → ancestor h0 c x → edge (h0 !!! x) = false → kids h0 x !! i = Some y →
  getChildAt (hp (sdata s)) x (Z.of_nat i) = Some y.
Proof.
  intros Hs Hx Hv Hy. destruct (up_kids _ Hs x Hx Hv) as [l Hl].
  assert (kids (hp (sdata s)) x !! i = Some y) as Hk by (rewrite Hl; by apply lookup_app_l_Some).
  unfold getChildAt, kids in *. destruct (children (hp (sdata s) !!! x)) as [l'|]; [|done].
  by rewrite decide_True, Nat2Z.id by lia.
Qed.

Lemma updateEdgeParents_from_ok m n x k s :
  updating s → ancestor h0 c x → depth h0 x k → fuel h0 < n + k →
  ∃ s', updateEdgeParents_from cfg (add cfg (S m)) n r x s = Some s' ∧ progress s s' ∧ covered x s'.
Proof.
  revert x k s. induction n as [|n IH]; intros x k s Hs Hx Hk Hn; [pose proof (depth_fuel _ _ _ Hk); lia|].
  destruct (edge (h0 !!! x)) eqn:Ex.
  { destruct (leaf_from (add cfg (S m)) n x s Hs Ex) as [H1 H2]. exists s. by split_and!; [|split|]. }
  cbn [updateEdgeParents_from].
  assert (∀ indices s, updating s →
    ∃ s', update_children (updateEdgeParents_from cfg (add cfg (S m)) n r) x indices s = Some s' ∧ progress s s' ∧
          ∀ i y, i ∈ indices → kids h0 x !! i = Some y → covered y s') as Hloop.
  { intros indices. induction indices as [|i indices IHl]; intros s1 Hs1.
    { exists s1. split_and!; [done|by split|]. by intros i y ?%not_elem_of_nil. }
    cbn [update_children].
    assert (∃ s2, match getChildAt (hp (sdata s1)) x (Z.of_nat i) with
        | Some child => updateEdgeParents_from cfg (add cfg (S m)) n r child s1 | None => Some s1 end = Some s2 ∧
      progress s1 s2 ∧ ∀ y, kids h0 x !! i = Some y → covered y s2) as (s2 & -> & Hp2 & Hc2).
    { destruct (getChildAt (hp (sdata s1)) x (Z.of_nat i)) as [y|] eqn:Ey.
      - assert (∃ s2, updateEdgeParents_from cfg (add cfg (S m)) n r y s1 = Some s2 ∧ progress s1 s2 ∧ covered y s2)
          as (s2 & ? & ? & ?).
        { destruct (child_at s1 x i y Hs1 Hx Ex Ey) as [Hy|Hy].
          - apply (IH y (S k)); [done|by eapply rtc_l|by econstructor|lia].
          - pose proof (depth_fuel _ _ _ Hk). destruct n as [|n]; [lia|].
            destruct (leaf_from (add cfg (S m)) n y s1 Hs1 Hy). exists s1. by split_and!; [|split|]. }
        exists s2. split_and!; [done..|]. intros z Hz. rewrite (child_at_start s1 x i z) in Ey by done. by simplify_eq.
      - exists s1. split_and!; [done|by split|]. intros z Hz. rewrite (child_at_start s1 x i z) in Ey by done. done. }
    cbn [mbind option_bind]. destruct (IHl s2) as (s3 & -> & Hp3 & Hc3); [apply Hp2|].
    exists s3. split_and!; [done|by eapply progress_trans|].
    intros j y [->|Hj]%elem_of_cons Hy; [by eapply covered_progress, Hc2|by eapply Hc3]. }
  destruct (Hloop (seq 0 (getChildCount (hp (sdata s)) x)) s Hs) as (s1 & -> & Hp1 & Hc1).
  cbn [mbind option_bind].
  destruct (update_edges_ok m (eds (hp (sdata s1)) x) s1) as (s2 & -> & Hp2 & Hc2).
  { apply Hp1. }
  { intros e He. exists x. by rewrite <-(em_eds _ _ (up_moved _ (pr_up _ _ Hp1))). }
  exists s2. split_and!; [done|by eapply progress_trans|].
  intros t e Ht He Hr. apply rtc_inv_r in Ht as [->|(y & Hty & Hy)].
  - apply Hc2; [|done]. by rewrite (em_eds _ _ (up_moved _ (pr_up _ _ Hp1))).
  - apply (tree_parent _ (wf_tree _ (st_wf Hst))) in Hy as Hk'. apply list_elem_of_lookup_1 in Hk' as [i Hi].
    apply (pr_home _ _ Hp2); [by exists t|]. eapply (Hc1 i y); try done.
    apply elem_of_seq. split; [lia|]. rewrite getChildCount_kids. destruct (up_kids _ Hs x Hx Ex) as [l ->].
    apply lookup_lt_Some in Hi. rewrite length_app. simpl. lia.
Qed.

End Update.

End Home.

(** ** Adding a cell *)

Lemma root_loop_top n h c k :
  depth h c k → k < n → parent (h !!! root_loop n h c) = None ∧ ancestor h (root_loop n h c) c.
Proof.
  intros Hd. revert n. induction Hd as [c Hc|c p k Hc Hd IH]; intros [|n] Hn; try lia; simpl; rewrite Hc.
  - by split; [|constructor].
  - destruct (IH n) as [H1 H2]; [lia|]. split; [done|]. by eapply rtc_l.
Qed.

(** Updating the edges at and below a cell that has a parent. *)
Lemma updateEdgeParents_ok cfg n s0 p c h0 r :
  hp (sdata s0) = h0 → root_loop (fuel h0) h0 c = r →
  wf h0 → plain_edges h0 → parent (h0 !!! c) = Some p → maintainEdgeParent cfg = true →
  (∀ e, listed h0 e → ancestor h0 c e → at_home cfg r (sdata s0) e) →
  ∃ s', updateEdgeParents cfg (add cfg (S n)) c s0 = Some s' ∧
    (∀ t e, ancestor h0 c t → e ∈ eds h0 t → ancestor h0 r e → at_home cfg r (sdata s') e) ∧
    (∀ x, edge (h0 !!! x) = false → parent (hp (sdata s') !!! x) = parent (h0 !!! x)) ∧
    (∀ e, edge (h0 !!! e) = true → parent (hp (sdata s') !!! e) = parent (h0 !!! e) ∨
                                   parent (hp (sdata s') !!! e) = edge_home cfg h0 e (Some r)).
Proof.
  intros Eh Er Hw0 Hpl Hp Hm Hin. subst h0. set (h0 := hp (sdata s0)) in *. destruct (wf_acyclic _ Hw0 c) as [k Hk].
  pose proof (depth_fuel _ _ _ Hk) as Hf.
  destruct (root_loop_top (fuel h0) h0 c k Hk Hf) as [Htop Hct]. rewrite Er in Htop, Hct.
  assert (start cfg s0 r c) as Hst.
  { split; try done. inversion Hct as [Hx|? q ? Hq Hqt]; [congruence|]. unfold step_up in Hq.
    eapply (vertex_ancestor _ _ Hw0 Hpl (edges_moved_refl _ Hw0 Hpl) q); [|exact Hqt].
    by eapply plain_parent. }
  unfold updateEdgeParents. fold h0. rewrite Er.
  destruct (updateEdgeParents_from_ok cfg s0 r c Hst Hm n (S (fuel h0)) c k s0)
    as (s' & -> & Hp' & Hc); [by apply updating_start|constructor|done|unfold h0; lia|].
  exists s'. split_and!; [done|exact Hc|by apply Hp'|].
  intros e He. destruct (up_place _ _ _ _ _ (pr_up _ _ _ _ _ _ Hp') e He) as [?|(a & Ha & Hh & _)];
    [by left|right; etrans; [exact Ha|symmetry; exact Hh]].
Qed.

Lemma child_moved_parent c par i h h' : child_moved c par i h h' → parent (h' !!! c) = par.
Proof. intros Hm. by rewrite (cm_parent _ _ _ _ _ Hm), decide_True. Qed.

Section Add.
Context (cfg : config) (p c : ref) (index : option Z) (s : session).

(** The session after the child change of [add], and the top of the tree the cell is in. *)
Definition added : session :=
  MxEditor.execute cfg (new_mxChildChange (Some p) (Some c)
    (Some (match index with Some i => i | None => Z.of_nat (getChildCount (hp (sdata s)) p) end))) s.
Definition top : ref := root_loop (fuel (hp (sdata added))) (hp (sdata added)) c.

Lemma top_eq : root_loop (fuel (hp (sdata added))) (hp (sdata added)) c = top.
Proof. unfold top. exact eq_refl. Qed.

Lemma added_moved :
  wf (hp (sdata s)) → ¬ ancestor (hp (sdata s)) c p →
  wf (hp (sdata added)) ∧ parent (hp (sdata added) !!! c) = Some p.
Proof.
  intros Hw Hnc. unfold added. rewrite execute_data. set (i := match index with Some i => i | None => _ end).
  destruct (execute_child_spec cfg (sdata s) (Some p) c (Some i) Hw) as (Hcm & _ & _); [by intros q [= <-]|].
  cbn [execute_change new_mxChildChange]. split; [apply Hcm|].
  exact (child_moved_parent _ _ _ _ _ Hcm).
Qed.

Lemma add_update n :
  c ≠ p → parent (hp (sdata s) !!! c) ≠ Some p → maintainEdgeParent cfg = true →
  add cfg (S n) (Some p) (Some c) index s = updateEdgeParents cfg (add cfg n) c added.
Proof.
  intros Hcp Hpar Hm. cbn [add]. rewrite decide_False by done. cbv zeta.
  rewrite Hm, bool_decide_true by congruence. cbn [andb]. unfold added. exact eq_refl.
Qed.


End Add.

(** ** Examples *)

Definition plain_check (h : heap) : bool :=
  forallb (λ p, (negb (edge p.2) || bool_decide (kids h p.1 = [] ∧ eds h p.1 = []))
                && forallb (λ e, edge (h !!! e) && attached_check h e) (eds h p.1)) (map_to_list h).

Lemma plain_check_sound h : plain_check h = true → plain_edges h.
Proof.
  intros Hc. assert (∀ x c, h !! x = Some c →
    (edge c = true → kids h x = [] ∧ eds h x = []) ∧ ∀ e, e ∈ eds h x → edge (h !!! e) = true ∧ attached h e) as Hx.
  { intros x c Hx. unfold plain_check in Hc. rewrite forallb_forall in Hc.
    specialize (Hc (x, c)). simpl in Hc. apply andb_prop in Hc as [H1 H2].
    2: { apply list_elem_of_In, elem_of_map_to_list, Hx. }
    split.
    - intros He. rewrite He in H1. simpl in H1. by apply bool_decide_eq_true in H1.
    - intros e He. rewrite forallb_forall in H2. specialize (H2 e (proj1 (list_elem_of_In _ _) He)).
      apply andb_prop in H2 as [H2 H3]. split; [done|]. by apply attached_check_sound. }
  split.
  - intros e He. destruct (h !! e) as [c|] eqn:E; [|by rewrite (no_cell h e E) in He].
    rewrite (lookup_total_correct _ _ _ E) in He. by eapply Hx.
  - intros t e He. destruct (h !! t) as [c|] eqn:E; [by eapply Hx|].
    unfold eds in He. rewrite (no_cell h t E) in He. by apply not_elem_of_nil in He.
Qed.

(** A layer (1) with a group (5) that holds a vertex (2), a vertex (3) next to the group,
    and an edge (4) between the two. *)
Definition grouped : data :=
  Data (list_to_map
    [(0, cell_in None (Some [1]) None false false None None);
     (1, cell_in (Some 0) (Some [5; 3; 4]) None false false None None);
     (5, cell_in (Some 1) (Some [2]) None true false None None);
     (2, cell_in (Some 5) None (Some [4]) true false None None);
     (3, cell_in (Some 1) None (Some [4]) true false None None);
     (4, cell_in (Some 1) None None false true (Some 2) (Some 3))]) (Some 0) None 0 0.
Definition session_of (d : data) : session := Session d 0 false createUndoableEdit [].


(** The geometry of an edge as the editor of mxGraph makes it: relative, with an end that
    hangs free and two control points. *)
Definition bent : mxGeometry :=
  Geometry 2 (Rect 0 (-7) 0 0) None None (Some (Point 60 25)) (Some [Some (Point 12 30); Some (Point 40 30)]) None true.

(** A layer (1) with a group (5) at (10, 20) that holds two vertices (2, 3); their edge (4)
    is still in the layer. *)
Definition misplaced : data :=
  Data (list_to_map
    [(0, cell_in None (Some [1]) None false false None None);
     (1, cell_in (Some 0) (Some [5; 4]) None false false None None);
     (5, set_geometry (Some (new_mxGeometry 1 (Some 10%Z) (Some 20%Z) None None))
           (cell_in (Some 1) (Some [2; 3]) None true false None None));
     (2, cell_in (Some 5) None (Some [4]) true false None None);
     (3, cell_in (Some 5) None (Some [4]) true false None None);
     (4, set_geometry (Some bent) (cell_in (Some 1) None None false true (Some 2) (Some 3)))]) (Some 0) None 0 9.

Lemma updateEdgeParent_keeps_position_witness :
  ∃ s', updateEdgeParent default_config (add default_config 1) 4 (Some 0) (session_of misplaced) = Some s' ∧
        parent (hp (sdata s') !!! 4) = Some 5 ∧
        position (hp (sdata s')) 4 =
          Some (Placed (Rect 0 (-7) 0 0) (None, Some (Point 60 25)) (Some [Some (Point 12 30); Some (Point 40 30)])
            (None, None, true)).
Proof.
  assert (wf (hp misplaced)) as Hw by (apply wf_check_sound; vm_compute; reflexivity).
  assert (plain_edges (hp misplaced)) as Hp by (apply plain_check_sound; vm_compute; reflexivity).
  assert (listed (hp misplaced) 4) as Hl by (exists 2; js_decide).
  destruct (updateEdgeParent_keeps_position default_config 0 4 0 5 (session_of misplaced)
    bent Hw Hp ltac:(vm_compute; reflexivity) ltac:(vm_compute; reflexivity)
    eq_refl Hl ltac:(vm_compute; reflexivity) ltac:(vm_compute; reflexivity) ltac:(vm_compute; reflexivity)
    ltac:(vm_compute; discriminate)) as (s' & H1 & H2 & H3).
  exists s'. split; [exact H1|split; [exact H2|rewrite H3; vm_compute; reflexivity]].
Defined.

(** A layer (1) with two vertices (6, 7), and a group (5) that is in no graph yet, with an
    edge (4) from its vertex 2 to 6 and an edge (8) from its vertex 3 to 7. *)
Definition detached_group : data :=
  Data (list_to_map
    [(0, cell_in None (Some [1]) None false false None None);
     (1, cell_in (Some 0) (Some [6; 7]) None false false None None);
     (6, cell_in (Some 1) None None true false None None);
     (7, cell_in (Some 1) None None true false None None);
     (5, cell_in None (Some [4; 2; 3; 8]) None true false None None);
     (4, cell_in (Some 5) None None false true (Some 2) (Some 6));
     (2, cell_in (Some 5) None (Some [4]) true false None None);
     (3, cell_in (Some 5) None (Some [8]) true false None None);
     (8, cell_in (Some 5) None None false true (Some 3) (Some 7))]) (Some 0) None 0 0.

(** The loop over the children of an added group goes by index while edges leave the
    group: after the first edge has left, a vertex is passed over, and its edge stays in
    the group although its home is the layer and [updateEdgeParent] would move it. *)
Theorem add_skips_child :
  (λ s, let d := sdata s in
        (parent (hp d !!! 4), parent (hp d !!! 8), edge_home default_config (hp d) 8 (Some 0), moves_to d 8 1))
    <$> add default_config 9 (Some 1) (Some 5) None (session_of detached_group)
  = Some (Some 1, Some 5, Some 1, true).
Proof. vm_compute. reflexivity. Qed.

End MxHome.
