(* ===== verification/MxClone.v ===== *)
(** * Copies of cells

    [cloneCells], [cloneCell] and their helpers of mxGraphModel.js: the copies of a
    selection of cells, their children and the edges between them. *)

From S2P Require Import Prelude MxGeometry MxCell MxModel MxUndo MxOps.
Import MxGeometry MxCell MxModel MxUndo MxOps.

Module MxClone.

(** ** Copies of cells *)

(** The copies made so far, by the cell they copy. *)
Abbreviation mapping := (gmap ref ref).

Definition cellCloned (d : data) (c : ref) : data * ref :=
  new_cell (clone (georef d) (hp d !!! c)) (Data (hp d) (root d) (cells d) (nextId d) (S (georef d))).

(** [clone.insert(cloneChild)] *)
Definition insert_copy (cl : ref) (r : data * mapping * ref) : data * mapping :=
  let '(d, m, ck) := r in (set_hp (insert (hp d) cl (Some ck) None).1 d, m).

Fixpoint cloneCellImpl (n : nat) (includeChildren : bool) (st : data * mapping) (c : ref)
    : data * mapping * ref :=
  let '(d, m) := st in
  match m !! c with
  | Some cl => (d, m, cl)
  | None =>
      let '(d, cl) := cellCloned d c in
      let m := <[c := cl]> m in
      match n with
      | S n =>
          if includeChildren then
            (foldl (λ st k, insert_copy cl (cloneCellImpl n true st k)) (d, m) (kids (hp d) c), cl)
          else (d, m, cl)
      | 0 => (d, m, cl)
      end
  end.

(** Connects a copy to the copies of the terminals of its original. *)
Definition restore_terminal (m : mapping) (h : heap) (cl : ref) (c : option ref) (isSource : bool) : heap :=
  match terminalOf h c isSource ≫= λ t, m !! t with
  | Some tmp => insertEdge h tmp (Some cl) isSource
  | None => h
  end.

Fixpoint restoreClone (n : nat) (m : mapping) (h : heap) (cl : ref) (c : option ref) : heap :=
  let h := restore_terminal m h cl c true in
  let h := restore_terminal m h cl c false in
  match n with
  | 0 => h
  | S n =>
      foldl (λ h i, match getChildAt h cl (Z.of_nat i) with
                    | Some k => restoreClone n m h k (c ≫= λ c, getChildAt h c (Z.of_nat i))
                    | None => h
                    end) h (seq 0 (getChildCount h cl))
  end.

Fixpoint clone_all (includeChildren : bool) (cs : list (option ref)) (st : data * mapping)
    : data * mapping * list (option ref) :=
  match cs with
  | [] => (st, [])
  | None :: cs => let '(st, cls) := clone_all includeChildren cs st in (st, None :: cls)
  | Some c :: cs =>
      let '(st, cl) := cloneCellImpl (fuel (hp st.1)) includeChildren st c in
      let '(st, cls) := clone_all includeChildren cs st in (st, Some cl :: cls)
  end.

Definition cloneCells (cs : list (option ref)) (includeChildren : bool) (m : mapping) (d : data)
    : data * mapping * list (option ref) :=
  let '(d, m, cls) := clone_all includeChildren cs (d, m) in
  let n := fuel (hp d) in
  let h := foldl (λ h p, match p.1 with
                         | Some cl => restoreClone n m h cl p.2
                         | None => h
                         end) (hp d) (zip cls cs) in
  (set_hp h d, m, cls).

Definition cloneCell (c : option ref) (includeChildren : bool) (d : data) : data * option ref :=
  match c with
  | Some c => let '(d, _, cls) := cloneCells [Some c] includeChildren ∅ d in (d, default None (head cls))
  | None => (d, None)
  end.

(** ** Copying a subtree *)

Section Copies.
(** The heap the copies are made in, and the cells it has. *)
Context (h0 : heap) (Hw : wf h0).

(** Copies look like their originals, but for the identity of the geometry and the id. *)
Definition same_look (x y : mxCell) : Prop :=
  id y = None ∧ value y = value x ∧ style y = style x ∧ vertex y = vertex x ∧ edge y = edge x ∧
  connectable y = connectable x ∧ visible y = visible x ∧ collapsed y = collapsed x ∧
  ∃ g, geometry y = geo_clone g <$> geometry x.

(** The state of the copying: [pr c] are the children of [c] whose copies the copy of
    [c] has. *)
Record copying (pr : ref → list ref) (h : heap) (m : mapping) : Prop := {
  cp_orig : ∀ x, x ∈ dom h0 → h !! x = h0 !! x;
  cp_key : ∀ c cl, m !! c = Some cl → c ∈ dom h0;
  cp_fresh : ∀ c cl, m !! c = Some cl → cl ∉ dom h0 ∧ cl ∈ dom h;
  cp_dom : ∀ x, x ∈ dom h → x ∈ dom h0 ∨ ∃ c, m !! c = Some x;
  cp_inj : ∀ c1 c2 cl, m !! c1 = Some cl → m !! c2 = Some cl → c1 = c2;
  cp_look : ∀ c cl, m !! c = Some cl → same_look (h0 !!! c) (h !!! cl);
  cp_kids : ∀ c cl, m !! c = Some cl → Forall2 (λ k ck, m !! k = Some ck) (pr c) (kids h cl);
  cp_parent : ∀ c cl, m !! c = Some cl → parent (h !!! cl) =
    match parent (h0 !!! c) with Some p => if decide (c ∈ pr p) then m !! p else None | None => None end;
  cp_bare : ∀ c cl, m !! c = Some cl →
    source (h !!! cl) = None ∧ target (h !!! cl) = None ∧ eds h cl = []
}.

Lemma orig_lookup (h : heap) x : (∀ x, x ∈ dom h0 → h !! x = h0 !! x) → x ∈ dom h0 → h !!! x = h0 !!! x.
Proof. intros Ho Hx. by rewrite !lookup_total_alt, Ho. Qed.

Lemma copying_ext pr pr' h m :
  (∀ c, is_Some (m !! c) → pr c = pr' c) → copying pr h m → copying pr' h m.
Proof.
  intros He [O K F D I L C P B]. split; try done.
  - intros c cl Hc. rewrite <-He by by eexists. by apply C.
  - intros c cl Hc. rewrite (P c cl Hc). destruct (parent (h0 !!! c)) as [p|]; [|done].
    destruct (m !! p) as [pl|] eqn:Hp; [|by repeat case_decide]. by rewrite He by by eexists.
Qed.

(** A cell that has children or a parent exists. *)
Lemma kid_exists c k : k ∈ kids h0 c → k ∈ dom h0.
Proof.
  intros Hk. apply (tree_parent _ (wf_tree _ Hw)) in Hk. destruct (h0 !! k) eqn:E; [by eapply elem_of_dom_2|].
  by rewrite (no_cell h0 k E) in Hk.
Qed.

(** Copying one cell. *)
Lemma cellCloned_ok pr d m c :
  copying pr (hp d) m → c ∈ dom h0 → m !! c = None → pr c = [] →
  (∀ p, parent (h0 !!! c) = Some p → is_Some (m !! p) → c ∉ pr p) →
  (∀ k, parent (h0 !!! k) = Some c → k ∉ pr c) →
  let r := cellCloned d c in
  copying pr (hp r.1) (<[c := r.2]> m) ∧ georef r.1 = S (georef d) ∧ root r.1 = root d ∧ cells r.1 = cells d.
Proof.
  intros [O K F D I L C P B] Hc Hm Hpr Hpc Hkc. cbv zeta. unfold cellCloned, new_cell. cbn [fst snd hp set_hp georef root cells].
  split; [|done]. set (h := hp d) in *. set (r := fresh (dom h)).
  assert (r ∉ dom h) as Hr by apply is_fresh.
  assert (r ∉ dom h0) as Hr0.
  { intros Hr0. apply Hr. rewrite elem_of_dom, O, <-elem_of_dom by done. done. }
  assert (∀ x cl, m !! x = Some cl → cl ≠ r) as Hne by (intros x cl Hx ->; by apply F in Hx as [_ ?]).
  assert (∀ x, x ≠ r → <[r := clone (georef d) (h !!! c)]> h !!! x = h !!! x) as Hl
    by (intros; by apply lookup_total_insert_ne).
  assert (<[r := clone (georef d) (h !!! c)]> h !!! r = clone (georef d) (h0 !!! c)) as Hlr
    by (rewrite lookup_total_insert_eq; by rewrite (orig_lookup h) by done).
  split.
  - intros x Hx. rewrite lookup_insert_ne by (by intros ->). by apply O.
  - intros x cl [[<- <-]|[_ Hx]]%lookup_insert_Some; [done|by eapply K].
  - intros x cl [[<- <-]|[_ Hx]]%lookup_insert_Some; (split; [|rewrite dom_insert, elem_of_union, elem_of_singleton]);
      [done|by left|by apply (F x cl)|right; by apply (F x cl)].
  - intros x. rewrite dom_insert, elem_of_union, elem_of_singleton. intros [->|Hx].
    + right. exists c. by rewrite lookup_insert_eq.
    + destruct (D x Hx) as [?|[y Hy]]; [by left|right]. exists y. rewrite lookup_insert_ne; [done|congruence].
  - intros c1 c2 cl [[<- <-]|[_ H1]]%lookup_insert_Some [[<- E]|[_ H2]]%lookup_insert_Some; try done.
    + by apply Hne in H2.
    + subst. by apply Hne in H1.
    + by eapply I.
  - intros x cl [[<- <-]|[_ Hx]]%lookup_insert_Some; [rewrite Hlr|rewrite Hl by eauto; by apply L].
    unfold same_look, clone. simpl. split_and!; try done. by eexists.
  - intros x cl [[<- <-]|[Hxc Hx]]%lookup_insert_Some.
    + unfold kids. rewrite Hlr, Hpr. constructor.
    + unfold kids. rewrite Hl by eauto. eapply Forall2_impl; [by apply C|]. intros k ck Hk. simpl in *.
      rewrite lookup_insert_ne; [done|congruence].
  - intros x cl [[<- <-]|[Hxc Hx]]%lookup_insert_Some.
    + rewrite Hlr. simpl. destruct (parent (h0 !!! c)) as [p|] eqn:Ep; [|done]. case_decide as Hd; [|done].
      destruct (decide (c = p)) as [->|Hcp]; [rewrite Hpr in Hd; by apply not_elem_of_nil in Hd|].
      rewrite lookup_insert_ne by done. destruct (m !! p) eqn:E; [|done]. by destruct (Hpc p eq_refl).
    + rewrite Hl by eauto. rewrite (P x cl Hx). destruct (parent (h0 !!! x)) as [p|] eqn:Ep; [|done].
      case_decide; [|done]. destruct (decide (c = p)) as [->|Hcp]; [by destruct (Hkc x)|]. by rewrite lookup_insert_ne.
  - intros x cl [[<- <-]|[Hxc Hx]]%lookup_insert_Some; unfold eds; [by rewrite Hlr|].
    rewrite Hl by eauto. by apply (B x).
Qed.

Lemma insert_plain_dom h this ch :
  parent (h !!! ch) = None → this ∈ dom h → ch ∈ dom h → dom (insert h this (Some ch) None).1 = dom h.
Proof.
  intros Hp Ht Hc. unfold insert. cbn [fst]. unfold removeFromParent. rewrite Hp. unfold upd.
  rewrite !dom_insert_L. set_solver.
Qed.

Lemma insert_copy_ok pr d m c cl k ck done todo :
  copying pr (hp d) m → m !! c = Some cl → m !! k = Some ck → kids h0 c = done ++ k :: todo → pr c = done →
  let pr' := λ x, if decide (x = c) then done ++ [k] else pr x in
  copying pr' (hp (insert_copy cl (d, m, ck)).1) m ∧ georef (insert_copy cl (d, m, ck)).1 = georef d ∧
  (insert_copy cl (d, m, ck)).2 = m.
Proof.
  intros [O K F D I L C P B] Hc Hk Hkids Hpr. cbv zeta. unfold insert_copy. cbn [fst snd hp set_hp georef].
  split; [|by split]. set (h := hp d) in *.
  assert (k ∈ kids h0 c) as Hkc by (rewrite Hkids, elem_of_app, elem_of_cons; tauto).
  apply (tree_parent _ (wf_tree _ Hw)) in Hkc as Hkp.
  assert (k ∉ done) as Hnd.
  { pose proof (tree_nodup _ (wf_tree _ Hw) c) as N. rewrite Hkids in N. apply NoDup_app in N as (_ & N & _).
    intros Hin. apply (N k Hin). by left. }
  assert (parent (h !!! ck) = None) as Hck.
  { rewrite (P k ck Hk), Hkp, Hpr. by rewrite decide_False. }
  assert (c ≠ k) as Hcne.
  { intros ->. destruct (wf_acyclic _ Hw k) as [n Hn]. inversion Hn as [? E|? q n' E Hq]; subst; [congruence|].
    assert (q = k) as -> by congruence. pose proof (depth_fun _ _ _ _ Hn Hq). lia. }
  assert (cl ≠ ck) as Hne by (intros ->; by apply Hcne, (I c k ck)).
  pose proof (insert_plain h cl ck Hck Hne) as Hl. set (h' := (insert h cl (Some ck) None).1) in *.
  assert (dom h' = dom h) as Hdom.
  { apply insert_plain_dom; [done|by apply (F c)|by apply (F k)]. }
  assert (∀ x y, m !! x = Some y → x ≠ c → y ≠ cl) as Hxc by (intros x y Hx Hn ->; by apply Hn, (I x c cl)).
  assert (∀ x y, m !! x = Some y → x ≠ k → y ≠ ck) as Hxk by (intros x y Hx Hn ->; by apply Hn, (I x k ck)).
  split.
  - intros x Hx. assert (x ≠ cl ∧ x ≠ ck) as [N1 N2].
    { split; intros ->; [by apply (F c cl)|by apply (F k ck)]. }
    specialize (Hl x). rewrite !decide_False in Hl by done. rewrite <-(O x Hx).
    assert (x ∈ dom h) as Hxd by (rewrite elem_of_dom, O, <-elem_of_dom; done).
    apply elem_of_dom in Hxd as [v Hv]. assert (x ∈ dom h') as Hxd' by (rewrite Hdom; by eapply elem_of_dom_2).
    apply elem_of_dom in Hxd' as [v' Hv']. rewrite (lookup_total_correct _ _ _ Hv), (lookup_total_correct _ _ _ Hv') in Hl.
    congruence.
  - done.
  - intros x y Hx. rewrite Hdom. by eapply F.
  - intros x. rewrite Hdom. apply D.
  - done.
  - intros x y Hx. specialize (L x y Hx). rewrite Hl. repeat case_decide; subst; [exact L|exact L|exact L].
  - intros x y Hx. unfold kids. rewrite Hl. destruct (decide (y = cl)) as [->|Hy].
    + assert (x = c) as -> by by eapply I. rewrite decide_True by done. cbn [set_children children].
      apply Forall2_app; [|by constructor]. rewrite <-Hpr. by apply C.
    + rewrite (decide_False (P := x = c)) by (intros ->; congruence).
      pose proof (C x y Hx) as Cx. destruct (decide (y = ck)) as [->|]; exact Cx.
  - intros x y Hx. rewrite Hl. destruct (decide (y = cl)) as [->|Hy].
    + assert (x = c) as -> by by eapply I. cbn [set_children parent]. rewrite (P c cl Hx).
      destruct (parent (h0 !!! c)) as [p|] eqn:Ep; [|done].
      rewrite (decide_False (P := p = c)); [done|]. intros ->.
      destruct (wf_acyclic _ Hw c) as [n Hn]. inversion Hn as [? E|? q n' E Hq]; subst; [congruence|].
      assert (q = c) as -> by congruence. pose proof (depth_fun _ _ _ _ Hn Hq). lia.
    + destruct (decide (y = ck)) as [->|Hyk].
      * assert (x = k) as -> by by eapply I. cbn [set_parent parent]. rewrite Hkp, (decide_True (P := c = c)) by done.
        rewrite decide_True; [done|]. apply elem_of_app. right. by left.
      * rewrite (P x y Hx). destruct (parent (h0 !!! x)) as [p|] eqn:Ep; [|done].
        destruct (decide (p = c)) as [->|]; [|done]. rewrite Hpr.
        assert (x ≠ k) as Hxk' by (intros ->; congruence).
        destruct (decide (x ∈ done)), (decide (x ∈ done ++ [k])) as [Hin|Hin]; try done.
        -- exfalso. apply Hin, elem_of_app. by left.
        -- exfalso. apply elem_of_app in Hin as [?| ->%list_elem_of_singleton]; done.
  - intros x y Hx. specialize (B x y Hx). unfold eds. rewrite Hl. repeat case_decide; subst; exact B.
Qed.

(** ** The recursion *)

(** What copying a cell does: the copies of its subtree are complete. *)
Record copied (pr : ref → list ref) (c : ref) (d : data) (m : mapping) (d' : data) (m' : mapping) : Prop := {
  cd_state : copying pr (hp d') m';
  cd_sub : m ⊆ m';
  cd_new : ∀ x, is_Some (m' !! x) → is_Some (m !! x) ∨ ancestor h0 c x;
  cd_root : root d' = root d;
  cd_cells : cells d' = cells d
}.

Lemma copied_refl pr c d m : copying pr (hp d) m → copied pr c d m d m.
Proof. intros Hc. split; try done. by left. Qed.

(** The children of [c] that have been copied so far. *)
Definition with_kids (pr : ref → list ref) (c : ref) (l : list ref) : ref → list ref :=
  λ x, if decide (x = c) then l else pr x.

Lemma copy_children_ok pr c k cl (impl : data * mapping → ref → data * mapping * ref) :
  (∀ pr d m x, copying pr (hp d) m → x ∈ dom h0 → depth h0 x (S k) →
     (∀ y, m !! y = None → pr y = kids h0 y) →
     (m !! x = None → ∀ p, parent (h0 !!! x) = Some p → is_Some (m !! p) → x ∉ pr p) →
     copied pr x d m (impl (d, m) x).1.1 (impl (d, m) x).1.2 ∧ (impl (d, m) x).1.2 !! x = Some (impl (d, m) x).2) →
  depth h0 c k →
  ∀ todo done d m,
  kids h0 c = done ++ todo → copying (with_kids pr c done) (hp d) m → m !! c = Some cl →
  (∀ y, m !! y = None → pr y = kids h0 y) →
  let r := foldl (λ st k, insert_copy cl (impl st k)) (d, m) todo in
  copying (with_kids pr c (kids h0 c)) (hp r.1) r.2 ∧ m ⊆ r.2 ∧ root r.1 = root d ∧ cells r.1 = cells d ∧
  (∀ x, is_Some (r.2 !! x) → is_Some (m !! x) ∨ ∃ k, k ∈ todo ∧ ancestor h0 k x) ∧
  (∀ x, x ∈ todo → is_Some (r.2 !! x)).
Proof.
  intros Himpl Hk todo. induction todo as [|x todo IH]; intros done d m Hkids Hc Hcl Hpr; cbv zeta; cbn [foldl].
  { rewrite app_nil_r in Hkids. rewrite Hkids. cbn [fst snd].
    split_and!; [done..|by intros y Hy; left|by intros y ?%not_elem_of_nil]. }
  assert (x ∈ kids h0 c) as Hx by (rewrite Hkids, elem_of_app, elem_of_cons; tauto).
  apply (tree_parent _ (wf_tree _ Hw)) in Hx as Hxp.
  assert (x ∉ done) as Hxd.
  { pose proof (tree_nodup _ (wf_tree _ Hw) c) as N. rewrite Hkids in N. apply NoDup_app in N as (_ & N & _).
    intros Hin. apply (N x Hin). by left. }
  destruct (Himpl (with_kids pr c done) d m x Hc (kid_exists c x Hx)) as [[S1 M1 N1 R1 C1] E1].
  { by econstructor. }
  { intros y Hy. unfold with_kids. rewrite decide_False by congruence. by apply Hpr. }
  { intros _ p Hp _. rewrite Hxp in Hp. injection Hp as <-. unfold with_kids. by rewrite decide_True. }
  destruct (impl (d, m) x) as [[d1 m1] ck]. cbn [fst snd] in *.
  assert (m1 !! c = Some cl) as Hcl1 by by eapply lookup_weaken.
  destruct (insert_copy_ok _ d1 m1 c cl x ck done todo S1 Hcl1 E1 Hkids) as (S2 & _ & M2).
  { unfold with_kids. by rewrite decide_True. }
  set (st2 := insert_copy cl (d1, m1, ck)) in *.
  assert (root st2.1 = root d1 ∧ cells st2.1 = cells d1) as [R2 C2] by done.
  destruct st2 as [d2 m2]. cbn [fst snd] in *. subst m2.
  destruct (IH (done ++ [x]) d2 m1) as (S3 & M3 & R3 & C3 & N3 & A3).
  { by rewrite <-app_assoc. }
  { eapply copying_ext; [|exact S2]. intros y _. unfold with_kids. by case_decide. }
  { done. }
  { intros y Hy. apply Hpr. by eapply lookup_weaken_None. }
  split_and!; [done|by etrans|congruence|congruence| |].
  - intros y [Hy|(z & Hz & Hzy)]%N3.
    + apply N1 in Hy as [Hy|Hy]; [by left|right]. exists x. split; [by left|done].
    + right. exists z. split; [by right|done].
  - intros y [->|Hy]%elem_of_cons; [|by apply A3]. eexists. by eapply lookup_weaken.
Qed.

Lemma cloneCellImpl_ok n pr d m c k :
  copying pr (hp d) m → c ∈ dom h0 → depth h0 c k → fuel h0 ≤ n + k →
  (∀ x, m !! x = None → pr x = kids h0 x) →
  (m !! c = None → ∀ p, parent (h0 !!! c) = Some p → is_Some (m !! p) → c ∉ pr p) →
  let r := cloneCellImpl n true (d, m) c in
  copied pr c d m r.1.1 r.1.2 ∧ r.1.2 !! c = Some r.2.
Proof.
  revert pr d m c k. induction n as [|n IH]; intros pr d m c k Hc Hcd Hk Hn Hpr Hpc; cbv zeta.
  { pose proof (depth_fuel _ _ _ Hk). lia. }
  cbn [cloneCellImpl]. destruct (m !! c) as [cl|] eqn:Hm; [split; [by apply copied_refl|done]|].
  destruct (cellCloned_ok (with_kids pr c []) d m c) as (S1 & _ & R1 & C1).
  { eapply copying_ext; [|exact Hc]. intros x [y Hx]. unfold with_kids. by rewrite decide_False by congruence. }
  { done. }
  { done. }
  { unfold with_kids. by rewrite decide_True. }
  { intros p Hp Hmp. unfold with_kids. case_decide; [by apply not_elem_of_nil|]. by apply Hpc. }
  { intros x _. unfold with_kids. rewrite decide_True by done. by apply not_elem_of_nil. }
  destruct (cellCloned d c) as [d1 cl]. cbn [fst snd] in *. set (m1 := <[c := cl]> m) in *.
  assert (m ⊆ m1) as Hm1 by by apply insert_subseteq.
  assert (kids (hp d1) c = kids h0 c) as Hkids.
  { unfold kids. by rewrite (orig_lookup (hp d1) c (cp_orig _ _ _ S1) Hcd). }
  destruct (copy_children_ok pr c k cl (cloneCellImpl n true)) with (todo := kids h0 c) (done := @nil ref) (d := d1) (m := m1)
    as (S2 & M2 & R2 & C2 & N2 & _).
  { intros pr' d' m' x H1 H2 H3 H4 H5. apply (IH pr' d' m' x (S k)); try done. lia. }
  { done. }
  { done. }
  { done. }
  { unfold m1. by rewrite lookup_insert_eq. }
  { intros y Hy. apply Hpr. by eapply lookup_weaken_None. }
  rewrite Hkids. destruct (foldl _ (d1, m1) (kids h0 c)) as [d2 m2]. cbn [fst snd] in *. split; [split|].
  - eapply copying_ext; [|exact S2]. intros x _. unfold with_kids. case_decide; [|done]. subst. symmetry. by apply Hpr.
  - by etrans.
  - intros x [Hx|(z & Hz & Hzx)]%N2.
    + unfold m1 in Hx. destruct (decide (c = x)) as [->|]; [right; constructor|]. rewrite lookup_insert_ne in Hx by done. by left.
    + right. apply (tree_parent _ (wf_tree _ Hw)) in Hz. by eapply rtc_r.
  - congruence.
  - congruence.
  - eapply lookup_weaken; [|exact M2]. unfold m1. by rewrite lookup_insert_eq.
Qed.

(** ** All cells of the selection *)

Lemma fuel_mono (h : heap) : (∀ x, x ∈ dom h0 → h !! x = h0 !! x) → fuel h0 ≤ fuel h.
Proof.
  intros Ho. unfold fuel. rewrite <-!size_dom. enough (size (dom h0) ≤ size (dom h)) by lia.
  apply subseteq_size. intros x Hx. rewrite elem_of_dom, Ho, <-elem_of_dom by done. done.
Qed.

(** Every cell below a copied one is copied. *)
Lemma copied_below h m c x :
  copying (kids h0) h m → is_Some (m !! c) → ancestor h0 c x → is_Some (m !! x).
Proof.
  intros Hc Hm Ha. induction Ha as [x|x y z Hxy Ha IH]; [done|]. destruct (IH Hm) as [yl Hy].
  pose proof (cp_kids _ _ _ Hc y yl Hy) as Hk. apply (tree_parent _ (wf_tree _ Hw)) in Hxy.
  apply list_elem_of_lookup_1 in Hxy as [i Hi]. eapply Forall2_lookup_l in Hk as (xl & _ & Hxl); [|exact Hi].
  by eexists.
Qed.

Lemma clone_all_ok cs d m :
  copying (kids h0) (hp d) m → (∀ c, Some c ∈ cs → c ∈ dom h0) →
  let r := clone_all true cs (d, m) in
  copying (kids h0) (hp r.1.1) r.1.2 ∧ m ⊆ r.1.2 ∧ root r.1.1 = root d ∧ cells r.1.1 = cells d ∧
  (∀ x, is_Some (r.1.2 !! x) ↔ is_Some (m !! x) ∨ ∃ c, Some c ∈ cs ∧ ancestor h0 c x) ∧
  Forall2 (λ c cl, cl = c ≫= λ c, r.1.2 !! c) cs r.2 ∧
  (∀ c, Some c ∈ cs → is_Some (r.1.2 !! c)).
Proof.
  revert d m. induction cs as [|[c|] cs IH]; intros d m Hc Hcs; cbv zeta; cbn [clone_all].
  - cbn [fst snd]. split_and!; try done; [|by intros c ?%not_elem_of_nil].
    intros x. split; [by left|]. by intros [?|(c & ?%not_elem_of_nil & _)].
  - assert (c ∈ dom h0) as Hcd by (apply Hcs; left).
    destruct (wf_acyclic _ Hw c) as [k Hk].
    destruct (cloneCellImpl_ok (fuel (hp d)) (kids h0) d m c k) as [[S1 M1 N1 R1 C1] E1]; try done.
    { pose proof (fuel_mono _ (cp_orig _ _ _ Hc)). lia. }
    { intros Hm p Hp [pl Hpl] Hin. pose proof (cp_kids _ _ _ Hc p pl Hpl) as Hk2.
      apply list_elem_of_lookup_1 in Hin as [i Hi]. eapply Forall2_lookup_l in Hk2 as (xl & _ & Hxl); [|exact Hi].
      congruence. }
    cbn [fst]. destruct (cloneCellImpl (fuel (hp d)) true (d, m) c) as [[d1 m1] cl]. cbn [fst snd] in *.
    destruct (IH d1 m1) as (S2 & M2 & R2 & C2 & N2 & F2 & A2); [done|intros x Hx; apply Hcs; by right|].
    destruct (clone_all true cs (d1, m1)) as [[d2 m2] cls]. cbn [fst snd] in *.
    assert (m2 !! c = Some cl) as Hcl by by eapply lookup_weaken.
    split_and!; [done|by etrans|congruence|congruence| |by constructor|].
    + intros x. rewrite N2. split.
      * intros [Hx|(y & Hy & Hyx)]; [|right; exists y; split; [by right|done]].
        apply N1 in Hx as [Hx|Hx]; [by left|right]. exists c. split; [by left|done].
      * intros [[y Hx]|(y & [E|Hy]%elem_of_cons & Hyx)].
        -- left. eexists. by eapply lookup_weaken.
        -- injection E as ->. left. eapply copied_below; [exact S1|by eexists|done].
        -- right. by exists y.
    + intros x [E|Hx]%elem_of_cons; [injection E as ->; by eexists|by apply A2].
  - destruct (IH d m) as (S2 & M2 & R2 & C2 & N2 & F2 & A2); [done|intros x Hx; apply Hcs; by right|].
    destruct (clone_all true cs (d, m)) as [[d2 m2] cls]. cbn [fst snd] in *.
    split_and!; try done; [|by constructor|].
    + intros x. rewrite N2. split; (intros [Hx|(y & Hy & Hyx)]; [by left|right; exists y; split; [|done]]).
      * by right.
      * by apply elem_of_cons in Hy as [E|Hy].
    + intros x [E|Hx]%elem_of_cons; [done|by apply A2].
Qed.

(** ** Connecting the copies *)

Lemma insertEdge_frame h this e b x :
  x ≠ this → x ≠ e → getTerminal h e b ≠ Some x → insertEdge h this (Some e) b !!! x = h !!! x.
Proof.
  intros H1 H2 H3. unfold insertEdge. cbv zeta. set (h2 := MxCell.setTerminal _ _ _ _).
  assert (h2 !!! x = h !!! x) as Hh.
  { unfold h2, MxCell.setTerminal, removeFromTerminal.
    transitivity (match getTerminal h e b with Some t => removeEdge h t (Some e) b | None => h end !!! x).
    - destruct b; by rewrite upd_lookup, decide_False.
    - destruct (getTerminal h e b) as [t|]; [|done]. assert (t ≠ x) by congruence.
      unfold removeEdge, MxCell.setTerminal. cbv zeta.
      destruct (decide _), b; rewrite ?upd_lookup, ?decide_False by done; try done;
        destruct (edges _); try done; destruct (decide _); try done; by rewrite upd_lookup, decide_False. }
  case_match; [|done]. by rewrite upd_lookup, decide_False.
Qed.

Lemma insertEdge_id h this e b x : id (insertEdge h this (Some e) b !!! x) = id (h !!! x).
Proof.
  assert (∀ (h : heap) t c b, id (MxCell.setTerminal h c t b !!! x) = id (h !!! x)) as Hs.
  { intros h' t c b'. unfold MxCell.setTerminal. destruct b'; rewrite upd_lookup; by case_decide; subst. }
  assert (∀ (h : heap) c l, id (upd c (set_edges l) h !!! x) = id (h !!! x)) as He.
  { intros h' c l. rewrite upd_lookup. by case_decide; subst. }
  assert (id (removeFromTerminal h e b !!! x) = id (h !!! x)) as Hr.
  { unfold removeFromTerminal, removeEdge. destruct (getTerminal h e b) as [t|]; [|done]. cbv zeta. rewrite Hs.
    destruct (decide (getTerminal h e (negb b) ≠ Some t)); [|done].
    destruct (edges (h !!! t)); [|done]. case_decide; [apply He|done]. }
  unfold insertEdge. cbv zeta. case_match; [by rewrite He, Hs|by rewrite Hs].
Qed.

Section Restore.
Context (m : mapping) (h1 : heap) (Hc1 : copying (kids h0) h1 m).

(** The state of [restoreClone]: [done] are the terminals that have been restored. *)
Record restoring (done : list (ref * bool)) (h : heap) : Prop := {
  rs_sound : edges_sound h;
  rs_tree : same_tree h1 h;
  rs_attrs : same_attrs h1 h;
  rs_id : ∀ x, id (h !!! x) = id (h1 !!! x);
  rs_orig : ∀ x, x ∈ dom h0 → h !!! x = h0 !!! x;
  rs_terminal : ∀ c cl b, m !! c = Some cl → getTerminal h cl b =
    if decide ((c, b) ∈ done) then getTerminal h0 c b ≫= (m !!.) else None;
  rs_eds : ∀ c cl t, m !! c = Some cl → cl ∈ eds h t ↔ ∃ b, getTerminal h cl b = Some t
}.

Lemma restore_terminal_ok done h c cl b :
  restoring done h → m !! c = Some cl → restoring ((c, b) :: done) (restore_terminal m h cl (Some c) b).
Proof.
  intros Hr Hm. pose proof Hr as [So Tr At Id Or Te Ed]. pose proof Hc1 as [O K F D I L C P B].
  assert (terminalOf h (Some c) b = getTerminal h0 c b) as Ht.
  { unfold terminalOf, getTerminal. simpl. by rewrite Or by by eapply K. }
  unfold restore_terminal. rewrite Ht. change (λ t : ref, m !! t) with (m !!.).
  destruct (getTerminal h0 c b ≫= (m !!.)) as [tmp|] eqn:Etmp.
  - assert (∃ t, m !! t = Some tmp) as [t0 Ht0].
    { destruct (getTerminal h0 c b) as [t|]; [|done]. by exists t. }
    split.
    + by apply insertEdge_sound.
    + etrans; [exact Tr|]. apply insertEdge_same_tree.
    + etrans; [exact At|]. apply insertEdge_same_attrs.
    + intros x. by rewrite insertEdge_id, Id.
    + intros x Hx. rewrite insertEdge_frame; [by apply Or| | |].
      * intros ->. by apply (F t0 tmp Ht0).
      * intros ->. by apply (F c cl Hm).
      * rewrite (Te c cl b Hm). case_decide; [|done]. rewrite Etmp. intros [= ->]. by apply (F t0 x Ht0).
    + intros x y b' Hx. rewrite insertEdge_terminal. destruct (decide (y = cl ∧ b' = b)) as [[-> ->]|Hn].
      * assert (x = c) as -> by by eapply I. rewrite decide_True by by left. by rewrite Etmp.
      * rewrite (Te x y b' Hx). destruct (decide ((x, b') ∈ done)) as [Hd|Hd].
        -- by rewrite decide_True by by right.
        -- rewrite decide_False; [done|]. intros [E|?]%elem_of_cons; [|done]. injection E as -> ->. apply Hn. split; [congruence|done].
    + intros x y t Hx. destruct (decide (y = cl)) as [->|Hy].
      * rewrite insertEdge_elem, removeFromTerminal_elem by done. setoid_rewrite insertEdge_terminal. split.
        -- intros [[_ ->]|[_ Hb]]; [exists b; by rewrite decide_True|].
           exists (negb b). rewrite decide_False by (intros [_ E]; by destruct b). by apply Hb.
        -- intros [b' Hb']. case_decide as E; [left; split; [done|congruence]|]. right.
           assert (b' = negb b) as -> by (destruct b', b; naive_solver).
           split; [apply (Ed c cl t Hm); by eexists|done].
      * destruct (insertEdge_other h tmp cl b y So Hy) as [E1 E2]. rewrite E1, (Ed x y t Hx). by setoid_rewrite E2.
  - split; try done. intros x y b' Hx. rewrite (Te x y b' Hx).
    destruct (decide ((x, b') ∈ done)) as [Hd|Hd]; [by rewrite decide_True by by right|].
    case_decide as E; [|done]. apply elem_of_cons in E as [E|?]; [|done]. injection E as -> ->. by rewrite Etmp.
Qed.

Lemma copy_child_at done h c cl i :
  restoring done h → m !! c = Some cl →
  match getChildAt h cl (Z.of_nat i) with
  | Some ck => ∃ k, getChildAt h c (Z.of_nat i) = Some k ∧ kids h0 c !! i = Some k ∧ m !! k = Some ck
  | None => kids h0 c !! i = None
  end.
Proof.
  intros Hr Hm. assert (∀ x, getChildAt h x (Z.of_nat i) = kids h x !! i) as Hat.
  { intros x. unfold getChildAt, kids. destruct (children (h !!! x)); [|done].
    by rewrite decide_True, Nat2Z.id by lia. }
  rewrite !Hat. assert (kids h cl = kids h1 cl) as -> by apply same_tree_kids, Hr.
  assert (kids h c = kids h0 c) as ->.
  { unfold kids. by rewrite (rs_orig _ _ Hr) by by eapply (cp_key _ _ _ Hc1). }
  pose proof (cp_kids _ _ _ Hc1 c cl Hm) as Hk. destruct (kids h1 cl !! i) as [ck|] eqn:E.
  - eapply Forall2_lookup_r in Hk as (k & Hk & Hmk); [|exact E]. by exists k.
  - apply lookup_ge_None in E. apply lookup_ge_None. by rewrite (Forall2_length _ _ _ Hk).
Qed.

Lemma restoreClone_ok n done h c cl k :
  restoring done h → m !! c = Some cl → depth h0 c k → fuel h0 ≤ n + k →
  ∃ done', restoring done' (restoreClone n m h cl (Some c)) ∧ done ⊆ done' ∧
           ∀ x b, ancestor h0 c x → (x, b) ∈ done'.
Proof.
  revert done h c cl k. induction n as [|n IH]; intros done h c cl k Hr Hm Hk Hn.
  { pose proof (depth_fuel _ _ _ Hk). lia. }
  cbn [restoreClone]. cbv zeta.
  pose proof (restore_terminal_ok _ _ c cl false (restore_terminal_ok _ _ c cl true Hr Hm) Hm) as Hr2.
  set (h2 := restore_terminal m (restore_terminal m h cl (Some c) true) cl (Some c) false) in *.
  set (done2 := (c, false) :: (c, true) :: done) in *.
  assert (getChildCount h2 cl = length (kids h0 c)) as ->.
  { rewrite (Forall2_length _ _ _ (cp_kids _ _ _ Hc1 c cl Hm)). transitivity (length (kids h2 cl)).
    - unfold getChildCount, kids. by destruct (children (h2 !!! cl)).
    - f_equal. apply same_tree_kids, Hr2. }
  assert (∀ indices done3 h3, restoring done3 h3 →
    ∃ done', restoring done' (foldl (λ h i, match getChildAt h cl (Z.of_nat i) with
                    | Some k => restoreClone n m h k (Some c ≫= λ c, getChildAt h c (Z.of_nat i))
                    | None => h end) h3 indices) ∧ done3 ⊆ done' ∧
      ∀ i y x b, i ∈ indices → kids h0 c !! i = Some y → ancestor h0 y x → (x, b) ∈ done') as Hloop.
  { intros indices. induction indices as [|i indices IHl]; intros done3 h3 Hr3; cbn [foldl].
    { exists done3. split_and!; [done|done|]. by intros i y x b ?%not_elem_of_nil. }
    pose proof (copy_child_at done3 h3 c cl i Hr3 Hm) as Hi.
    destruct (getChildAt h3 cl (Z.of_nat i)) as [ck|].
    - destruct Hi as (y & Hy1 & Hy2 & Hy3). cbn [mbind option_bind]. rewrite Hy1.
      destruct (IH done3 h3 y ck (S k)) as (done4 & Hr4 & Hs4 & Ha4); [done|done| |lia|].
      { econstructor; [|exact Hk]. apply (tree_parent _ (wf_tree _ Hw)). by eapply list_elem_of_lookup_2. }
      destruct (IHl done4 _ Hr4) as (done5 & Hr5 & Hs5 & Ha5).
      exists done5. split_and!; [done|by etrans|]. intros j z x b [->|Hj]%elem_of_cons Hz Hx; [|by eapply Ha5].
      apply Hs5, Ha4. by simplify_eq.
    - destruct (IHl done3 _ Hr3) as (done5 & Hr5 & Hs5 & Ha5).
      exists done5. split_and!; [done|done|]. intros j z x b [->|Hj]%elem_of_cons Hz Hx; [congruence|by eapply Ha5]. }
  destruct (Hloop (seq 0 (length (kids h0 c))) done2 h2 Hr2) as (done' & Hr' & Hs' & Ha').
  exists done'. split_and!; [done| |].
  - etrans; [|exact Hs']. unfold done2. intros x Hx. by do 2 right.
  - intros x b Hx. apply rtc_inv_r in Hx as [->|(y & Hxy & Hy)].
    + apply Hs'. unfold done2. destruct b; [right; left|left].
    + apply (tree_parent _ (wf_tree _ Hw)) in Hy. apply list_elem_of_lookup_1 in Hy as [i Hi].
      eapply (Ha' i y); [|done|done]. apply elem_of_seq. apply lookup_lt_Some in Hi. lia.
Qed.
End Restore.

Lemma copying_start : copying (kids h0) h0 ∅.
Proof. split; try done. by left. Qed.

Lemma restoring_start m h1 : copying (kids h0) h1 m → restoring m h1 [] h1.
Proof.
  intros Hc. pose proof Hc as [O K F D I L C P B].
  assert (∀ x, x ∈ dom h0 → h1 !!! x = h0 !!! x) as Ho by (intros; by apply orig_lookup).
  assert (edges_sound h1) as Hs.
  { assert (∀ t, t ∈ dom h0 ∨ eds h1 t = []) as Ht.
    { intros t. destruct (h1 !! t) as [x|] eqn:E; [|right; unfold eds; by rewrite (no_cell h1 t E)].
      destruct (D t) as [?|[c Hcl]]; [by eapply elem_of_dom_2|by left|right]. by apply (B c t). }
    assert (∀ t, t ∈ dom h0 → eds h1 t = eds h0 t) as He by (intros t Hd; unfold eds; by rewrite Ho).
    split.
    - intros t e Hin. destruct (Ht t) as [Hd|Hn]; [|rewrite Hn in Hin; by apply not_elem_of_nil in Hin].
      rewrite He in Hin by done. destruct (edges_incident _ (wf_edges _ Hw) t e Hin) as [b Hb].
      exists b. unfold getTerminal in *. rewrite Ho; [done|].
      destruct (h0 !! e) eqn:E; [by eapply elem_of_dom_2|]. rewrite (no_cell h0 e E) in Hb. by destruct b.
    - intros t. destruct (Ht t) as [Hd|Hn]; [rewrite He by done; apply (wf_edges _ Hw)|rewrite Hn; constructor]. }
  split; try done.
  - intros c cl b Hcl. destruct (B c cl Hcl) as (H1 & H2 & _). rewrite decide_False by apply not_elem_of_nil.
    by destruct b.
  - intros c cl t Hcl. destruct (B c cl Hcl) as (H1 & H2 & _). split.
    + apply Hs.
    + intros [b Hb]. destruct b; simpl in Hb; congruence.
Qed.

Lemma restore_all_ok m h1 n ps done h :
  copying (kids h0) h1 m → fuel h0 ≤ n → restoring m h1 done h →
  (∀ cl o, (cl, o) ∈ ps → cl = o ≫= λ c, m !! c) → (∀ cl c, (cl, Some c) ∈ ps → is_Some (m !! c)) →
  ∃ done', restoring m h1 done' (foldl (λ h p, match p.1 with
                         | Some cl => restoreClone n m h cl p.2
                         | None => h
                         end) h ps) ∧ done ⊆ done' ∧
    ∀ cl c x b, (cl, Some c) ∈ ps → ancestor h0 c x → (x, b) ∈ done'.
Proof.
  intros Hc Hn. revert done h. induction ps as [|[cl o] ps IH]; intros done h Hr Hps Hm; cbn [foldl].
  { exists done. split_and!; [done|done|]. by intros cl c x b ?%not_elem_of_nil. }
  assert (∃ done1, restoring m h1 done1 (match (cl, o).1 with Some cl => restoreClone n m h cl (cl, o).2 | None => h end)
    ∧ done ⊆ done1 ∧ ∀ c x b, o = Some c → ancestor h0 c x → (x, b) ∈ done1) as (done1 & Hr1 & Hs1 & Ha1).
  { cbn [fst snd]. assert (cl = o ≫= λ c, m !! c) as Hcl by (apply Hps; left). destruct o as [c|]; simpl in Hcl.
    - destruct (Hm cl c) as [cl' Hcl']; [left|]. rewrite Hcl' in Hcl. subst cl.
      destruct (wf_acyclic _ Hw c) as [k Hk].
      destruct (restoreClone_ok m h1 Hc n done h c cl' k Hr Hcl' Hk) as (done1 & ? & ? & ?); [lia|].
      exists done1. split_and!; [done..|]. intros y x b [= <-]. auto.
    - subst cl. exists done. split_and!; [done|done|]. congruence. }
  destruct (IH done1 _ Hr1) as (done2 & Hr2 & Hs2 & Ha2);
    [intros; apply Hps; by right|intros; eapply Hm; by right|].
  exists done2. split_and!; [done|by etrans|]. intros cl' c x b [E|Hin]%elem_of_cons Hx; [|by eapply Ha2].
  injection E as -> <-. apply Hs2. by eapply Ha1.
Qed.

End Copies.

(** ** The copies of a selection *)

(** C19: Copying a selection of cells with their children ends and gives fresh cells in
    one-to-one correspondence with the cells of the selected subtrees. A copy has the look of
    its original, the copies of its children in order, the copy of its parent as parent, the
    copies of its terminals as terminals, and as edges the copies that end at it; whatever is
    not copied is missing there. The originals are untouched. *)
Theorem cloneCells_copy (d : data) cs :
  wf (hp d) → (∀ c, Some c ∈ cs → c ∈ dom (hp d)) →
  let '(d', m, cls) := cloneCells cs true ∅ d in let h := hp d in let h' := hp d' in
  Forall2 (λ c cl, cl = c ≫= λ c, m !! c) cs cls ∧
  (∀ x, is_Some (m !! x) ↔ ∃ c, Some c ∈ cs ∧ ancestor h c x) ∧
  (∀ x1 x2 y, m !! x1 = Some y → m !! x2 = Some y → x1 = x2) ∧
  (∀ x, x ∈ dom h → h' !!! x = h !!! x) ∧
  ∀ x y, m !! x = Some y →
    y ∉ dom h ∧ same_look (h !!! x) (h' !!! y) ∧
    Forall2 (λ k ck, m !! k = Some ck) (kids h x) (kids h' y) ∧
    parent (h' !!! y) = parent (h !!! x) ≫= (m !!.) ∧
    (∀ b, getTerminal h' y b = getTerminal h x b ≫= (m !!.)) ∧
    (∀ t, y ∈ eds h' t ↔ ∃ b, getTerminal h' y b = Some t).
Proof.
  intros Hw Hcs. unfold cloneCells.
  destruct (clone_all_ok (hp d) Hw cs d ∅ (copying_start _)) as (S1 & _ & _ & _ & N1 & F1 & A1); [done|].
  destruct (clone_all true cs (d, ∅)) as [[d1 m] cls]. cbn [fst snd] in *. cbv zeta.
  destruct (restore_all_ok (hp d) Hw m (hp d1) (fuel (hp d1)) (zip cls cs) [] (hp d1) S1) as (done' & Hr & _ & Ha).
  { apply fuel_mono, S1. }
  { by apply restoring_start. }
  { intros cl o Hin. apply list_elem_of_lookup_1 in Hin as [i Hi]. apply lookup_zip_Some in Hi as [Hi1 Hi2].
    eapply Forall2_lookup_lr in F1; [|exact Hi2|exact Hi1]. done. }
  { intros cl c Hin. apply A1. apply list_elem_of_lookup_1 in Hin as [i Hi]. apply lookup_zip_Some in Hi as [_ Hi2].
    by eapply list_elem_of_lookup_2. }
  set (h' := foldl _ _ _) in *. cbn [hp set_hp].
  assert (∀ x, is_Some (m !! x) ↔ ∃ c, Some c ∈ cs ∧ ancestor (hp d) c x) as N2.
  { intros x. rewrite N1, lookup_empty. split; [|by right]. by intros [[? ?]|]. }
  split_and!; [done|done|by apply S1|by apply Hr|].
  intros x y Hxy. pose proof (rs_terminal _ _ _ _ _ Hr x y) as Ht.
  assert (∀ b, (x, b) ∈ done') as Hdone.
  { intros b. destruct (proj1 (N2 x)) as (c & Hc & Hcx); [by eexists|].
    apply list_elem_of_lookup_1 in Hc as [i Hi].
    eapply Forall2_lookup_l in F1 as (cl & Hcl & _); [|exact Hi].
    apply (Ha cl c); [|done]. apply (list_elem_of_lookup_2 _ i), lookup_zip_Some. done. }
  split_and!.
  - by apply (cp_fresh _ _ _ _ S1 x y).
  - pose proof (cp_look _ _ _ _ S1 x y Hxy) as Hl. pose proof (rs_attrs _ _ _ _ _ Hr y) as Hat.
    pose proof (rs_id _ _ _ _ _ Hr y) as Hid. unfold attrs in Hat. unfold same_look in *.
    injection Hat as -> -> -> -> -> -> -> ->. by rewrite Hid.
  - rewrite (same_tree_kids (hp d1) h' y) by apply Hr. by apply (cp_kids _ _ _ _ S1).
  - rewrite (proj2 (rs_tree _ _ _ _ _ Hr y)), (cp_parent _ _ _ _ S1 x y Hxy).
    destruct (parent (hp d !!! x)) as [p|] eqn:Ep; [|done]. rewrite decide_True; [done|].
    by apply (tree_parent _ (wf_tree _ Hw)).
  - intros b. rewrite (Ht b Hxy). by rewrite decide_True.
  - intros t. by apply (rs_eds _ _ _ _ _ Hr x y).
Qed.

(** Copying a layer: the edge between its two vertices is copied with its terminals. *)
Lemma cloneCells_copy_witness :
  ∃ d' m cls, cloneCells [Some 1] true ∅ sample = (d', m, cls) ∧
    ∃ e s t, m !! 4 = Some e ∧ m !! 2 = Some s ∧ m !! 3 = Some t ∧
      getTerminal (hp d') e true = Some s ∧ getTerminal (hp d') e false = Some t.
Proof.
  assert (∀ c, Some c ∈ [Some 1] → c ∈ dom (hp sample)) as Hd.
  { intros c Hc. apply list_elem_of_singleton in Hc. injection Hc as ->. apply elem_of_dom. by eexists. }
  pose proof (cloneCells_copy sample [Some 1] sample_wf Hd) as H.
  destruct (cloneCells [Some 1] true ∅ sample) as [[d' m] cls]. destruct H as (_ & N & _ & _ & H).
  exists d', m, cls. split; [reflexivity|].
  assert (∀ x, isAncestor (hp sample) (Some 1) (Some x) = true → is_Some (m !! x)) as Hm.
  { intros x Hx. apply N. exists 1. split; [left|]. apply isAncestor_spec in Hx; [exact Hx|apply sample_wf]. }
  destruct (Hm 4 ltac:(vm_compute; reflexivity)) as [e He], (Hm 2 ltac:(vm_compute; reflexivity)) as [s Hs],
    (Hm 3 ltac:(vm_compute; reflexivity)) as [t Ht].
  exists e, s, t. destruct (H 4 e He) as (_ & _ & _ & _ & T & _).
  split_and!; [exact He|exact Hs|exact Ht|rewrite (T true)|rewrite (T false)].
  - transitivity (m !! 2); [reflexivity|exact Hs].
  - transitivity (m !! 3); [reflexivity|exact Ht].
Defined.

End MxClone.
