(* ===== verification/Coverage.v ===== *)
(** * Source pages and coverage

    Models source.js, the page of a source file with its selected line and the requests
    that load another file, and coverage.js: the collections of covered functions and lines
    with their caches, the navigation through them, and the tree of statistics. *)

From Stdlib Require Import Ascii Sorted.
From S2P Require Import Prelude Url.
Import Url.

Module Coverage.

(** ** Source pages *)

(** A line of a source page: the number in the id [SrcL_<number>], and the [data-value] of
    its [SrcLineCov] and [SrcFuncCov] spans; the outer option is the span, the inner one
    the attribute. *)
Record src_line := SrcLine {
  number : jstr;
  line_cov : option (option Z);
  func_cov : option (option Z)
}.

(** What the server sends for a file; [source_not_found] marks an error page. *)
Record page := Page { source_not_found : bool; src_lines : list src_line }.

(** An element of a page: the load it came with, and its line in that page. Elements of
    earlier loads stay alive as long as somebody holds them. *)
Abbreviation elem := (nat * nat)%type.

(** [SourceProcessor]: the page shown, the number of loads so far, the pages loaded, the
    title, the selected line, the history, the requests under way, and how often the user
    was told that a line was not found. *)
Record source := Source {
  container : option page;
  loads : list page;
  title : jstr;
  selected_line : option elem;
  history : list (jstr * jstr);
  pending : list (jstr * jstr);
  not_found_errors : nat
}.

(** The page of the current load, as elements. *)
Definition shown (s : source) : list (elem * src_line) :=
  match container s with
  | Some p => imap (λ i l, ((length (loads s) - 1, i), l)) (src_lines p)
  | None => []
  end.
Definition elem_line (s : source) (e : elem) : option src_line := loads s !! e.1 ≫= λ p, src_lines p !! e.2.

Definition set_selected (o : option elem) (s : source) : source :=
  Source (container s) (loads s) (title s) o (history s) (pending s) (not_found_errors s).

Definition unselect_line (s : source) : source := set_selected None s.

(** [select_span(src_line)], where no element stands for an empty result. *)
Definition select_span (o : option elem) (s : source) : source :=
  let s := unselect_line s in
  match o with
  | Some e => set_selected (Some e) s
  | None => Source (container s) (loads s) (title s) (selected_line s) (history s) (pending s) (S (not_found_errors s))
  end.

Definition select_line (line : jstr) (s : source) : source :=
  select_span (fst <$> find (λ e, bool_decide (number e.2 = line)) (shown s)) s.

Definition preserveState (line filename : jstr) (s : source) : source :=
  Source (container s) (loads s) (title s) (selected_line s) (history s ++ [(filename, line)]) (pending s) (not_found_errors s).

Definition get_source (line filename : jstr) (save_history : bool) (s : source) : source :=
  let s := if save_history then preserveState line filename s else s in
  if decide (filename = title s) then
    match container s with
    | Some p => if source_not_found p then s else select_line line s
    | None => select_line line s
    end
  else Source None (loads s) (title s) (selected_line s) (history s) (pending s ++ [(filename, line)]) (not_found_errors s).

Section Source.
(** The answers of the server. *)
Context (server : jstr → page).

(** The success handler of the [k]-th request under way. *)
Definition success (k : nat) (s : source) : source :=
  match pending s !! k with
  | None => s
  | Some (filename, line) =>
      let p := server filename in
      let s := Source (Some p) (loads s ++ [p]) filename None (history s) (delete k (pending s)) (not_found_errors s) in
      if source_not_found p then s else select_line line s
  end.

(** Opening a file that is not shown, and its answer: the file is shown and its line
    selected, or the user is told that there is no such line. *)
Definition numbered (p : page) (line : jstr) : Prop := ∃ i l, src_lines p !! i = Some l ∧ number l = line.
End Source.

(** ** Collections of elements *)

Definition value_of (pick : src_line → option (option Z)) (l : src_line) : option Z := mjoin (pick l).

(** [Array.prototype.sort] with the comparison of the code: descending and stable. *)
Fixpoint insert_desc (x : elem * Z) (l : list (elem * Z)) : list (elem * Z) :=
  match l with
  | [] => [x]
  | y :: l => if decide (x.2 < y.2)%Z then y :: insert_desc x l else x :: y :: l
  end.
Definition sort_desc (l : list (elem * Z)) : list (elem * Z) := foldr insert_desc [] l.

(** The elements with a [data-value] that satisfies the filter, in document order. *)
Definition with_value (pick : src_line → option (option Z)) (f : Z → bool) (s : source) : list (elem * Z) :=
  omap (λ el, match value_of pick el.2 with Some v => if f v then Some (el.1, v) else None | None => None end) (shown s).

(** [CoverageProcessor]: the caches are references to array objects, since [sort] works in
    place and the same object can be cached twice. *)
Record coverage := Coverage {
  sourceProcessor : source;
  initialFile : jstr;
  objects : list (list (elem * Z));
  _coveredFunctions : option nat;
  _uncoveredFunctions : option nat;
  _sortedCoveredFunctions : option nat;
  _mostCoveredLines : option nat
}.

Definition new_CoverageProcessor (sp : source) : coverage := Coverage sp (title sp) [] None None None None.
Definition currentFile (c : coverage) : jstr := title (sourceProcessor c).
Definition object (c : coverage) (r : nat) : list (elem * Z) := default [] (objects c !! r).

Definition _clearCache (c : coverage) : coverage :=
  Coverage (sourceProcessor c) (currentFile c) (objects c) None None None None.
Definition check_cache (c : coverage) : coverage := if decide (currentFile c ≠ initialFile c) then _clearCache c else c.

Definition coveredFunctions (c : coverage) : coverage * nat :=
  let c := check_cache c in
  match _coveredFunctions c with
  | Some r => (c, r)
  | None =>
      let r := length (objects c) in
      (Coverage (sourceProcessor c) (initialFile c)
         (objects c ++ [with_value func_cov (λ v, bool_decide (0 < v)%Z) (sourceProcessor c)])
         (Some r) (_uncoveredFunctions c) (_sortedCoveredFunctions c) (_mostCoveredLines c), r)
  end.

Definition uncoveredFunctions (c : coverage) : coverage * nat :=
  let c := check_cache c in
  match _uncoveredFunctions c with
  | Some r => (c, r)
  | None =>
      let r := length (objects c) in
      (Coverage (sourceProcessor c) (initialFile c)
         (objects c ++ [with_value func_cov (λ v, bool_decide (v = 0)%Z) (sourceProcessor c)])
         (_coveredFunctions c) (Some r) (_sortedCoveredFunctions c) (_mostCoveredLines c), r)
  end.

(** Sorts the object of [coveredFunctions] in place and caches the same object. *)
Definition sortedCoveredFunctions (c : coverage) : coverage * nat :=
  let c := check_cache c in
  match _sortedCoveredFunctions c with
  | Some r => (c, r)
  | None =>
      let '(c, r) := coveredFunctions c in
      (Coverage (sourceProcessor c) (initialFile c) (<[r := sort_desc (object c r)]> (objects c))
         (_coveredFunctions c) (_uncoveredFunctions c) (Some r) (_mostCoveredLines c), r)
  end.

Definition mostCoveredLines (c : coverage) : coverage * nat :=
  let c := check_cache c in
  match _mostCoveredLines c with
  | Some r => (c, r)
  | None =>
      let r := length (objects c) in
      (Coverage (sourceProcessor c) (initialFile c)
         (objects c ++ [take 30 (sort_desc (with_value line_cov (λ v, bool_decide (0 < v)%Z) (sourceProcessor c)))])
         (_coveredFunctions c) (_uncoveredFunctions c) (_sortedCoveredFunctions c) (Some r), r)
  end.

(** ** Navigation *)

Definition _getNewIndex (currentIndex listSize change : Z) : Z :=
  (if decide (currentIndex < 0) then if decide (change > 0) then 0 else listSize - 1
   else let currentIndex := currentIndex + change in
        if decide (currentIndex < 0) then listSize - 1
        else if decide (currentIndex < listSize) then currentIndex else 0)%Z.

(** [linesCollection.index(element)] *)
Definition index_of (l : list (elem * Z)) (e : elem) : Z :=
  match list_find (λ x, x.1 = e) l with Some (i, _) => Z.of_nat i | None => -1 end.

(** [_changeSelection] on a collection; the data window and the callback of the page are
    not part of the state. *)
Definition _changeSelection (lines : list (elem * Z)) (change : Z) (pick : src_line → option (option Z)) (s : source) : source :=
  match lines with
  | [] => s
  | _ =>
      let selected := e ← selected_line s; l ← elem_line s e; _ ← line_cov l; _ ← pick l; Some e in
      let ind := match selected with
                 | Some e => _getNewIndex (index_of lines e) (Z.of_nat (length lines)) change
                 | None => 0%Z
                 end in
      select_span (fst <$> lines !! Z.to_nat ind) s
  end.

Definition set_source (s : source) (c : coverage) : coverage :=
  Coverage s (initialFile c) (objects c) (_coveredFunctions c) (_uncoveredFunctions c) (_sortedCoveredFunctions c) (_mostCoveredLines c).

(** The buttons of [_initCodeNavigation]: a collection and a direction. *)
Definition press (get : coverage → coverage * nat) (pick : src_line → option (option Z)) (change : Z) (c : coverage) : coverage :=
  let '(c, r) := get c in set_source (_changeSelection (object c r) change pick (sourceProcessor c)) c.
Definition next_cov_btn := press coveredFunctions func_cov 1.
Definition prev_cov_btn := press coveredFunctions func_cov (-1).
Definition next_uncov_btn := press uncoveredFunctions func_cov 1.
Definition prev_uncov_btn := press uncoveredFunctions func_cov (-1).
Definition next_srt_btn := press sortedCoveredFunctions func_cov 1.
Definition prev_srt_btn := press sortedCoveredFunctions func_cov (-1).
Definition next_mostcov_btn := press mostCoveredLines line_cov 1.
Definition prev_mostcov_btn := press mostCoveredLines line_cov (-1).

(** An entry [file:line] of the most covered lines of all files, taken apart at its last
    colon. *)
Definition parse_entry (entry : jstr) : option (jstr * jstr) :=
  let newLineData := split ":"%char entry in
  let newLineData := if decide (2 < length newLineData)
                     then [join [":"%char] (removelast newLineData); List.last newLineData []] else newLineData in
  match newLineData with [f; l] => Some (f, l) | _ => None end.

Definition index_of_entry (l : list jstr) (e : jstr) : Z :=
  match list_find (.= e) l with Some (i, _) => Z.of_nat i | None => -1 end.

(** [None] is the TypeError for a selected line without coverage span, which has no
    parent to ask for its id. *)
Definition _changeGlobalSelection (lines : list jstr) (change : Z) (s : source) : option source :=
  match lines with
  | [] => Some s
  | _ =>
      ind ← match selected_line s with
            | Some e =>
                l ← elem_line s e; _ ← line_cov l;
                Some (_getNewIndex (index_of_entry lines (title s ++ [":"%char] ++ number l)) (Z.of_nat (length lines)) change)
            | None => Some 0%Z
            end;
      Some (match lines !! Z.to_nat ind ≫= parse_entry with
            | Some (f, l) => get_source l f true s
            | None => s
            end)
  end.

(** ** The tree of statistics *)

(** A row of the table: [data-tg-id], [data-tg-parent], and the classes and styles the
    code reads and writes. *)
Record stat_row := StatRow {
  tg_id : nat;
  tg_parent : option nat;
  tg_leaf : bool;
  tg_expanded : bool;
  folder_open : bool;
  hidden : bool
}.

Definition set_hidden (b : bool) (r : stat_row) : stat_row :=
  StatRow (tg_id r) (tg_parent r) (tg_leaf r) (tg_expanded r) (folder_open r) b.
Definition set_expanded (b : bool) (r : stat_row) : stat_row :=
  StatRow (tg_id r) (tg_parent r) (tg_leaf r) b b (hidden r).

(** [node.nextAll('tr[data-tg-parent=..]')]: the later rows whose parent is the row [i]. *)
Definition nodeChildren (rows : list stat_row) (i : nat) : list nat :=
  match rows !! i with
  | Some r => filter (λ j, i < j ∧ (rows !! j ≫= tg_parent) = Some (tg_id r)) (seq 0 (length rows))
  | None => []
  end.

Definition set_all_hidden (b : bool) (js : list nat) (rows : list stat_row) : list stat_row :=
  foldl (λ rows j, alter (set_hidden b) j rows) rows js.

(** Rows are only followed to later ones, so the number of rows bounds the recursion. *)
Fixpoint _expandStatTree (n : nat) (chain : bool) (rows : list stat_row) (i : nat) : list stat_row :=
  let children := nodeChildren rows i in
  let rows := set_all_hidden false children rows in
  let rows := alter (set_expanded true) i rows in
  match n with
  | 0 => rows
  | S n =>
      if chain then
        foldl (_expandStatTree n chain) rows
          (filter (λ j, (tg_leaf <$> rows !! j) = Some false) children)
      else rows
  end.

Fixpoint _collapseStatTree (n : nat) (rows : list stat_row) (i : nat) : list stat_row :=
  let children := nodeChildren rows i in
  let rows := match n with
              | 0 => rows
              | S n => foldl (_collapseStatTree n) rows
                         (filter (λ j, (tg_expanded <$> rows !! j) = Some true) children)
              end in
  let rows := set_all_hidden true children rows in
  alter (set_expanded false) i rows.

(** A click on the expander of a row. *)
Definition stat_click (shiftKey : bool) (rows : list stat_row) (i : nat) : list stat_row :=
  match rows !! i with
  | Some r => if tg_expanded r then _collapseStatTree (length rows) rows i
              else _expandStatTree (length rows) shiftKey rows i
  | None => rows
  end.

(** ** Proofs: loading pages *)

Section Loading.
Context (server : jstr → page).

(** The element [select_line] looks for. *)
Definition line_at (s : source) (line : jstr) : option elem :=
  fst <$> find (λ e, bool_decide (number e.2 = line)) (shown s).

(** Opening another file while no request is under way shows the file when the answer
    comes: the title and the page are those of the file, the line is selected, or, when the
    page has no such line, the user is told so; the history has one more entry. *)
Theorem opened_file_is_shown line filename s :
  pending s = [] → filename ≠ title s → source_not_found (server filename) = false →
  let s' := success server 0 (get_source line filename true s) in
  title s' = filename ∧ container s' = Some (server filename) ∧ pending s' = [] ∧
  history s' = history s ++ [(filename, line)] ∧ selected_line s' = line_at s' line ∧
  not_found_errors s' = (if line_at s' line then not_found_errors s else S (not_found_errors s)).
Proof.
  intros Hp Hf Hn. cbv zeta. unfold get_source, preserveState. cbn [title container loads selected_line history pending not_found_errors].
  rewrite decide_False by done. rewrite Hp. unfold success. cbn [pending app lookup list_lookup]. rewrite Hn.
  unfold select_line, line_at, select_span, unselect_line, set_selected.
  match goal with |- context [find ?f (shown ?s0)] => set (o := find f (shown s0)) end.
  assert (∀ s1, container s1 = Some (server filename) → loads s1 = loads s ++ [server filename] →
    find (λ e, bool_decide (number e.2 = line)) (shown s1) = o) as Ho.
  { intros s1 H1 H2. unfold o, shown. cbn [container loads]. by rewrite H1, H2. }
  destruct o as [[e l]|] eqn:Eo; simpl; rewrite Ho by done; simpl; by split_and!.
Qed.

Lemma get_source_other l f s :
  f ≠ title s → get_source l f true s =
  Source None (loads s) (title s) (selected_line s) (history s ++ [(f, l)]) (pending s ++ [(f, l)]) (not_found_errors s).
Proof. intros Hf. unfold get_source, preserveState. cbn [title]. by rewrite decide_False. Qed.

(** Two requests may be answered in the other order: then the file asked for first is shown
    under the address of the second one. *)
Lemma answers_in_other_order l1 f1 l2 f2 s :
  pending s = [] → f1 ≠ title s → f2 ≠ title s →
  let s' := success server 0 (success server 1 (get_source l2 f2 true (get_source l1 f1 true s))) in
  title s' = f1 ∧ last (history s') = Some (f2, l2).
Proof.
  intros Hp H1 H2. cbv zeta. rewrite (get_source_other l1 f1) by done. rewrite get_source_other by done.
  cbn [loads title selected_line history pending not_found_errors]. rewrite Hp. cbn [app].
  assert (∀ l s0, title (select_line l s0) = title s0 ∧ history (select_line l s0) = history s0 ∧
                  pending (select_line l s0) = pending s0) as Hsel.
  { intros l s0. unfold select_line, select_span. by destruct (fst <$> _). }
  assert (∀ k f l s0, pending s0 !! k = Some (f, l) →
    title (success server k s0) = f ∧ history (success server k s0) = history s0 ∧
    pending (success server k s0) = delete k (pending s0)) as Hsuc.
  { intros k f l s0 Hk. unfold success. rewrite Hk. case_match; [done|].
    match goal with |- context [select_line l ?s0] => destruct (Hsel l s0) as (-> & -> & ->) end. done. }
  match goal with |- context [success server 1 ?s0] => destruct (Hsuc 1 f2 l2 s0 eq_refl) as (_ & E2 & E3);
    set (s1 := success server 1 s0) in * end.
  simpl in E2, E3. destruct (Hsuc 0 f1 l1 s1) as (E4 & E5 & _); [by rewrite E3|].
  split; [done|]. by rewrite E5, E2, last_snoc.
Qed.
End Loading.

(** ** Proofs: navigation *)

(** Within the list the new index goes round; outside it starts at an end. *)
Lemma getNewIndex_cycle i n change :
  (0 ≤ i < n)%Z → (change = 1 ∨ change = -1)%Z → _getNewIndex i n change = ((i + change) mod n)%Z.
Proof.
  intros Hi Hc. unfold _getNewIndex. rewrite decide_False by lia. cbv zeta. repeat case_decide.
  - assert (i = 0 ∧ change = -1)%Z as [-> ->] by lia.
    apply (Z.mod_unique_pos _ _ (-1)); lia.
  - by rewrite Z.mod_small by lia.
  - assert (i + change = n)%Z as -> by lia. by rewrite Z.mod_same by lia.
Qed.

Lemma getNewIndex_start i n change :
  (i < 0)%Z → (0 < n)%Z → (change = 1 ∨ change = -1)%Z → (0 ≤ _getNewIndex i n change < n)%Z.
Proof. intros. unfold _getNewIndex. rewrite decide_True by done. case_decide; lia. Qed.

(** The elements of a page are different. *)
Lemma shown_nodup s : NoDup (fst <$> shown s).
Proof.
  unfold shown. destruct (container s) as [p|]; [|constructor].
  apply NoDup_alt. intros i j e Hi Hj. rewrite list_lookup_fmap in Hi, Hj.
  apply fmap_Some in Hi as ([e1 l1] & Hi & ->). apply fmap_Some in Hj as ([e2 l2] & Hj & E).
  rewrite list_lookup_imap in Hi, Hj. apply fmap_Some in Hi as (x & _ & Hi). apply fmap_Some in Hj as (y & _ & Hj).
  simpl in E. congruence.
Qed.

Lemma with_value_nodup pick f s : NoDup (fst <$> with_value pick f s).
Proof.
  unfold with_value. eapply sublist_NoDup; [apply (shown_nodup s)|].
  induction (shown s) as [|[e l] ls IH]; [constructor|]. simpl.
  destruct (value_of pick l) as [v|]; [|by constructor]. destruct (f v); by constructor.
Qed.

Lemma index_of_lookup l i x : NoDup (fst <$> l) → l !! i = Some x → index_of l x.1 = Z.of_nat i.
Proof.
  intros Hn Hi. unfold index_of.
  assert (list_find (λ y, y.1 = x.1) l = Some (i, x)) as ->; [|done].
  apply list_find_Some. split_and!; [done|done|]. intros j y Hj Hlt E.
  assert (i = j); [|lia]. rewrite NoDup_alt in Hn. apply (Hn i j x.1); rewrite list_lookup_fmap; [by rewrite Hi|].
  rewrite Hj. simpl. by rewrite E.
Qed.

(** The lines of a collection are lines of the page and carry the spans. *)
Lemma with_value_line pick f s x p :
  container s = Some p → last (loads s) = Some p → x ∈ with_value pick f s →
  ∃ l, elem_line s x.1 = Some l ∧ l ∈ src_lines p ∧ is_Some (pick l).
Proof.
  intros Hc Hl Hx. unfold with_value in Hx. apply list_elem_of_omap in Hx as ([e l] & Hx & E).
  unfold shown in Hx. rewrite Hc in Hx. apply list_elem_of_lookup_1 in Hx as [i Hx].
  rewrite list_lookup_imap in Hx. apply fmap_Some in Hx as (l' & Hi & [= -> ->]). simpl in E.
  exists l'. destruct (value_of pick l') as [v|] eqn:Ev; [|done]. destruct (f v); [|done]. injection E as <-. simpl.
  split_and!.
  - unfold elem_line. simpl. rewrite last_lookup in Hl. replace (length (loads s) - 1) with (pred (length (loads s))) by lia.
    by rewrite Hl.
  - by eapply list_elem_of_lookup_2.
  - unfold value_of in Ev. destruct (pick l'); [by eexists|done].
Qed.

(** The page, its loads and its title are the same; only the selection may differ. *)
Definition same_page (s s' : source) : Prop :=
  container s' = container s ∧ loads s' = loads s ∧ title s' = title s.

Lemma same_page_value pick f s s' : same_page s s' → with_value pick f s' = with_value pick f s.
Proof. intros (H1 & H2 & _). unfold with_value, shown. by rewrite H1, H2. Qed.

Section Navigate.
Context (pick : src_line → option (option Z)) (f : Z → bool) (change : Z) (s0 : source) (p : page).
Context (Hc : container s0 = Some p) (Hl : last (loads s0) = Some p)
  (Hspan : Forall (λ l, is_Some (line_cov l)) (src_lines p)) (Hch : (change = 1 ∨ change = -1)%Z).
Local Abbreviation lines := (with_value pick f s0).

(** One step: from the [i]-th line of the collection to the next one, round the end. *)
Lemma changeSelection_next s i x :
  same_page s0 s → lines !! i = Some x → selected_line s = Some x.1 →
  let s' := _changeSelection lines change pick s in
  same_page s0 s' ∧
  ∃ y, lines !! Z.to_nat ((Z.of_nat i + change) mod Z.of_nat (length lines))%Z = Some y ∧ selected_line s' = Some y.1.
Proof.
  intros (P1 & P2 & P3) Hi Hs. cbv zeta. unfold _changeSelection.
  pose proof (lookup_lt_Some _ _ _ Hi) as Hlt.
  destruct (with_value_line pick f s0 x p Hc Hl ltac:(by eapply list_elem_of_lookup_2)) as (l & He & Hin & [v Hv]).
  destruct (proj1 (Forall_forall _ _) Hspan l Hin) as [w Hw].
  assert (elem_line s x.1 = Some l) as He' by by unfold elem_line; rewrite P2.
  destruct lines as [|z zs] eqn:Elines; [by rewrite lookup_nil in Hi|]. rewrite <-Elines in *.
  rewrite Hs. cbn [mbind option_bind]. rewrite He'. cbn [mbind option_bind]. rewrite Hw. cbn [mbind option_bind].
  rewrite Hv. cbn [mbind option_bind].
  rewrite (index_of_lookup _ i x (with_value_nodup _ _ _) Hi), getNewIndex_cycle by (done || lia).
  set (j := Z.to_nat _).
  assert (j < length lines) as Hj.
  { unfold j. pose proof (Z.mod_pos_bound (Z.of_nat i + change) (Z.of_nat (length lines))). lia. }
  destruct (lookup_lt_is_Some_2 lines j Hj) as [y Hy]. rewrite Hy. split; [by split_and!|]. by exists y.
Qed.

(** A getter that gives the collection while the page stays. *)
Context (get : coverage → coverage * nat) (ready : coverage → Prop).
Context (Hready : ∀ c, ready c → same_page s0 (sourceProcessor c) →
  let '(c', r) := get c in object c' r = lines ∧ sourceProcessor c' = sourceProcessor c ∧
  ∀ s, same_page s0 s → ready (set_source s c')).

Lemma press_iter c i x k :
  ready c → same_page s0 (sourceProcessor c) → lines !! i = Some x → selected_line (sourceProcessor c) = Some x.1 →
  let c' := Nat.iter k (press get pick change) c in
  ready c' ∧ same_page s0 (sourceProcessor c') ∧
  ∃ y, lines !! Z.to_nat ((Z.of_nat i + change * Z.of_nat k) mod Z.of_nat (length lines))%Z = Some y ∧
       selected_line (sourceProcessor c') = Some y.1.
Proof.
  intros Hr Hp Hi Hs. pose proof (lookup_lt_Some _ _ _ Hi) as Hlt. cbv zeta.
  induction k as [|k IH].
  - change (Nat.iter 0 (press get pick change) c) with c. split_and!; [done..|]. exists x. rewrite Z.mul_0_r, Z.add_0_r, Z.mod_small, Nat2Z.id by lia. done.
  - change (Nat.iter (S k) (press get pick change) c) with (press get pick change (Nat.iter k (press get pick change) c)).
    destruct IH as (Hr' & Hp' & y & Hy & Hsy). generalize dependent (Nat.iter k (press get pick change) c). intros c1 Hr' Hp' Hsy.
    unfold press. pose proof (Hready c1 Hr' Hp') as Hg. destruct (get c1) as [c2 r]. destruct Hg as (Hobj & Hsrc & Hset).
    cbn [sourceProcessor set_source]. rewrite Hobj. rewrite <-Hsrc in Hp', Hsy.
    destruct (changeSelection_next (sourceProcessor c2) _ y Hp' Hy Hsy) as (Hp2 & z & Hz & Hsz).
    split_and!; [by apply Hset|exact Hp2|]. exists z. split; [|exact Hsz]. rewrite <-Hz. f_equal. f_equal.
    rewrite Z2Nat.id by (apply Z.mod_pos_bound; lia). rewrite Zplus_mod_idemp_l. f_equal. lia.
Qed.
End Navigate.

(** The buttons for the next and the previous covered function go round the covered
    functions of the file in the order of the page: from the [i]-th one, [k] presses lead to
    the one [k] places further, counted modulo their number. *)
Theorem covered_navigation c p i x k change :
  let s := sourceProcessor c in
  let lines := with_value func_cov (λ v, bool_decide (0 < v)%Z) s in
  container s = Some p → last (loads s) = Some p → Forall (λ l, is_Some (line_cov l)) (src_lines p) →
  (change = 1 ∨ change = -1)%Z → initialFile c = currentFile c → _coveredFunctions c = None →
  lines !! i = Some x → selected_line s = Some x.1 →
  ∃ y, lines !! Z.to_nat ((Z.of_nat i + change * Z.of_nat k) mod Z.of_nat (length lines))%Z = Some y ∧
       selected_line (sourceProcessor (Nat.iter k (press coveredFunctions func_cov change) c)) = Some y.1.
Proof.
  cbv zeta. intros Hc Hl Hspan Hch Hini Hcache Hi Hs.
  set (s := sourceProcessor c) in *. set (f := λ v, bool_decide (0 < v)%Z) in *.
  destruct (press_iter func_cov f change s p Hc Hl Hspan Hch coveredFunctions
    (λ c, initialFile c = currentFile c ∧ ∀ r, _coveredFunctions c = Some r → object c r = with_value func_cov f s))
    with (c := c) (i := i) (x := x) (k := k) as (_ & _ & H); [| |by split_and!|done|done|exact H].
  - intros c1 [I1 R1] P1. unfold coveredFunctions, check_cache. rewrite decide_False by (intros H; by apply H).
    assert (∀ s1 c', same_page s s1 → currentFile (set_source s1 c') = title s) as Ht by by intros s1 c' (_ & _ & ?).
    assert (initialFile c1 = title s) as It by (rewrite I1; apply P1).
    destruct (_coveredFunctions c1) as [r|] eqn:E.
    + split_and!; [by apply R1|done|]. intros s1 Hs1. split; [by rewrite Ht|]. intros r'.
      cbn [_coveredFunctions set_source]. rewrite E. apply R1.
    + split_and!; [|done|].
      * unfold object. cbn [objects]. rewrite lookup_app_r, Nat.sub_diag by done. simpl. by apply same_page_value.
      * intros s1 Hs1. split; [by rewrite Ht|]. cbn [_coveredFunctions set_source]. intros r' [= <-].
        unfold object. cbn [objects set_source]. rewrite lookup_app_r, Nat.sub_diag by done. simpl. by apply same_page_value.
  - split; [done|]. by intros r; rewrite Hcache.
Qed.

(** A page with three covered functions and one that is not covered. *)
Definition sample_page : page :=
  Page false [SrcLine (str "1") (Some None) (Some (Some 3%Z)); SrcLine (str "2") (Some (Some 1%Z)) (Some (Some 5%Z));
              SrcLine (str "3") (Some None) (Some (Some 0%Z)); SrcLine (str "4") (Some None) (Some (Some 4%Z))].
Definition sample_source : source := Source (Some sample_page) [sample_page] (str "a.c") (Some (0, 0)) [] [] 0.

Lemma covered_navigation_witness :
  selected_line (sourceProcessor (Nat.iter 2 next_cov_btn (new_CoverageProcessor sample_source))) = Some (0, 3).
Proof.
  destruct (covered_navigation (new_CoverageProcessor sample_source) sample_page 0 ((0, 0), 3%Z) 2 1
    eq_refl eq_refl ltac:(repeat constructor; eauto) (or_introl eq_refl) eq_refl eq_refl eq_refl eq_refl) as (y & Hy & Hs).
  vm_compute in Hy. injection Hy as <-. exact Hs.
Defined.

Lemma opened_file_is_shown_witness :
  let s' := success (λ _, sample_page) 0 (get_source (str "2") (str "b.c") true sample_source) in
  title s' = str "b.c" ∧ selected_line s' = Some (1, 1).
Proof.
  destruct (opened_file_is_shown (λ _, sample_page) (str "2") (str "b.c") sample_source eq_refl ltac:(discriminate) eq_refl)
    as (H1 & _ & _ & _ & H2 & _).
  cbv zeta. split; [exact H1|]. rewrite H2. vm_compute. reflexivity.
Defined.

(** ** Proofs: caches *)

Lemma insert_desc_perm x l : insert_desc x l ≡ₚ x :: l.
Proof. induction l as [|y l IH]; simpl; [done|]. case_decide; [|done]. rewrite IH. by constructor. Qed.
Lemma sort_desc_perm l : sort_desc l ≡ₚ l.
Proof. induction l as [|x l IH]; simpl; [done|]. by rewrite insert_desc_perm, IH. Qed.
Abbreviation descending := (Sorted (λ x y : elem * Z, (y.2 ≤ x.2)%Z)).
Lemma insert_desc_sorted x l : descending l → descending (insert_desc x l).
Proof.
  induction 1 as [|y l Hl IH Hy]; simpl; [by repeat constructor|]. case_decide as Hxy.
  - constructor; [done|]. destruct Hy as [|z l Hz]; simpl; [constructor; lia|]. case_decide; constructor; lia.
  - constructor; [by constructor|]. constructor. lia.
Qed.
Lemma sort_desc_sorted l : descending (sort_desc l).
Proof. induction l as [|x l IH]; simpl; [constructor|]. by apply insert_desc_sorted. Qed.

(** The sorted functions are the covered functions of the file in descending order of
    their counts; and since [sort] works on the cached object itself, from then on the list
    of covered functions has this order as well, no longer the order of the page. *)
Theorem sorted_functions_shared c :
  initialFile c = currentFile c → _coveredFunctions c = None → _sortedCoveredFunctions c = None →
  let lines := with_value func_cov (λ v, bool_decide (0 < v)%Z) (sourceProcessor c) in
  let '(c1, r1) := sortedCoveredFunctions c in let '(c2, r2) := coveredFunctions c1 in
  object c1 r1 ≡ₚ lines ∧ descending (object c1 r1) ∧ r2 = r1 ∧ object c2 r2 = object c1 r1.
Proof.
  intros Hi H1 H2. cbv zeta. unfold sortedCoveredFunctions, check_cache. rewrite decide_False by (intros H; by apply H).
  rewrite H2. unfold coveredFunctions, check_cache. rewrite decide_False by (intros H; by apply H). rewrite H1.
  cbn [initialFile _coveredFunctions objects]. unfold currentFile in *. cbn [sourceProcessor].
  rewrite decide_False by (intros H; by apply H).
  unfold object. cbn [objects]. set (l := with_value _ _ _).
  assert ((objects c ++ [l]) !! length (objects c) = Some l) as E by by rewrite lookup_app_r, Nat.sub_diag.
  rewrite E. cbn [default from_option].
  rewrite !list_lookup_insert_eq by (rewrite length_app; simpl; lia). cbn [default from_option].
  split_and!; [apply sort_desc_perm|apply sort_desc_sorted|done|].
  cbn [objects]. rewrite list_lookup_insert_eq by (rewrite length_app; simpl; lia). done.
Qed.

Lemma sorted_functions_shared_witness :
  let '(c1, r1) := sortedCoveredFunctions (new_CoverageProcessor sample_source) in
  let '(c2, r2) := coveredFunctions c1 in
  object c2 r2 = [((0, 1), 5%Z); ((0, 3), 4%Z); ((0, 0), 3%Z)].
Proof.
  pose proof (sorted_functions_shared (new_CoverageProcessor sample_source) eq_refl eq_refl eq_refl) as H.
  cbv zeta in H. destruct (sortedCoveredFunctions (new_CoverageProcessor sample_source)) as [c1 r1] eqn:E1.
  destruct (coveredFunctions c1) as [c2 r2]. destruct H as (_ & _ & _ & ->).
  vm_compute in E1. injection E1 as <- <-. reflexivity.
Defined.

(** The caches are cleared when another file is shown at the time of a press, not when
    one is loaded: after a press, a look at another file and back, the next press selects an
    element of the page that is gone, not one of the page that is shown. *)
Theorem stale_cache_selected :
  let server := λ _ : jstr, sample_page in
  let load f s := success server 0 (get_source (str "1") f true s) in
  let c := next_cov_btn (new_CoverageProcessor sample_source) in
  let c := set_source (load (str "a.c") (load (str "b.c") (sourceProcessor c))) c in
  let c := next_cov_btn c in
  selected_line (sourceProcessor c) = Some (0, 0) ∧ (0, 0) ∉ (shown (sourceProcessor c)).*1.
Proof. cbv zeta. split; [vm_compute; reflexivity|js_decide]. Qed.

(** An entry of the list of most covered lines is taken apart as it was put together, also
    for file names with colons. *)
Lemma parse_entry_print f l : ":"%char ∉ l → parse_entry (f ++ ":"%char :: l) = Some (f, l).
Proof.
  intros Hl. unfold parse_entry.
  assert (∃ ws, split ":"%char (f ++ ":"%char :: l) = ws ++ [l] ∧ ws ≠ [] ∧ join [":"%char] ws = f) as (ws & -> & Hne & Hj).
  { induction f as [|a f IH]; cbn [app Url.split].
    - rewrite decide_True by done. rewrite split_none by done. by exists [[]].
    - destruct IH as (ws & -> & Hne & Hj). case_decide as Ha.
      + exists ([] :: ws). split_and!; [done|done|]. subst a. destruct ws; [done|]. simpl. by rewrite <-Hj.
      + destruct ws as [|w ws]; [done|]. exists ((a :: w) :: ws). split_and!; [done|done|].
        destruct ws; simpl in *; by rewrite <-Hj. }
  destruct ws as [|w [|w' ws]]; [done| |].
  - simpl in Hj. subst. simpl. done.
  - rewrite decide_True by (rewrite length_app; simpl; lia). rewrite removelast_last, Hj, last_last. done.
Qed.

(** ** Proofs: the tree of statistics *)

(** What the code never changes. *)
Definition skeleton (r : stat_row) : nat * option nat * bool := (tg_id r, tg_parent r, tg_leaf r).

(** The invariant of the table: below an expanded row all children are displayed and below
    any other row none is; an expanded row is displayed. *)
Record stat_ok (rows : list stat_row) : Prop := {
  so_child : ∀ i j r c, rows !! i = Some r → rows !! j = Some c → i < j → tg_parent c = Some (tg_id r) →
    hidden c = negb (tg_expanded r);
  so_expanded : ∀ i r, rows !! i = Some r → tg_expanded r = true → hidden r = false
}.

(** Ids are unique. *)
Definition ids_ok (rows : list stat_row) : Prop :=
  ∀ i j r r', rows !! i = Some r → rows !! j = Some r' → tg_id r = tg_id r' → i = j.

Lemma ids_ok_skeleton rows rows' : skeleton <$> rows' = skeleton <$> rows → ids_ok rows → ids_ok rows'.
Proof.
  intros Hs Hid i j r r' Hi Hj E.
  assert (∀ k x, rows' !! k = Some x → ∃ y, rows !! k = Some y ∧ tg_id y = tg_id x) as Hk.
  { intros k x Hx. assert ((skeleton <$> rows') !! k = Some (skeleton x)) as H by by rewrite list_lookup_fmap, Hx.
    rewrite Hs, list_lookup_fmap in H. destruct (rows !! k) as [y|]; [|done]. exists y. split; [done|].
    injection H. by unfold skeleton. }
  destruct (Hk i r Hi) as (y & Hy & Ey), (Hk j r' Hj) as (y' & Hy' & Ey').
  apply (Hid i j y y'); congruence.
Qed.

Lemma nodeChildren_skeleton rows rows' i : skeleton <$> rows' = skeleton <$> rows → nodeChildren rows' i = nodeChildren rows i.
Proof.
  intros Hs. assert (length rows' = length rows) as Hlen.
  { by rewrite <-(length_fmap skeleton rows'), Hs, length_fmap. }
  assert (∀ k, skeleton <$> rows' !! k = skeleton <$> rows !! k) as Hk.
  { intros k. by rewrite <-!list_lookup_fmap, Hs. }
  assert (∀ k, (rows' !! k ≫= tg_parent) = (rows !! k ≫= tg_parent)) as Hp.
  { intros k. specialize (Hk k). unfold skeleton in Hk. destruct (rows' !! k), (rows !! k); try done. simpl in *. congruence. }
  unfold nodeChildren. rewrite Hlen. pose proof (Hk i) as Hi. unfold skeleton in Hi.
  destruct (rows' !! i) as [r'|], (rows !! i) as [r|]; try done. simpl in Hi. injection Hi as Ei _ _.
  apply list_filter_iff. intros j. by rewrite Hp, Ei.
Qed.

Lemma elem_of_nodeChildren rows i j :
  j ∈ nodeChildren rows i ↔ ∃ r c, rows !! i = Some r ∧ rows !! j = Some c ∧ i < j ∧ tg_parent c = Some (tg_id r).
Proof.
  unfold nodeChildren. destruct (rows !! i) as [r|]; [|split; [by intros ?%not_elem_of_nil|naive_solver]].
  rewrite list_elem_of_filter, elem_of_seq. split.
  - intros [[Hij Hp] _]. destruct (rows !! j) as [c|] eqn:Ec; [|done]. exists r, c. by split_and!.
  - intros (r' & c & [= <-] & Hc & Hij & Hp). rewrite Hc. split; [done|]. split; [lia|]. by apply lookup_lt_Some in Hc.
Qed.

Lemma set_all_hidden_lookup b js rows k :
  set_all_hidden b js rows !! k = (if decide (k ∈ js) then set_hidden b <$> rows !! k else rows !! k).
Proof.
  revert rows. induction js as [|j js IH]; intros rows.
  - rewrite decide_False; [done|]. apply not_elem_of_nil.
  - change (set_all_hidden b (j :: js) rows) with (set_all_hidden b js (alter (set_hidden b) j rows)). rewrite IH.
    assert (∀ o : option stat_row, set_hidden b <$> (set_hidden b <$> o) = set_hidden b <$> o) as Hid by by intros [].
    destruct (decide (j = k)) as [->|Hjk].
    + rewrite list_lookup_alter_eq, (decide_True (P := k ∈ k :: js)) by by left.
      case_decide; by rewrite ?Hid.
    + rewrite list_lookup_alter_ne by done. destruct (decide (k ∈ js)) as [Hk|Hk].
      * by rewrite decide_True by by right.
      * rewrite decide_False; [done|]. intros [->|?]%elem_of_cons; done.
Qed.

(** Showing or hiding rows and the flag of one row keep the skeleton. *)
Lemma skeleton_step b b' js i rows :
  skeleton <$> alter (set_expanded b') i (set_all_hidden b js rows) = skeleton <$> rows.
Proof.
  apply list_eq. intros k. rewrite !list_lookup_fmap, list_lookup_alter.
  case_decide; subst; rewrite set_all_hidden_lookup; case_decide; by destruct (rows !! k).
Qed.

Lemma foldl_skeleton (f : list stat_row → nat → list stat_row) js rows :
  (∀ rows i, skeleton <$> f rows i = skeleton <$> rows) → skeleton <$> foldl f rows js = skeleton <$> rows.
Proof. intros Hf. revert rows. induction js as [|j js IH]; intros rows; simpl; [done|]. by rewrite IH, Hf. Qed.

Lemma expand_skeleton n chain rows i : skeleton <$> _expandStatTree n chain rows i = skeleton <$> rows.
Proof.
  revert rows i. induction n as [|n IH]; intros rows i; cbn [_expandStatTree]; cbv zeta; [apply skeleton_step|].
  destruct chain; [|apply skeleton_step]. by rewrite (foldl_skeleton (_expandStatTree n true)), skeleton_step by done.
Qed.

Lemma collapse_skeleton n rows i : skeleton <$> _collapseStatTree n rows i = skeleton <$> rows.
Proof.
  revert rows i. induction n as [|n IH]; intros rows i; cbn [_collapseStatTree]; cbv zeta; rewrite skeleton_step; [done|].
  by apply foldl_skeleton.
Qed.

(** Expanding one displayed row. *)
Lemma open_row_ok rows i r :
  stat_ok rows → ids_ok rows → rows !! i = Some r → hidden r = false →
  let rows' := alter (set_expanded true) i (set_all_hidden false (nodeChildren rows i) rows) in
  stat_ok rows' ∧ ∀ j, j ∈ nodeChildren rows i → hidden <$> rows' !! j = Some false.
Proof.
  intros [H1 H2] Hid Hi Hh. cbv zeta.
  assert (∀ k, alter (set_expanded true) i (set_all_hidden false (nodeChildren rows i) rows) !! k =
    if decide (k = i) then Some (set_expanded true r)
    else if decide (k ∈ nodeChildren rows i) then set_hidden false <$> rows !! k else rows !! k) as Hl.
  { intros k. rewrite list_lookup_alter. destruct (decide (i = k)) as [->|Hk]; rewrite set_all_hidden_lookup.
    - rewrite (decide_True (P := k = k)) by done. rewrite decide_False, Hi; [done|].
      rewrite elem_of_nodeChildren. intros (? & ? & _ & _ & ? & _). lia.
    - by rewrite (decide_False (P := k = i)) by congruence. }
  set (rows' := alter _ _ _) in *. clearbody rows'. split.
  - split.
    + intros a b ra rb Ha Hb Hab Hp. rewrite Hl in Ha, Hb.
      destruct (decide (b = i)) as [->|Hbi].
      * injection Hb as <-. destruct (decide (a = i)) as [->|Hai]; [lia|].
        assert (∃ y, rows !! a = Some y ∧ tg_id y = tg_id ra ∧ tg_expanded y = tg_expanded ra) as (y & Hy & Ey1 & Ey2).
        { case_decide; [|eauto]. destruct (rows !! a) as [y|]; [|done]. simpl in Ha. injection Ha as <-. by exists y. }
        simpl in *. rewrite <-Ey1 in Hp. pose proof (H1 a i y r Hy Hi Hab Hp). simpl. congruence.
      * destruct (decide (b ∈ nodeChildren rows i)) as [Hbc|Hbc].
        -- apply elem_of_nodeChildren in Hbc as (r' & c & Hr' & Hc & Hib & Hpc). simplify_eq.
           rewrite Hc in Hb. simpl in Hb. injection Hb as <-. simpl in *.
           assert (a = i) as ->.
           { assert (∃ y, rows !! a = Some y ∧ tg_id y = tg_id ra) as (y & Hy & Ey).
             { destruct (decide (a = i)) as [->|]; [exists r; injection Ha as <-; by split|].
               case_decide; [|eauto]. destruct (rows !! a) as [y|]; [|done]. simpl in Ha. injection Ha as <-. by exists y. }
             apply (Hid a i y r Hy Hi). congruence. }
           rewrite decide_True in Ha by done. by injection Ha as <-.
        -- destruct (decide (a = i)) as [->|Hai].
           { exfalso. apply Hbc, elem_of_nodeChildren. exists r, rb. injection Ha as <-. simpl in *. by split_and!. }
           assert (∃ y, rows !! a = Some y ∧ tg_id y = tg_id ra ∧ tg_expanded y = tg_expanded ra) as (y & Hy & Ey1 & Ey2).
           { case_decide; [|eauto]. destruct (rows !! a) as [y|]; [|done]. simpl in Ha. injection Ha as <-. by exists y. }
           rewrite <-Ey2. apply (H1 a b y rb Hy Hb Hab). congruence.
    + intros a ra Ha He. rewrite Hl in Ha. repeat case_decide; simplify_eq; simpl; [done| |by eapply H2].
      destruct (rows !! a); [|done]. by injection Ha as <-.
  - intros j Hj. rewrite Hl. pose proof Hj as Hj'. apply elem_of_nodeChildren in Hj' as (r' & c & _ & Hc & Hij & _).
    rewrite decide_False by lia. rewrite decide_True, Hc by done. done.
Qed.

(** Expanding keeps the invariant, hides nothing and collapses nothing. *)
Lemma expand_ok n chain rows i r :
  stat_ok rows → ids_ok rows → rows !! i = Some r → hidden r = false →
  stat_ok (_expandStatTree n chain rows i) ∧
  (∀ j, hidden <$> rows !! j = Some false → hidden <$> _expandStatTree n chain rows i !! j = Some false) ∧
  (∀ j, j = i ∨ tg_expanded <$> rows !! j = Some true → tg_expanded <$> _expandStatTree n chain rows i !! j = Some true).
Proof.
  revert rows i r. induction n as [|n IH]; intros rows i r Hok Hid Hi Hh;
    destruct (open_row_ok rows i r Hok Hid Hi Hh) as [Ho Hc]; cbn [_expandStatTree]; cbv zeta;
    set (children := nodeChildren rows i) in *; set (rows1 := alter _ _ _) in *;
    assert (∀ j, hidden <$> rows !! j = Some false → hidden <$> rows1 !! j = Some false) as Hmono
      by (intros j Hj; unfold rows1; rewrite list_lookup_alter; case_decide; subst;
          rewrite set_all_hidden_lookup; case_decide; by destruct (rows !! j));
    assert (∀ j, j = i ∨ tg_expanded <$> rows !! j = Some true → tg_expanded <$> rows1 !! j = Some true) as Hexp
      by (intros j Hj; unfold rows1; rewrite list_lookup_alter; case_decide; subst;
          rewrite set_all_hidden_lookup;
          [case_decide; by rewrite Hi|destruct Hj as [->|Hj]; [done|]; case_decide; by destruct (rows !! j)]).
  - by split_and!.
  - destruct chain; [|by split_and!].
    assert (∀ js rows2, stat_ok rows2 → ids_ok rows2 → (∀ j, j ∈ js → hidden <$> rows2 !! j = Some false) →
      let rows3 := foldl (_expandStatTree n true) rows2 js in
      stat_ok rows3 ∧ (∀ j, hidden <$> rows2 !! j = Some false → hidden <$> rows3 !! j = Some false) ∧
      (∀ j, tg_expanded <$> rows2 !! j = Some true → tg_expanded <$> rows3 !! j = Some true)) as Hloop.
    { intros js. induction js as [|x js IHj]; intros rows2 Hok2 Hid2 Hjs; cbn [foldl]; cbv zeta; [by split_and!|].
      destruct (rows2 !! x) as [rx|] eqn:Ex; [|specialize (Hjs x ltac:(left)); by rewrite Ex in Hjs].
      assert (hidden rx = false) as Hrx.
      { specialize (Hjs x ltac:(left)). rewrite Ex in Hjs. by injection Hjs. }
      destruct (IH rows2 x rx Hok2 Hid2 Ex Hrx) as (Hok3 & Hm3 & He3).
      destruct (IHj (_expandStatTree n true rows2 x) Hok3) as (Hok4 & Hm4 & He4).
      - apply (ids_ok_skeleton rows2); [apply expand_skeleton|done].
      - intros j Hj. apply Hm3, Hjs. by right.
      - split_and!; [done|auto|auto]. }
    destruct (Hloop (filter (λ j, (tg_leaf <$> rows1 !! j) = Some false) children) rows1 Ho) as (Hl1 & Hl2 & Hl3).
    + apply (ids_ok_skeleton rows); [apply skeleton_step|done].
    + intros j Hj. apply Hc. by apply list_elem_of_filter in Hj as [_ Hj].
    + split_and!; [done|auto|auto].
Qed.

(** Collapsing one row whose children are collapsed. *)
Lemma close_row_ok rows i r :
  stat_ok rows → ids_ok rows → rows !! i = Some r →
  (∀ j, j ∈ nodeChildren rows i → tg_expanded <$> rows !! j = Some false) →
  let rows' := alter (set_expanded false) i (set_all_hidden true (nodeChildren rows i) rows) in
  stat_ok rows' ∧ (∀ j, j = i ∨ tg_expanded <$> rows !! j = Some false → tg_expanded <$> rows' !! j = Some false).
Proof.
  intros [H1 H2] Hid Hi Hch. cbv zeta.
  assert (∀ k, alter (set_expanded false) i (set_all_hidden true (nodeChildren rows i) rows) !! k =
    if decide (k = i) then Some (set_expanded false r)
    else if decide (k ∈ nodeChildren rows i) then set_hidden true <$> rows !! k else rows !! k) as Hl.
  { intros k. rewrite list_lookup_alter. destruct (decide (i = k)) as [->|Hk]; rewrite set_all_hidden_lookup.
    - rewrite (decide_True (P := k = k)) by done. rewrite decide_False, Hi; [done|].
      rewrite elem_of_nodeChildren. intros (? & ? & _ & _ & ? & _). lia.
    - by rewrite (decide_False (P := k = i)) by congruence. }
  set (rows' := alter _ _ _) in *. clearbody rows'.
  assert (∀ a ra, rows' !! a = Some ra → a ≠ i →
    ∃ y, rows !! a = Some y ∧ tg_id y = tg_id ra ∧ tg_expanded y = tg_expanded ra) as Hback.
  { intros a ra Ha Hai. rewrite Hl, decide_False in Ha by done. case_decide; [|eauto].
    destruct (rows !! a) as [y|]; [|done]. simpl in Ha. injection Ha as <-. by exists y. }
  split; [split|].
  - intros a b ra rb Ha Hb Hab Hp. destruct (decide (b ∈ nodeChildren rows i)) as [Hbc|Hbc].
    + pose proof Hbc as Hbc'. apply elem_of_nodeChildren in Hbc' as (r' & c & Hr' & Hc & Hib & Hpc). simplify_eq.
      rewrite Hl, decide_False, decide_True, Hc in Hb by (done || lia). injection Hb as <-. simpl in *.
      destruct (decide (a = i)) as [->|Hai].
      * rewrite Hl, decide_True in Ha by done. by injection Ha as <-.
      * exfalso. destruct (Hback a ra Ha Hai) as (y & Hy & Ey & _). apply Hai, (Hid a i y r Hy Hi). congruence.
    + destruct (decide (a = i)) as [->|Hai].
      { exfalso. apply Hbc, elem_of_nodeChildren. rewrite Hl, decide_True in Ha by done. injection Ha as <-.
        rewrite Hl, decide_False, decide_False in Hb by (done || lia). exists r, rb. by split_and!. }
      destruct (Hback a ra Ha Hai) as (y & Hy & Ey1 & Ey2). rewrite <-Ey2. rewrite <-Ey1 in Hp.
      rewrite Hl in Hb. destruct (decide (b = i)) as [->|Hbi].
      * injection Hb as <-. exact (H1 a i y r Hy Hi Hab Hp).
      * rewrite decide_False in Hb by done. exact (H1 a b y rb Hy Hb Hab Hp).
  - intros a ra Ha He. rewrite Hl in Ha. case_decide as Hai; [injection Ha as <-; done|].
    case_decide as Hac; [|by eapply H2]. specialize (Hch a Hac).
    destruct (rows !! a) as [y|]; [|done]. injection Ha as <-. simpl in *. congruence.
  - intros j Hj. rewrite Hl. case_decide as Hji; [done|]. destruct Hj as [?|Hj]; [done|].
    case_decide; [|done]. by destruct (rows !! j).
Qed.

Lemma collapse_ok n rows i r :
  stat_ok rows → ids_ok rows → rows !! i = Some r → length rows ≤ n + i →
  stat_ok (_collapseStatTree n rows i) ∧
  (∀ j, j = i ∨ tg_expanded <$> rows !! j = Some false → tg_expanded <$> _collapseStatTree n rows i !! j = Some false).
Proof.
  revert rows i r. induction n as [|n IH]; intros rows i r Hok Hid Hi Hn; [apply lookup_lt_Some in Hi; lia|].
  cbn [_collapseStatTree]. cbv zeta. set (js := filter _ _).
  assert (∀ js rows2, stat_ok rows2 → ids_ok rows2 → length rows2 = length rows → (∀ j, j ∈ js → i < j ∧ j < length rows) →
    let rows3 := foldl (_collapseStatTree n) rows2 js in
    stat_ok rows3 ∧ (∀ j, j ∈ js ∨ tg_expanded <$> rows2 !! j = Some false → tg_expanded <$> rows3 !! j = Some false)) as Hloop.
  { intros xs. induction xs as [|x xs IHj]; intros rows2 Hok2 Hid2 Hlen2 Hjs; cbn [foldl]; cbv zeta.
    { split; [done|]. by intros j [?%not_elem_of_nil|?]. }
    destruct (Hjs x) as [Hx1 Hx2]; [left|]. destruct (lookup_lt_is_Some_2 rows2 x) as [rx Ex]; [lia|].
    destruct (IH rows2 x rx Hok2 Hid2 Ex) as [Hok3 He3]; [lia|].
    assert (skeleton <$> _collapseStatTree n rows2 x = skeleton <$> rows2) as Hs by apply collapse_skeleton.
    destruct (IHj (_collapseStatTree n rows2 x) Hok3) as [Hok4 He4].
    - by eapply ids_ok_skeleton.
    - by rewrite <-(length_fmap skeleton), Hs, length_fmap.
    - intros j Hj. apply Hjs. by right.
    - split; [done|]. intros j [[->|Hj]%elem_of_cons|Hj]; auto. }
  destruct (Hloop js rows Hok Hid eq_refl) as [Hok1 He1].
  { intros j Hj. apply list_elem_of_filter in Hj as [_ Hj]. apply elem_of_nodeChildren in Hj as (? & ? & _ & Hc & Hij & _).
    apply lookup_lt_Some in Hc. lia. }
  assert (skeleton <$> foldl (_collapseStatTree n) rows js = skeleton <$> rows) as Hs
    by (apply foldl_skeleton, collapse_skeleton).
  set (rows1 := foldl (_collapseStatTree n) rows js) in *.
  rewrite <-(nodeChildren_skeleton rows rows1 i Hs).
  destruct (lookup_lt_is_Some_2 rows1 i) as [r1 Hr1].
  { rewrite <-(length_fmap skeleton), Hs, length_fmap. by eapply lookup_lt_Some. }
  destruct (close_row_ok rows1 i r1 Hok1) as [Hok2 He2]; [by eapply ids_ok_skeleton|done| |].
  - rewrite (nodeChildren_skeleton rows rows1 i Hs). intros j Hj. apply He1.
    destruct (decide (tg_expanded <$> rows !! j = Some true)) as [E|E].
    + left. apply list_elem_of_filter. by split.
    + right. apply elem_of_nodeChildren in Hj as (? & c & _ & Hc & _). rewrite Hc in *. simpl in *.
      by destruct (tg_expanded c).
  - split; [done|]. intros j Hj. apply He2. destruct Hj as [?|?]; [by left|right; auto].
Qed.

(** A click on the expander of a displayed row turns its state over and keeps the tree of
    statistics consistent: below an expanded row all children are displayed, below any other
    row none is, and no hidden row is expanded. *)
Theorem stat_click_keeps_ok shiftKey rows i r :
  stat_ok rows → ids_ok rows → rows !! i = Some r → hidden r = false →
  let rows' := stat_click shiftKey rows i in
  stat_ok rows' ∧ ids_ok rows' ∧ tg_expanded <$> rows' !! i = Some (negb (tg_expanded r)).
Proof.
  intros Hok Hid Hi Hh. cbv zeta. unfold stat_click. rewrite Hi. destruct (tg_expanded r).
  - destruct (collapse_ok (length rows) rows i r) as [H1 H2]; try done; [lia|].
    split_and!; [done|eapply ids_ok_skeleton; [apply collapse_skeleton|done]|]. apply H2. by left.
  - destruct (expand_ok (length rows) shiftKey rows i r) as (H1 & _ & H2); try done.
    split_and!; [done|eapply ids_ok_skeleton; [apply expand_skeleton|done]|]. apply H2. by left.
Qed.

Definition sample_rows : list stat_row :=
  [StatRow 10 None false true true false; StatRow 11 (Some 10) false true true false;
   StatRow 12 (Some 11) true false false false; StatRow 13 (Some 10) true false false false].

Lemma stat_click_keeps_ok_witness :
  stat_ok (stat_click false sample_rows 0) ∧ hidden <$> stat_click false sample_rows 0 = [false; true; true; true].
Proof.
  split; [|reflexivity].
  assert (∀ j r, sample_rows !! j = Some r → j < 4) as Hlen by (intros j r Hj; by apply lookup_lt_Some in Hj).
  refine (proj1 (stat_click_keeps_ok false sample_rows 0 (StatRow 10 None false true true false) _ _ eq_refl eq_refl)).
  - split.
    + intros i j r c Hi Hj Hij Hp. pose proof (Hlen _ _ Hi). pose proof (Hlen _ _ Hj).
      do 4 (destruct i as [|i]; [do 4 (destruct j as [|j]; [simpl in *; simplify_eq; done|]); lia|]). lia.
    + intros i r Hi He. pose proof (Hlen _ _ Hi). do 4 (destruct i as [|i]; [simpl in *; by simplify_eq|]). lia.
  - intros i j r r' Hi Hj E. pose proof (Hlen _ _ Hi). pose proof (Hlen _ _ Hj).
    do 4 (destruct i as [|i]; [do 4 (destruct j as [|j]; [simpl in *; simplify_eq; done|]); lia|]). lia.
Defined.

End Coverage.
