(* ===== verification/ErrorTrace.v ===== *)
(** * Error traces

    Models the part of ETV.js that shows and hides the lines of an error trace: the scopes
    of functions, actions and declaration blocks, and the statements in them. The lines of
    the page are a list; the code finds the lines of a scope by their class [scope-<id>], in
    the order of the page. *)

From S2P Require Import Prelude.

Module ErrorTrace.

(** ** Lines *)

(** [data-type] *)
Inductive line_type := FunctionCall | Action | Exit | Declarations | Declaration | Statement | Note.
#[global] Instance line_type_eq_dec : EqDecision line_type.
Proof. solve_decision. Defined.

(** A line: its type, the scope it is in, the scope it opens ([data-scope]), the class
    [commented], the level of a note, whether it has a link to open its scope; then what the
    code changes: the class [scope_opened], the arrow of the link, the eye ([Some true] for
    the class [hide], [None] for a line without eye), which text is shown, and whether the
    line is displayed. *)
Record line := Line {
  ltype : line_type;
  scope : nat;
  body : option nat;
  commented : bool;
  level : nat;
  enter_link : bool;
  opened : bool;
  arrow_down : bool;
  eye : option bool;
  source_text : bool;
  displayed : bool
}.

Definition set_opened (b : bool) (l : line) : line :=
  Line (ltype l) (scope l) (body l) (commented l) (level l) (enter_link l) b b (eye l) (source_text l) (displayed l).
Definition set_eye (b : bool) (l : line) : line :=
  Line (ltype l) (scope l) (body l) (commented l) (level l) (enter_link l) (opened l) (arrow_down l)
       ((λ _, b) <$> eye l) b (displayed l).
Definition set_displayed (b : bool) (l : line) : line :=
  Line (ltype l) (scope l) (body l) (commented l) (level l) (enter_link l) (opened l) (arrow_down l)
       (eye l) (source_text l) b.

Definition is_call (l : line) : bool := bool_decide (ltype l = FunctionCall ∨ ltype l = Action).

(** [etv_window.find('.scope-' + node.data('scope'))] *)
Definition in_body (l : line) (x : line) : bool := bool_decide (body l = Some (scope x)).
Definition scope_lines (ls : list line) (l : line) : list nat :=
  filter (λ j, (in_body l <$> ls !! j) = Some true) (seq 0 (length ls)).

(** [.show()] and [.hide()] on the lines a condition selects. *)
Definition display_where (b : bool) (P : line → bool) (ls : list line) : list line :=
  map (λ x, if P x then set_displayed b x else x) ls.

(** ** Statements and declarations of a scope *)

Definition show_display (ls : list line) (i : nat) : list line :=
  let ls := alter (set_eye true) i ls in
  match ls !! i with
  | None => ls
  | Some node =>
      if is_call node && opened node then
        display_where true (λ x, in_body node x &&
          match ltype x with Statement | Declaration => negb (commented x) | Note => true | _ => false end) ls
      else if decide (ltype node = Declarations) then
        display_where true (λ x, in_body node x && negb (commented x)) ls
      else ls
  end.

(** The loop of [hide_display] with its flag [prev_note_shown]. *)
Fixpoint hide_statements (node : line) (prev_note_shown : bool) (ls : list line) : list line :=
  match ls with
  | [] => []
  | x :: ls =>
      if in_body node x then
        match ltype x with
        | Statement | Declaration =>
            (if prev_note_shown then x else set_displayed false x) :: hide_statements node false ls
        | Note => if decide (1 < level x) then set_displayed false x :: hide_statements node false ls
                  else x :: hide_statements node true ls
        | _ => x :: hide_statements node false ls
        end
      else x :: hide_statements node prev_note_shown ls
  end.

Definition hide_display (ls : list line) (i : nat) : list line :=
  let ls := alter (set_eye false) i ls in
  match ls !! i with
  | None => ls
  | Some node =>
      if is_call node && opened node then hide_statements node false ls
      else if decide (ltype node = Declarations) then display_where false (in_body node) ls
      else ls
  end.

(** ** Scopes *)

(** Scopes contain scopes with larger ids, so the largest id bounds the recursions. *)
Definition max_scope (ls : list line) : nat := list_max (map (λ l, default 0 (body l)) ls).

Fixpoint show_scope (n : nat) (ls : list line) (i : nat) : list line :=
  match ls !! i with
  | None => ls
  | Some node =>
      let ls := if opened node then ls else alter (set_opened true) i ls in
      let ls := match n with
                | 0 => ls
                | S n =>
                    foldl (λ ls j,
                      match ls !! j with
                      | None => ls
                      | Some x =>
                          match ltype x with
                          | FunctionCall | Action =>
                              let ls := if negb (commented x) || opened x then alter (set_displayed true) j ls else ls in
                              if opened x then show_scope n ls j else ls
                          | Exit | Declarations => alter (set_displayed true) j ls
                          | _ => ls
                          end
                      end) ls (scope_lines ls node)
                end in
      show_display ls i
  end.

(** The body of the loop in [hide_scope]; [hide] hides the scope of a function or an action. *)
Definition hide_line (hide : list line → nat → list line) (ls : list line) (j : nat) : list line :=
  let ls := alter (set_displayed false) j ls in
  match ls !! j with
  | None => ls
  | Some x =>
      match ltype x with
      | FunctionCall | Action => hide ls j
      | Declarations => if decide (eye x = Some true) then hide_display ls j else ls
      | _ => ls
      end
  end.

Fixpoint hide_scope (n : nat) (shift_pressed change_state : bool) (ls : list line) (i : nat) : list line :=
  let ls := hide_display ls i in
  match ls !! i with
  | None => ls
  | Some node =>
      let ls := if change_state && opened node then alter (set_opened false) i ls else ls in
      match n with
      | 0 => ls
      | S n => foldl (hide_line (hide_scope n shift_pressed shift_pressed)) ls (scope_lines ls node)
      end
  end.

Fixpoint show_scope_shift (n : nat) (ls : list line) (i : nat) : list line :=
  match ls !! i with
  | None => ls
  | Some node =>
      let ls := if opened node then ls else alter (set_opened true) i ls in
      let ls := match n with
                | 0 => ls
                | S n =>
                    foldl (λ ls j,
                      match ltype <$> ls !! j with
                      | Some FunctionCall | Some Action => show_scope_shift n (alter (set_displayed true) j ls) j
                      | Some Exit => alter (set_displayed true) j ls
                      | _ => ls
                      end) ls (scope_lines ls node)
                end in
      show_display ls i
  end.

(** ** Clicks *)

Definition enter_click (shiftKey : bool) (ls : list line) (i : nat) : list line :=
  match ls !! i with
  | None => ls
  | Some node =>
      if opened node then hide_scope (S (max_scope ls)) shiftKey true ls i
      else if shiftKey then show_scope_shift (S (max_scope ls)) ls i
      else show_scope (S (max_scope ls)) ls i
  end.

(** The link of a closing triangle finds the first line with its [data-scope]. *)
Definition exit_click (shiftKey : bool) (ls : list line) (x : nat) : list line :=
  match list_find (λ l, body l = Some x) ls with
  | Some (i, _) => hide_scope (S (max_scope ls)) shiftKey true ls i
  | None => ls
  end.

Definition eye_click (ls : list line) (i : nat) : list line :=
  match ls !! i ≫= eye with
  | Some true => hide_display ls i
  | Some false => show_display ls i
  | None => ls
  end.

(** [ETV_ShowCommentCode]: shows or hides the line after a note. *)
Definition comment_click (ls : list line) (i : nat) : list line :=
  match ls !! S i with
  | None => ls
  | Some node =>
      if displayed node then
        let ls := if opened node && enter_link node then enter_click false ls (S i) else ls in
        alter (set_displayed false) (S i) ls
      else
        let ls := alter (set_displayed true) (S i) ls in
        if enter_link node then enter_click false ls (S i) else ls
  end.

(** ** Traces *)

(** What the code never changes. *)
Definition fixed (l : line) : line_type * nat * option nat * bool * nat * bool * bool :=
  (ltype l, scope l, body l, commented l, level l, enter_link l, bool_decide (is_Some (eye l))).
Definition same_trace (ls ls' : list line) : Prop := fixed <$> ls' = fixed <$> ls.

(** A header opens a scope; whether it is open. *)
Definition is_header (l : line) : bool := is_call l || bool_decide (ltype l = Declarations).
Definition is_open (l : line) : bool :=
  if decide (ltype l = Declarations) then bool_decide (eye l = Some true) else opened l.

(** A declaration in another scope than the note before it: the server (etv.py,
    [__parse_declaration]) leaves a note of a level above 1 in the scope around the block of
    its declaration. *)
Definition loose (ls : list line) (i : nat) : bool :=
  match i with
  | 0 => false
  | S k => match ls !! k, ls !! S k with
           | Some n, Some l => bool_decide (ltype n = Note) && bool_decide (scope l ≠ scope n)
           | _, _ => false
           end
  end.

(** Traces as the server writes them: scopes are numbered from the outside, a scope has one
    header, declaration blocks have an eye and hold no headers; what follows a note is in
    its scope or is a declaration, and only functions and actions have a link that opens
    their scope. *)
Record trace_ok (ls : list line) : Prop := {
  t_nested : ∀ i l, ls !! i = Some l → is_header l = true → ∃ x, body l = Some x ∧ scope l < x;
  t_unique : ∀ i j l l' x, ls !! i = Some l → ls !! j = Some l' → is_header l = true → is_header l' = true →
    body l = Some x → body l' = Some x → i = j;
  t_eye : ∀ i l, ls !! i = Some l → ltype l = Declarations → is_Some (eye l);
  t_leaf : ∀ i j l l' x, ls !! i = Some l → ltype l = Declarations → body l = Some x →
    ls !! j = Some l' → scope l' = x → is_header l' = false;
  t_note : ∀ i l l', ls !! i = Some l → ltype l = Note → ls !! S i = Some l' →
    scope l' = scope l ∨ ltype l' = Declaration;
  t_link : ∀ i l, ls !! i = Some l → enter_link l = true → is_call l = true
}.

#[global] Instance same_trace_preorder : PreOrder same_trace.
Proof. split; [done|]. intros l1 l2 l3 H1 H2. unfold same_trace in *. by rewrite H2. Qed.

Lemma same_trace_lookup ls ls' j l' :
  same_trace ls ls' → ls' !! j = Some l' → ∃ l, ls !! j = Some l ∧ fixed l = fixed l'.
Proof.
  intros Hs Hj. assert ((fixed <$> ls') !! j = Some (fixed l')) as H by by rewrite list_lookup_fmap, Hj.
  rewrite Hs, list_lookup_fmap in H. destruct (ls !! j) as [l|]; [|done]. exists l. split; [done|]. by apply (inj Some) in H.
Qed.

Lemma same_trace_sym ls ls' : same_trace ls ls' → same_trace ls' ls.
Proof. intros Hs. by unfold same_trace in *. Qed.

Lemma fixed_eq l l' : fixed l = fixed l' →
  ltype l = ltype l' ∧ scope l = scope l' ∧ body l = body l' ∧ is_call l = is_call l' ∧ is_header l = is_header l' ∧
  (is_Some (eye l) ↔ is_Some (eye l')).
Proof.
  unfold fixed. intros H. injection H as H1 H2 H3 _ _ _ H7. unfold is_header, is_call. rewrite H1.
  split_and!; try done. rewrite <-(bool_decide_eq_true (is_Some (eye l))), H7. apply bool_decide_eq_true.
Qed.

Lemma loose_same ls ls' i : same_trace ls ls' → loose ls' i = loose ls i.
Proof.
  intros Hs. destruct i as [|k]; [done|]. cbn [loose].
  destruct (ls' !! k) as [n'|] eqn:Hk.
  - destruct (same_trace_lookup _ _ _ _ Hs Hk) as (n & -> & (E1 & E2 & _)%fixed_eq).
    destruct (ls' !! S k) as [l'|] eqn:Hl.
    + destruct (same_trace_lookup _ _ _ _ Hs Hl) as (l & -> & (_ & F2 & _)%fixed_eq). by rewrite E1, E2, F2.
    + destruct (ls !! S k) as [l|] eqn:Hl'; [|done].
      destruct (same_trace_lookup _ _ _ _ (same_trace_sym _ _ Hs) Hl') as (l' & Hl2 & _). congruence.
  - destruct (ls !! k) as [n|] eqn:Hk'; [|done].
    destruct (same_trace_lookup _ _ _ _ (same_trace_sym _ _ Hs) Hk') as (n' & Hn & _). congruence.
Qed.

(** Only declarations are loose. *)
Lemma loose_declaration ls i l : trace_ok ls → ls !! i = Some l → loose ls i = true → ltype l = Declaration.
Proof.
  intros Ht Hi Hl. destruct i as [|k]; [done|]. cbn [loose] in Hl. rewrite Hi in Hl.
  destruct (ls !! k) as [n|] eqn:Hk; [|done]. apply andb_true_iff in Hl as [Hn%bool_decide_eq_true Hs%bool_decide_eq_true].
  by destruct (t_note _ Ht k n l Hk Hn Hi).
Qed.

Lemma not_loose ls i l : trace_ok ls → ls !! i = Some l → ltype l ≠ Declaration → loose ls i = false.
Proof.
  intros Ht Hi Hl. destruct (loose ls i) eqn:E; [|done]. by destruct Hl; eapply loose_declaration.
Qed.

Lemma header_not_loose ls i l : trace_ok ls → ls !! i = Some l → is_header l = true → loose ls i = false.
Proof.
  intros Ht Hi Hh. apply (not_loose ls i l Ht Hi). intros Hd. unfold is_header, is_call in Hh. by rewrite Hd in Hh.
Qed.

Lemma trace_ok_same ls ls' : same_trace ls ls' → trace_ok ls → trace_ok ls'.
Proof.
  intros Hs [H1 H2 H3 H4 H5 H6]. pose proof (same_trace_lookup ls ls') as Hl. split.
  - intros i l' Hi Hh. destruct (Hl i l' Hs Hi) as (l & Hi' & (E1 & E2 & E3 & E4 & E5 & _)%fixed_eq).
    rewrite <-E2, <-E3. eapply H1; [done|congruence].
  - intros i j a' b' x Hi Hj Ha Hb Hax Hbx.
    destruct (Hl i a' Hs Hi) as (a & Hi' & (_ & _ & A3 & _ & A5 & _)%fixed_eq),
      (Hl j b' Hs Hj) as (b & Hj' & (_ & _ & B3 & _ & B5 & _)%fixed_eq). apply (H2 i j a b x); [done|done|congruence..].
  - intros i l' Hi Ht. destruct (Hl i l' Hs Hi) as (l & Hi' & (E1 & _ & _ & _ & _ & E6)%fixed_eq).
    apply E6. eapply H3; [done|congruence].
  - intros i j a' b' x Hi Ha Hax Hj Hbx.
    destruct (Hl i a' Hs Hi) as (a & Hi' & (A1 & _ & A3 & _)%fixed_eq),
      (Hl j b' Hs Hj) as (b & Hj' & (_ & B2 & _ & _ & B5 & _)%fixed_eq). rewrite <-B5. eapply (H4 i j a b x); [done|congruence..|done|congruence].
  - intros i a' b' Hi Ha Hj.
    destruct (Hl i a' Hs Hi) as (a & Hi' & (A1 & A2 & _)%fixed_eq),
      (Hl (S i) b' Hs Hj) as (b & Hj' & (B1 & B2 & _)%fixed_eq).
    destruct (H5 i a b Hi' ltac:(congruence) Hj'); [left; congruence|right; congruence].
  - intros i l' Hi He. destruct (Hl i l' Hs Hi) as (l & Hi' & E). pose proof (fixed_eq _ _ E) as (_ & _ & _ & E4 & _).
    rewrite <-E4. apply (H6 i l Hi'). unfold fixed in E. congruence.
Qed.

(** The steps of the code as changes of single lines. *)
Lemma alter_same f i ls : (∀ l, fixed (f l) = fixed l) → same_trace ls (alter f i ls).
Proof.
  intros Hf. apply list_eq. intros k. rewrite !list_lookup_fmap, list_lookup_alter.
  case_decide; subst; [|done]. destruct (ls !! k); simpl; by rewrite ?Hf.
Qed.
Lemma set_displayed_fixed b l : fixed (set_displayed b l) = fixed l.
Proof. done. Qed.
Lemma set_opened_fixed b l : fixed (set_opened b l) = fixed l.
Proof. done. Qed.
Lemma set_eye_fixed b l : fixed (set_eye b l) = fixed l.
Proof.
  unfold fixed. simpl. f_equal. apply bool_decide_ext. by destruct (eye l).
Qed.
#[local] Hint Resolve set_displayed_fixed set_opened_fixed set_eye_fixed alter_same : js.

Lemma display_where_same b P ls : same_trace ls (display_where b P ls).
Proof.
  unfold same_trace, display_where. change (map ?f ls) with (f <$> ls). rewrite <-list_fmap_compose.
  apply list_fmap_ext. intros i x Hx. simpl. by destruct (P x).
Qed.
Lemma display_where_lookup b P ls j :
  display_where b P ls !! j = (λ x, if P x then set_displayed b x else x) <$> ls !! j.
Proof. apply list_lookup_fmap. Qed.

Lemma hide_statements_same node p ls : same_trace ls (hide_statements node p ls).
Proof.
  revert p. induction ls as [|x ls IH]; intros p; [done|]. simpl.
  destruct (in_body node x); [destruct (ltype x)|]; try case_decide; try destruct p; unfold same_trace in *; simpl; by rewrite IH.
Qed.

Lemma hide_statements_lookup node p ls j l :
  ls !! j = Some l → ∃ b, hide_statements node p ls !! j = Some (set_displayed (displayed l && b) l) ∧
                          (in_body node l = false → b = true).
Proof.
  assert (∀ x, set_displayed (displayed x && true) x = x) as Ht by (intros []; unfold set_displayed; simpl; by rewrite andb_true_r).
  assert (∀ x, set_displayed (displayed x && false) x = set_displayed false x) as Hf by (intros []; unfold set_displayed; simpl; by rewrite andb_false_r).
  revert p j. induction ls as [|x ls IH]; intros p [|j] Hj; try done; simpl in Hj.
  - injection Hj as ->. simpl. destruct (in_body node l) eqn:E; [|exists true; by rewrite Ht].
    destruct (ltype l); try case_decide; try destruct p; simpl;
      first [by exists true; rewrite Ht|by exists false; rewrite Hf].
  - simpl. destruct (in_body node x); [destruct (ltype x)|]; try case_decide; try destruct p; simpl; by apply IH.
Qed.

(** ** Showing *)

(** A scope is visible when its header and all headers around it are open; a scope without
    header, such as that of a thread, is visible. *)
Inductive visible_scope (ls : list line) : nat → Prop :=
| vs_root x : (∀ i h, ls !! i = Some h → is_header h = true → body h ≠ Some x) → visible_scope ls x
| vs_header x i h : ls !! i = Some h → is_header h = true → body h = Some x → is_open h = true →
    visible_scope ls (scope h) → visible_scope ls x.

(** The invariant of the page: lines are displayed in visible scopes only, but for
    declarations that are loose. *)
Definition display_ok (ls : list line) : Prop :=
  ∀ i l, ls !! i = Some l → loose ls i = false → displayed l = true → visible_scope ls (scope l).

(** Opening scopes and showing lines of visible ones. *)
Record shows (ls ls' : list line) : Prop := {
  sh_same : same_trace ls ls';
  sh_open : ∀ i l l', ls !! i = Some l → ls' !! i = Some l' → is_open l = true → is_open l' = true;
  sh_line : ∀ i l l', ls !! i = Some l → ls' !! i = Some l' → displayed l' = true →
    displayed l = true ∨ visible_scope ls' (scope l')
}.

Lemma visible_mono ls ls' x :
  same_trace ls ls' → (∀ i l l', ls !! i = Some l → ls' !! i = Some l' → is_open l = true → is_open l' = true) →
  visible_scope ls x → visible_scope ls' x.
Proof.
  intros Hs Ho Hv. induction Hv as [x Hr|x i h Hi Hh Hb Hop _ IH].
  - apply vs_root. intros i h' Hi Hh'. destruct (same_trace_lookup _ _ _ _ Hs Hi) as (h & Hi' & (_ & _ & E3 & _ & E5 & _)%fixed_eq).
    rewrite <-E3. apply (Hr i h Hi'). congruence.
  - destruct (same_trace_lookup _ _ i h (same_trace_sym _ _ Hs) Hi) as (h' & Hi' & (_ & E2 & E3 & _ & E5 & _)%fixed_eq).
    apply (vs_header _ _ i h' Hi'); [congruence|congruence|by eapply Ho|congruence].
Qed.

Lemma shows_refl ls : shows ls ls.
Proof. split; [done|..]; intros; simplify_eq; auto. Qed.

Lemma shows_trans ls1 ls2 ls3 : shows ls1 ls2 → shows ls2 ls3 → shows ls1 ls3.
Proof.
  intros [S1 O1 L1] [S2 O2 L2]. split; [by etrans|..].
  - intros i l1 l3 H1 H3 Ho. destruct (same_trace_lookup _ _ _ _ S2 H3) as (l2 & H2 & _). eauto.
  - intros i l1 l3 H1 H3 Hd. destruct (same_trace_lookup _ _ _ _ S2 H3) as (l2 & H2 & (_ & E2 & _)%fixed_eq).
    destruct (L2 i l2 l3 H2 H3 Hd) as [Hd2|Hv]; [|by right].
    destruct (L1 i l1 l2 H1 H2 Hd2) as [?|Hv]; [by left|right]. rewrite <-E2. by eapply visible_mono.
Qed.

Lemma shows_ok ls ls' : shows ls ls' → display_ok ls → display_ok ls'.
Proof.
  intros [S O L] Hd i l' Hi Hn Hl. destruct (same_trace_lookup _ _ _ _ S Hi) as (l & Hi' & (_ & E2 & _)%fixed_eq).
  rewrite (loose_same ls) in Hn by done.
  destruct (L i l l' Hi' Hi Hl) as [H|H]; [|done]. rewrite <-E2. eapply visible_mono; [done|done|by eapply Hd].
Qed.

Lemma shows_visible ls ls' x : shows ls ls' → visible_scope ls x → visible_scope ls' x.
Proof. intros [S O _]. by apply visible_mono. Qed.

(** Displaying lines whose scope is visible. *)
Lemma display_where_shows P ls :
  (∀ i l, ls !! i = Some l → P l = true → visible_scope ls (scope l)) → shows ls (display_where true P ls).
Proof.
  intros HP. assert (∀ x, visible_scope ls x → visible_scope (display_where true P ls) x) as Hv.
  { intros x. apply visible_mono; [apply display_where_same|]. intros i l l' Hi Hi' Ho.
    rewrite display_where_lookup, Hi in Hi'. injection Hi' as <-. by destruct (P l). }
  split; [apply display_where_same|..]; intros i l l' Hi Hi'; rewrite display_where_lookup, Hi in Hi'; injection Hi' as <-.
  - by destruct (P l).
  - destruct (P l) eqn:E; [|by left]. intros _. right. exact (Hv _ (HP i l Hi E)).
Qed.

Lemma display_line_shows i l ls : ls !! i = Some l → visible_scope ls (scope l) → shows ls (alter (set_displayed true) i ls).
Proof.
  intros Hi Hv.
  assert (∀ k x x', ls !! k = Some x → alter (set_displayed true) i ls !! k = Some x' →
    is_open x' = is_open x ∧ (k ≠ i → x' = x) ∧ scope x' = scope x) as Hl.
  { intros k x x' Hk Hk'. rewrite list_lookup_alter in Hk'. case_decide; subst; rewrite Hk in Hk'; by injection Hk' as <-. }
  split; [auto with js|..].
  - intros k x x' Hk Hk'. by destruct (Hl k x x' Hk Hk') as [-> _].
  - intros k x x' Hk Hk' Hd. destruct (Hl k x x' Hk Hk') as (_ & Hne & ->). destruct (decide (k = i)) as [->|Hki].
    + right. simplify_eq. eapply visible_mono; [auto with js| |exact Hv].
      intros j y y' Hj Hj' Ho. by destruct (Hl j y y' Hj Hj') as [-> _].
    + left. by rewrite <-Hne.
Qed.

(** Opening a scope, by its flag or by the eye of a declaration block. *)
Lemma open_shows f i ls :
  (∀ l, fixed (f l) = fixed l ∧ displayed (f l) = displayed l ∧ (is_open l = true → is_open (f l) = true)) →
  shows ls (alter f i ls).
Proof.
  intros Hf.
  assert (∀ k x x', ls !! k = Some x → alter f i ls !! k = Some x' → x' = x ∨ x' = f x) as Hl.
  { intros k x x' Hk Hk'. rewrite list_lookup_alter in Hk'.
    case_decide; subst; rewrite Hk in Hk'; injection Hk' as <-; [by right|by left]. }
  split; [apply alter_same; intros l; by apply Hf|..]; intros k x x' Hk Hk'; destruct (Hf x) as (_ & E & Ho).
  - destruct (Hl k x x' Hk Hk') as [-> | ->]; auto.
  - left. destruct (Hl k x x' Hk Hk') as [-> | ->]; congruence.
Qed.

Lemma set_eye_open l : is_open l = true → is_open (set_eye true l) = true.
Proof.
  unfold is_open. simpl. case_decide; [|done]. rewrite bool_decide_eq_true. intros ->. done.
Qed.

Lemma body_visible ls i node x :
  ls !! i = Some node → is_header node = true → is_open node = true → visible_scope ls (scope node) →
  in_body node x = true → visible_scope ls (scope x).
Proof. intros Hi Hh Ho Hv Hb. apply bool_decide_eq_true in Hb. by eapply vs_header. Qed.

Lemma show_display_shows ls i node :
  trace_ok ls → ls !! i = Some node → visible_scope ls (scope node) → shows ls (show_display ls i).
Proof.
  intros Ht Hi Hv. unfold show_display. cbv zeta.
  assert (shows ls (alter (set_eye true) i ls)) as H1.
  { apply open_shows. intros l. split_and!; [apply set_eye_fixed|done|apply set_eye_open]. }
  assert (alter (set_eye true) i ls !! i = Some (set_eye true node)) as Hi1 by by rewrite list_lookup_alter_eq, Hi.
  pose proof (shows_visible _ _ _ H1 Hv) as Hv1. rewrite Hi1. set (ls1 := alter (set_eye true) i ls) in *. clearbody ls1.
  destruct (is_call (set_eye true node) && opened (set_eye true node)) eqn:E.
  - apply andb_prop in E as [E1 E2]. eapply shows_trans; [exact H1|]. apply display_where_shows.
    intros j l Hj [Hb _]%andb_prop. eapply body_visible; [exact Hi1| | |done|done].
    + unfold is_header. by rewrite E1.
    + unfold is_open. rewrite decide_False; [done|]. unfold is_call in E1. apply bool_decide_eq_true in E1. by destruct E1 as [->| ->].
  - case_decide as Hd; [|done]. eapply shows_trans; [exact H1|]. apply display_where_shows.
    intros j l Hj [Hb _]%andb_prop. eapply body_visible; [exact Hi1| | |done|done].
    + unfold is_header. by rewrite (bool_decide_true (ltype _ = Declarations)), orb_true_r.
    + unfold is_open. rewrite decide_True by done. apply bool_decide_eq_true. simpl in *.
      by destruct (t_eye _ Ht i node Hi Hd) as [b ->].
Qed.

Lemma elem_of_scope_lines ls node j : j ∈ scope_lines ls node ↔ ∃ x, ls !! j = Some x ∧ in_body node x = true.
Proof.
  unfold scope_lines. rewrite list_elem_of_filter, elem_of_seq. split.
  - intros [H _]. destruct (ls !! j) as [x|]; [|done]. exists x. split; [done|]. by injection H.
  - intros (x & Hx & Hb). rewrite Hx. simpl. rewrite Hb. split; [done|]. apply lookup_lt_Some in Hx. lia.
Qed.

(** The loops over the lines of a scope. *)
Lemma shows_loop (f : list line → nat → list line) js ls0 ls :
  (∀ ls j, shows ls0 ls → j ∈ js → shows ls (f ls j)) → shows ls0 ls → shows ls (foldl f ls js).
Proof.
  revert ls. induction js as [|j js IH]; intros ls Hf Hs; simpl; [apply shows_refl|].
  assert (shows ls (f ls j)) as H1 by (apply Hf; [done|left]).
  eapply shows_trans; [exact H1|]. apply IH; [|by eapply shows_trans].
  intros ls' k Hs' Hk. apply Hf; [done|by right].
Qed.

Lemma call_header l : is_call l = true → is_header l = true ∧ is_open l = opened l.
Proof.
  intros Hc. unfold is_header, is_open. rewrite Hc. split; [done|]. rewrite decide_False; [done|].
  unfold is_call in Hc. apply bool_decide_eq_true in Hc. by destruct Hc as [->| ->].
Qed.

(** Opening the scope of a line: its lines become visible. *)
Lemma open_scope_shows ls i node :
  ls !! i = Some node → is_call node = true → visible_scope ls (scope node) →
  let ls1 := if opened node then ls else alter (set_opened true) i ls in
  shows ls ls1 ∧ ∀ x, in_body node x = true → visible_scope ls1 (scope x).
Proof.
  intros Hi Hc Hv. cbv zeta. destruct (call_header node Hc) as [Hh Ho]. destruct (opened node) eqn:E.
  - split; [apply shows_refl|]. intros x Hx. by eapply body_visible.
  - assert (shows ls (alter (set_opened true) i ls)) as Hs.
    { apply open_shows. intros l. split_and!; [done|done|]. unfold is_open. simpl. by case_decide. }
    split; [done|]. intros x Hx. pose proof (shows_visible _ _ _ Hs Hv) as Hv1.
    assert (alter (set_opened true) i ls !! i = Some (set_opened true node)) as Hi1 by by rewrite list_lookup_alter_eq, Hi.
    eapply (body_visible _ i (set_opened true node) x Hi1); [done| |done|done].
    by destruct (call_header (set_opened true node) Hc) as [_ ->].
Qed.

(** The last step of both functions that show a scope. *)
Lemma show_display_after ls ls' i node :
  trace_ok ls → ls !! i = Some node → visible_scope ls (scope node) → shows ls ls' → shows ls (show_display ls' i).
Proof.
  intros Ht Hi Hv Hs. eapply shows_trans; [exact Hs|].
  destruct (same_trace_lookup _ _ i node (same_trace_sym _ _ (sh_same _ _ Hs)) Hi) as (node' & Hi' & (_ & E2 & _)%fixed_eq).
  eapply show_display_shows; [|exact Hi'|rewrite E2; by eapply shows_visible].
  eapply trace_ok_same; [apply Hs|done].
Qed.

(** A line the loop over a scope meets is in a visible scope. *)
Lemma loop_line_visible ls1 ls node j x :
  (∀ x, in_body node x = true → visible_scope ls1 (scope x)) → shows ls1 ls →
  j ∈ scope_lines ls1 node → ls !! j = Some x → visible_scope ls (scope x).
Proof.
  intros Hvis Hs Hj Hx. apply elem_of_scope_lines in Hj as (y & Hy & Hb).
  destruct (same_trace_lookup _ _ _ _ (sh_same _ _ Hs) Hx) as (x1 & Hx1 & (_ & E & _)%fixed_eq).
  assert (x1 = y) as -> by congruence. eapply shows_visible; [exact Hs|]. rewrite <-E. by apply Hvis.
Qed.

Lemma type_call x : (ltype x = FunctionCall ∨ ltype x = Action) → is_call x = true.
Proof. intros. by apply bool_decide_eq_true. Qed.

Lemma show_scope_shows n ls i node :
  trace_ok ls → ls !! i = Some node → is_call node = true → visible_scope ls (scope node) → shows ls (show_scope n ls i).
Proof.
  revert ls i node. induction n as [|n IH]; intros ls i node Ht Hi Hc Hv; cbn [show_scope]; rewrite Hi; cbv zeta;
    destruct (open_scope_shows ls i node Hi Hc Hv) as [Hs1 Hvis]; cbv zeta in Hs1, Hvis;
    set (ls1 := if opened node then ls else _) in *;
    apply (show_display_after _ _ _ _ Ht Hi Hv); [done|].
  eapply shows_trans; [exact Hs1|]. apply (shows_loop _ _ ls1); [|apply shows_refl]. intros ls3 j Hs3 Hj.
  destruct (ls3 !! j) as [x|] eqn:Hx; [|apply shows_refl].
  assert (trace_ok ls3) as Ht3 by (eapply trace_ok_same; [apply Hs3|]; eapply trace_ok_same; [apply Hs1|done]).
  pose proof (loop_line_visible ls1 ls3 node j x Hvis Hs3 Hj Hx) as Hvx.
  pose proof (display_line_shows j x ls3 Hx Hvx) as Hsj.
  assert (is_call x = true → shows ls3
    (let ls4 := if negb (commented x) || opened x then alter (set_displayed true) j ls3 else ls3 in
     if opened x then show_scope n ls4 j else ls4)) as Hcall.
  { intros Hcx. cbv zeta. destruct (opened x) eqn:Eo.
    - rewrite orb_true_r. eapply shows_trans; [exact Hsj|].
      apply (IH _ _ (set_displayed true x)); [|by rewrite list_lookup_alter_eq, Hx|done|by eapply shows_visible].
      eapply trace_ok_same; [apply Hsj|done].
    - rewrite orb_false_r. destruct (commented x); simpl; [apply shows_refl|done]. }
  destruct (ltype x) eqn:Et; try apply shows_refl; try done; apply Hcall, type_call; auto.
Qed.

Lemma show_scope_shift_shows n ls i node :
  trace_ok ls → ls !! i = Some node → is_call node = true → visible_scope ls (scope node) →
  shows ls (show_scope_shift n ls i).
Proof.
  revert ls i node. induction n as [|n IH]; intros ls i node Ht Hi Hc Hv; cbn [show_scope_shift]; rewrite Hi; cbv zeta;
    destruct (open_scope_shows ls i node Hi Hc Hv) as [Hs1 Hvis]; cbv zeta in Hs1, Hvis;
    set (ls1 := if opened node then ls else _) in *;
    apply (show_display_after _ _ _ _ Ht Hi Hv); [done|].
  eapply shows_trans; [exact Hs1|]. apply (shows_loop _ _ ls1); [|apply shows_refl]. intros ls3 j Hs3 Hj.
  destruct (ls3 !! j) as [x|] eqn:Hx; [|apply shows_refl].
  assert (trace_ok ls3) as Ht3 by (eapply trace_ok_same; [apply Hs3|]; eapply trace_ok_same; [apply Hs1|done]).
  pose proof (loop_line_visible ls1 ls3 node j x Hvis Hs3 Hj Hx) as Hvx.
  pose proof (display_line_shows j x ls3 Hx Hvx) as Hsj.
  assert (is_call x = true → shows ls3 (show_scope_shift n (alter (set_displayed true) j ls3) j)) as Hcall.
  { intros Hcx. eapply shows_trans; [exact Hsj|].
    apply (IH _ _ (set_displayed true x)); [|by rewrite list_lookup_alter_eq, Hx|done|by eapply shows_visible].
    eapply trace_ok_same; [apply Hsj|done]. }
  simpl. destruct (ltype x) eqn:Et; try apply shows_refl; try done; apply Hcall, type_call; auto.
Qed.

(** ** Hiding *)

(** The scopes inside a scope. *)
Definition child_scope (ls : list line) (x y : nat) : Prop :=
  ∃ k h, ls !! k = Some h ∧ is_header h = true ∧ scope h = x ∧ body h = Some y.
Abbreviation below ls := (rtc (child_scope ls)).

Lemma below_same ls ls' x y : same_trace ls ls' → below ls x y → below ls' x y.
Proof.
  intros Hs. apply rtc_subrel. intros a b (k & h & Hk & Hh & Ha & Hb).
  destruct (same_trace_lookup _ _ k h (same_trace_sym _ _ Hs) Hk) as (h' & Hk' & (_ & E2 & E3 & _ & E5 & _)%fixed_eq).
  exists k, h'. split_and!; [done|congruence..].
Qed.

(** Hiding changes the line [i] and the lines in and below the scope [x], and never displays
    a line or opens a scope. *)
Record hides (x i : nat) (ls ls' : list line) : Prop := {
  hd_same : same_trace ls ls';
  hd_out : ∀ j l, ls !! j = Some l → j ≠ i → ¬ below ls x (scope l) → ls' !! j = Some l;
  hd_displayed : ∀ j l l', ls !! j = Some l → ls' !! j = Some l' → displayed l' = true → displayed l = true;
  hd_open : ∀ j l l', ls !! j = Some l → ls' !! j = Some l' → is_open l' = true → is_open l = true
}.

Lemma hides_refl x i ls : hides x i ls ls.
Proof. split; try done; intros; by simplify_eq. Qed.

Lemma hides_trans x i ls1 ls2 ls3 : hides x i ls1 ls2 → hides x i ls2 ls3 → hides x i ls1 ls3.
Proof.
  intros [S1 O1 D1 P1] [S2 O2 D2 P2]. split; [by etrans|..].
  - intros j l Hj Hne Hb. apply O2; [by apply O1|done|]. intros Hb2. apply Hb. by eapply below_same, Hb2.
  - intros j l1 l3 H1 H3 Hd. destruct (same_trace_lookup _ _ _ _ S2 H3) as (l2 & H2 & _). eauto.
  - intros j l1 l3 H1 H3 Hd. destruct (same_trace_lookup _ _ _ _ S2 H3) as (l2 & H2 & _). eauto.
Qed.

(** A change to a line of the scope, or below it, is a change to the scope. *)
Lemma hides_inner x i y j ls ls' l :
  ls !! j = Some l → below ls x (scope l) → below ls x y → hides y j ls ls' → hides x i ls ls'.
Proof.
  intros Hj Hl Hy [S O D P]. split; try done. intros k z Hk Hki Hb.
  apply O; [done| |]; [intros ->; by simplify_eq|]. intros Hyz. apply Hb. by etrans.
Qed.

Lemma alter_hides x i f ls :
  (∀ l, fixed (f l) = fixed l ∧ (displayed (f l) = true → displayed l = true) ∧ (is_open (f l) = true → is_open l = true)) →
  hides x i ls (alter f i ls).
Proof.
  intros Hf.
  assert (∀ k z z', ls !! k = Some z → alter f i ls !! k = Some z' → z' = z ∨ z' = f z) as Hl.
  { intros k z z' Hk Hk'. rewrite list_lookup_alter in Hk'.
    case_decide; subst; rewrite Hk in Hk'; injection Hk' as <-; [by right|by left]. }
  split; [apply alter_same; intros l; by apply Hf|..].
  - intros j l Hj Hji _. by rewrite list_lookup_alter_ne.
  - intros k z z' Hk Hk'. destruct (Hf z) as (_ & H & _), (Hl k z z' Hk Hk') as [-> | ->]; auto.
  - intros k z z' Hk Hk'. destruct (Hf z) as (_ & _ & H), (Hl k z z' Hk Hk') as [-> | ->]; auto.
Qed.

(** The lines of a closed declaration block are hidden. *)
Definition decl_ok (ls : list line) : Prop :=
  ∀ k h j l, ls !! k = Some h → ltype h = Declarations → ls !! j = Some l → loose ls j = false →
    body h = Some (scope l) → displayed l = true → eye h = Some true.

(** Every line in or below a scope is hidden. *)
Definition hidden_below (x : nat) (ls : list line) : Prop :=
  ∀ j l, ls !! j = Some l → loose ls j = false → below ls x (scope l) → displayed l = false.

Lemma hidden_below_mono x y i ls ls' : hides y i ls ls' → hidden_below x ls → hidden_below x ls'.
Proof.
  intros [S _ D _] Hh j l' Hj Hn Hb. rewrite (loose_same ls) in Hn by done. destruct (same_trace_lookup _ _ _ _ S Hj) as (l & Hl & (_ & E & _)%fixed_eq).
  destruct (displayed l') eqn:Ed; [|done]. pose proof (D j l l' Hl Hj Ed) as Hdl.
  rewrite (Hh j l Hl Hn) in Hdl; [done|]. rewrite E. by eapply below_same, Hb.
Qed.

(** Hiding some lines of a scope, when the header is a block all of them. *)
Lemma hide_lines ls1 ls2 i node x :
  same_trace ls1 ls2 → ls1 !! i = Some node → body node = Some x →
  (∀ j l, ls1 !! j = Some l → ∃ b, ls2 !! j = Some (set_displayed (displayed l && b) l) ∧ (in_body node l = false → b = true)) →
  hides x i ls1 ls2.
Proof.
  intros Hs Hi Hb Hl.
  assert (∀ l, set_displayed (displayed l && true) l = l) as Htrue
    by (intros []; unfold set_displayed; simpl; by rewrite andb_true_r).
  split; [done|..].
  - intros j l Hj Hji Hbl. destruct (Hl j l Hj) as (b & Hj' & Hbb). rewrite Hj', Hbb; [by rewrite Htrue|].
    apply bool_decide_eq_false. intros Hbs. apply Hbl. rewrite Hb in Hbs. injection Hbs as ->. constructor.
  - intros j l l' Hj Hj' Hdd. destruct (Hl j l Hj) as (b & E & _). rewrite E in Hj'. injection Hj' as <-.
    simpl in Hdd. by apply andb_prop in Hdd as [? _].
  - intros j l l' Hj Hj' Hoo. destruct (Hl j l Hj) as (b & E & _). rewrite E in Hj'. by injection Hj' as <-.
Qed.

(** Closing the eye of a header and hiding lines of its scope, all of them for a block. *)
Lemma hide_step ls ls2 i node x :
  trace_ok ls → decl_ok ls → ls !! i = Some node → is_header node = true → body node = Some x →
  let ls1 := alter (set_eye false) i ls in
  same_trace ls1 ls2 →
  (∀ j l, ls1 !! j = Some l → ∃ b, ls2 !! j = Some (set_displayed (displayed l && b) l) ∧
                                   (in_body (set_eye false node) l = false → b = true)) →
  (ltype node = Declarations → ∀ j l, ls2 !! j = Some l → scope l = x → displayed l = false) →
  hides x i ls ls2 ∧ decl_ok ls2.
Proof.
  intros Ht Hd Hi Hh Hb. cbv zeta. set (ls1 := alter (set_eye false) i ls). intros Hs2 Hl2 Hdecl.
  assert (hides x i ls ls1) as H1.
  { apply alter_hides. intros l. split_and!; [apply set_eye_fixed|done|]. unfold is_open. simpl.
    case_decide; [|done]. destruct (eye l) as [b|]; [|done]. simpl. by rewrite bool_decide_eq_true. }
  assert (ls1 !! i = Some (set_eye false node)) as Hi1 by by unfold ls1; rewrite list_lookup_alter_eq, Hi.
  pose proof (hide_lines ls1 ls2 i (set_eye false node) x Hs2 Hi1 Hb Hl2) as H2.
  split; [by eapply hides_trans|]. intros k h j l Hk Hkt Hj Hnl Hkb Hdl.
  rewrite (loose_same ls) in Hnl by (etrans; [apply H1|done]).
  destruct (same_trace_lookup _ _ _ _ Hs2 Hk) as (h1 & Hk1 & _), (same_trace_lookup _ _ _ _ Hs2 Hj) as (l1 & Hj1 & _).
  destruct (decide (k = i)) as [->|Hki].
  - exfalso. destruct (Hl2 i _ Hi1) as (b & E & _). rewrite E in Hk. injection Hk as <-. simpl in *.
    rewrite (Hdecl Hkt j l Hj) in Hdl; [done|congruence].
  - destruct (Hl2 k h1 Hk1) as (b1 & E1 & _). rewrite E1 in Hk. injection Hk as <-.
    unfold ls1 in Hk1. rewrite list_lookup_alter_ne in Hk1 by done. simpl in *.
    pose proof (hd_displayed _ _ _ _ H2 j l1 l Hj1 Hj Hdl) as Hd1.
    destruct (same_trace_lookup _ _ _ _ (hd_same _ _ _ _ H1) Hj1) as (l0 & Hj0 & (_ & S0 & _)%fixed_eq).
    destruct (same_trace_lookup _ _ _ _ Hs2 Hj) as (l1' & Hj1' & (_ & S1 & _)%fixed_eq). simplify_eq.
    apply (Hd k h1 j l0 Hk1 Hkt Hj0); [done|congruence|]. by eapply (hd_displayed _ _ _ _ H1).
Qed.

(** [hide_display] on a header: on a function or an action it hides statements, on a block
    of declarations everything in it. *)
Lemma hide_display_hides ls i node x :
  trace_ok ls → decl_ok ls → ls !! i = Some node → is_header node = true → body node = Some x →
  hides x i ls (hide_display ls i) ∧ decl_ok (hide_display ls i) ∧
  (ltype node = Declarations → ∀ j l, hide_display ls i !! j = Some l → scope l = x → displayed l = false).
Proof.
  intros Ht Hd Hi Hh Hb. unfold hide_display. cbv zeta.
  rewrite (list_lookup_alter_eq (set_eye false) ls i), Hi. cbn [fmap option_fmap option_map].
  destruct (is_call (set_eye false node) && opened (set_eye false node)) eqn:E.
  - assert (ltype node ≠ Declarations) as Hnd.
    { apply andb_prop in E as [E _]. apply bool_decide_eq_true in E. simpl in E. by destruct E as [-> | ->]. }
    destruct (hide_step ls (hide_statements (set_eye false node) false (alter (set_eye false) i ls)) i node x Ht Hd Hi Hh Hb)
      as [H1 H2]; [apply hide_statements_same|intros j l; apply hide_statements_lookup|done|by split_and!].
  - assert (ltype node = Declarations ∨ ltype node ≠ Declarations) as [Hdn|Hdn] by (destruct (decide (ltype node = Declarations)); tauto).
    + rewrite decide_True by done.
      assert (ltype node = Declarations → ∀ j l, display_where false (in_body (set_eye false node)) (alter (set_eye false) i ls) !! j = Some l →
        scope l = x → displayed l = false) as Hall.
      { intros _ j l Hj Hx. rewrite display_where_lookup in Hj. apply fmap_Some in Hj as (l0 & _ & ->).
        destruct (in_body _ l0) eqn:Eb; [done|]. apply bool_decide_eq_false in Eb. exfalso. apply Eb. simpl. congruence. }
      destruct (hide_step ls (display_where false (in_body (set_eye false node)) (alter (set_eye false) i ls)) i node x Ht Hd Hi Hh Hb)
        as [H1 H2]; [apply display_where_same| |exact Hall|by split_and!].
      intros j l Hj. rewrite display_where_lookup, Hj. exists (negb (in_body (set_eye false node) l)). simpl.
      destruct (in_body _ l); simpl; (split; [|done]); [by rewrite andb_false_r|].
      f_equal. destruct l; unfold set_displayed; simpl. by rewrite andb_true_r.
    + rewrite decide_False by done.
      destruct (hide_step ls (alter (set_eye false) i ls) i node x Ht Hd Hi Hh Hb) as [H1 H2]; [done| |done|by split_and!].
      intros j l Hj. exists true. split; [|done]. rewrite Hj. f_equal. destruct l; unfold set_displayed; simpl. by rewrite andb_true_r.
Qed.

Lemma bodies_bounded ls i l x : ls !! i = Some l → body l = Some x → x ≤ max_scope ls.
Proof.
  intros Hi Hb. unfold max_scope. pose proof (proj1 (list_max_le (map (λ l, default 0 (body l)) ls) _) (le_n _)) as Hm.
  rewrite Forall_forall in Hm. apply Hm, list_elem_of_fmap. exists l. split; [by rewrite Hb|]. by eapply list_elem_of_lookup_2.
Qed.

(** What hiding a line of the scope and what is below it has to achieve. *)
Definition line_done (x j : nat) (ls : list line) : Prop :=
  ∀ h, ls !! j = Some h → displayed h = false ∧ (is_header h = true → ∀ y, body h = Some y → hidden_below y ls).

Lemma line_done_mono x y i j ls ls' : hides y i ls ls' → line_done x j ls → line_done x j ls'.
Proof.
  intros Hs Hd h' Hj. destruct (same_trace_lookup _ _ _ _ (hd_same _ _ _ _ Hs) Hj) as (h & Hj0 & (_ & _ & E3 & _ & E5 & _)%fixed_eq).
  destruct (Hd h Hj0) as [D1 D2]. split.
  - destruct (displayed h') eqn:E; [|done]. by rewrite (hd_displayed _ _ _ _ Hs j h h' Hj0 Hj E) in D1.
  - intros Hh z Hz. eapply hidden_below_mono; [exact Hs|]. apply D2; congruence.
Qed.

Lemma lines_done_hidden x ls :
  (∀ j l, ls !! j = Some l → scope l = x → line_done x j ls) → hidden_below x ls.
Proof.
  intros Hall j l Hj Hn Hb. apply rtc_inv in Hb as [Ex|(y & (k & h & Hk & Hh & Hx & Hy) & Hb)].
  - by apply (Hall j l Hj (eq_sym Ex) l Hj).
  - destruct (Hall k h Hk Hx h Hk) as [_ Hhb]. by eapply (Hhb Hh y Hy).
Qed.

Definition hide_spec (x i : nat) (ls ls' : list line) : Prop := hides x i ls ls' ∧ decl_ok ls' ∧ hidden_below x ls'.

Lemma hide_line_ok hide x i ls j l :
  trace_ok ls → decl_ok ls → ls !! j = Some l → scope l = x →
  (∀ ls' y node, trace_ok ls' → decl_ok ls' → same_trace ls ls' → ls' !! j = Some node → is_call node = true →
     body node = Some y → x < y → hide_spec y j ls' (hide ls' j)) →
  hides x i ls (hide_line hide ls j) ∧ decl_ok (hide_line hide ls j) ∧ line_done x j (hide_line hide ls j).
Proof.
  intros Ht Hd Hj Hx Hhide. unfold hide_line. cbv zeta. set (ls1 := alter (set_displayed false) j ls).
  assert (hides x j ls ls1) as H1.
  { apply alter_hides. intros z. split_and!; [done|done|]. unfold is_open. simpl. done. }
  assert (ls1 !! j = Some (set_displayed false l)) as Hj1 by by unfold ls1; rewrite list_lookup_alter_eq, Hj.
  assert (trace_ok ls1) as Ht1 by (eapply trace_ok_same; [apply H1|done]).
  assert (below ls x (scope l)) as Hbl by (rewrite Hx; constructor).
  assert (hides x i ls ls1) as H1i by (eapply (hides_inner x i x j ls ls1 l); [done|done|constructor|done]).
  assert (decl_ok ls1) as Hd1.
  { intros k h m z Hk Hkt Hm Hnl Hkb Hdz. rewrite (loose_same ls) in Hnl by apply H1. destruct (same_trace_lookup _ _ _ _ (hd_same _ _ _ _ H1) Hk) as (h0 & Hk0 & (T0 & _ & B0 & _)%fixed_eq).
    destruct (same_trace_lookup _ _ _ _ (hd_same _ _ _ _ H1) Hm) as (z0 & Hm0 & (_ & S0 & _)%fixed_eq).
    assert (eye h0 = Some true) as He.
    { apply (Hd k h0 m z0 Hk0); [congruence|done|done|congruence|]. by eapply (hd_displayed _ _ _ _ H1). }
    unfold ls1 in Hk. rewrite list_lookup_alter in Hk. case_decide; subst; rewrite Hk0 in Hk; by injection Hk as <-. }
  assert (∀ y ls2, child_scope ls x y → hides y j ls1 ls2 → hides x i ls ls2) as Hup.
  { intros y ls2 Hc H2. eapply hides_trans; [exact H1i|].
    eapply (hides_inner x i y j ls1 ls2); [exact Hj1|simpl; rewrite Hx; constructor| |exact H2].
    apply (below_same ls); [apply H1|]. by apply rtc_once. }
  (* the line itself stays hidden *)
  assert (∀ y ls2, hides y j ls1 ls2 → ∀ h, ls2 !! j = Some h → displayed h = false ∧ is_header h = is_header l ∧ body h = body l) as Hself.
  { intros y ls2 H2 h Hh. destruct (same_trace_lookup _ _ _ _ (hd_same _ _ _ _ H2) Hh) as (h1 & Hh1 & (_ & _ & E3 & _ & E5 & _)%fixed_eq).
    rewrite Hj1 in Hh1. injection Hh1 as <-. split_and!; [|done|done].
    destruct (displayed h) eqn:E; [|done]. by pose proof (hd_displayed _ _ _ _ H2 j _ h Hj1 Hh E). }
  rewrite Hj1. simpl.
  assert (is_call l = true → hides x i ls (hide ls1 j) ∧ decl_ok (hide ls1 j) ∧ line_done x j (hide ls1 j)) as Hcall.
  { intros Hc. destruct (call_header l Hc) as [Hh _]. destruct (t_nested _ Ht j l Hj Hh) as (y & Hy & Hlt).
    destruct (Hhide ls1 y (set_displayed false l) Ht1 Hd1 (hd_same _ _ _ _ H1) Hj1 Hc Hy) as (A & B & C); [by rewrite <-Hx|].
    split_and!; [eapply Hup; [|exact A]; by exists j, l|done|].
    intros h Hjh. destruct (Hself y _ A h Hjh) as (S1 & S2 & S3). split; [done|]. intros _ z Hz. assert (z = y) as -> by congruence. exact C. }
  assert (is_header l = false → hides x i ls ls1 ∧ decl_ok ls1 ∧ line_done x j ls1) as Hother.
  { intros Hn. split_and!; [done..|]. intros h Hjh. rewrite Hj1 in Hjh. injection Hjh as <-. split; [done|].
    intros Hh. unfold is_header, is_call in *. simpl in Hh. congruence. }
  destruct (ltype l) eqn:Et; try (apply Hcall, type_call; tauto);
    try (apply Hother; unfold is_header, is_call; rewrite Et; reflexivity).
  (* a block of declarations *)
  assert (is_header l = true) as Hh by (unfold is_header; rewrite Et; apply orb_true_r).
  destruct (t_nested _ Ht j l Hj Hh) as (y & Hy & Hlt).
  assert (child_scope ls x y) as Hc by by exists j, l.
  assert (∀ ls2, hides y j ls1 ls2 → (∀ k z, ls2 !! k = Some z → loose ls1 k = false → scope z = y → displayed z = false) → line_done x j ls2) as Hdone.
  { intros ls2 H2 Hz h Hjh. destruct (Hself y ls2 H2 h Hjh) as (S1 & S2 & S3). split; [done|].
    intros _ w Hw k z Hk Hnl Hb. rewrite (loose_same ls1) in Hnl by apply H2.
    assert (w = y) as -> by congruence. apply (Hz k z Hk Hnl).
    apply rtc_inv in Hb as [Ey|(v & (m & g & Hm & Hg & Hgy & _) & _)]; [done|]. exfalso.
    pose proof (same_trace_lookup _ _ _ _ (hd_same _ _ _ _ H2) Hm) as (g1 & Hm1 & (_ & G2 & _ & _ & G5 & _)%fixed_eq).
    assert (is_header g1 = false) as Hn; [|congruence].
    apply (t_leaf _ Ht1 j m (set_displayed false l) g1 y Hj1 Et Hy Hm1). congruence. }
  case_decide as He.
  - destruct (hide_display_hides ls1 j (set_displayed false l) y Ht1 Hd1 Hj1 Hh Hy) as (A & B & C).
    split_and!; [by eapply Hup|done|]. apply Hdone; [done|]. intros k z Hk _. by apply (C Et k z).
  - split_and!; [done..|]. apply Hdone; [apply hides_refl|]. intros k z Hk Hnl Hz.
    destruct (displayed z) eqn:Ez; [|done]. exfalso. apply He.
    apply (Hd1 j (set_displayed false l) k z Hj1 Et Hk Hnl); [simpl; congruence|done].
Qed.

Lemma max_scope_same ls ls' : same_trace ls ls' → max_scope ls' = max_scope ls.
Proof.
  intros Hs. unfold max_scope. f_equal. change (map ?f ?l) with (f <$> l).
  assert (∀ l : list line, (λ l, default 0 (body l)) <$> l =
    (λ t : line_type * nat * option nat * bool * nat * bool * bool, default 0 t.1.1.1.1.2) <$> (fixed <$> l)) as Hf
    by (intros l; by rewrite <-list_fmap_compose).
  by rewrite !Hf, Hs.
Qed.

Lemma hide_scope_ok n shift change ls i node x :
  trace_ok ls → decl_ok ls → ls !! i = Some node → is_call node = true → body node = Some x → max_scope ls < n + x →
  hide_spec x i ls (hide_scope n shift change ls i).
Proof.
  revert change ls i node x. induction n as [|n IH]; intros change ls i node x Ht Hd Hi Hc Hb Hn.
  { pose proof (bodies_bounded ls i node x Hi Hb). lia. }
  destruct (call_header node Hc) as [Hh _].
  destruct (hide_display_hides ls i node x Ht Hd Hi Hh Hb) as (H1 & Hd1 & _).
  cbn [hide_scope]. cbv zeta. set (ls1 := hide_display ls i) in *.
  destruct (same_trace_lookup _ _ i node (same_trace_sym _ _ (hd_same _ _ _ _ H1)) Hi) as (node1 & Hi1 & (T1 & S1 & B1 & C1 & _)%fixed_eq).
  rewrite Hi1. set (ls2 := if change && opened node1 then alter (set_opened false) i ls1 else ls1).
  assert (hides x i ls1 ls2 ∧ decl_ok ls2) as [H2 Hd2].
  { unfold ls2. destruct (change && opened node1); [|split; [apply hides_refl|done]].
    assert (hides x i ls1 (alter (set_opened false) i ls1)) as H2.
    { apply alter_hides. intros l. split_and!; [done|done|]. unfold is_open. simpl. case_decide; [done|discriminate]. }
    split; [done|]. intros k h j l Hk Hkt Hj Hnl Hkb Hdl. rewrite (loose_same ls1) in Hnl by apply H2.
    assert (ltype node1 ≠ Declarations) as Hnd.
    { rewrite T1. unfold is_call in Hc. apply bool_decide_eq_true in Hc. by destruct Hc as [-> | ->]. }
    assert (k ≠ i) as Hki by (intros ->; rewrite list_lookup_alter_eq, Hi1 in Hk; injection Hk as <-; done).
    rewrite list_lookup_alter_ne in Hk by done.
    destruct (same_trace_lookup _ _ _ _ (hd_same _ _ _ _ H2) Hj) as (l0 & Hj0 & (_ & S0 & _)%fixed_eq).
    apply (Hd1 k h j l0 Hk Hkt Hj0 Hnl); [congruence|]. by eapply (hd_displayed _ _ _ _ H2). }
  assert (hides x i ls ls2) as H12 by by eapply hides_trans.
  assert (trace_ok ls2) as Ht2 by (eapply trace_ok_same; [apply H12|done]).
  (* the loop *)
  assert (∀ js ls3, trace_ok ls3 → decl_ok ls3 → same_trace ls ls3 →
    (∀ j, j ∈ js → ∃ l, ls3 !! j = Some l ∧ scope l = x) →
    let ls4 := foldl (hide_line (hide_scope n shift shift)) ls3 js in
    hides x i ls3 ls4 ∧ decl_ok ls4 ∧ ∀ j, j ∈ js → line_done x j ls4) as Hloop.
  { intros js. induction js as [|j js IHj]; intros ls3 Ht3 Hd3 Hs3 Hjs; cbn [foldl]; cbv zeta.
    { split_and!; [apply hides_refl|done|]. by intros j ?%not_elem_of_nil. }
    destruct (Hjs j) as (l & Hj & Hx); [left|].
    destruct (hide_line_ok (hide_scope n shift shift) x i ls3 j l Ht3 Hd3 Hj Hx) as (A & B & C).
    { intros ls' y nd Ht' Hd' Hs' Hj' Hc' Hb' Hlt. apply (IH shift ls' j nd y Ht' Hd' Hj' Hc' Hb').
      rewrite (max_scope_same ls); [lia|]. by etrans. }
    destruct (IHj (hide_line (hide_scope n shift shift) ls3 j)) as (A' & B' & C'); [|done| | |].
    - eapply trace_ok_same; [apply A|done].
    - etrans; [exact Hs3|apply A].
    - intros k Hk. destruct (Hjs k) as (z & Hz & Hzx); [by right|].
      destruct (same_trace_lookup _ _ k z (same_trace_sym _ _ (hd_same _ _ _ _ A)) Hz) as (z' & Hz' & (_ & E & _)%fixed_eq).
      exists z'. split; [done|congruence].
    - split_and!; [by eapply hides_trans|done|]. intros k [->|Hk]%elem_of_cons; [by eapply line_done_mono|by apply C']. }
  assert (∀ j l, ls2 !! j = Some l → scope l = x ↔ in_body node1 l = true) as Hin.
  { intros j l _. unfold in_body. rewrite bool_decide_eq_true, B1, Hb. split; [by intros ->|intros E; by injection E]. }
  destruct (Hloop (scope_lines ls2 node1) ls2 Ht2 Hd2 (hd_same _ _ _ _ H12)) as (A & B & C).
  { intros j (l & Hj & Hl)%elem_of_scope_lines. exists l. split; [done|]. by apply (Hin j l). }
  split_and!; [by eapply hides_trans|done|]. apply lines_done_hidden. intros j l Hj Hl. apply C, elem_of_scope_lines.
  destruct (same_trace_lookup _ _ _ _ (hd_same _ _ _ _ A) Hj) as (l2 & Hj2 & (_ & E & _)%fixed_eq).
  exists l2. split; [done|]. apply (Hin j l2 Hj2). congruence.
Qed.

(** ** Clicks *)

Lemma display_decl_ok ls : trace_ok ls → display_ok ls → decl_ok ls.
Proof.
  intros Ht Hd k h j l Hk Hkt Hj Hnl Hb Hdl.
  assert (is_header h = true) as Hh by (unfold is_header; rewrite Hkt; apply orb_true_r).
  destruct (Hd j l Hj Hnl Hdl) as [x Hr|x i h' Hi Hh' Hb' Ho _]; [by destruct (Hr k h Hk Hh)|].
  pose proof (t_unique _ Ht i k h' h x Hi Hk Hh' Hh Hb' Hb) as ->. simplify_eq.
  unfold is_open in Ho. rewrite decide_True in Ho by done. by apply bool_decide_eq_true in Ho.
Qed.

(** Hiding what is below a scope leaves the other scopes visible. *)
Lemma hides_visible x i ls ls' node s :
  trace_ok ls → ls !! i = Some node → is_header node = true → body node = Some x → hides x i ls ls' →
  ¬ below ls x s → visible_scope ls s → visible_scope ls' s.
Proof.
  intros Ht Hi Hh Hb Hs Hn Hv. induction Hv as [s Hr|s k h Hk Hhk Hbk Ho _ IH].
  - apply vs_root. intros k h' Hk Hh'. destruct (same_trace_lookup _ _ _ _ (hd_same _ _ _ _ Hs) Hk) as (h & Hk0 & (_ & _ & E3 & _ & E5 & _)%fixed_eq).
    rewrite <-E3. apply (Hr k h Hk0). congruence.
  - assert (¬ below ls x (scope h)) as Hnh.
    { intros Hbl. apply Hn. eapply rtc_r; [exact Hbl|]. by exists k, h. }
    assert (k ≠ i) as Hki by (intros ->; simplify_eq; apply Hn; constructor).
    apply (vs_header _ _ k h); [|done..|by apply IH]. by apply (hd_out _ _ _ _ Hs).
Qed.

Lemma hidden_display_ok x i ls ls' node :
  trace_ok ls → ls !! i = Some node → is_header node = true → body node = Some x →
  hides x i ls ls' → hidden_below x ls' → display_ok ls → display_ok ls'.
Proof.
  intros Ht Hi Hh Hb Hs Hbl Hd j l' Hj Hnl Hdl. pose proof Hnl as Hnl'.
  rewrite (loose_same ls) in Hnl by apply Hs.
  destruct (same_trace_lookup _ _ _ _ (hd_same _ _ _ _ Hs) Hj) as (l & Hj0 & (_ & E2 & _)%fixed_eq).
  rewrite <-E2. eapply (hides_visible x i ls ls' node); [done..| |].
  - intros Hx. rewrite (Hbl j l' Hj Hnl') in Hdl; [done|]. rewrite <-E2. eapply below_same; [apply Hs|done].
  - apply (Hd j l Hj0 Hnl). by eapply (hd_displayed _ _ _ _ Hs).
Qed.

Lemma hide_scope_display_ok shift change ls i node :
  trace_ok ls → display_ok ls → ls !! i = Some node → is_call node = true →
  display_ok (hide_scope (S (max_scope ls)) shift change ls i).
Proof.
  intros Ht Hd Hi Hc. destruct (call_header node Hc) as [Hh _]. destruct (t_nested _ Ht i node Hi Hh) as (x & Hx & _).
  destruct (hide_scope_ok (S (max_scope ls)) shift change ls i node x Ht (display_decl_ok ls Ht Hd) Hi Hc Hx)
    as (A & _ & C); [lia|]. by eapply (hidden_display_ok x i ls).
Qed.

Lemma enter_click_ok shift ls i node :
  trace_ok ls → display_ok ls → ls !! i = Some node → is_call node = true → visible_scope ls (scope node) →
  display_ok (enter_click shift ls i) ∧ same_trace ls (enter_click shift ls i).
Proof.
  intros Ht Hd Hi Hc Hv. unfold enter_click. rewrite Hi. destruct (opened node) eqn:E.
  - split; [by eapply hide_scope_display_ok|].
    destruct (call_header node Hc) as [Hh _]. destruct (t_nested _ Ht i node Hi Hh) as (x & Hx & _).
    apply (hide_scope_ok (S (max_scope ls)) shift true ls i node x Ht (display_decl_ok ls Ht Hd) Hi Hc Hx). lia.
  - destruct shift.
    + pose proof (show_scope_shift_shows (S (max_scope ls)) ls i node Ht Hi Hc Hv) as H. split; [by eapply shows_ok|apply H].
    + pose proof (show_scope_shows (S (max_scope ls)) ls i node Ht Hi Hc Hv) as H. split; [by eapply shows_ok|apply H].
Qed.

Lemma hide_display_call_open ls i node k l l' :
  ls !! i = Some node → is_call node = true → ls !! k = Some l → hide_display ls i !! k = Some l' → is_open l' = is_open l.
Proof.
  intros Hi Hc Hk Hk'. assert (ltype node ≠ Declarations) as Hnd.
  { apply bool_decide_eq_true in Hc. by destruct Hc as [-> | ->]. }
  assert (∀ l1, alter (set_eye false) i ls !! k = Some l1 → is_open l1 = is_open l) as H1.
  { intros l1 H1. rewrite list_lookup_alter in H1. case_decide as Hki; [subst k|by simplify_eq].
    rewrite Hi in H1. simplify_eq/=. unfold is_open. simpl. by rewrite !decide_False. }
  unfold hide_display in Hk'. cbv zeta in Hk'. rewrite (list_lookup_alter_eq (set_eye false) ls i), Hi in Hk'.
  cbn [fmap option_fmap option_map] in Hk'.
  destruct (is_call (set_eye false node) && opened (set_eye false node)).
  - destruct (same_trace_lookup _ _ _ _ (hide_statements_same (set_eye false node) false _) Hk') as (l1 & Hl1 & _).
    destruct (hide_statements_lookup (set_eye false node) false _ k l1 Hl1) as (b & E & _). rewrite <-(H1 l1 Hl1).
    rewrite E in Hk'. by injection Hk' as <-.
  - rewrite decide_False in Hk' by done. by apply H1.
Qed.

Lemma eye_click_ok ls i node :
  trace_ok ls → display_ok ls → ls !! i = Some node → is_header node = true → visible_scope ls (scope node) →
  display_ok (eye_click ls i) ∧ same_trace ls (eye_click ls i).
Proof.
  intros Ht Hd Hi Hh Hv. unfold eye_click. rewrite Hi. simpl. destruct (eye node) as [[]|]; [| |done].
  - destruct (t_nested _ Ht i node Hi Hh) as (x & Hx & _).
    destruct (hide_display_hides ls i node x Ht (display_decl_ok ls Ht Hd) Hi Hh Hx) as (A & B & C).
    split; [|apply A]. destruct (decide (ltype node = Declarations)) as [Hdn|Hdn].
    + eapply (hidden_display_ok x i ls); [done..| |done]. intros j l Hj _ Hbl.
      destruct (same_trace_lookup _ _ _ _ (hd_same _ _ _ _ A) Hj) as (l0 & Hj0 & (_ & E & _)%fixed_eq).
      apply (C Hdn j l Hj). apply (below_same _ ls) in Hbl; [|apply same_trace_sym, A].
      apply rtc_inv in Hbl as [Ex|(y & (k & h & Hk & Hhk & Hs & _) & _)]; [done|].
      by rewrite (t_leaf _ Ht i k node h x Hi Hdn Hx Hk Hs) in Hhk.
    + assert (is_call node = true) as Hc.
      { unfold is_header in Hh. apply orb_prop in Hh as [Hh|Hh]; [done|]. by apply bool_decide_eq_true in Hh. }
      intros j l' Hj Hnl Hdl. rewrite (loose_same ls) in Hnl by apply A.
      destruct (same_trace_lookup _ _ _ _ (hd_same _ _ _ _ A) Hj) as (l & Hj0 & (_ & E & _)%fixed_eq).
      rewrite <-E. eapply visible_mono; [apply A| |apply (Hd j l Hj0 Hnl); by eapply (hd_displayed _ _ _ _ A)].
      intros k z z' Hk Hk' Ho. by rewrite (hide_display_call_open ls i node k z z').
  - pose proof (show_display_shows ls i node Ht Hi Hv) as H. split; [by eapply shows_ok|apply H].
Qed.

Lemma hide_line_alone_ok ls i : display_ok ls → display_ok (alter (set_displayed false) i ls).
Proof.
  intros Hd j l' Hj Hnl Hdl. rewrite (loose_same ls) in Hnl by auto with js.
  rewrite list_lookup_alter in Hj. case_decide as E.
  - subst. destruct (ls !! j); simplify_eq/=.
  - eapply visible_mono; [auto with js| |by eapply Hd]. intros k z z' Hk Hk' Ho.
    rewrite list_lookup_alter in Hk'. case_decide; subst; rewrite Hk in Hk'; by injection Hk' as <-.
Qed.

(** A loose line may be displayed anywhere. *)
Lemma show_loose_ok ls i : loose ls i = true → display_ok ls → display_ok (alter (set_displayed true) i ls).
Proof.
  intros Hl Hd j l' Hj Hnl Hdl. rewrite (loose_same ls) in Hnl by auto with js.
  rewrite list_lookup_alter in Hj. case_decide as E; [subst; congruence|].
  eapply visible_mono; [auto with js| |by eapply Hd]. intros k z z' Hk Hk' Ho.
  rewrite list_lookup_alter in Hk'. case_decide; subst; rewrite Hk in Hk'; by injection Hk' as <-.
Qed.

Lemma comment_click_ok ls i note node :
  trace_ok ls → display_ok ls → ls !! i = Some note → ltype note = Note → displayed note = true →
  ls !! S i = Some node → display_ok (comment_click ls i) ∧ same_trace ls (comment_click ls i).
Proof.
  intros Ht Hd Hn Hnt Hdn Hi. unfold comment_click. rewrite Hi. cbv zeta. pose proof (t_link _ Ht (S i) node Hi) as Hc.
  assert (scope node = scope note → visible_scope ls (scope node)) as Hv.
  { intros ->. apply (Hd i note Hn); [|done]. apply (not_loose ls i note Ht Hn). by rewrite Hnt. }
  destruct (decide (scope node = scope note)) as [Hs|Hs].
  - specialize (Hv Hs). destruct (displayed node).
    + destruct (opened node && enter_link node) eqn:E.
      * apply andb_prop in E as [_ E]. destruct (enter_click_ok false ls (S i) node Ht Hd Hi (Hc E) Hv) as [H1 H2].
        split; [by apply hide_line_alone_ok|]. etrans; [exact H2|]. auto with js.
      * split; [by apply hide_line_alone_ok|auto with js].
    + pose proof (display_line_shows (S i) node ls Hi Hv) as Hsh.
      pose proof (shows_ok _ _ Hsh Hd) as Hd1. destruct (enter_link node) eqn:E; [|split; [done|apply Hsh]].
      destruct (enter_click_ok false (alter (set_displayed true) (S i) ls) (S i) (set_displayed true node)) as [H1 H2];
        [eapply trace_ok_same; [apply Hsh|done]|done|by rewrite list_lookup_alter_eq, Hi|by apply Hc|by eapply shows_visible|].
      split; [done|]. etrans; [apply Hsh|exact H2].
  - assert (loose ls (S i) = true) as Hl.
    { cbn [loose]. rewrite Hn, Hi, Hnt. by rewrite !bool_decide_true. }
    pose proof (loose_declaration ls (S i) node Ht Hi Hl) as Hty.
    assert (enter_link node = false) as Hen.
    { destruct (enter_link node) eqn:E; [|done]. specialize (Hc eq_refl). unfold is_call in Hc. by rewrite Hty in Hc. }
    rewrite Hen, andb_false_r. destruct (displayed node).
    + split; [by apply hide_line_alone_ok|auto with js].
    + split; [by apply show_loose_ok|auto with js].
Qed.

(** The clicks of a user: on displayed lines, and on the triangle that closes a scope. *)
Inductive click (ls : list line) : list line → Prop :=
| Click_enter shift i l : ls !! i = Some l → displayed l = true → is_call l = true → click ls (enter_click shift ls i)
| Click_exit shift x i l : list_find (λ l, body l = Some x) ls = Some (i, l) → is_call l = true → click ls (exit_click shift ls x)
| Click_eye i l : ls !! i = Some l → displayed l = true → is_header l = true → click ls (eye_click ls i)
| Click_comment i l l' : ls !! i = Some l → ltype l = Note → displayed l = true → ls !! S i = Some l' →
    click ls (comment_click ls i).

Lemma click_ok ls ls' : trace_ok ls → display_ok ls → click ls ls' → display_ok ls' ∧ same_trace ls ls'.
Proof.
  intros Ht Hd [shift i l Hi Hl Hc|shift x i l Hf Hc|i l Hi Hl Hh|i l l' Hi Hn Hl Hi'].
  - apply (enter_click_ok shift ls i l Ht Hd Hi Hc). eapply Hd; [done| |done].
    apply (header_not_loose ls i l Ht Hi). by apply call_header.
  - unfold exit_click. rewrite Hf. apply list_find_Some in Hf as (Hi & Hx & _).
    split; [by eapply hide_scope_display_ok|]. destruct (hide_scope_ok (S (max_scope ls)) shift true ls i l x Ht
      (display_decl_ok ls Ht Hd) Hi Hc Hx) as (A & _); [lia|apply A].
  - apply (eye_click_ok ls i l Ht Hd Hi Hh). eapply Hd; [done| |done]. by apply (header_not_loose ls i l Ht Hi).
  - by apply (comment_click_ok ls i l l').
Qed.

(** A trace of one thread: an action with a block of declarations, a function call with a
    note, a statement and its exit. *)
Definition sample_line (t : line_type) (s : nat) (b : option nat) (e : option bool) (d : bool) : line :=
  Line t s b false 0 (bool_decide (t = FunctionCall ∨ t = Action)) false false e (default false e) d.
Definition sample : list line :=
  [sample_line Action 0 (Some 1) None true; sample_line Declarations 1 (Some 2) (Some false) false;
   sample_line Declaration 2 None None false; sample_line FunctionCall 1 (Some 3) (Some true) false;
   sample_line Note 3 None None false; sample_line Statement 3 None None false; sample_line Exit 3 None None false;
   sample_line Exit 1 None None false].

(** The lines with a property, found by evaluation. *)
Definition lines_with (P : line → bool) : list (nat * line) := filter (λ p, P p.2 = true) (imap pair sample).

Lemma lines_with_elem P i l : sample !! i = Some l → P l = true → (i, l) ∈ lines_with P.
Proof. intros Hi HP. apply list_elem_of_filter. split; [done|]. apply elem_of_lookup_imap. by exists i, l. Qed.

Ltac line_cases Hi P :=
  apply (lines_with_elem P) in Hi; [|done];
  match type of Hi with ?x ∈ ?l => let l' := eval vm_compute in l in change (x ∈ l') in Hi end;
  rewrite !elem_of_cons, elem_of_nil in Hi; destruct_or! Hi; injection Hi as -> ->.

Lemma sample_ok : trace_ok sample.
Proof.
  split.
  - intros i l Hi Hh. line_cases Hi is_header; try done; (eexists; split; [reflexivity|simpl; lia]).
  - intros i j l l' x Hi Hj Hh Hh' Hb Hb'. line_cases Hi is_header; injection Hb as <-; by line_cases Hj is_header.
  - intros i l Hi Ht. assert (is_header l = true) by (unfold is_header; rewrite Ht; apply orb_true_r).
    line_cases Hi is_header; first [done|by eexists].
  - intros i j l l' x Hi Ht Hb Hj Hs. destruct (is_header l') eqn:Hh'; [|done].
    assert (is_header l = true) by (unfold is_header; rewrite Ht; apply orb_true_r).
    line_cases Hi is_header; try done. injection Hb as <-. by line_cases Hj is_header.
  - intros i l l' Hi Ht Hj. assert (bool_decide (ltype l = Note) = true) by by apply bool_decide_eq_true.
    line_cases Hi (λ l, bool_decide (ltype l = Note)); vm_compute in Hj; injection Hj as <-; auto.
  - intros i l Hi He. by line_cases Hi enter_link.
Qed.

Lemma sample_display : display_ok sample.
Proof.
  intros i l Hi _ Hd. line_cases Hi displayed. apply vs_root. intros k h Hk Hh Hb. by line_cases Hk is_header.
Qed.

(** C21: whatever a user clicks on the page of an error trace (links and triangles with and
    without shift, eyes, notes), a line is displayed only when its scope and all scopes
    around it are open, but for declarations whose note the server left in another scope. *)
Theorem clicks_keep_display ls ls' : trace_ok ls → display_ok ls → rtc click ls ls' → display_ok ls'.
Proof.
  intros Ht Hd Hc. induction Hc as [ls|ls ls1 ls2 H1 _ IH]; [done|].
  destruct (click_ok ls ls1 Ht Hd H1) as [Hd1 Hs]. apply IH; [by eapply trace_ok_same|done].
Qed.

Lemma clicks_keep_display_witness :
  display_ok (exit_click true (eye_click (enter_click false (enter_click false sample 0) 3) 1) 1).
Proof.
  apply (clicks_keep_display sample); [exact sample_ok|exact sample_display|].
  eapply rtc_l; [by apply (Click_enter sample false 0 (sample_line Action 0 (Some 1) None true))|].
  eapply rtc_l; [eapply (Click_enter _ false 3); vm_compute; reflexivity|].
  eapply rtc_l; [eapply (Click_eye _ 1); vm_compute; reflexivity|].
  eapply rtc_l; [eapply (Click_exit _ true 1 0); vm_compute; reflexivity|]. constructor.
Defined.

(** closing a scope, by its link or by the triangle, hides every line in it and in the
    scopes below it, whatever was open there, and changes no line outside. *)
Theorem closing_hides_below shift ls i node x :
  trace_ok ls → display_ok ls → ls !! i = Some node → is_call node = true → opened node = true → body node = Some x →
  let ls' := enter_click shift ls i in
  (∀ j l, ls' !! j = Some l → loose ls' j = false → below ls' x (scope l) → displayed l = false) ∧
  (∀ j l, ls !! j = Some l → j ≠ i → ¬ below ls x (scope l) → ls' !! j = Some l).
Proof.
  intros Ht Hd Hi Hc Ho Hx. cbv zeta. unfold enter_click. rewrite Hi, Ho.
  destruct (hide_scope_ok (S (max_scope ls)) shift true ls i node x Ht (display_decl_ok ls Ht Hd) Hi Hc Hx)
    as (A & _ & C); [lia|]. split; [exact C|apply A].
Qed.

Definition sample_open : list line := enter_click false (enter_click false sample 0) 3.

Lemma closing_hides_below_witness :
  (filter (λ j, (displayed <$> sample_open !! j) = Some true) (seq 0 8) = [0; 1; 3; 4; 5; 6; 7]) ∧
  (∀ j l, enter_click false sample_open 0 !! j = Some l → loose (enter_click false sample_open 0) j = false →
     below (enter_click false sample_open 0) 1 (scope l) → displayed l = false).
Proof.
  split; [vm_compute; reflexivity|].
  assert (same_trace sample sample_open) as Hs by (vm_compute; reflexivity).
  refine (proj1 (closing_hides_below false sample_open 0 _ 1 _ _ eq_refl eq_refl eq_refl eq_refl)).
  - exact (trace_ok_same _ _ Hs sample_ok).
  - eapply (click_ok (enter_click false sample 0)).
    + eapply trace_ok_same; [|exact sample_ok]. vm_compute. reflexivity.
    + eapply (click_ok sample); [exact sample_ok|exact sample_display|].
      by apply (Click_enter sample false 0 (sample_line Action 0 (Some 1) None true)).
    + eapply (Click_enter _ false 3); vm_compute; reflexivity.
Defined.

(** An action with a block of declarations, one of which has a note of level 2: the note is
    in the scope of the action. The action is opened, the note is clicked, the action is
    closed: the declaration stays displayed, below a block and an action that are closed. *)
Definition noted : list line :=
  [sample_line Action 0 (Some 1) None true; sample_line Declarations 1 (Some 2) (Some false) false;
   Line Note 1 None false 2 false false false None false false; sample_line Declaration 2 None None false;
   sample_line Exit 1 None None false].

Lemma noted_declaration_stays :
  let ls := enter_click false (comment_click (enter_click false noted 0) 2) 0 in
  loose noted 3 = true ∧ opened <$> ls !! 0 = Some false ∧ eye <$> ls !! 1 = Some (Some false) ∧
  displayed <$> ls !! 2 = Some false ∧ displayed <$> ls !! 3 = Some true.
Proof. vm_compute. auto. Qed.

(** *** Opening with shift *)

Definition decls (l : line) : line_type * bool := (ltype l, bool_decide (ltype l = Declarations) && displayed l).

Lemma decls_alter f i (ls : list line) : (∀ l, ls !! i = Some l → decls (f l) = decls l) → decls <$> alter f i ls = decls <$> ls.
Proof.
  intros Hf. apply list_eq. intros k. rewrite !list_lookup_fmap, list_lookup_alter. case_decide; subst; [|done].
  destruct (ls !! k) eqn:E; simpl; [by rewrite Hf|done].
Qed.

Lemma show_display_decls ls i :
  (ltype <$> ls !! i) ≠ Some Declarations → decls <$> show_display ls i = decls <$> ls.
Proof.
  intros Hi. unfold show_display. cbv zeta. rewrite (list_lookup_alter_eq (set_eye true) ls i).
  assert (decls <$> alter (set_eye true) i ls = decls <$> ls) as Ha by by apply decls_alter.
  destruct (ls !! i) as [node|]; [|done]. cbn [fmap option_fmap option_map] in *.
  destruct (is_call (set_eye true node) && opened (set_eye true node)).
  - rewrite <-Ha. unfold display_where. change (map ?f ?l) with (f <$> l). rewrite <-list_fmap_compose.
    apply list_fmap_ext. intros k x _. simpl. destruct (in_body (set_eye true node) x); [|done]. simpl.
    unfold decls. destruct (ltype x) eqn:E; try done; simpl; try destruct (negb _); simpl; by rewrite ?E.
  - rewrite decide_False; [done|]. intros E. exact (Hi (f_equal Some E)).
Qed.

Lemma decls_type (ls ls' : list line) j : decls <$> ls' = decls <$> ls → (ltype <$> ls' !! j) = (ltype <$> ls !! j).
Proof.
  intros H. assert ((decls <$> ls') !! j = (decls <$> ls) !! j) as Hj by by rewrite H.
  rewrite !list_lookup_fmap in Hj. destruct (ls' !! j), (ls !! j); try done. simpl in *. unfold decls in Hj. congruence.
Qed.

Lemma show_scope_shift_decls n ls i :
  (ltype <$> ls !! i) ≠ Some Declarations → decls <$> show_scope_shift n ls i = decls <$> ls.
Proof.
  revert ls i. induction n as [|n IH]; intros ls i Hi; cbn [show_scope_shift];
    destruct (ls !! i) as [node|] eqn:Ei; try done; cbv zeta; set (ls1 := if opened node then ls else _);
    assert (decls <$> ls1 = decls <$> ls) as H1 by (unfold ls1; destruct (opened node); [done|by apply decls_alter]).
  - rewrite show_display_decls; [done|]. rewrite (decls_type _ _ _ H1). by rewrite Ei.
  - match goal with |- _ <$> show_display ?l _ = _ => assert (decls <$> l = decls <$> ls) as H2 end.
    { rewrite <-H1. clearbody ls1. generalize (scope_lines ls1 node) as js. intros js. clear -IH. revert ls1.
      induction js as [|j js IHj]; intros ls1; [done|]. cbn [foldl]. rewrite IHj. clear IHj.
      destruct (ls1 !! j) as [x|] eqn:Hx; [|done]. simpl.
      assert (ltype x ≠ Declarations → decls <$> alter (set_displayed true) j ls1 = decls <$> ls1) as Ha.
      { intros Hx'. apply decls_alter. intros l Hl. unfold decls. simplify_eq. simpl. by rewrite bool_decide_false. }
      destruct (ltype x) eqn:E; try done; try by apply Ha.
      all: rewrite IH, Ha by (try rewrite list_lookup_alter_eq, Hx; simpl; congruence); done. }
    rewrite show_display_decls; [exact H2|]. rewrite (decls_type _ _ _ H2). by rewrite Ei.
Qed.

(** opening a function or an action with shift opens everything below it but never
    displays the header of a block of declarations, which opening without shift displays. *)
Theorem shift_skips_declarations ls i node j l l' :
  ls !! i = Some node → is_call node = true → opened node = false →
  ls !! j = Some l → ltype l = Declarations → enter_click true ls i !! j = Some l' → displayed l' = displayed l.
Proof.
  intros Hi Hc Ho Hj Ht Hj'. unfold enter_click in Hj'. rewrite Hi, Ho in Hj'.
  assert (decls <$> show_scope_shift (S (max_scope ls)) ls i = decls <$> ls) as H.
  { apply show_scope_shift_decls. rewrite Hi. simpl. apply bool_decide_eq_true in Hc. by destruct Hc as [-> | ->]. }
  assert (decls l' = decls l) as E; [|unfold decls in E; rewrite Ht in E; injection E as -> E; exact E].
  apply (inj Some). apply (fmap_Some_2 decls) in Hj, Hj'. rewrite <-list_lookup_fmap in Hj, Hj'. congruence.
Qed.

Lemma shift_skips_declarations_witness :
  (displayed <$> enter_click false sample 0 !! 1) = Some true ∧
  (∀ l', enter_click true sample 0 !! 1 = Some l' → displayed l' = false).
Proof.
  split; [vm_compute; reflexivity|]. intros l' H.
  exact (shift_skips_declarations sample 0 _ 1 _ l' eq_refl eq_refl eq_refl eq_refl eq_refl H).
Defined.

End ErrorTrace.
