(* ===== verification/Crossings.v ===== *)
(** * Reducing the crossings of a hierarchical layout

    The graphs of reports are laid out in ranks (report-graph.js uses mxHierarchicalLayout).
    This file models the stage that orders the cells of each rank:
    mxMedianHybridCrossingReduction.js, with the connections of nodes and edges from
    mxGraphHierarchyNode.js and mxGraphHierarchyEdge.js. *)

From Stdlib Require Import QArith.
From stdpp Require Import sorting.
From S2P Require Import Prelude.
#[local] Open Scope nat_scope.

Module Crossings.

(** ** Cells of a hierarchy *)

(** A node of the graph, or an edge; an edge that passes ranks is a cell of each of them.
    [connectsAsTarget] and [connectsAsSource] are the edges of a node, [source] and [target]
    the nodes of an edge, [isReversed] whether they were exchanged, [temp_length] the length of its array [temp]. The stage does not
    change them; it only writes entries of [temp] that are there, which are kept apart. *)
Record hcell := HCell {
  isVertex : bool;
  maxRank : Z;
  minRank : Z;
  connectsAsTarget : list nat;
  connectsAsSource : list nat;
  source : nat;
  target : nat;
  isReversed : bool;
  temp_length : Z
}.
#[global] Instance hcell_inhabited : Inhabited hcell := populate (HCell true (-1) (-1) [] [] 0 0 false 0).

(** The entries of the arrays [temp] of all cells: by cell and index. *)
Abbreviation temps := (gmap (nat * Z) Z).

(** Conversion to a signed 32-bit integer, by the shift operators. *)
Definition int32 (x : Z) : Z := ((x + 2 ^ 31) mod 2 ^ 32 - 2 ^ 31)%Z.

Section Stage.
Context (cs : gmap nat hcell).

(** The cells of the next and the previous rank a node of rank [layer] is connected to. The
    code keeps the result in the node; what it is computed from stays the same during this
    stage, and a node is asked with its own rank only. *)
Definition node_next (layer : Z) (c : nat) : list nat :=
  map (λ e, if decide (maxRank (cs !!! e) = -1 ∨ maxRank (cs !!! e) = layer + 1)%Z
            then source (cs !!! e) else e) (connectsAsTarget (cs !!! c)).
Definition node_previous (layer : Z) (c : nat) : list nat :=
  map (λ e, if decide (minRank (cs !!! e) = -1 ∨ minRank (cs !!! e) = layer - 1)%Z
            then target (cs !!! e) else e) (connectsAsSource (cs !!! c)).

(** An edge is connected to itself in the ranks it passes; [None] is undefined. *)
Definition edge_next (layer : Z) (c : nat) : option (list nat) :=
  let i := (layer - minRank (cs !!! c) - 1)%Z in
  if decide (0 ≤ i < temp_length (cs !!! c))%Z
  then Some [if decide (i = temp_length (cs !!! c) - 1)%Z then source (cs !!! c) else c] else None.
Definition edge_previous (layer : Z) (c : nat) : option (list nat) :=
  let i := (layer - minRank (cs !!! c) - 1)%Z in
  if decide (0 ≤ i < temp_length (cs !!! c))%Z
  then Some [if decide (i = 0)%Z then target (cs !!! c) else c] else None.

Definition getNextLayerConnectedCells (layer : Z) (c : nat) : option (list nat) :=
  if isVertex (cs !!! c) then Some (node_next layer c) else edge_next layer c.
Definition getPreviousLayerConnectedCells (layer : Z) (c : nat) : option (list nat) :=
  if isVertex (cs !!! c) then Some (node_previous layer c) else edge_previous layer c.

(** The entry of [temp] for a rank. *)
Definition slot (layer : Z) (c : nat) : nat * Z :=
  (c, if isVertex (cs !!! c) then 0%Z else (layer - minRank (cs !!! c) - 1)%Z).
Definition getGeneralPurposeVariable (t : temps) (layer : Z) (c : nat) : option Z := t !! slot layer c.
Definition setGeneralPurposeVariable (layer : Z) (c : nat) (value : option Z) (t : temps) : temps :=
  partial_alter (λ _, value) (slot layer c) t.

(** ** Counting crossings *)

(** Doubles [firstIndex] from 1 until it reaches the length; in 32 bits it becomes 0 after
    32 steps, from where the loop of the code does not end: [None]. *)
Fixpoint first_index (n : nat) (firstIndex len : Z) : option Z :=
  if decide (firstIndex < len)%Z then
    match n with
    | 0 => None
    | S n => first_index n (int32 (firstIndex * 2)) len
    end
  else Some firstIndex.

(** [++tree[i]]; outside the array this makes NaN, which a missing entry stands for. *)
Definition increment (i : Z) (tree : gmap Z Z) : gmap Z Z := alter Z.succ i tree.

(** The way up from a leaf of the accumulator tree; [None] for the total is NaN. *)
Fixpoint climb (n : nat) (treeIndex : Z) (tree : gmap Z Z) (total : option Z) : gmap Z Z * option Z :=
  match n with
  | 0 => (tree, total)
  | S n =>
      if decide (0 < treeIndex)%Z then
        let total := if Z.odd treeIndex then s ← total; v ← tree !! (treeIndex + 1)%Z; Some (s + v)%Z else total in
        let treeIndex := Z.shiftr (int32 (treeIndex - 1)) 1 in
        climb n treeIndex (increment treeIndex tree) total
      else (tree, total)
  end.

Definition accumulate (firstIndex : Z) (acc : gmap Z Z * option Z) (index : Z) : gmap Z Z * option Z :=
  let treeIndex := (index + firstIndex)%Z in
  climb (Z.to_nat treeIndex) treeIndex (increment treeIndex acc.1) acc.2.

Definition new_tree (treeSize : Z) : gmap Z Z := list_to_map ((λ j, (j, 0%Z)) <$> seqZ 0 treeSize).

(** The length of an array with these entries. *)
Definition array_length {A} (a : gmap Z A) : Z := foldr (λ k n, Z.max (k + 1) n) 0%Z (map_to_list a).*1.

(** The positions of the cells below a cell of rank [i], sorted. *)
Definition nodeIndices (t : temps) (i : Z) (c : nat) : option (list Z) :=
  connectedCells ← getPreviousLayerConnectedCells i c;
  Some (merge_sort Z.le (omap (getGeneralPurposeVariable t (i - 1)) connectedCells)).

Fixpoint tmpIndices (t : temps) (i : Z) (rank : list nat) (tmp : gmap Z (list Z)) : option (gmap Z (list Z)) :=
  match rank with
  | [] => Some tmp
  | c :: rank =>
      l ← nodeIndices t i c;
      tmpIndices t i rank (match getGeneralPurposeVariable t i c with Some p => <[p := l]> tmp | None => tmp end)
  end.

(** The outer option is a TypeError or a loop that does not end, the inner one NaN. An
    undefined index takes part in no crossing. *)
Definition calculateRankCrossing (t : temps) (ranks : list (list nat)) (i : nat) : option (option Z) :=
  rank ← ranks !! i;
  previousRank ← ranks !! (i - 1);
  tmp ← tmpIndices t (Z.of_nat i) rank ∅;
  let indices := concat ((λ j, default [] (tmp !! j)) <$> seqZ 0 (array_length tmp)) in
  firstIndex ← first_index 32 1 (Z.of_nat (length previousRank));
  Some (foldl (accumulate (firstIndex - 1)) (new_tree (2 * firstIndex - 1), Some 0%Z) indices).2.

Definition add_number (x y : option Z) : option Z := x ← x; y ← y; Some (x + y)%Z.

Definition calculateCrossings (t : temps) (ranks : list (list nat)) : option (option Z) :=
  foldl (λ total i, total ← total; x ← calculateRankCrossing t ranks i; Some (add_number total x))
        (Some (Some 0%Z)) (seq 1 (length ranks - 1)).

(** ** Exchanging neighbours *)

(** A cell with the positions of the cells above and below it. *)
Record entry := Entry { cell : nat; above : list (option Z); below : list (option Z) }.

Definition entry_of (t : temps) (i : Z) (c : nat) : option entry :=
  aboveConnections ← getNextLayerConnectedCells i c;
  belowConnections ← getPreviousLayerConnectedCells i c;
  Some (Entry c (getGeneralPurposeVariable t (i + 1) <$> aboveConnections)
                (getGeneralPurposeVariable t (i - 1) <$> belowConnections)).

(** [x < y], which is false for undefined. *)
Definition less (x y : option Z) : bool :=
  match x, y with Some x, Some y => (x <? y)%Z | _, _ => false end.
Definition pairs_less (l r : list (option Z)) : nat := length (filter (λ p, less p.1 p.2 = true) (list_prod l r)).

Definition currentCrossings (l r : entry) : nat := pairs_less (above r) (above l) + pairs_less (below r) (below l).
Definition switchedCrossings (l r : entry) : nat := pairs_less (above l) (above r) + pairs_less (below l) (below r).

Fixpoint orderedCells (t : temps) (i : Z) (j : nat) (rank : list nat) (ordered : gmap Z nat) : gmap Z nat :=
  match rank with
  | [] => ordered
  | c :: rank =>
      orderedCells t i (S j) rank
        (match getGeneralPurposeVariable t i c with
         | Some tempRank => <[(if decide (tempRank < 0) then Z.of_nat j else tempRank) := c]> ordered
         | None => ordered
         end)%Z
  end.

(** The loop over neighbours of a rank, with the left one of the next pair. *)
Fixpoint transpose_pairs (nudge : bool) (i : Z) (ordered : gmap Z nat) (js : list nat) (left : entry)
    (t : temps) (improved : bool) : option (temps * bool) :=
  match js with
  | [] => Some (t, improved)
  | j :: js =>
      rightCell ← ordered !! Z.of_nat (S j);
      right ← entry_of t i rightCell;
      if decide (switchedCrossings left right < currentCrossings left right ∨
                 (switchedCrossings left right = currentCrossings left right ∧ nudge = true)) then
        let temp := getGeneralPurposeVariable t i (cell left) in
        let t := setGeneralPurposeVariable i (cell left) (getGeneralPurposeVariable t i (cell right)) t in
        let t := setGeneralPurposeVariable i (cell right) temp t in
        transpose_pairs nudge i ordered js left t (if nudge then improved else true)
      else transpose_pairs nudge i ordered js right t improved
  end.

Definition transpose_rank (nudge : bool) (i : Z) (rank : list nat) (t : temps) (improved : bool) : option (temps * bool) :=
  let ordered := orderedCells t i 0 rank ∅ in
  match seq 0 (length rank - 1) with
  | [] => Some (t, improved)
  | js =>
      leftCell ← ordered !! 0%Z;
      left ← entry_of t i leftCell;
      transpose_pairs nudge i ordered js left t improved
  end.

Fixpoint transpose_ranks (nudge : bool) (i : nat) (ranks : list (list nat)) (t : temps) (improved : bool)
    : option (temps * bool) :=
  match ranks with
  | [] => Some (t, improved)
  | rank :: ranks =>
      r ← transpose_rank nudge (Z.of_nat i) rank t improved; let '(t, improved) := r : temps * bool in
      transpose_ranks nudge (S i) ranks t improved
  end.

(** At most [n] more rounds, the next one is round [count]. *)
Fixpoint transpose_loop (n count : nat) (mainLoopIteration : nat) (ranks : list (list nat)) (t : temps) : option temps :=
  match n with
  | 0 => Some t
  | S n =>
      let nudge := Nat.odd mainLoopIteration && Nat.odd count in
      r ← transpose_ranks nudge 0 ranks t false; let '(t, improved) := r : temps * bool in
      if improved then transpose_loop n (S count) mainLoopIteration ranks t else Some t
  end.

Definition transpose (mainLoopIteration : nat) (ranks : list (list nat)) (t : temps) : option temps :=
  transpose_loop 10 1 mainLoopIteration ranks t.

(** ** Medians *)

Definition number (x : option Z) : option Q := inject_Z <$> x.

(** The weighted median of the positions of some cells; [None] is NaN. [sort] puts
    undefined positions last. The quotients are exact numbers here. *)
Definition medianValue (t : temps) (connectedCells : list nat) (rankValue : Z) : option Q :=
  let medianValues := merge_sort Z.le (omap (getGeneralPurposeVariable t rankValue) connectedCells) in
  let arrayCount := length connectedCells in
  if decide (arrayCount mod 2 = 1) then number (medianValues !! (arrayCount / 2))
  else if decide (arrayCount = 2) then
    a ← number (medianValues !! 0); b ← number (medianValues !! 1); Some ((a + b) / 2)%Q
  else
    let medianPoint := arrayCount / 2 in
    a ← number (medianValues !! (medianPoint - 1)); a0 ← number (medianValues !! 0);
    b0 ← number (medianValues !! (arrayCount - 1)); b ← number (medianValues !! medianPoint);
    let leftMedian := (a - a0)%Q in
    let rightMedian := (b0 - b)%Q in
    if Qeq_bool (leftMedian + rightMedian) 0 then None
    else Some ((a * rightMedian + b * leftMedian) / (leftMedian + rightMedian))%Q.

(** [MedianCellSorter.compare] as [a < b]. *)
Definition before (a b : option Q * nat) : bool :=
  match a.1, b.1 with Some x, Some y => negb (Qle_bool y x) | _, _ => false end.

Fixpoint insert_median (x : option Q * nat) (l : list (option Q * nat)) : list (option Q * nat) :=
  match l with
  | [] => [x]
  | y :: l => if before y x then y :: insert_median x l else x :: y :: l
  end.
Definition sort_medians (l : list (option Q * nat)) : list (option Q * nat) := foldr insert_median [] l.

Definition connected (downwardSweep : bool) (rankValue : Z) (c : nat) : list nat :=
  default [] (if downwardSweep then getNextLayerConnectedCells rankValue c else getPreviousLayerConnectedCells rankValue c).
Definition medianValues (t : temps) (downwardSweep : bool) (rankValue : Z) (cells : list nat) : list (option Q * nat) :=
  omap (λ c, match connected downwardSweep rankValue c with
             | [] => None
             | l => Some (medianValue t l (if downwardSweep then rankValue + 1 else rankValue - 1)%Z, c)
             end) cells.
Definition reservedPositions (t : temps) (downwardSweep : bool) (rankValue : Z) (cells : list nat) : list Z :=
  omap (λ c, match connected downwardSweep rankValue c with
             | [] => getGeneralPurposeVariable t rankValue c
             | _ => None
             end) cells.

(** The loop that hands out the free positions. *)
Fixpoint assign (rankValue : Z) (reserved : list Z) (js : list nat) (medians : list (option Q * nat)) (t : temps)
    : option temps :=
  match js with
  | [] => Some t
  | i :: js =>
      if decide (Z.of_nat i ∈ reserved) then assign rankValue reserved js medians t
      else match medians with
           | [] => None
           | (_, c) :: medians =>
               assign rankValue reserved js medians (setGeneralPurposeVariable rankValue c (Some (Z.of_nat i)) t)
           end
  end.

Definition medianRank (nestedBestRanks : list (list nat)) (downwardSweep : bool) (rankValue : nat) (t : temps) : option temps :=
  cells ← nestedBestRanks !! rankValue;
  let r := Z.of_nat rankValue in
  assign r (reservedPositions t downwardSweep r cells) (seq 0 (length cells))
    (sort_medians (medianValues t downwardSweep r cells)) t.

Definition median_ranks (nestedBestRanks : list (list nat)) (downwardSweep : bool) (js : list nat) (t : temps) : option temps :=
  foldl (λ t j, t ← t; medianRank nestedBestRanks downwardSweep j t) (Some t) js.

(** [model_maxRank] is the [maxRank] of the model. *)
Definition weightedMedian (iteration : nat) (model_maxRank : nat) (nestedBestRanks : list (list nat)) (t : temps) : option temps :=
  let downwardSweep := bool_decide (iteration mod 2 = 0) in
  if downwardSweep then median_ranks nestedBestRanks downwardSweep (reverse (seq 0 model_maxRank)) t
  else median_ranks nestedBestRanks downwardSweep (seq 1 (model_maxRank - 1)) t.

(** ** The stage *)

(** [a[p] = c] for a position in the array; elsewhere the array would get a hole. *)
Definition store_at (a : list nat) (p : option Z) (c : nat) : option (list nat) :=
  p ← p;
  if decide (0 ≤ p < Z.of_nat (length a))%Z then Some (<[Z.to_nat p := c]> a) else None.

Fixpoint store_rank (t : temps) (j : Z) (rank : list nat) (best : list nat) : option (list nat) :=
  match rank with
  | [] => Some best
  | c :: rank => best ← store_at best (getGeneralPurposeVariable t j c) c; store_rank t j rank best
  end.

Fixpoint store_ranks (t : temps) (j : nat) (ranks nestedBestRanks : list (list nat)) : option (list (list nat)) :=
  match nestedBestRanks with
  | [] => Some []
  | best :: nested =>
      rank ← ranks !! j;
      best ← store_rank t (Z.of_nat j) rank best;
      nested ← store_ranks t (S j) ranks nested;
      Some (best :: nested)
  end.

(** The loop under the comment "Restore the best values to the cells": every cell gets its
    index in its rank of the model. *)
Definition restore_rank (j : nat) (rank : list nat) (t : temps) : temps :=
  foldl (λ t p, setGeneralPurposeVariable (Z.of_nat j) p.2 (Some (Z.of_nat p.1)) t) t (imap pair rank).
Definition restore_ranks (ranks : list (list nat)) (t : temps) : temps :=
  foldl (λ t p, restore_rank p.1 p.2 t) t (imap pair ranks).

(** The main loop: [n] more iterations at most, the next one is the [i]-th. *)
Fixpoint iterate (n i : nat) (model_maxRank : nat) (ranks nested : list (list nat)) (best : option Z)
    (iterationsWithoutImprovement : nat) (t : temps) : option (list (list nat) * temps) :=
  match n with
  | 0 => Some (nested, t)
  | S n =>
      if decide (iterationsWithoutImprovement < 2) then
        t ← weightedMedian i model_maxRank nested t;
        t ← transpose i ranks t;
        candidate ← calculateCrossings t ranks;
        if less candidate best then
          nested ← store_ranks t 0 ranks nested;
          if decide (candidate = Some 0%Z) then Some (nested, t)
          else iterate n (S i) model_maxRank ranks nested candidate 0 t
        else
          let t := restore_ranks ranks t in
          if decide (best = Some 0%Z) then Some (nested, t)
          else iterate n (S i) model_maxRank ranks nested best (S iterationsWithoutImprovement) t
      else Some (nested, t)
  end.

(** The new ranks of the model and the entries of [temp]; a non-empty rank beyond
    [model_maxRank] is a TypeError. *)
Definition execute (model_maxRank : nat) (ranks : list (list nat)) (t : temps) : option (list (list nat) * temps) :=
  best ← calculateCrossings t ranks;
  r ← iterate 24 0 model_maxRank ranks ranks best 0 t; let '(nested, t) := r : list (list nat) * temps in
  if decide (Forall (.= []) (drop (S model_maxRank) nested))
  then Some ((λ i, default [] (nested !! i)) <$> seq 0 (S model_maxRank), t) else None.

End Stage.

(** ** Counting *)

Definition count {A} (f : A → bool) (l : list A) : Z := foldr (λ x n, (if f x then 1 else 0) + n)%Z 0%Z l.

Section Count.
Context {A : Type}.
Implicit Types (f g h : A → bool) (l : list A).

Lemma count_app f l k : count f (l ++ k) = (count f l + count f k)%Z.
Proof. induction l as [|x l IH]; simpl; [done|]. rewrite IH. lia. Qed.
Lemma count_perm f l k : l ≡ₚ k → count f l = count f k.
Proof. induction 1; simpl; lia. Qed.
Lemma count_ext f g l : (∀ x, x ∈ l → f x = g x) → count f l = count g l.
Proof.
  induction l as [|x l IH]; intros H; simpl; [done|]. rewrite (H x) by left. rewrite IH; [done|]. intros y Hy. apply H. by right.
Qed.
Lemma count_zero f l : (∀ x, x ∈ l → f x = false) → count f l = 0%Z.
Proof. intros H. rewrite (count_ext f (λ _, false) l H). clear H. by induction l. Qed.
Lemma count_sum f g h l :
  (∀ x, x ∈ l → ((if f x then 1 else 0) = (if g x then 1 else 0) + (if h x then 1 else 0))%Z) →
  count f l = (count g l + count h l)%Z.
Proof.
  induction l as [|x l IH]; intros H; simpl; [done|]. rewrite (H x) by left. rewrite IH; [lia|]. intros y Hy. apply H. by right.
Qed.
Lemma count_nonneg f l : (0 ≤ count f l)%Z.
Proof. induction l as [|x l IH]; simpl; [done|]. destruct (f x); lia. Qed.
End Count.

Lemma count_map {A B} (k : A → B) f (l : list A) : count f (map k l) = count (f ∘ k) l.
Proof. induction l as [|x l IH]; simpl; [done|]. by rewrite IH. Qed.

(** Pairs of an element of [l] and one of [k]. *)
Definition count_pairs {A B} (f : A → B → bool) (l : list A) (k : list B) : Z := count (λ p, f p.1 p.2) (list_prod l k).

Section Pairs.
Context {A B : Type} (f : A → B → bool).

Lemma count_pairs_nil (k : list B) : count_pairs f [] k = 0%Z.
Proof. done. Qed.
Lemma count_pairs_cons a (l : list A) (k : list B) : count_pairs f (a :: l) k = (count (f a) k + count_pairs f l k)%Z.
Proof. unfold count_pairs. simpl. rewrite count_app, count_map. done. Qed.
Lemma count_pairs_app (l1 l2 : list A) (k : list B) : count_pairs f (l1 ++ l2) k = (count_pairs f l1 k + count_pairs f l2 k)%Z.
Proof. induction l1 as [|a l1 IH]; [done|]. rewrite <-app_comm_cons, !count_pairs_cons, IH. lia. Qed.
Lemma count_pairs_app_r (l : list A) (k1 k2 : list B) : count_pairs f l (k1 ++ k2) = (count_pairs f l k1 + count_pairs f l k2)%Z.
Proof. induction l as [|a l IH]; [done|]. rewrite !count_pairs_cons, count_app, IH. lia. Qed.
Lemma count_pairs_cons_r (l : list A) b (k : list B) : count_pairs f l (b :: k) = (count (λ a, f a b) l + count_pairs f l k)%Z.
Proof. induction l as [|a l IH]; [done|]. rewrite !count_pairs_cons, IH. simpl. lia. Qed.
Lemma count_pairs_perm (l l' : list A) (k k' : list B) : l ≡ₚ l' → k ≡ₚ k' → count_pairs f l k = count_pairs f l' k'.
Proof.
  intros Hl Hk. transitivity (count_pairs f l' k).
  - induction Hl; rewrite ?count_pairs_cons; lia.
  - clear Hl. induction l' as [|a l' IH]; [done|]. rewrite !count_pairs_cons, IH. by rewrite (count_perm _ _ _ Hk).
Qed.
Lemma count_pairs_zero (l : list A) (k : list B) : (∀ a b, a ∈ l → b ∈ k → f a b = false) → count_pairs f l k = 0%Z.
Proof.
  induction l as [|a l IH]; intros H; [done|]. rewrite count_pairs_cons, (count_zero (f a)), IH; [done|..].
  - intros x y Hx Hy. apply H; [by right|done].
  - intros y Hy. apply H; [left|done].
Qed.
End Pairs.

Lemma count_pairs_map {A A' B B'} (f : A' → B' → bool) (g : A → A') (h : B → B') l k :
  count_pairs f (map g l) (map h k) = count_pairs (λ a b, f (g a) (h b)) l k.
Proof. induction l as [|a l IH]; [done|]. simpl. rewrite !count_pairs_cons, IH, count_map. done. Qed.

(** Pairs in the wrong order: [y] after [x] with [y < x]. *)
Fixpoint inversions (l : list Z) : Z :=
  match l with
  | [] => 0
  | x :: l => count (λ y, y <? x) l + inversions l
  end%Z.
Abbreviation wrong_pairs := (count_pairs (λ x y : Z, (y <? x)%Z)).

Lemma inversions_app l k : inversions (l ++ k) = (inversions l + wrong_pairs l k + inversions k)%Z.
Proof. induction l as [|x l IH]; simpl; [done|]. rewrite count_pairs_cons, count_app, IH. lia. Qed.

Lemma inversions_sorted l : StronglySorted Z.le l → inversions l = 0%Z.
Proof.
  induction 1 as [|x l _ IH Hx]; simpl; [done|]. rewrite IH, count_zero; [done|].
  intros y Hy. rewrite Forall_forall in Hx. specialize (Hx y Hy). lia.
Qed.

Ltac div_lia := Z.to_euclidean_division_equations; lia.

(** ** The accumulator tree *)

(** The tree has [2 ^ d] leaves; node [k] of the array is node [w = k + 1] of the heap in
    which the parent of [w] is [w / 2] and the leaf of [y] is [y + 2 ^ d]. *)
Section Tree.
Context (d : Z) (Hd : (0 ≤ d ≤ 30)%Z).

Definition leaf (y : Z) : Z := (y + 2 ^ d)%Z.
Definition up (y j : Z) : Z := Z.shiftr (leaf y) j.
Definition level (w : Z) : Z := (d - Z.log2 w)%Z.
(** The elements below a node. *)
Definition under (w y : Z) : bool := (up y (level w) =? w)%Z.
Definition in_range (y : Z) : Prop := (0 ≤ y < 2 ^ d)%Z.

Lemma up_succ y j : (0 ≤ j)%Z → up y (j + 1) = (up y j / 2)%Z.
Proof. intros Hj. unfold up. rewrite <-Z.shiftr_shiftr by lia. by rewrite Z.shiftr_div_pow2 by lia. Qed.

Lemma up_bounds y j : in_range y → (0 ≤ j ≤ d)%Z → (2 ^ (d - j) ≤ up y j < 2 ^ (d - j + 1))%Z.
Proof.
  intros Hy Hj. unfold up, leaf, in_range in *. rewrite Z.shiftr_div_pow2 by lia.
  assert (2 ^ d = 2 ^ (d - j) * 2 ^ j)%Z as E by (rewrite <-Z.pow_add_r by lia; f_equal; lia).
  assert (0 < 2 ^ j)%Z by (apply Z.pow_pos_nonneg; lia). rewrite Z.pow_add_r, Z.pow_1_r by lia.
  split; [apply Z.div_le_lower_bound; lia|apply Z.div_lt_upper_bound; nia].
Qed.

Lemma up_level y j : in_range y → (0 ≤ j ≤ d)%Z → level (up y j) = j.
Proof.
  intros Hy Hj. pose proof (up_bounds y j Hy Hj) as Hb. unfold level.
  rewrite (Z.log2_unique (up y j) (d - j)); [lia..|]. rewrite <-Z.add_1_r. lia.
Qed.

Lemma up_top y : in_range y → up y d = 1%Z.
Proof. intros Hy. pose proof (up_bounds y d Hy ltac:(lia)) as Hb. rewrite Z.sub_diag in Hb. simpl in Hb. lia. Qed.

Lemma level_bounds w : (1 ≤ w < 2 ^ (d + 1))%Z → (0 ≤ level w ≤ d)%Z.
Proof.
  intros Hw. unfold level. pose proof (Z.log2_nonneg w).
  assert (Z.log2 w < d + 1)%Z by (apply Z.log2_lt_pow2; lia). lia.
Qed.

(** The tree when [x] has been counted on the way up to level [j]. *)
Definition on_path (x j w : Z) : bool := under w x && (level w <=? j)%Z.
Definition tree_at (seen : list Z) (x j : Z) (tree : gmap Z Z) : Prop :=
  ∀ w, (1 ≤ w < 2 ^ (d + 1))%Z → tree !! (w - 1)%Z = Some (count (under w) seen + (if on_path x j w then 1 else 0))%Z.
Definition tree_ok (seen : list Z) (tree : gmap Z Z) : Prop :=
  ∀ w, (1 ≤ w < 2 ^ (d + 1))%Z → tree !! (w - 1)%Z = Some (count (under w) seen).

Lemma up_range y j : in_range y → (0 ≤ j ≤ d)%Z → (1 ≤ up y j < 2 ^ (d + 1))%Z.
Proof.
  intros Hy Hj. pose proof (up_bounds y j Hy Hj) as Hb. split.
  - pose proof (Z.pow_pos_nonneg 2 (d - j) ltac:(lia) ltac:(lia)). lia.
  - pose proof (Z.pow_le_mono_r 2 (d - j + 1) (d + 1) ltac:(lia) ltac:(lia)). lia.
Qed.

Lemma on_path_up x j : in_range x → (0 ≤ j ≤ d)%Z → on_path x j (up x j) = true.
Proof.
  intros Hx Hj. unfold on_path, under. rewrite (up_level x j Hx Hj), Z.eqb_refl. simpl. lia.
Qed.

Lemma on_path_succ x j w : in_range x → (0 ≤ j < d)%Z → (1 ≤ w < 2 ^ (d + 1))%Z → w ≠ up x (j + 1) → on_path x (j + 1) w = on_path x j w.
Proof.
  intros Hx Hj Hw Hne. unfold on_path, under. destruct (up x (level w) =? w)%Z eqn:E; [|done]. simpl.
  destruct (decide (level w = j + 1)%Z) as [El|El]; [|destruct (Z.leb_spec (level w) (j + 1)), (Z.leb_spec (level w) j); first [done|exfalso; lia]].
  exfalso. apply Hne. rewrite El in E. lia.
Qed.

Lemma on_path_other x j : in_range x → (0 ≤ j < d)%Z → on_path x j (up x (j + 1)) = false.
Proof.
  intros Hx Hj. unfold on_path. rewrite (up_level x (j + 1) Hx) by lia. apply andb_false_intro2. lia.
Qed.

Lemma tree_step seen x j tree :
  in_range x → (0 ≤ j < d)%Z → tree_at seen x j tree → tree_at seen x (j + 1) (increment (up x (j + 1) - 1) tree).
Proof.
  intros Hx Hj Ht w Hw. unfold increment. destruct (decide (w = up x (j + 1))) as [->|Hne].
  - rewrite lookup_alter_eq, (Ht _ Hw), on_path_other, on_path_up by (done || lia). simpl. f_equal; lia.
  - rewrite lookup_alter_ne by lia. rewrite (Ht w Hw). by rewrite on_path_succ.
Qed.

(** The right sibling of a left child. *)
Lemma sibling seen x j tree :
  in_range x → Forall in_range seen → (0 ≤ j < d)%Z → Z.even (up x j) = true → tree_at seen x j tree →
  tree !! up x j = Some (count (λ y, up y j =? up x j + 1)%Z seen).
Proof.
  intros Hx Hs Hj He Ht. pose proof (up_bounds x j Hx ltac:(lia)) as Hb. pose proof (up_range x j Hx ltac:(lia)) as Hr.
  assert (2 ^ (d - j + 1) = 2 * 2 ^ (d - j))%Z as E2 by (rewrite Z.pow_add_r by lia; lia).
  apply Z.even_spec in He as [h Hh].
  assert (2 ^ (d - j) = 2 * 2 ^ (d - j - 1))%Z as E3 by (rewrite <-Z.pow_succ_r by lia; f_equal; lia).
  assert (2 ^ (d - j) ≤ up x j + 1 < 2 ^ (d - j + 1))%Z as Hb1 by lia.
  assert (level (up x j + 1) = j) as El.
  { unfold level. rewrite (Z.log2_unique (up x j + 1) (d - j)); [lia..|]. rewrite <-Z.add_1_r. lia. }
  pose proof (Z.pow_le_mono_r 2 (d - j + 1) (d + 1) ltac:(lia) ltac:(lia)) as Hm.
  specialize (Ht (up x j + 1)%Z ltac:(lia)). replace (up x j + 1 - 1)%Z with (up x j) in Ht by lia. rewrite Ht. f_equal.
  unfold on_path, under. rewrite El.
  assert ((up x j =? up x j + 1)%Z = false) as -> by lia. simpl. rewrite Z.add_0_r. done.
Qed.

Lemma greater_split seen x j :
  in_range x → Forall in_range seen → (0 ≤ j < d)%Z →
  count (λ y, up x j <? up y j)%Z seen =
  ((if Z.even (up x j) then count (λ y, up y j =? up x j + 1)%Z seen else 0) +
   count (λ y, up x (j + 1) <? up y (j + 1)) seen)%Z.
Proof.
  intros Hx Hs Hj. pose proof (Zmod_even (up x j)) as He. destruct (Z.even (up x j)); cbv iota in He.
  - apply count_sum. intros y _. rewrite !up_succ by lia.
    destruct (Z.ltb_spec (up x j) (up y j)), (Z.eqb_spec (up y j) (up x j + 1)), (Z.ltb_spec (up x j / 2) (up y j / 2)); cbv iota; try done; div_lia.
  - apply count_ext. intros y _. rewrite !up_succ by lia.
    destruct (Z.ltb_spec (up x j) (up y j)), (Z.ltb_spec (up x j / 2) (up y j / 2)); cbv iota; try done; div_lia.
Qed.

Lemma int32_id z : (0 ≤ z < 2 ^ 31)%Z → int32 z = z.
Proof. intros Hz. unfold int32. rewrite Z.mod_small; lia. Qed.

Lemma parent_index x j : in_range x → (0 ≤ j < d)%Z → (2 ≤ up x j)%Z →
  Z.shiftr (int32 (up x j - 1 - 1)) 1 = (up x (j + 1) - 1)%Z.
Proof.
  intros Hx Hj Hu. pose proof (up_range x j Hx ltac:(lia)) as Hr.
  pose proof (Z.pow_le_mono_r 2 (d + 1) 31 ltac:(lia) ltac:(lia)) as Hm.
  rewrite int32_id by lia. rewrite up_succ, Z.shiftr_div_pow2 by lia. change (2 ^ 1)%Z with 2%Z. div_lia.
Qed.

Lemma climb_spec n x j seen tree s :
  in_range x → Forall in_range seen → (0 ≤ j ≤ d)%Z → tree_at seen x j tree → (up x j - 1 ≤ Z.of_nat n)%Z →
  let r := climb n (up x j - 1) tree (Some s) in
  tree_at seen x d r.1 ∧ r.2 = Some (s + count (λ y, up x j <? up y j)%Z seen)%Z.
Proof.
  intros Hx Hs. revert j tree s. induction n as [|n IH]; intros j tree s Hj Ht Hn; cbv zeta;
    pose proof (up_range x j Hx Hj) as Hr; pose proof (up_bounds x j Hx Hj) as Hb.
  all: assert (up x j = 1 → tree_at seen x d tree ∧ s = s + count (λ y, up x j <? up y j) seen)%Z as Htop.
  1,3: intros E; assert (j = d) as ->;
    [destruct (decide (j = d)); [done|]; pose proof (Z.pow_gt_1 2 (d - j) ltac:(lia)); lia|];
    split; [done|]; rewrite count_zero; [lia|]; intros y Hy; rewrite Forall_forall in Hs;
    rewrite (up_top y (Hs y Hy)), E; done.
  - simpl. destruct Htop as [H1 H2]; [lia|]. split; [done|]. by rewrite <-H2.
  - cbn [climb]. destruct (decide (0 < up x j - 1)%Z) as [Hp|Hp].
    2:{ destruct Htop as [H1 H2]; [lia|]. split; [done|]. simpl. by rewrite <-H2. }
    assert (j ≠ d) as Hjd by (intros ->; rewrite (up_top x Hx) in Hp; lia).
    rewrite (parent_index x j) by (done || lia).
    assert ((if Z.odd (up x j - 1) then s0 ← Some s; v ← tree !! (up x j - 1 + 1)%Z; Some (s0 + v)%Z else Some s) =
      Some (s + if Z.even (up x j) then count (λ y, up y j =? up x j + 1)%Z seen else 0)%Z) as ->.
    { rewrite Z.odd_sub, Z.odd_1, xorb_true_r, Z.negb_odd. destruct (Z.even (up x j)) eqn:E; [|by rewrite Z.add_0_r].
      simpl. replace (up x j - 1 + 1)%Z with (up x j) by lia. by rewrite (sibling seen x j tree) by (done || lia). }
    destruct (IH (j + 1)%Z (increment (up x (j + 1) - 1) tree)
      (s + if Z.even (up x j) then count (λ y, up y j =? up x j + 1)%Z seen else 0)%Z) as [H1 H2];
      [lia|apply tree_step; done || lia|rewrite up_succ by lia; div_lia|].
    split; [exact H1|]. rewrite H2. f_equal. rewrite (greater_split seen x j) by (done || lia). lia.
Qed.

Lemma accumulate_spec x seen tree s :
  in_range x → Forall in_range seen → tree_ok seen tree →
  let r := accumulate (2 ^ d - 1) (tree, Some s) x in
  tree_ok (x :: seen) r.1 ∧ r.2 = Some (s + count (λ y, x <? y)%Z seen)%Z.
Proof.
  intros Hx Hs Ht. cbv zeta. unfold accumulate. cbn [fst snd].
  assert (up x 0 = x + 2 ^ d)%Z as E0 by (unfold up, leaf; by rewrite Z.shiftr_0_r).
  replace (x + (2 ^ d - 1))%Z with (up x 0 - 1)%Z by lia.
  pose proof (up_range x 0 Hx ltac:(lia)) as Hr.
  destruct (climb_spec (Z.to_nat (up x 0 - 1)) x 0 seen (increment (up x 0 - 1) tree) s) as [H1 H2]; [done|done|lia| |lia|].
  - intros w Hw. unfold increment. pose proof (level_bounds w Hw) as Hl. destruct (decide (w = up x 0)) as [->|Hne].
    + rewrite lookup_alter_eq, (Ht _ Hw), on_path_up by (done || lia). simpl. try done; f_equal; lia.
    + rewrite lookup_alter_ne by lia. rewrite (Ht w Hw). f_equal.
      assert (on_path x 0 w = false) as ->; [|lia]. unfold on_path, under.
      destruct (Z.leb_spec (level w) 0); [|by rewrite andb_false_r]. replace (level w) with 0%Z by lia.
      apply andb_false_intro1. lia.
  - split.
    + intros w Hw. rewrite (H1 w Hw). simpl. f_equal. unfold on_path. pose proof (level_bounds w Hw).
      assert ((level w <=? d)%Z = true) as -> by lia. rewrite andb_true_r. lia.
    + rewrite H2. do 2 f_equal. apply count_ext. intros y _. unfold up, leaf. rewrite !Z.shiftr_0_r.
      destruct (Z.ltb_spec (x + 2 ^ d) (y + 2 ^ d)), (Z.ltb_spec x y); lia.
Qed.

Lemma accumulate_all indices seen tree s :
  Forall in_range indices → Forall in_range seen → tree_ok seen tree →
  (foldl (accumulate (2 ^ d - 1)) (tree, Some s) indices).2 = Some (s + wrong_pairs seen indices + inversions indices)%Z.
Proof.
  revert seen tree s. induction indices as [|x indices IH]; intros seen tree s Hi Hs Ht; simpl.
  - rewrite (count_pairs_zero _ seen []); [f_equal; lia|]. by intros a b _ ?%not_elem_of_nil.
  - inversion_clear Hi as [|? ? Hx Hi']. destruct (accumulate_spec x seen tree s Hx Hs Ht) as [H1 H2].
    destruct (accumulate (2 ^ d - 1) (tree, Some s) x) as [tree' total]. simpl in H1, H2. rewrite H2.
    rewrite (IH (x :: seen)); [|done|by constructor|done]. f_equal.
    rewrite count_pairs_cons, count_pairs_cons_r. lia.
Qed.

Lemma new_tree_ok : tree_ok [] (new_tree (2 * 2 ^ d - 1)).
Proof.
  intros w Hw. unfold new_tree. rewrite Z.pow_add_r in Hw by lia. apply elem_of_list_to_map_1.
  - rewrite <-list_fmap_compose. rewrite (list_fmap_ext _ id), list_fmap_id by done. apply NoDup_seqZ.
  - apply list_elem_of_fmap. exists (w - 1)%Z. split; [done|]. apply elem_of_seqZ. lia.
Qed.

End Tree.

(** ** Crossings of ordered ranks *)

(** The position of a cell in the order of its rank. *)
Definition position (low : list nat) (c : nat) : option Z := (λ p, Z.of_nat p.1) <$> list_find (.= c) low.

(** Two connections, given by the positions of their upper and lower ends, cross. *)
Definition crosses (l l' : Z * Z) : bool := (l.1 <? l'.1)%Z && (l'.2 <? l.2)%Z.
Definition blocks_links (k : nat) (bs : list (list Z)) : list (Z * Z) :=
  concat (imap (λ p l, pair (Z.of_nat (k + p)) <$> l) bs).

Lemma blocks_links_cons k b bs : blocks_links k (b :: bs) = (pair (Z.of_nat k) <$> b) ++ blocks_links (S k) bs.
Proof.
  unfold blocks_links. rewrite imap_cons. simpl. rewrite Nat.add_0_r. do 2 f_equal.
  apply imap_ext. intros p l _. simpl. do 2 f_equal. lia.
Qed.

Lemma blocks_links_bound k bs l : l ∈ blocks_links k bs → (Z.of_nat k ≤ l.1)%Z.
Proof.
  revert k. induction bs as [|b bs IH]; intros k; [by intros ?%not_elem_of_nil|].
  rewrite blocks_links_cons. intros [(q & -> & _)%list_elem_of_fmap|H]%elem_of_app; simpl; [lia|]. specialize (IH _ H). lia.
Qed.

Lemma blocks_links_snd k bs : snd <$> blocks_links k bs = concat bs.
Proof.
  revert k. induction bs as [|b bs IH]; intros k; [done|]. rewrite blocks_links_cons, fmap_app, IH. simpl. f_equal.
  rewrite <-list_fmap_compose. apply list_fmap_id.
Qed.

Lemma crosses_later k b r :
  (∀ l, l ∈ r → k < l.1)%Z → count_pairs crosses (pair k <$> b) r = wrong_pairs b (snd <$> r).
Proof.
  intros Hr. induction b as [|x b IH]; [done|]. rewrite fmap_cons, !count_pairs_cons, IH. f_equal.
  change (snd <$> r) with (map snd r). rewrite count_map. apply count_ext. intros l Hl. unfold crosses. simpl.
  specialize (Hr l Hl). by assert ((k <? l.1)%Z = true) as -> by lia.
Qed.

Lemma crossings_blocks k bs :
  count_pairs crosses (blocks_links k bs) (blocks_links k bs) = inversions (concat (merge_sort Z.le <$> bs)).
Proof.
  revert k. induction bs as [|b bs IH]; intros k; [done|]. rewrite blocks_links_cons, fmap_cons. cbn [concat].
  rewrite inversions_app, inversions_sorted, <-(IH (S k)) by exact (StronglySorted_merge_sort Z.le b).
  set (r := blocks_links (S k) bs). rewrite count_pairs_app, !count_pairs_app_r.
  rewrite (count_pairs_zero crosses (pair (Z.of_nat k) <$> b) (pair (Z.of_nat k) <$> b)).
  2:{ intros x y (q & -> & _)%list_elem_of_fmap (q' & -> & _)%list_elem_of_fmap. unfold crosses. simpl. by rewrite Z.ltb_irrefl. }
  rewrite (count_pairs_zero crosses r (pair (Z.of_nat k) <$> b)).
  2:{ intros x y Hx%blocks_links_bound (q' & -> & _)%list_elem_of_fmap. unfold crosses. simpl.
      apply andb_false_intro1. lia. }
  assert (count_pairs crosses (pair (Z.of_nat k) <$> b) r = wrong_pairs (merge_sort Z.le b) (concat (merge_sort Z.le <$> bs))) as ->; [|lia].
  transitivity (wrong_pairs b (snd <$> r)).
  - apply crosses_later. intros l Hl%blocks_links_bound. lia.
  - unfold r. rewrite blocks_links_snd. apply count_pairs_perm; [by rewrite merge_sort_Permutation|].
    clear. induction bs as [|b bs IH]; [done|]. simpl. by rewrite IH, merge_sort_Permutation.
Qed.

Section Ranks.
Context (cs : gmap nat hcell).

(** Ranks as fixRanks builds them: a rank holds a cell once, a node is in one rank, cells are
    connected to cells of the neighbouring ranks; and no rank has more than 2^30 cells. *)
Record layered (ranks : list (list nat)) : Prop := {
  ly_nodup : ∀ i r, ranks !! i = Some r → NoDup r;
  ly_vertex : ∀ i j r r' c, ranks !! i = Some r → ranks !! j = Some r' → c ∈ r → c ∈ r' →
    isVertex (cs !!! c) = true → i = j;
  ly_next : ∀ i r c, ranks !! i = Some r → c ∈ r → ∃ l, getNextLayerConnectedCells cs (Z.of_nat i) c = Some l ∧
    ∀ b, b ∈ l → ∃ r', ranks !! S i = Some r' ∧ b ∈ r';
  ly_prev : ∀ i r c, ranks !! i = Some r → c ∈ r → ∃ l, getPreviousLayerConnectedCells cs (Z.of_nat i) c = Some l ∧
    ∀ b, b ∈ l → ∃ k r', i = S k ∧ ranks !! k = Some r' ∧ b ∈ r';
  ly_small : ∀ i r, ranks !! i = Some r → (Z.of_nat (length r) ≤ 2 ^ 30)%Z
}.

(** The entries of [temp] put the cells of each rank into the order of [ord]. *)
Record arranged (ranks ord : list (list nat)) (t : temps) : Prop := {
  ar_perm : Forall2 Permutation ord ranks;
  ar_pos : ∀ i o j c, ord !! i = Some o → o !! j = Some c →
    getGeneralPurposeVariable cs t (Z.of_nat i) c = Some (Z.of_nat j)
}.

Definition links (i : Z) (up low : list nat) : list (Z * Z) :=
  blocks_links 0 ((λ c, omap (position low) (default [] (getPreviousLayerConnectedCells cs i c))) <$> up).
Definition rank_crossings (i : Z) (up low : list nat) : Z := count_pairs crosses (links i up low) (links i up low).

(** The crossings of a drawing in which the ranks have the given orders. *)
Definition total_crossings (ord : list (list nat)) : Z :=
  foldl (λ n i, n + rank_crossings (Z.of_nat i) (default [] (ord !! i)) (default [] (ord !! (i - 1)%nat)))%Z 0%Z
        (seq 1 (length ord - 1)).

Lemma position_lookup low j c : NoDup low → low !! j = Some c → position low c = Some (Z.of_nat j).
Proof.
  intros Hn Hj. unfold position. assert (list_find (.= c) low = Some (j, c)) as ->; [|done].
  apply list_find_Some. split_and!; [done|done|]. intros k y Hk Hlt ->. pose proof (NoDup_lookup _ _ _ _ Hn Hj Hk). lia.
Qed.

Lemma arranged_rank ranks ord t i r :
  arranged ranks ord t → ranks !! i = Some r → ∃ o, ord !! i = Some o ∧ o ≡ₚ r.
Proof. intros Ha Hi. destruct (Forall2_lookup_r _ _ _ _ _ (ar_perm _ _ _ Ha) Hi) as (o & Ho & Hp). by exists o. Qed.

Lemma arranged_position ranks ord t i r o c :
  layered ranks → arranged ranks ord t → ranks !! i = Some r → ord !! i = Some o → c ∈ r →
  getGeneralPurposeVariable cs t (Z.of_nat i) c = position o c ∧
  ∃ j, o !! j = Some c ∧ position o c = Some (Z.of_nat j).
Proof.
  intros Hl Ha Hr Ho Hc. destruct (arranged_rank ranks ord t i r Ha Hr) as (o' & Ho' & Hp). assert (o' = o) as -> by congruence.
  rewrite <-Hp in Hc. apply list_elem_of_lookup_1 in Hc as [j Hj].
  assert (NoDup o) as Hn by (rewrite Hp; by eapply ly_nodup).
  rewrite (position_lookup o j c Hn Hj). split; [by eapply ar_pos|by exists j].
Qed.

(** [tmpIndices] for cells with distinct positions. *)
Lemma tmpIndices_spec t i (N : nat → list Z) (p : nat → Z) rank tmp :
  (∀ c, c ∈ rank → nodeIndices cs t i c = Some (N c) ∧ getGeneralPurposeVariable cs t i c = Some (p c)) →
  NoDup (p <$> rank) →
  ∃ tmp', tmpIndices cs t i rank tmp = Some tmp' ∧ (∀ c, c ∈ rank → tmp' !! p c = Some (N c)) ∧
          (∀ k, k ∉ p <$> rank → tmp' !! k = tmp !! k).
Proof.
  revert tmp. induction rank as [|c rank IH]; intros tmp Hr Hn; simpl.
  { exists tmp. split_and!; [done| |done]. by intros c ?%not_elem_of_nil. }
  destruct (Hr c) as [H1 H2]; [left|]. rewrite H1. simpl. rewrite H2.
  apply NoDup_cons in Hn as [Hc Hn].
  destruct (IH (<[p c := N c]> tmp)) as (tmp' & E & Hin & Hout); [intros x Hx; apply Hr; by right|done|].
  exists tmp'. split_and!; [exact E| |].
  - intros x [->|Hx]%elem_of_cons; [|by apply Hin]. rewrite Hout by done. by rewrite lookup_insert_eq.
  - intros k Hk. apply not_elem_of_cons in Hk as [Hk1 Hk2].
    rewrite (Hout k Hk2). by rewrite lookup_insert_ne.
Qed.

Lemma array_length_spec {A} (a : gmap Z A) n :
  (∀ k, is_Some (a !! k) ↔ (0 ≤ k < Z.of_nat n)%Z) → array_length a = Z.of_nat n.
Proof.
  intros Ha. unfold array_length.
  assert (∀ k, k ∈ (map_to_list a).*1 ↔ (0 ≤ k < Z.of_nat n)%Z) as Hk.
  { intros k. rewrite <-Ha, list_elem_of_fmap. split.
    - intros ([k' x] & -> & Hx%elem_of_map_to_list). by exists x.
    - intros [x Hx]. exists (k, x). split; [done|]. by apply elem_of_map_to_list. }
  clear Ha. revert Hk. generalize (map_to_list a).*1 as ks. intros ks Hk.
  assert (∀ k, k ∈ ks → k + 1 ≤ foldr (λ k n, Z.max (k + 1) n) 0 ks)%Z as Hge.
  { clear. induction ks as [|x ks IH]; intros k; simpl; [by intros ?%not_elem_of_nil|].
    intros [->|Hk%IH]%elem_of_cons; lia. }
  assert (foldr (λ k n, Z.max (k + 1) n) 0 ks ≤ Z.of_nat n)%Z as Hle.
  { assert (∀ k, k ∈ ks → k < Z.of_nat n)%Z as Hlt by (intros k ?%Hk; lia). clear -Hlt.
    induction ks as [|x ks IH]; simpl; [lia|]. specialize (Hlt x ltac:(left)) as Hx.
    assert (foldr (λ k n, Z.max (k + 1) n) 0 ks ≤ Z.of_nat n)%Z by (apply IH; intros k ?; apply Hlt; by right). lia. }
  destruct n as [|n].
  - destruct ks as [|x ks]; [done|]. specialize (Hk x) as [Hk _]. specialize (Hk ltac:(left)). lia.
  - specialize (Hge (Z.of_nat n) ltac:(apply Hk; lia)). lia.
Qed.

Lemma first_index_spec n k len :
  (0 ≤ k ≤ 30)%Z → (30 - k ≤ Z.of_nat n)%Z → (len ≤ 2 ^ 30)%Z →
  ∃ d, first_index n (2 ^ k) len = Some (2 ^ d)%Z ∧ (0 ≤ d ≤ 30)%Z ∧ (len ≤ 2 ^ d)%Z.
Proof.
  revert k. induction n as [|n IH]; intros k Hk Hn Hl; simpl; case_decide as Hd; try (exists k; split_and!; done || lia).
  - replace k with 30%Z in Hd by lia. lia.
  - assert (k ≠ 30)%Z by (intros ->; lia). pose proof (Z.pow_le_mono_r 2 k 29 ltac:(lia) ltac:(lia)).
    pose proof (Z.pow_pos_nonneg 2 k ltac:(lia) ltac:(lia)).
    rewrite int32_id by lia. rewrite Z.mul_comm, <-Z.pow_succ_r by lia. apply IH; lia.
Qed.

(** The positions of the cells below the cells of a rank. *)
Definition blocks (i : Z) (up low : list nat) : list (list Z) :=
  (λ c, omap (position low) (default [] (getPreviousLayerConnectedCells cs i c))) <$> up.

Lemma omap_positions ranks ord t i (r o l : list nat) :
  layered ranks → arranged ranks ord t → ranks !! i = Some r → ord !! i = Some o → (∀ b, b ∈ l → b ∈ r) →
  omap (getGeneralPurposeVariable cs t (Z.of_nat i)) l = omap (position o) l.
Proof.
  intros Hl Ha Hr Ho Hb. induction l as [|b l IH]; [done|]. csimpl.
  destruct (arranged_position ranks ord t i r o b Hl Ha Hr Ho) as [-> _]; [apply Hb; left|].
  rewrite IH; [done|]. intros x Hx. apply Hb. by right.
Qed.

Lemma nodeIndices_spec ranks ord t i r r' low c :
  layered ranks → arranged ranks ord t → ranks !! S i = Some r → ranks !! i = Some r' → ord !! i = Some low → c ∈ r →
  nodeIndices cs t (Z.of_nat (S i)) c =
    Some (merge_sort Z.le (omap (position low) (default [] (getPreviousLayerConnectedCells cs (Z.of_nat (S i)) c)))).
Proof.
  intros Hl Ha Hr Hr' Hlow Hc. unfold nodeIndices. destruct (ly_prev _ Hl _ _ _ Hr Hc) as (l & E & Hb). rewrite E. simpl.
  replace (Z.of_nat (S i) - 1)%Z with (Z.of_nat i) by lia. do 2 f_equal.
  apply (omap_positions ranks ord t i r'); [done..|]. intros b Hx. destruct (Hb b Hx) as (k & r'' & ? & ? & ?). by simplify_eq.
Qed.

Lemma positions_of_order (o : list nat) : NoDup o → (λ c, default 0%Z (position o c)) <$> o = seqZ 0 (Z.of_nat (length o)).
Proof.
  intros Hn. apply list_eq. intros j. rewrite list_lookup_fmap. destruct (o !! j) as [c|] eqn:Hj; simpl.
  - rewrite (position_lookup o j c Hn Hj). simpl. symmetry. apply lookup_seqZ. apply lookup_lt_Some in Hj. lia.
  - symmetry. apply lookup_seqZ_ge. apply lookup_ge_None in Hj. lia.
Qed.

Lemma tmpIndices_order ranks ord t i r r' up low :
  layered ranks → arranged ranks ord t → ranks !! S i = Some r → ranks !! i = Some r' →
  ord !! S i = Some up → ord !! i = Some low →
  ∃ tmp, tmpIndices cs t (Z.of_nat (S i)) r ∅ = Some tmp ∧
    (λ j, default [] (tmp !! j)) <$> seqZ 0 (array_length tmp) = merge_sort Z.le <$> blocks (Z.of_nat (S i)) up low.
Proof.
  intros Hl Ha Hr Hr' Hup Hlow. destruct (arranged_rank ranks ord t (S i) r Ha Hr) as (o & Ho & Hp).
  assert (o = up) as -> by congruence. clear Ho.
  assert (NoDup up) as Hn by (rewrite Hp; by eapply ly_nodup).
  set (p := λ c, default 0%Z (position up c)). set (N := λ c, merge_sort Z.le (omap (position low)
    (default [] (getPreviousLayerConnectedCells cs (Z.of_nat (S i)) c)))).
  pose proof (positions_of_order up Hn) as Hpos. fold p in Hpos.
  destruct (tmpIndices_spec t (Z.of_nat (S i)) N p r ∅) as (tmp & E & Hin & Hout).
  - intros c Hc. split; [by eapply nodeIndices_spec|].
    destruct (arranged_position ranks ord t (S i) r up c Hl Ha Hr Hup Hc) as (-> & j & _ & Ej). unfold p. by rewrite Ej.
  - rewrite <-Hp, Hpos. apply NoDup_seqZ.
  - exists tmp. split; [exact E|].
    rewrite (array_length_spec tmp (length up)), <-Hpos, <-list_fmap_compose.
    + unfold blocks. rewrite <-list_fmap_compose. apply list_fmap_ext. intros j c Hj. simpl.
      rewrite Hin; [done|]. rewrite <-Hp. by eapply list_elem_of_lookup_2.
    + intros k. assert (k ∈ p <$> r ↔ (0 ≤ k < Z.of_nat (length up))%Z) as <-.
      { rewrite <-Hp, Hpos, elem_of_seqZ. lia. }
      destruct (decide (k ∈ p <$> r)) as [Hk|Hk].
      * split; [done|]. intros _. apply list_elem_of_fmap in Hk as (c & -> & Hc). rewrite (Hin c Hc). by eexists.
      * rewrite (Hout k Hk), lookup_empty. split; [by intros [? ?]|done].
Qed.

Lemma blocks_in_range d i up low :
  (Z.of_nat (length low) ≤ 2 ^ d)%Z → Forall (in_range d) (concat (merge_sort Z.le <$> blocks i up low)).
Proof.
  intros Hd. apply Forall_concat, Forall_fmap, Forall_fmap, Forall_forall. intros c _. simpl.
  apply Forall_forall. intros q Hq. rewrite merge_sort_Permutation in Hq.
  apply list_elem_of_omap in Hq as (b & _ & Hb). unfold position in Hb. apply fmap_Some in Hb as ([j x] & Hj & ->).
  apply list_find_Some in Hj as (Hj & _). apply lookup_lt_Some in Hj. unfold in_range. simpl. lia.
Qed.

(** The code counts the crossings between two ranks in logarithmic time per connection. *)
Lemma calculateRankCrossing_spec ranks ord t i r r' up low :
  layered ranks → arranged ranks ord t → ranks !! S i = Some r → ranks !! i = Some r' →
  ord !! S i = Some up → ord !! i = Some low →
  calculateRankCrossing cs t ranks (S i) = Some (Some (rank_crossings (Z.of_nat (S i)) up low)).
Proof.
  intros Hl Ha Hr Hr' Hup Hlow. unfold calculateRankCrossing. rewrite Hr. cbn [mbind option_bind].
  rewrite Nat.sub_succ, Nat.sub_0_r, Hr'. cbn [mbind option_bind].
  destruct (tmpIndices_order ranks ord t i r r' up low Hl Ha Hr Hr' Hup Hlow) as (tmp & E & Eb).
  rewrite E. cbn [mbind option_bind]. cbv zeta. rewrite Eb.
  destruct (first_index_spec 32 0 (Z.of_nat (length r'))) as (d & Ed & Hd & Hlen); [lia|lia|by eapply ly_small|].
  change (2 ^ 0)%Z with 1%Z in Ed. rewrite Ed. cbn [mbind option_bind]. f_equal.
  destruct (arranged_rank ranks ord t i r' Ha Hr') as (o & Ho & Hp). assert (o = low) as -> by congruence.
  pose proof (accumulate_all d Hd (concat (merge_sort Z.le <$> blocks (Z.of_nat (S i)) up low)) []
    (new_tree (2 * 2 ^ d - 1)) 0) as Hall.
  rewrite Hall; [|apply blocks_in_range; by rewrite Hp|constructor|by apply new_tree_ok].
  f_equal. rewrite count_pairs_nil. unfold rank_crossings, links. rewrite crossings_blocks. unfold blocks. lia.
Qed.

Lemma calculateCrossings_spec ranks ord t :
  layered ranks → arranged ranks ord t → calculateCrossings cs t ranks = Some (Some (total_crossings ord)).
Proof.
  intros Hl Ha. unfold calculateCrossings, total_crossings.
  rewrite (Forall2_length _ _ _ (ar_perm _ _ _ Ha)).
  assert (∀ js n, Forall (λ i, 1 ≤ i < length ranks) js →
    foldl (λ total i, total ← total; x ← calculateRankCrossing cs t ranks i; Some (add_number total x)) (Some (Some n)) js =
    Some (Some (foldl (λ n i, n + rank_crossings (Z.of_nat i) (default [] (ord !! i)) (default [] (ord !! (i - 1)%nat)))%Z n js))) as H.
  { intros js. induction js as [|i js IH]; intros n Hjs; [done|]. inversion_clear Hjs as [|? ? [H1 H2] Hjs'].
    cbn [foldl]. destruct i as [|i]; [lia|].
    destruct (lookup_lt_is_Some_2 ranks (S i) H2) as [r Hr], (lookup_lt_is_Some_2 ranks i ltac:(lia)) as [r' Hr'].
    destruct (arranged_rank ranks ord t _ _ Ha Hr) as (up & Hup & _), (arranged_rank ranks ord t _ _ Ha Hr') as (low & Hlow & _).
    cbn [mbind option_bind]. rewrite (calculateRankCrossing_spec ranks ord t i r r' up low) by done. cbn [mbind option_bind].
    unfold add_number at 2. cbn [mbind option_bind]. rewrite IH by done. rewrite Hup, Nat.sub_succ, Nat.sub_0_r, Hlow. done. }
  apply H. apply Forall_forall. intros i Hi%elem_of_seq. lia.
Qed.

(** C23: When the positions of the cells are those of some order of the ranks, the code
    counts exactly the pairs of connections between neighbouring ranks that cross in a
    drawing with this order: the accumulator tree computes what a comparison of all pairs
    would. *)
Theorem calculateCrossings_counts ranks ord t :
  layered ranks → arranged ranks ord t →
  calculateCrossings cs t ranks = Some (Some (total_crossings ord)).
Proof. apply calculateCrossings_spec. Qed.

End Ranks.

(** *** A small hierarchy *)

(** Three nodes (2, 3, 4) in rank 1 above three nodes (5, 6, 7) in rank 0; the connections
    are the edges 10 to 13: 2-7, 3-6, 3-5 and 4-5. *)
Definition node (asTarget asSource : list nat) (r : Z) : hcell := HCell true r r asTarget asSource 0 0 false 1.
Definition edge (s t : nat) : hcell := HCell false (-1) (-1) [] [] s t false 0.
Definition sample_cells : gmap nat hcell := list_to_map
  [(2, node [] [10] 1); (3, node [] [11; 12] 1); (4, node [] [13] 1);
   (5, node [12; 13] [] 0); (6, node [11] [] 0); (7, node [10] [] 0);
   (10, edge 2 7); (11, edge 3 6); (12, edge 3 5); (13, edge 4 5)].
Definition sample_ranks : list (list nat) := [[5; 6; 7]; [2; 3; 4]].
Definition sample_temps : temps := list_to_map
  [((5, 0%Z), 0%Z); ((6, 0%Z), 1%Z); ((7, 0%Z), 2%Z); ((2, 0%Z), 0%Z); ((3, 0%Z), 1%Z); ((4, 0%Z), 2%Z)].

Lemma sample_layered : layered sample_cells sample_ranks.
Proof.
  split.
  - intros [|[|i]] r Hr; try done; injection Hr as <-; js_decide.
  - intros [|[|i]] [|[|j]] r r' c Hr Hr' Hc Hc'; try done; injection Hr as <-; injection Hr' as <-; exfalso;
      set_unfold; destruct_or!; subst; discriminate.
  - intros [|[|i]] r c Hr Hc; try done; injection Hr as <-; set_unfold; destruct_or!; subst;
      (eexists; split; [vm_compute; reflexivity|]); intros b Hb; set_unfold; destruct_or!; subst; try done;
      (eexists; split; [reflexivity|]); js_decide.
  - intros [|[|i]] r c Hr Hc; try done; injection Hr as <-; set_unfold; destruct_or!; subst;
      (eexists; split; [vm_compute; reflexivity|]); intros b Hb; set_unfold; destruct_or!; subst; try done;
      (eexists; eexists; split_and!; [reflexivity|reflexivity|]); js_decide.
  - intros [|[|i]] r Hr; try done; injection Hr as <-; vm_compute; discriminate.
Qed.

Lemma sample_arranged : arranged sample_cells sample_ranks sample_ranks sample_temps.
Proof.
  split; [by repeat constructor|]. intros [|[|i]] o [|[|[|j]]] c Ho Hc; try done; injection Ho as <-;
    simplify_eq/=; vm_compute; reflexivity.
Qed.

Lemma calculateCrossings_counts_witness :
  calculateCrossings sample_cells sample_temps sample_ranks = Some (Some 4%Z).
Proof.
  exact (calculateCrossings_counts sample_cells sample_ranks sample_ranks sample_temps sample_layered sample_arranged).
Defined.

End Crossings.
