(* ===== verification/CrossingStage.v ===== *)
(** * The crossing reduction keeps the ranks and never adds crossings

    What the stage of Crossings does to a hierarchy as a whole: every step puts the cells of
    a rank into some order, and the order the stage ends with has no more crossings than the
    one it started from. *)

From stdpp Require Import sorting.
From S2P Require Import Prelude Crossings.
Import Crossings.
#[local] Open Scope nat_scope.

Module CrossingStage.

Section Stage.
Context (cs : gmap nat hcell) (ranks : list (list nat)) (Hl : layered cs ranks).

Abbreviation get := (getGeneralPurposeVariable cs).
Abbreviation set := (setGeneralPurposeVariable cs).
Abbreviation arr := (arranged cs ranks).

(** ** Writing positions *)

Lemma slot_inj i j r r' c c' :
  ranks !! i = Some r → ranks !! j = Some r' → c ∈ r → c' ∈ r' →
  slot cs (Z.of_nat i) c = slot cs (Z.of_nat j) c' → i = j ∧ c = c'.
Proof.
  intros Hi Hj Hc Hc' E. unfold slot in E. injection E as -> E. split; [|done].
  destruct (isVertex (cs !!! c')) eqn:Ev; [by eapply ly_vertex|lia].
Qed.

Lemma get_set i j r r' c c' v t :
  ranks !! i = Some r → ranks !! j = Some r' → c ∈ r → c' ∈ r' →
  get (set (Z.of_nat i) c v t) (Z.of_nat j) c' = if decide (i = j ∧ c = c') then v else get t (Z.of_nat j) c'.
Proof.
  intros Hi Hj Hc Hc'. unfold getGeneralPurposeVariable, setGeneralPurposeVariable. destruct (decide (i = j ∧ c = c')) as [[-> ->]|Hne].
  - by rewrite lookup_partial_alter_eq.
  - rewrite lookup_partial_alter_ne; [done|]. intros E. apply Hne. by eapply slot_inj.
Qed.

(** A step on rank [i] leaves the positions in other ranks alone. *)
Definition frame (i : nat) (t t' : temps) : Prop :=
  ∀ j r c, j ≠ i → ranks !! j = Some r → c ∈ r → get t' (Z.of_nat j) c = get t (Z.of_nat j) c.

Lemma frame_refl i t : frame i t t.
Proof. done. Qed.
Lemma frame_trans i t1 t2 t3 : frame i t1 t2 → frame i t2 t3 → frame i t1 t3.
Proof. intros H1 H2 j r c Hj Hr Hc. by rewrite (H2 j r c), (H1 j r c). Qed.
Lemma frame_set i r c v t : ranks !! i = Some r → c ∈ r → frame i t (set (Z.of_nat i) c v t).
Proof. intros Hi Hc j r' c' Hj Hr Hc'. rewrite (get_set i j r r') by done. apply decide_False. by intros [-> _]. Qed.

Lemma arranged_update i r o ord t t' :
  arr ord t → ranks !! i = Some r → o ≡ₚ r → frame i t t' →
  (∀ j c, o !! j = Some c → get t' (Z.of_nat i) c = Some (Z.of_nat j)) → arr (<[i := o]> ord) t'.
Proof.
  intros Ha Hr Hp Hf Ho. pose proof (Forall2_length _ _ _ (ar_perm _ _ _ _ Ha)) as Hlen. split.
  - rewrite <-(list_insert_id ranks i r Hr). apply Forall2_insert; [apply Ha|done].
  - intros k o' j c Hk Hj. destruct (decide (k = i)) as [->|Hki].
    + rewrite list_lookup_insert_eq in Hk by (apply lookup_lt_Some in Hr; lia). injection Hk as <-. by apply Ho.
    + rewrite list_lookup_insert_ne in Hk by done.
      destruct (Forall2_lookup_l _ _ _ _ _ (ar_perm _ _ _ _ Ha) Hk) as (r' & Hr' & Hp').
      rewrite (Hf k r' c Hki Hr'); [by eapply ar_pos|]. rewrite <-Hp'. by eapply list_elem_of_lookup_2.
Qed.

Lemma arranged_perm ord t i r : arr ord t → ranks !! i = Some r → ∃ o, ord !! i = Some o ∧ o ≡ₚ r ∧ NoDup o.
Proof.
  intros Ha Hr. destruct (arranged_rank cs ranks ord t i r Ha Hr) as (o & Ho & Hp). exists o.
  split_and!; [done|done|]. rewrite Hp. by eapply ly_nodup.
Qed.

(** ** Medians *)

(** The order of a rank when the free positions are handed out to the cells [ms]. *)
Fixpoint fill (reserved : list Z) (k : nat) (o ms : list nat) : list nat :=
  match o with
  | [] => []
  | c :: o =>
      if decide (Z.of_nat k ∈ reserved) then c :: fill reserved (S k) o ms
      else match ms with m :: ms => m :: fill reserved (S k) o ms | [] => [] end
  end.
(** The cells at free positions, and those at reserved ones. *)
Fixpoint free (reserved : list Z) (k : nat) (o : list nat) : list nat :=
  match o with
  | [] => []
  | c :: o => if decide (Z.of_nat k ∈ reserved) then free reserved (S k) o else c :: free reserved (S k) o
  end.
Fixpoint kept (reserved : list Z) (k : nat) (o : list nat) : list nat :=
  match o with
  | [] => []
  | c :: o => if decide (Z.of_nat k ∈ reserved) then c :: kept reserved (S k) o else kept reserved (S k) o
  end.

Lemma fill_perm reserved k o ms :
  length ms = length (free reserved k o) → fill reserved k o ms ≡ₚ kept reserved k o ++ ms.
Proof.
  revert k ms. induction o as [|c o IH]; intros k ms Hlen; simpl in *; [by destruct ms|].
  case_decide; [simpl; by rewrite IH|]. destruct ms as [|m ms]; [done|]. simpl in Hlen.
  rewrite IH by lia. by rewrite Permutation_middle.
Qed.

Lemma kept_free reserved k o : o ≡ₚ kept reserved k o ++ free reserved k o.
Proof.
  revert k. induction o as [|c o IH]; intros k; simpl; [done|]. case_decide; simpl; [by rewrite <-IH|].
  by rewrite <-Permutation_middle, <-IH.
Qed.

Lemma kept_elem reserved k o j x : o !! j = Some x → Z.of_nat (k + j) ∈ reserved → x ∈ kept reserved k o.
Proof.
  revert k j. induction o as [|y o IH]; intros k [|j] Hx Hr; [done..| |]; simpl in *.
  - injection Hx as ->. rewrite Nat.add_0_r in Hr. rewrite decide_True by done. left.
  - assert (x ∈ kept reserved (S k) o) by (apply (IH (S k) j Hx); by replace (S k + j) with (k + S j) by lia).
    case_decide; [by right|done].
Qed.

Lemma assign_spec i r reserved o k medians t :
  ranks !! i = Some r → length medians = length (free reserved k o) → NoDup medians.*2 →
  (∀ c, c ∈ medians.*2 → c ∈ r) → (∀ c, c ∈ kept reserved k o → c ∈ r ∧ c ∉ medians.*2) →
  (∀ j c, o !! j = Some c → Z.of_nat (k + j) ∈ reserved → get t (Z.of_nat i) c = Some (Z.of_nat (k + j))) →
  ∃ t', assign cs (Z.of_nat i) reserved (seq k (length o)) medians t = Some t' ∧ frame i t t' ∧
    (∀ j c, fill reserved k o medians.*2 !! j = Some c → get t' (Z.of_nat i) c = Some (Z.of_nat (k + j))) ∧
    (∀ c, c ∈ r → c ∉ medians.*2 → get t' (Z.of_nat i) c = get t (Z.of_nat i) c).
Proof.
  intros Hi. revert k medians t. induction o as [|c o IH]; intros k medians t Hlen Hn Hm Hk Hpos; simpl in *.
  { exists t. split_and!; [done|apply frame_refl|by intros [|j] c Hc|done]. }
  assert (∀ j x, o !! j = Some x → Z.of_nat (S k + j) ∈ reserved → get t (Z.of_nat i) x = Some (Z.of_nat (S k + j))) as Hpos'.
  { intros j x Hx. replace (S k + j) with (k + S j) by lia. by apply Hpos. }
  destruct (decide (Z.of_nat k ∈ reserved)) as [Hres|Hres].
  - destruct (IH (S k) medians t) as (t' & E & F & P & U); [done..|intros x Hx; apply Hk; by right|done|].
    exists t'. split_and!; [done|done| |done]. intros [|j] x Hx; simpl in Hx.
    + injection Hx as <-. destruct (Hk c ltac:(left)) as [Hcr Hcm]. rewrite (U c Hcr Hcm).
      apply (Hpos 0); [done|]. by rewrite Nat.add_0_r.
    + replace (k + S j) with (S k + j) by lia. by apply P.
  - destruct medians as [|[q m] medians]; [done|]. simpl in *. apply NoDup_cons in Hn as [Hmn Hn].
    assert (m ∈ r) as Hmr by (apply Hm; left).
    set (t1 := set (Z.of_nat i) m (Some (Z.of_nat k)) t).
    assert (∀ x, x ∈ r → x ≠ m → get t1 (Z.of_nat i) x = get t (Z.of_nat i) x) as H1.
    { intros x Hx Hne. unfold t1. rewrite (get_set i i r r) by done. apply decide_False. by intros [_ ->]. }
    destruct (IH (S k) medians t1) as (t' & E & F & P & U); [lia|done|intros x Hx; apply Hm; by right| | |].
    + intros x Hx. destruct (Hk x Hx) as [? [_ ?]%not_elem_of_cons]. done.
    + intros j x Hx Hres'. rewrite H1; [by apply Hpos'|..].
      * apply Hk. by eapply kept_elem.
      * intros ->. destruct (Hk m) as [_ Hm']; [by eapply kept_elem|apply Hm'; left].
    + exists t'. split_and!; [exact E|eapply frame_trans; [by eapply frame_set|exact F]| |].
      * intros [|j] x Hx; simpl in Hx.
        -- injection Hx as <-. rewrite (U m Hmr Hmn). unfold t1. rewrite (get_set i i r r) by done.
           rewrite decide_True by done. by rewrite Nat.add_0_r.
        -- replace (k + S j) with (S k + j) by lia. by apply P.
      * intros x Hx [Hne Hx']%not_elem_of_cons. rewrite (U x Hx Hx'). by apply H1.
Qed.

Lemma insert_median_perm x l : insert_median x l ≡ₚ x :: l.
Proof.
  induction l as [|y l IH]; simpl; [done|]. destruct (before y x); [|done]. rewrite IH. constructor.
Qed.
Lemma sort_medians_perm l : sort_medians l ≡ₚ l.
Proof. induction l as [|x l IH]; simpl; [done|]. rewrite insert_median_perm. by constructor. Qed.

Section Median.
Context (down : bool) (i : nat).
Abbreviation conn := (connected cs down (Z.of_nat i)).

Lemma medianValues_cells t cells :
  (medianValues cs t down (Z.of_nat i) cells).*2 = filter (λ c, conn c ≠ []) cells.
Proof.
  induction cells as [|c cells IH]; [done|]. unfold medianValues in *. csimpl.
  destruct (conn c) eqn:E; csimpl; rewrite IH; 
    [rewrite filter_cons_False by (intros H; by apply H)|rewrite filter_cons_True by (by rewrite E)]; done.
Qed.

Lemma elem_of_reserved t cells z :
  z ∈ reservedPositions cs t down (Z.of_nat i) cells ↔ ∃ c, c ∈ cells ∧ conn c = [] ∧ get t (Z.of_nat i) c = Some z.
Proof.
  unfold reservedPositions. rewrite list_elem_of_omap. split; intros (c & Hc & H); exists c.
  - destruct (conn c); [by split_and!|done].
  - destruct H as [-> H]. by split.
Qed.

Lemma free_kept_filter reserved k o :
  (∀ j c, o !! j = Some c → Z.of_nat (k + j) ∈ reserved ↔ conn c = []) →
  free reserved k o = filter (λ c, conn c ≠ []) o ∧ kept reserved k o = filter (λ c, conn c = []) o.
Proof.
  revert k. induction o as [|c o IH]; intros k H; [done|]. simpl. rewrite !filter_cons.
  destruct (IH (S k)) as [-> ->].
  { intros j x Hx. replace (S k + j) with (k + S j) by lia. by apply H. }
  pose proof (H 0 c eq_refl) as H0. rewrite Nat.add_0_r in H0.
  destruct (decide (Z.of_nat k ∈ reserved)) as [Hr|Hr].
  - apply H0 in Hr. rewrite (decide_False (P := conn c ≠ [])), (decide_True (P := conn c = [])); [done|done|]. by intros Hn.
  - rewrite (decide_True (P := conn c ≠ [])), (decide_False (P := conn c = [])); [done|..]; by rewrite <-H0.
Qed.

Lemma reserved_iff ord t r o cells j c :
  arr ord t → ranks !! i = Some r → ord !! i = Some o → cells ≡ₚ r → o !! j = Some c →
  Z.of_nat (0 + j) ∈ reservedPositions cs t down (Z.of_nat i) cells ↔ conn c = [].
Proof.
  intros Ha Hi Ho Hc Hj. destruct (arranged_perm ord t i r Ha Hi) as (o' & Ho' & Hp & Hn). assert (o' = o) as -> by congruence.
  rewrite elem_of_reserved. split.
  - intros (c' & Hc' & Hcn & Hg). rewrite Hc, <-Hp in Hc'. apply list_elem_of_lookup_1 in Hc' as [j' Hj'].
    rewrite (ar_pos _ _ _ _ Ha i o j' c' Ho Hj') in Hg. injection Hg as Hg. apply Nat2Z.inj in Hg. by simplify_eq/=.
  - intros Hcn. exists c. split_and!; [|done|by rewrite (ar_pos _ _ _ _ Ha i o j c)].
    rewrite Hc, <-Hp. by eapply list_elem_of_lookup_2.
Qed.

Lemma medianRank_spec nested ord t r cells :
  arr ord t → ranks !! i = Some r → nested !! i = Some cells → cells ≡ₚ r →
  ∃ o t', medianRank cs nested down i t = Some t' ∧ o ≡ₚ r ∧ arr (<[i := o]> ord) t'.
Proof.
  intros Ha Hi Hn Hc. destruct (arranged_perm ord t i r Ha Hi) as (o & Ho & Hp & Hnd).
  unfold medianRank. rewrite Hn. cbn [mbind option_bind]. cbv zeta.
  set (reserved := reservedPositions cs t down (Z.of_nat i) cells).
  set (ms := sort_medians (medianValues cs t down (Z.of_nat i) cells)).
  destruct (free_kept_filter reserved 0 o) as [Ef Ek]; [intros j c Hj; by eapply reserved_iff|].
  assert (ms.*2 ≡ₚ filter (λ c, conn c ≠ []) o) as Hms.
  { unfold ms. rewrite sort_medians_perm, medianValues_cells. by rewrite Hc, Hp. }
  assert (length cells = length o) as -> by by rewrite Hc, Hp.
  destruct (assign_spec i r reserved o 0 ms t) as (t' & E & F & P & _); [done|..].
  - rewrite <-(length_fmap snd ms), Hms, Ef. done.
  - rewrite Hms. by apply NoDup_filter.
  - intros c. rewrite Hms, <-Hp. by intros [_ ?]%list_elem_of_filter.
  - intros c. rewrite Ek, Hms, !list_elem_of_filter, <-Hp. naive_solver.
  - intros j c Hj _. by apply (ar_pos _ _ _ _ Ha i o).
  - exists (fill reserved 0 o ms.*2), t'. assert (fill reserved 0 o ms.*2 ≡ₚ r) as Hfill.
    { rewrite fill_perm by (rewrite Hms, Ef; done). rewrite Hms, <-Ef, <-kept_free. done. }
    split_and!; [exact E|exact Hfill|]. by eapply arranged_update.
Qed.
End Median.

Lemma median_ranks_spec nested down js ord t :
  arr ord t → Forall2 Permutation nested ranks → Forall (λ j, j < length ranks) js →
  ∃ ord' t', median_ranks cs nested down js t = Some t' ∧ arr ord' t'.
Proof.
  intros Ha Hn Hjs. revert ord t Ha. induction Hjs as [|j js Hj Hjs IH]; intros ord t Ha; [by exists ord, t|].
  destruct (lookup_lt_is_Some_2 ranks j Hj) as [r Hr].
  destruct (Forall2_lookup_r _ _ _ _ _ Hn Hr) as (cells & Hc & Hp).
  destruct (medianRank_spec down j nested ord t r cells Ha Hr Hc Hp) as (o & t1 & E & _ & Ha1).
  destruct (IH _ _ Ha1) as (ord' & t' & E' & Ha'). exists ord', t'. split; [|done].
  unfold median_ranks in *. cbn [foldl mbind option_bind]. by rewrite E.
Qed.

Lemma weightedMedian_spec iteration model_maxRank nested ord t :
  arr ord t → Forall2 Permutation nested ranks → length ranks = S model_maxRank →
  ∃ ord' t', weightedMedian cs iteration model_maxRank nested t = Some t' ∧ arr ord' t'.
Proof.
  intros Ha Hn Hlen. unfold weightedMedian. cbv zeta. destruct (bool_decide _); apply median_ranks_spec with ord; try done;
    apply Forall_forall; intros j Hj.
  - rewrite elem_of_reverse, elem_of_seq in Hj. lia.
  - rewrite elem_of_seq in Hj. lia.
Qed.

(** ** Exchanging neighbours *)

Lemma entry_of_spec i r c t : ranks !! i = Some r → c ∈ r → ∃ e, entry_of cs t (Z.of_nat i) c = Some e ∧ cell e = c.
Proof.
  intros Hr Hc. unfold entry_of. destruct (ly_next _ _ Hl i r c Hr Hc) as (l & -> & _), (ly_prev _ _ Hl i r c Hr Hc) as (l' & -> & _).
  by eexists.
Qed.

Lemma arranged_exchange i r l c b l' ord t :
  arr (<[i := l ++ c :: b :: l']> ord) t → ranks !! i = Some r → i < length ord →
  arr (<[i := l ++ b :: c :: l']> ord)
    (set (Z.of_nat i) b (get t (Z.of_nat i) c) (set (Z.of_nat i) c (get t (Z.of_nat i) b) t)).
Proof.
  intros Ha Hr Hi. destruct (arranged_perm _ _ i r Ha Hr) as (o & Ho & Hp & Hn).
  rewrite list_lookup_insert_eq in Ho by done. injection Ho as <-.
  assert (∀ j x, (l ++ c :: b :: l') !! j = Some x → get t (Z.of_nat i) x = Some (Z.of_nat j)) as Hpos.
  { intros j x. apply (ar_pos _ _ _ _ Ha i). by rewrite list_lookup_insert_eq. }
  assert (c ∈ r ∧ b ∈ r) as [Hc Hb] by (rewrite <-Hp, !elem_of_app, !elem_of_cons; tauto).
  rewrite <-(list_insert_insert_eq ord i (l ++ b :: c :: l') (l ++ c :: b :: l')).
  eapply arranged_update; [exact Ha|exact Hr|rewrite <-Hp; f_equiv; constructor|eapply frame_trans; by eapply frame_set|].
  assert (get t (Z.of_nat i) c = Some (Z.of_nat (length l))) as Ec by (apply Hpos; by rewrite list_lookup_middle).
  assert (get t (Z.of_nat i) b = Some (Z.of_nat (S (length l)))) as Eb.
  { apply Hpos. rewrite lookup_app_r by lia. by replace (S (length l) - length l) with 1 by lia. }
  intros j x Hx. assert (x ∈ r) as Hxr.
  { rewrite <-Hp. apply list_elem_of_lookup_2 in Hx. rewrite !elem_of_app, !elem_of_cons in *. tauto. }
  rewrite (get_set i i r r) by done. rewrite (get_set i i r r) by done.
  assert (c ≠ b) as Hcb by (intros ->; apply NoDup_app in Hn as (_ & _ & Hn); by apply NoDup_cons in Hn as [[]%not_elem_of_cons _]).
  rewrite lookup_app in Hx. destruct (l !! j) as [y|] eqn:Ej.
  - injection Hx as ->. apply NoDup_app in Hn as (_ & Hdis & _).
    specialize (Hdis x (list_elem_of_lookup_2 _ _ _ Ej)). rewrite !not_elem_of_cons in Hdis.
    rewrite !decide_False by naive_solver. apply Hpos. by rewrite lookup_app, Ej.
  - apply lookup_ge_None in Ej. destruct (j - length l) as [|[|k]] eqn:Ek; simpl in Hx; simplify_eq.
    + rewrite decide_True by done. rewrite Ec. do 2 f_equal. lia.
    + rewrite decide_False by naive_solver. rewrite decide_True by done. rewrite Eb. do 2 f_equal. lia.
    + apply NoDup_app in Hn as (_ & _ & Hn). apply NoDup_cons in Hn as [Hnc Hn]. apply NoDup_cons in Hn as [Hnb _].
      assert (x ∈ l') by by eapply list_elem_of_lookup_2. rewrite not_elem_of_cons in Hnc.
      rewrite !decide_False by (intros [_ ->]; naive_solver). apply Hpos. rewrite lookup_app_r, Ek by lia. done.
Qed.

Lemma orderedCells_lookup t i (p : nat → nat) rank k m :
  (∀ c, c ∈ rank → get t i c = Some (Z.of_nat (p c))) → NoDup (p <$> rank) →
  (∀ c, c ∈ rank → orderedCells cs t i k rank m !! Z.of_nat (p c) = Some c) ∧
  (∀ z, (∀ c, c ∈ rank → z ≠ Z.of_nat (p c)) → orderedCells cs t i k rank m !! z = m !! z).
Proof.
  revert k m. induction rank as [|c rank IH]; intros k m Hg Hn; simpl.
  { split; [by intros c ?%not_elem_of_nil|done]. }
  apply NoDup_cons in Hn as [Hc Hn]. rewrite (Hg c) by left. rewrite decide_False by lia.
  destruct (IH (S k) (<[Z.of_nat (p c) := c]> m)) as [H1 H2]; [intros x Hx; apply Hg; by right|done|]. split.
  - intros x [->|Hx]%elem_of_cons; [|by apply H1]. rewrite H2, lookup_insert_eq; [done|].
    intros y Hy E. apply Hc, list_elem_of_fmap. exists y. split; [lia|done].
  - intros z Hz. rewrite H2 by (intros x Hx; apply Hz; by right). rewrite lookup_insert_ne; [done|].
    intros E. by apply (Hz c ltac:(left)).
Qed.

Lemma orderedCells_spec i r o ord t j c :
  arr ord t → ranks !! i = Some r → ord !! i = Some o → o !! j = Some c →
  orderedCells cs t (Z.of_nat i) 0 r ∅ !! Z.of_nat j = Some c.
Proof.
  intros Ha Hr Ho Hj. destruct (arranged_perm ord t i r Ha Hr) as (o' & Ho' & Hp & Hn). assert (o' = o) as -> by congruence.
  set (p := λ c, Z.to_nat (default 0%Z (get t (Z.of_nat i) c))).
  assert (∀ k x, o !! k = Some x → get t (Z.of_nat i) x = Some (Z.of_nat k)) as Hpos by (intros k x; by apply (ar_pos _ _ _ _ Ha)).
  assert (∀ k x, o !! k = Some x → p x = k) as Hpk by (intros k x Hk; unfold p; rewrite (Hpos k x Hk); simpl; lia).
  rewrite <-(Hpk j c Hj). apply orderedCells_lookup.
  - intros x Hx. rewrite <-Hp in Hx. apply list_elem_of_lookup_1 in Hx as [k Hk]. rewrite (Hpk k x Hk). by apply Hpos.
  - rewrite <-Hp. apply NoDup_fmap_2_strong; [|done]. intros x y Hx Hy E.
    apply list_elem_of_lookup_1 in Hx as [k Hk], Hy as [k' Hk']. rewrite (Hpk k x Hk), (Hpk k' y Hk') in E. congruence.
  - rewrite <-Hp. by eapply list_elem_of_lookup_2.
Qed.

Lemma transpose_pairs_spec nudge i r ordered rest l c left t improved ord :
  ranks !! i = Some r → i < length ord → arr (<[i := l ++ c :: rest]> ord) t → cell left = c →
  (∀ k b, rest !! k = Some b → ordered !! Z.of_nat (S (length l + k)) = Some b) →
  ∃ o t' b, transpose_pairs cs nudge (Z.of_nat i) ordered (seq (length l) (length rest)) left t improved = Some (t', b) ∧
    arr (<[i := o]> ord) t'.
Proof.
  intros Hr Hi. revert l c left t improved. induction rest as [|b rest IH]; intros l c left t improved Ha Hc Ho; simpl.
  { by exists (l ++ [c]), t, improved. }
  pose proof (Ho 0 b eq_refl) as Hb. rewrite Nat.add_0_r in Hb. simpl in Hb. rewrite Hb. simpl.
  assert (∀ x (l' : list nat), length (l' ++ [x]) = S (length l')) as Hlen by (intros; rewrite length_app; simpl; lia).
  assert (b ∈ r) as Hbr.
  { destruct (arranged_perm _ _ i r Ha Hr) as (o & E & <- & _). rewrite list_lookup_insert_eq in E by done. injection E as <-.
    rewrite elem_of_app, !elem_of_cons. tauto. }
  destruct (entry_of_spec i r b t Hr Hbr) as (right & -> & Hcell). simpl.
  assert (∀ x k b', rest !! k = Some b' → ordered !! Z.of_nat (S (length (l ++ [x]) + k)) = Some b') as Ho'.
  { intros x k b' Hk. rewrite Hlen. replace (S (S (length l) + k)) with (S (length l + S k)) by lia. by apply Ho. }
  case_decide.
  - rewrite Hc, Hcell. pose proof (arranged_exchange i r l c b rest ord t Ha Hr Hi) as Ha'.
    replace (l ++ b :: c :: rest) with ((l ++ [b]) ++ c :: rest) in Ha' by by rewrite <-app_assoc.
    rewrite <-(Hlen b l). apply (IH (l ++ [b]) c left); [exact Ha'|exact Hc|exact (Ho' b)].
  - rewrite <-(Hlen c l). apply (IH (l ++ [c]) b right); [by rewrite <-app_assoc|done|exact (Ho' c)].
Qed.

Lemma transpose_rank_spec nudge i r ord t improved :
  arr ord t → ranks !! i = Some r →
  ∃ ord' t' b, transpose_rank cs nudge (Z.of_nat i) r t improved = Some (t', b) ∧ arr ord' t'.
Proof.
  intros Ha Hr. destruct (arranged_perm ord t i r Ha Hr) as (o & Ho & Hp & Hn). unfold transpose_rank. cbv zeta.
  rewrite <-(Permutation_length Hp). destruct o as [|c [|b rest]]; [by exists ord, t, improved..|].
  assert (length (c :: b :: rest) - 1 = length (b :: rest)) as -> by (simpl; lia). simpl seq. cbv iota.
  pose proof (orderedCells_spec i r _ ord t 0 c Ha Hr Ho eq_refl) as E0. change (Z.of_nat 0) with 0%Z in E0. rewrite E0. cbn [mbind option_bind].
  assert (c ∈ r) as Hc by (rewrite <-Hp; left).
  destruct (entry_of_spec i r c t Hr Hc) as (left & -> & Hcell). cbn [mbind option_bind].
  destruct (transpose_pairs_spec nudge i r (orderedCells cs t (Z.of_nat i) 0 r ∅) (b :: rest) [] c left t improved ord)
    as (o & t' & b' & E & Ha'); [done|by eapply lookup_lt_Some|by rewrite list_insert_id|done| |].
  - intros k x Hk. change (length [] + k) with k. eapply orderedCells_spec; [done..|exact Hk].
  - exists (<[i := o]> ord), t', b'. split; [exact E|done].
Qed.

Lemma transpose_ranks_spec nudge rs k t improved ord :
  arr ord t → (∀ i r, rs !! i = Some r → ranks !! (k + i) = Some r) →
  ∃ ord' t' b, transpose_ranks cs nudge k rs t improved = Some (t', b) ∧ arr ord' t'.
Proof.
  revert k t improved ord. induction rs as [|r rs IH]; intros k t improved ord Ha Hrs; simpl; [by exists ord, t, improved|].
  pose proof (Hrs 0 r eq_refl) as Hr. rewrite Nat.add_0_r in Hr.
  destruct (transpose_rank_spec nudge k r ord t improved Ha Hr) as (ord1 & t1 & b1 & -> & Ha1). simpl.
  apply (IH (S k) t1 b1 ord1 Ha1). intros i r' Hi. replace (S k + i) with (k + S i) by lia. by apply Hrs.
Qed.

Lemma transpose_loop_spec n count iteration ord t :
  arr ord t → ∃ ord' t', transpose_loop cs n count iteration ranks t = Some t' ∧ arr ord' t'.
Proof.
  revert count ord t. induction n as [|n IH]; intros count ord t Ha; simpl; [by exists ord, t|].
  destruct (transpose_ranks_spec (Nat.odd iteration && Nat.odd count) ranks 0 t false ord Ha) as (ord1 & t1 & b & -> & Ha1); [done|].
  simpl. destruct b; [exact (IH (S count) ord1 t1 Ha1)|by exists ord1, t1].
Qed.

Lemma transpose_spec iteration ord t : arr ord t → ∃ ord' t', transpose cs iteration ranks t = Some t' ∧ arr ord' t'.
Proof. apply transpose_loop_spec. Qed.

(** ** Keeping and restoring orders *)

Lemma store_rank_spec i r o ord t best :
  arr ord t → ranks !! i = Some r → ord !! i = Some o → length best = length r →
  store_rank cs t (Z.of_nat i) r best = Some o.
Proof.
  intros Ha Hr Ho Hlen. destruct (arranged_perm ord t i r Ha Hr) as (o' & Ho' & Hp & Hn). assert (o' = o) as -> by congruence. clear Ho'.
  assert (∀ c, c ∈ r → ∃ j, o !! j = Some c) as Hro by (intros c; rewrite <-Hp; apply list_elem_of_lookup_1).
  assert (∀ rest best, (∀ c, c ∈ rest → c ∈ r) → length best = length o →
    (∀ j c, o !! j = Some c → c ∈ rest ∨ best !! j = Some c) → store_rank cs t (Z.of_nat i) rest best = Some o) as H.
  { intros rest. induction rest as [|c rest IH]; intros b Hrest Hb Hok; simpl.
    - f_equal. apply list_eq_same_length with (length o); [done|done|]. intros j x y _ Hx Hy.
      destruct (Hok j y Hy) as [[]%not_elem_of_nil|E]. congruence.
    - destruct (Hro c (Hrest c ltac:(left))) as [j Hj]. rewrite (ar_pos _ _ _ _ Ha i o j c Ho Hj). simpl.
      pose proof (lookup_lt_Some _ _ _ Hj) as Hlt. rewrite decide_True by lia. simpl. rewrite Nat2Z.id. apply IH.
      + intros x Hx. apply Hrest. by right.
      + by rewrite length_insert.
      + intros k x Hk. destruct (Hok k x Hk) as [[->|Hx]%elem_of_cons|E]; [|by left|].
        * right. assert (k = j) as -> by (eapply NoDup_lookup; [exact Hn|exact Hk|exact Hj]). rewrite list_lookup_insert_eq; [done|lia].
        * right. destruct (decide (k = j)) as [->|Hne]; [|by rewrite list_lookup_insert_ne].
          assert (x = c) as -> by congruence. rewrite list_lookup_insert_eq; [done|lia]. }
  apply H; [done|by rewrite Hlen, Hp|]. intros j c Hj. left. rewrite <-Hp. by eapply list_elem_of_lookup_2.
Qed.

Lemma store_ranks_spec ord t nested :
  arr ord t → Forall2 Permutation nested ranks → store_ranks cs t 0 ranks nested = Some ord.
Proof.
  intros Ha Hn.
  assert (∀ ns k, k + length ns = length ranks → (∀ j b, ns !! j = Some b → nested !! (k + j) = Some b) →
    store_ranks cs t k ranks ns = Some (drop k ord)) as H.
  { intros ns. induction ns as [|b ns IH]; intros k Hlen Hns; simpl.
    - rewrite drop_ge; [done|]. rewrite (Forall2_length _ _ _ (ar_perm _ _ _ _ Ha)). simpl in Hlen. lia.
    - simpl in Hlen. destruct (lookup_lt_is_Some_2 ranks k ltac:(lia)) as [r Hr]. rewrite Hr. simpl.
      destruct (arranged_perm ord t k r Ha Hr) as (o & Ho & Hp & _).
      pose proof (Hns 0 b eq_refl) as Hb. rewrite Nat.add_0_r in Hb.
      destruct (Forall2_lookup_l _ _ _ _ _ Hn Hb) as (r' & Hr' & Hbr). assert (r' = r) as -> by congruence.
      rewrite (store_rank_spec k r o ord t b Ha Hr Ho) by (by rewrite Hbr). simpl.
      rewrite (IH (S k)); [simpl; by rewrite (drop_S ord o k)|lia|].
      intros j b' Hj. replace (S k + j) with (k + S j) by lia. by apply Hns. }
  rewrite (H nested 0); [done| |done]. simpl. by apply Forall2_length in Hn.
Qed.

Lemma restore_rank_spec i r t :
  ranks !! i = Some r →
  frame i t (restore_rank cs i r t) ∧ ∀ j c, r !! j = Some c → get (restore_rank cs i r t) (Z.of_nat i) c = Some (Z.of_nat j).
Proof.
  intros Hr. pose proof (ly_nodup _ _ Hl i r Hr) as Hn. unfold restore_rank.
  assert (∀ rest k t, (∀ j c, rest !! j = Some c → r !! (k + j) = Some c) →
    let t' := foldl (λ t p, set (Z.of_nat i) p.2 (Some (Z.of_nat p.1)) t) t (imap (λ j c, (k + j, c)) rest) in
    frame i t t' ∧ (∀ j c, rest !! j = Some c → get t' (Z.of_nat i) c = Some (Z.of_nat (k + j))) ∧
    (∀ c, c ∈ r → c ∉ rest → get t' (Z.of_nat i) c = get t (Z.of_nat i) c)) as H.
  { intros rest. induction rest as [|c rest IH]; intros k t0 Hk; cbv zeta; [by split_and!; [apply frame_refl| |]|].
    rewrite imap_cons. cbn [foldl fst snd]. rewrite Nat.add_0_r.
    set (t1 := set (Z.of_nat i) c (Some (Z.of_nat k)) t0).
    assert (c ∈ r) as Hc by (eapply list_elem_of_lookup_2; apply (Hk 0 c eq_refl)).
    rewrite (imap_ext _ (λ j x, (S k + j, x))) by (intros; simpl; f_equal; lia).
    destruct (IH (S k) t1) as (F & P & U). { intros j x Hj. replace (S k + j) with (k + S j) by lia. by apply Hk. }
    split_and!; [eapply frame_trans; [by eapply frame_set|exact F]| |].
    - intros [|j] x Hx; simpl in Hx.
      + injection Hx as <-. rewrite U; [|done|].
        * unfold t1. rewrite (get_set i i r r) by done. rewrite decide_True by done. do 2 f_equal. lia.
        * intros [j Hj]%list_elem_of_lookup_1. pose proof (Hk (S j) c Hj) as E1. pose proof (Hk 0 c eq_refl) as E2.
          pose proof (NoDup_lookup _ _ _ _ Hn E1 E2). lia.
      + rewrite (P j x Hx). do 2 f_equal. lia.
    - intros x Hx [Hne Hx']%not_elem_of_cons. rewrite (U x Hx Hx'). unfold t1. rewrite (get_set i i r r) by done.
      apply decide_False. by intros [_ ->]. }
  destruct (H r 0 t) as (F & P & _); [done|]. split; [exact F|exact P].
Qed.

Lemma restore_ranks_spec t : arr ranks (restore_ranks cs ranks t).
Proof.
  assert (∀ rest k t, (∀ i r, rest !! i = Some r → ranks !! (k + i) = Some r) →
    let t' := foldl (λ t p, restore_rank cs p.1 p.2 t) t (imap (λ i r, (k + i, r)) rest) in
    (∀ i r j c, rest !! i = Some r → r !! j = Some c → get t' (Z.of_nat (k + i)) c = Some (Z.of_nat j)) ∧
    (∀ i r c, i < k → ranks !! i = Some r → c ∈ r → get t' (Z.of_nat i) c = get t (Z.of_nat i) c)) as H.
  { intros rest. induction rest as [|r rest IH]; intros k t0 Hk; cbv zeta; [by split|].
    rewrite imap_cons. cbn [foldl fst snd]. rewrite Nat.add_0_r.
    pose proof (Hk 0 r eq_refl) as Hr. rewrite Nat.add_0_r in Hr. destruct (restore_rank_spec k r t0 Hr) as [F P].
    rewrite (imap_ext _ (λ j x, (S k + j, x))) by (intros; simpl; f_equal; lia).
    destruct (IH (S k) (restore_rank cs k r t0)) as [H1 H2]. { intros i r' Hi. replace (S k + i) with (k + S i) by lia. by apply Hk. }
    split.
    - intros [|i] r' j c Hi Hj; simpl in Hi.
      + injection Hi as <-. rewrite Nat.add_0_r. rewrite (H2 k r c); [by apply P|lia|done|by eapply list_elem_of_lookup_2].
      + replace (k + S i) with (S k + i) by lia. by eapply H1.
    - intros i r' c Hi Hr' Hc. rewrite (H2 i r' c) by (done || lia). apply (F i r' c); [lia|done|done]. }
  unfold restore_ranks. destruct (H ranks 0 t) as [H1 _]; [done|]. split; [|intros i o j c; apply H1].
  apply Forall2_same_length_lookup_2; [done|]. intros i x y Hx Hy. by simplify_eq.
Qed.

(** ** The whole stage *)

Abbreviation crossings := (total_crossings cs).

Lemma iterate_spec n i model_maxRank nested ord t without :
  length ranks = S model_maxRank → arr ord t → Forall2 Permutation nested ranks →
  ∃ nested' t', iterate cs n i model_maxRank ranks nested (Some (crossings nested)) without t = Some (nested', t') ∧
    Forall2 Permutation nested' ranks ∧ (crossings nested' ≤ crossings nested)%Z ∧ ∃ ord', arr ord' t'.
Proof.
  intros Hlen. revert i nested ord t without. induction n as [|n IH]; intros i nested ord t without Ha Hn.
  { exists nested, t. split_and!; [done|done|lia|by exists ord]. }
  cbn [iterate]. case_decide; [|exists nested, t; split_and!; [done|done|lia|by exists ord]].
  destruct (weightedMedian_spec i model_maxRank nested ord t Ha Hn Hlen) as (ord1 & t1 & -> & Ha1). cbn [mbind option_bind].
  destruct (transpose_spec i ord1 t1 Ha1) as (ord2 & t2 & -> & Ha2). cbn [mbind option_bind].
  rewrite (calculateCrossings_spec cs ranks ord2 t2 Hl Ha2). cbn [mbind option_bind less].
  destruct (Z.ltb_spec (crossings ord2) (crossings nested)) as [Hlt|Hge].
  - rewrite (store_ranks_spec ord2 t2 nested Ha2 Hn). cbn [mbind option_bind].
    pose proof (ar_perm _ _ _ _ Ha2) as Hn2. case_decide.
    + exists ord2, t2. split_and!; [done|done|lia|by exists ord2].
    + destruct (IH (S i) ord2 ord2 t2 0 Ha2 Hn2) as (nested' & t' & E & Hp & Hle & He).
      exists nested', t'. split_and!; [exact E|done|lia|done].
  - pose proof (restore_ranks_spec t2) as Ha3. cbv zeta. case_decide.
    + exists nested, (restore_ranks cs ranks t2). split_and!; [done|done|lia|by exists ranks].
    + apply (IH (S i) nested ranks); done.
Qed.

Lemma execute_spec model_maxRank t :
  length ranks = S model_maxRank → arr ranks t →
  ∃ ord t', execute cs model_maxRank ranks t = Some (ord, t') ∧ Forall2 Permutation ord ranks ∧
    (crossings ord ≤ crossings ranks)%Z.
Proof.
  intros Hlen Ha. unfold execute. generalize 24 as n. intros n.
  rewrite (calculateCrossings_spec cs ranks ranks t Hl Ha). cbn [mbind option_bind].
  destruct (iterate_spec n 0 model_maxRank ranks ranks t 0 Hlen Ha) as (ord & t' & -> & Hp & Hle & _); [by apply Ha|].
  cbn [mbind option_bind]. pose proof (Forall2_length _ _ _ Hp) as Hlo.
  rewrite decide_True by (rewrite drop_ge by lia; constructor).
  exists ord, t'. split_and!; [|done|done]. do 2 f_equal.
  apply list_eq. intros k. rewrite list_lookup_fmap. destruct (decide (k < S model_maxRank)) as [Hk|Hk].
  - rewrite lookup_seq_lt by done. simpl. destruct (lookup_lt_is_Some_2 ord k ltac:(lia)) as [o Ho]. by rewrite Ho.
  - rewrite lookup_seq_ge by lia. simpl. symmetry. apply lookup_ge_None. lia.
Qed.

End Stage.

(** C12: The stage returns: no position is missing, no array gets a hole, no exception is
    raised. Every rank of the model holds the same cells afterwards, and a drawing with the
    new orders has no more crossings than one with the old orders, although some iterations
    on the way may add crossings. *)
Theorem execute_improves cs ranks model_maxRank t :
  layered cs ranks → length ranks = S model_maxRank → arranged cs ranks ranks t →
  ∃ ord t', execute cs model_maxRank ranks t = Some (ord, t') ∧ Forall2 Permutation ord ranks ∧
    (total_crossings cs ord ≤ total_crossings cs ranks)%Z.
Proof. intros Hl Hlen Ha. by apply execute_spec. Qed.

Lemma execute_improves_witness :
  ∃ ord t', execute sample_cells 1 sample_ranks sample_temps = Some (ord, t') ∧
    Forall2 Permutation ord sample_ranks ∧ total_crossings sample_cells sample_ranks = 4%Z ∧
    total_crossings sample_cells ord = 0%Z.
Proof.
  destruct (execute_improves sample_cells sample_ranks 1 sample_temps sample_layered eq_refl sample_arranged)
    as (ord & t' & E & Hp & _).
  exists ord, t'. split_and!; [exact E|exact Hp|vm_compute; reflexivity|].
  assert (fst <$> execute sample_cells 1 sample_ranks sample_temps = Some [[7; 6; 5]; [2; 3; 4]]) as Eo by (vm_compute; reflexivity).
  rewrite E in Eo. injection Eo as ->. vm_compute. reflexivity.
Defined.

End CrossingStage.
