(* ===== verification/Hierarchy.v ===== *)
(** * The hierarchy behind a hierarchical layout

    The graphs of reports are laid out by mxHierarchicalLayout in stages on an internal
    model of nodes and edges. This file models the model and the stages before the crossing
    reduction: the searches and the ranks of mxGraphHierarchyModel.js, the removal of cycles
    in mxMinimumCycleRemover.js, [invert] and [isAncestor] of the cells, and the stages as
    mxHierarchicalLayout.js runs them. *)

From S2P Require Import Prelude Crossings.
Import Crossings.
#[local] Open Scope nat_scope.

Module Hierarchy.

(** ** The model *)

(** [vertexMapper] maps cells of the graph to nodes, in the order they were put; [roots] are
    cells of the graph. [cells] are the nodes and edges; a reference to something that is
    not there is null. [temp] has the entries of the arrays [temp]; a node without entry in
    [hashCode] still has the [false] of its prototype. *)
Record hmodel := HModel {
  cells : gmap nat hcell;
  temp : temps;
  hashCode : gmap nat (list nat);
  vertexMapper : list (nat * nat);
  roots : list nat;
  model_maxRank : Z;
  ranks : list (list nat);
  dfsCount : nat
}.

Definition SOURCESCANSTARTRANK : Z := 100000000.

Definition set_cells cs m := HModel cs (temp m) (hashCode m) (vertexMapper m) (roots m) (model_maxRank m) (ranks m) (dfsCount m).
Definition set_temp t m := HModel (cells m) t (hashCode m) (vertexMapper m) (roots m) (model_maxRank m) (ranks m) (dfsCount m).
Definition set_hash h m := HModel (cells m) (temp m) h (vertexMapper m) (roots m) (model_maxRank m) (ranks m) (dfsCount m).
Definition set_maxRank r m := HModel (cells m) (temp m) (hashCode m) (vertexMapper m) (roots m) r (ranks m) (dfsCount m).
Definition set_ranks rs m := HModel (cells m) (temp m) (hashCode m) (vertexMapper m) (roots m) (model_maxRank m) rs (dfsCount m).
Definition set_dfsCount k m := HModel (cells m) (temp m) (hashCode m) (vertexMapper m) (roots m) (model_maxRank m) (ranks m) k.

(** [vertexMapper.get(cell)] and [vertexMapper.getValues()] *)
Definition vertexMapper_get (m : hmodel) (c : nat) : option nat := snd <$> (snd <$> list_find (λ p, p.1 = c) (vertexMapper m)).
Definition vertexMapper_values (m : hmodel) : list nat := (vertexMapper m).*2.

(** Assignments to a field of a cell. *)
Definition with_ranks (hi lo : Z) (c : hcell) : hcell :=
  HCell (isVertex c) hi lo (connectsAsTarget c) (connectsAsSource c) (source c) (target c) (isReversed c) (temp_length c).
Definition with_connects (t s : list nat) (c : hcell) : hcell :=
  HCell (isVertex c) (maxRank c) (minRank c) t s (source c) (target c) (isReversed c) (temp_length c).
Definition with_length (n : Z) (c : hcell) : hcell :=
  HCell (isVertex c) (maxRank c) (minRank c) (connectsAsTarget c) (connectsAsSource c) (source c) (target c) (isReversed c) n.

Definition update (c : nat) (f : hcell → hcell) (m : hmodel) : hmodel := set_cells (alter f c (cells m)) m.

(** Reading and writing [temp[0]] of a cell; [None] is undefined. *)
Definition temp0 (m : hmodel) (c : nat) : option Z := temp m !! (c, 0%Z).
Definition write_temp (c : nat) (i : Z) (v : Z) (m : hmodel) : hmodel :=
  update c (λ x, with_length (Z.max (temp_length x) (i + 1)) x) (set_temp (<[(c, i) := v]> (temp m)) m).

(** ** Searches *)

(** [mxGraphHierarchyNode.isAncestor]; [hash] without entry is [false], which has no length. *)
Definition node_isAncestor (m : hmodel) (node : nat) (otherNode : option nat) : bool :=
  match otherNode with
  | None => false
  | Some o =>
      match hashCode m !! node, hashCode m !! o with
      | Some h, Some h' => bool_decide (length h < length h') && bool_decide (take (length h) h' = h)
      | _, _ => false
      end
  end.

(** What a visitor is called with: the parent, the node, the connecting edge, and whether the
    node has been seen; [None] is a TypeError. *)
Abbreviation visitor := (option nat → nat → option nat → bool → hmodel → option hmodel).

(** A depth first search; [None] is a TypeError of the visitor or that the fuel is used up.
    The layer in the tree is a parameter no visitor reads. *)
Fixpoint dfs (n : nat) (f : visitor) (parent : option nat) (root : nat) (connectingEdge : option nat)
    (acc : hmodel * gset nat) : option (hmodel * gset nat) :=
  match n with
  | 0 => None
  | S n =>
      let '(m, seen) := acc in
      if decide (is_Some (cells m !! root)) then
        if decide (root ∈ seen) then m ← f parent root connectingEdge true m; Some (m, seen)
        else
          m ← f parent root connectingEdge false m;
          foldl (λ acc e, acc ← acc; dfs n f (Some root) (target (cells acc.1 !!! e)) (Some e) acc)
                (Some (m, {[root]} ∪ seen)) (connectsAsSource (cells m !!! root))
      else Some acc
  end.

(** The code of a node in the search tree: set unless it was set in this run. *)
Definition form_hash (parent : option nat) (root childHash : nat) (m : hmodel) : hmodel :=
  match parent with
  | None => m
  | Some p =>
      let h := default [] (hashCode m !! p) in
      match hashCode m !! root with
      | Some hr => if decide (head hr = head h) then m else set_hash (<[root := h ++ [childHash]]> (hashCode m)) m
      | None => set_hash (<[root := h ++ [childHash]]> (hashCode m)) m
      end
  end.

Fixpoint extendedDfs (n : nat) (f : visitor) (parent : option nat) (root : nat) (connectingEdge : option nat) (childHash : nat)
    (acc : hmodel * gset nat) : option (hmodel * gset nat) :=
  match n with
  | 0 => None
  | S n =>
      let '(m, seen) := acc in
      if decide (is_Some (cells m !! root)) then
        let m := form_hash parent root childHash m in
        if decide (root ∈ seen) then m ← f parent root connectingEdge true m; Some (m, seen)
        else
          m ← f parent root connectingEdge false m;
          foldl (λ acc ie, acc ← acc; extendedDfs n f (Some root) (target (cells acc.1 !!! ie.2)) (Some ie.2) ie.1 acc)
                (Some (m, {[root]} ∪ seen)) (imap pair (connectsAsSource (cells m !!! root)))
      else Some acc
  end.

(** The bound on the depth of a search: it goes on below a node only when it sees the node
    for the first time. *)
Definition dfs_fuel (m : hmodel) : nat := S (S (length (vertexMapper m))).

(** [visit]: [None] for the roots is null, [None] in the list is a root without node. *)
Definition visit (f : visitor) (dfsRoots : option (list (option nat))) (trackAncestors : bool) (m : hmodel) : option hmodel :=
  match dfsRoots with
  | None => Some m
  | Some rs =>
      r ← foldl (λ acc ir, acc ← acc;
            match ir.2 with
            | None => Some acc
            | Some node =>
                if trackAncestors : bool then
                  let m := set_hash (<[node := [dfsCount acc.1; ir.1]]> (hashCode acc.1)) acc.1 in
                  extendedDfs (dfs_fuel m) f None node None ir.1 (m, acc.2)
                else dfs (dfs_fuel acc.1) f None node None acc
            end) (Some (m, ∅)) (imap pair rs);
      Some (set_dfsCount (S (dfsCount r.1)) r.1)
  end.

Definition root_nodes (m : hmodel) : list (option nat) := vertexMapper_get m <$> roots m.

(** ** Removing cycles *)

(** [invert] of an edge *)
Definition invert (c : hcell) : hcell :=
  HCell (isVertex c) (maxRank c) (minRank c) (connectsAsTarget c) (connectsAsSource c) (target c) (source c)
        (negb (isReversed c)) (temp_length c).

(** [mxUtils.remove(x, l)]: every occurrence goes. *)
Definition utils_remove (x : nat) (l : list nat) : list nat := filter (.≠ x) l.

Definition cycle_visitor : visitor := λ parent node connectingEdge seen m,
  if node_isAncestor m node parent then
    p ← parent; e ← connectingEdge;
    let m := update e invert m in
    let m := update p (λ c, with_connects (connectsAsTarget c) (utils_remove e (connectsAsSource c)) c) m in
    let m := update p (λ c, with_connects (connectsAsTarget c ++ [e]) (connectsAsSource c) c) m in
    let m := update node (λ c, with_connects (utils_remove e (connectsAsTarget c)) (connectsAsSource c) c) m in
    Some (update node (λ c, with_connects (connectsAsTarget c) (connectsAsSource c ++ [e]) c) m)
  else Some m.

(** [execute] of the cycle remover. The second search gets an object of unseen nodes for its
    list of roots; an object has no length, so the loop over the roots does not run. The sets
    of seen and unseen nodes are only passed to that search. *)
Definition remove_cycles (m : hmodel) : option hmodel :=
  m ← visit cycle_visitor (Some (root_nodes m)) true m;
  visit cycle_visitor (Some []) true m.

(** ** Ranks *)

(** The scan of the edges that determine the layer of a node: the layer, or [None] when an
    edge has not been marked. The outer option is a TypeError or NaN. *)
Definition STAMP : Z := 5270620.
Fixpoint scan (m : hmodel) (layerDeterminingEdges : list nat) (minimumLayer : Z) : option (option Z) :=
  match layerDeterminingEdges with
  | [] => Some (Some minimumLayer)
  | e :: es =>
      if decide (temp0 m e = Some STAMP) then
        r ← temp0 m (source (cells m !!! e));
        scan m es (Z.min minimumLayer (r - 1))
      else Some None
  end.

(** Marks edges and adds the nodes at their other ends to the queue. *)
Fixpoint mark (edgesToBeMarked : list nat) (startNodes : list nat) (m : hmodel) : option (list nat * hmodel) :=
  match edgesToBeMarked with
  | [] => Some (startNodes, m)
  | e :: es =>
      let m := write_temp e 0 STAMP m in
      let otherNode := target (cells m !!! e) in
      r ← temp0 m otherNode;
      if decide (r = -1)%Z then mark es (startNodes ++ [otherNode]) (write_temp otherNode 0 (-2) m)
      else mark es startNodes m
  end.

(** The loop over the queue; when it does not end, no fuel is enough. *)
Fixpoint rank_loop (n : nat) (startNodes : list nat) (m : hmodel) : option hmodel :=
  match startNodes with
  | [] => Some m
  | internalNode :: rest =>
      match n with
      | 0 => None
      | S n =>
          s ← scan m (connectsAsTarget (cells m !!! internalNode)) SOURCESCANSTARTRANK;
          match s with
          | Some minimumLayer =>
              let m := write_temp internalNode 0 minimumLayer m in
              let m := set_maxRank (Z.min (model_maxRank m) minimumLayer) m in
              r ← mark (connectsAsSource (cells m !!! internalNode)) startNodes m;
              rank_loop n (tail r.1) r.2
          | None =>
              let startNodes := rest ++ [internalNode] in
              if decide (length startNodes = 1) then Some m else rank_loop n startNodes m
          end
      end
  end.

Definition for_each (f : nat → hmodel → option hmodel) (l : list nat) (m : hmodel) : option hmodel :=
  foldl (λ m c, m ← m; f c m) (Some m) l.

Definition normalize (c : nat) (m : hmodel) : option hmodel :=
  r ← temp0 m c; Some (write_temp c 0 (r - model_maxRank m) m).

Fixpoint tighten_edges (c : nat) (es : list nat) (currentMaxLayer : Z) (m : hmodel) : option hmodel :=
  match es with
  | [] => Some m
  | e :: es =>
      r ← temp0 m (target (cells m !!! e));
      let layer := Z.max currentMaxLayer (r + 1) in
      tighten_edges c es layer (write_temp c 0 layer m)
  end.
Definition tighten (c : nat) (m : hmodel) : option hmodel := tighten_edges c (connectsAsSource (cells m !!! c)) 0 m.

Definition initialRank (n : nat) (m : hmodel) : option hmodel :=
  let startNodes := omap id (root_nodes m) in
  m ← for_each (λ c m, Some (write_temp c 0 (-1) m)) (vertexMapper_values m) m;
  m ← rank_loop n startNodes m;
  m ← for_each normalize (vertexMapper_values m) m;
  m ← for_each tighten startNodes m;
  Some (set_maxRank (SOURCESCANSTARTRANK - model_maxRank m) m).

(** [rankList[r].push(c)], and the index of [c] afterwards; [None] is a TypeError. *)
Definition push_rank (r : Z) (c : nat) (m : hmodel) : option (hmodel * Z) :=
  if decide (0 ≤ r)%Z then
    rank ← ranks m !! Z.to_nat r;
    Some (set_ranks (<[Z.to_nat r := rank ++ [c]]> (ranks m)) m, Z.of_nat (length rank))
  else None.

(** The loop that puts an edge into the ranks between its ends. *)
Fixpoint push_edge (e : nat) (layers : list Z) (m : hmodel) : option hmodel :=
  match layers with
  | [] => Some m
  | i :: layers =>
      r ← push_rank i e m;
      push_edge e layers (write_temp e (slot (cells r.1) i e).2 r.2 r.1)
  end.

Definition clear_temp (c : nat) (m : hmodel) : hmodel :=
  update c (with_length 0) (set_temp (filter (λ kv, kv.1.1 ≠ c) (temp m)) m).

Definition rank_visitor : visitor := λ parent node edge seen m,
  m ← (if decide (seen = false ∧ maxRank (cells m !!! node) < 0 ∧ minRank (cells m !!! node) < 0)%Z then
         r ← temp0 m node;
         q ← push_rank r node m;
         Some (write_temp node 0 q.2 (update node (with_ranks r r) q.1))
       else Some m);
  match parent, edge with
  | Some p, Some e =>
      let hi := maxRank (cells m !!! p) in
      let lo := maxRank (cells m !!! node) in
      if decide (hi - lo > 1)%Z then
        push_edge e (seqZ (lo + 1) (hi - lo - 1)) (clear_temp e (update e (with_ranks hi lo) m))
      else Some m
  | _, _ => Some m
  end.

Definition fixRanks (m : hmodel) : option hmodel :=
  visit rank_visitor (Some (root_nodes m)) false (set_ranks (replicate (Z.to_nat (model_maxRank m + 1)) []) m).

(** ** The stages of the layout *)

Definition cycleStage (m : hmodel) : option hmodel := remove_cycles m.
(** [n] bounds the steps of the loop of [initialRank]. *)
Definition layeringStage (n : nat) (m : hmodel) : option hmodel := m ← initialRank n m; fixRanks m.
Definition crossingStage (m : hmodel) : option hmodel :=
  r ← execute (cells m) (Z.to_nat (model_maxRank m)) (ranks m) (temp m);
  Some (set_temp r.2 (set_ranks r.1 m)).

End Hierarchy.
