(* ===== verification/HierarchyCycles.v ===== *)
(** * The removal of cycles from a hierarchy

    The search of mxMinimumCycleRemover turns round every edge that leads back to a node of
    the search path. What is left has no cycle: every edge leads to a node the search has
    finished before. *)

From S2P Require Import Prelude Crossings Hierarchy.
Import Crossings Hierarchy.
#[local] Open Scope nat_scope.

Module HierarchyCycles.

Abbreviation out m u := (connectsAsSource (cells m !!! u)).
Abbreviation inn m u := (connectsAsTarget (cells m !!! u)).
Abbreviation src m e := (source (cells m !!! e)).
Abbreviation tgt m e := (target (cells m !!! e)).

(** ** Graphs *)

(** Nodes and edges refer to each other consistently; there are no self-loops. *)
Record graph_ok (nodes : list nat) (cs : gmap nat hcell) : Prop := {
  g_node : ∀ u, u ∈ nodes → is_Some (cs !! u) ∧ isVertex (cs !!! u) = true;
  g_out : ∀ u e, u ∈ nodes → e ∈ connectsAsSource (cs !!! u) →
    is_Some (cs !! e) ∧ isVertex (cs !!! e) = false ∧ source (cs !!! e) = u ∧ target (cs !!! e) ∈ nodes ∧
    target (cs !!! e) ≠ u ∧ e ∈ connectsAsTarget (cs !!! target (cs !!! e));
  g_in : ∀ v e, v ∈ nodes → e ∈ connectsAsTarget (cs !!! v) →
    target (cs !!! e) = v ∧ source (cs !!! e) ∈ nodes ∧ e ∈ connectsAsSource (cs !!! source (cs !!! e));
  g_nodup_out : ∀ u, u ∈ nodes → NoDup (connectsAsSource (cs !!! u));
  g_nodup_in : ∀ u, u ∈ nodes → NoDup (connectsAsTarget (cs !!! u))
}.

(** No cycles: edges lead to nodes with smaller numbers. *)
Definition acyclic (nodes : list nat) (cs : gmap nat hcell) : Prop :=
  ∃ f : nat → nat, (∀ u, u ∈ nodes → f u < length nodes) ∧
    ∀ u e, u ∈ nodes → e ∈ connectsAsSource (cs !!! u) → f (target (cs !!! e)) < f u.

(** ** Turning an edge round *)

Definition flip (p e v : nat) (m : hmodel) : hmodel :=
  let m := update e invert m in
  let m := update p (λ c, with_connects (connectsAsTarget c) (utils_remove e (connectsAsSource c)) c) m in
  let m := update p (λ c, with_connects (connectsAsTarget c ++ [e]) (connectsAsSource c) c) m in
  let m := update v (λ c, with_connects (utils_remove e (connectsAsTarget c)) (connectsAsSource c) c) m in
  update v (λ c, with_connects (connectsAsTarget c) (connectsAsSource c ++ [e]) c) m.

Lemma lookup_total_alter_is (f : hcell → hcell) (c x : nat) (cs : gmap nat hcell) :
  is_Some (cs !! c) → alter f c cs !!! x = if decide (x = c) then f (cs !!! c) else cs !!! x.
Proof.
  intros [y Hy]. rewrite !lookup_total_alt. case_decide as H.
  - subst. by rewrite lookup_alter_eq, Hy.
  - by rewrite lookup_alter_ne.
Qed.

Lemma alter_is_Some (f : hcell → hcell) (c x : nat) (cs : gmap nat hcell) : is_Some (alter f c cs !! x) ↔ is_Some (cs !! x).
Proof. rewrite lookup_alter_is_Some. done. Qed.

Lemma update_is_Some f c x m : is_Some (cells (update c f m) !! x) ↔ is_Some (cells m !! x).
Proof. apply alter_is_Some. Qed.

Lemma update_lookup f c x m :
  is_Some (cells m !! c) → cells (update c f m) !!! x = if decide (x = c) then f (cells m !!! c) else cells m !!! x.
Proof. apply lookup_total_alter_is. Qed.

Lemma flip_is_Some p e v x m : is_Some (cells (flip p e v m) !! x) ↔ is_Some (cells m !! x).
Proof. unfold flip. cbv zeta. by rewrite !update_is_Some. Qed.

Lemma flip_lookup p e v m x :
  is_Some (cells m !! p) → is_Some (cells m !! e) → is_Some (cells m !! v) → p ≠ v → e ≠ p → e ≠ v →
  cells (flip p e v m) !!! x =
    if decide (x = e) then invert (cells m !!! e)
    else if decide (x = p) then with_connects (inn m p ++ [e]) (utils_remove e (out m p)) (cells m !!! p)
    else if decide (x = v) then with_connects (utils_remove e (inn m v)) (out m v ++ [e]) (cells m !!! v)
    else cells m !!! x.
Proof.
  intros Hp He Hv Hpv Hep Hev. unfold flip. cbv zeta.
  rewrite !update_lookup by (rewrite ?update_is_Some; done).
  repeat case_decide; subst; try done; congruence.
Qed.

Lemma elem_of_utils_remove x y l : y ∈ utils_remove x l ↔ y ≠ x ∧ y ∈ l.
Proof. unfold utils_remove. by rewrite list_elem_of_filter. Qed.

Section Flip.
Context (nodes : list nat) (m : hmodel) (p e v : nat).
Context (Hok : graph_ok nodes (cells m)) (Hp : p ∈ nodes) (He : e ∈ out m p) (Hv : tgt m e = v).

Lemma flip_facts : v ∈ nodes ∧ p ≠ v ∧ e ≠ p ∧ e ≠ v ∧ e ∈ inn m v ∧ src m e = p ∧ ∀ u, u ∈ nodes → u ≠ e.
Proof.
  destruct (g_out _ _ Hok p e Hp He) as (_ & Hev & Hs & Htn & Hne & Hin). rewrite Hv in *.
  assert (∀ u, u ∈ nodes → u ≠ e) as H.
  { intros u Hu ->. destruct (g_node _ _ Hok e Hu) as [_ Hve]. congruence. }
  split_and!; [done|done|..]; try done; apply not_eq_sym; by apply H.
Qed.

Lemma flip_at x : cells (flip p e v m) !!! x =
    if decide (x = e) then invert (cells m !!! e)
    else if decide (x = p) then with_connects (inn m p ++ [e]) (utils_remove e (out m p)) (cells m !!! p)
    else if decide (x = v) then with_connects (utils_remove e (inn m v)) (out m v ++ [e]) (cells m !!! v)
    else cells m !!! x.
Proof.
  destruct flip_facts as (Hvn & Hpv & Hep & Hev & _). destruct (g_out _ _ Hok p e Hp He) as (Hes & _).
  apply flip_lookup; [by apply (g_node _ _ Hok)|done|by apply (g_node _ _ Hok)|done..].
Qed.

Lemma flip_out u x : u ∈ nodes → x ∈ out (flip p e v m) u ↔ (u = v ∧ x = e) ∨ (x ∈ out m u ∧ x ≠ e).
Proof.
  intros Hu. destruct flip_facts as (Hvn & Hpv & Hep & Hev & Hin & Hs & Hne). rewrite flip_at.
  rewrite decide_False by by apply Hne. destruct (decide (u = p)) as [->|Hup]; simpl.
  - rewrite elem_of_utils_remove. naive_solver.
  - assert (∀ y, u ≠ p → y ∈ out m u → y ≠ e) as Hy.
    { intros y _ Hy ->. destruct (g_out _ _ Hok u e Hu Hy) as (_ & _ & E & _). congruence. }
    destruct (decide (u = v)) as [->|Huv]; simpl.
    + rewrite elem_of_app, list_elem_of_singleton. naive_solver.
    + naive_solver.
Qed.

Lemma flip_inn u x : u ∈ nodes → x ∈ inn (flip p e v m) u ↔ (u = p ∧ x = e) ∨ (x ∈ inn m u ∧ x ≠ e).
Proof.
  intros Hu. destruct flip_facts as (Hvn & Hpv & Hep & Hev & Hin & Hs & Hne). rewrite flip_at.
  rewrite decide_False by by apply Hne.
  assert (∀ y, u ≠ v → y ∈ inn m u → y ≠ e) as Hy.
  { intros y Huv Hy ->. destruct (g_in _ _ Hok u e Hu Hy) as (E & _). congruence. }
  destruct (decide (u = p)) as [->|Hup]; simpl.
  - rewrite elem_of_app, list_elem_of_singleton. naive_solver.
  - destruct (decide (u = v)) as [->|Huv]; simpl; [rewrite elem_of_utils_remove|]; naive_solver.
Qed.

Lemma flip_ends x :
  src (flip p e v m) x = (if decide (x = e) then v else src m x) ∧ tgt (flip p e v m) x = (if decide (x = e) then p else tgt m x).
Proof.
  destruct flip_facts as (_ & _ & _ & _ & _ & Hs & _). rewrite flip_at. repeat case_decide; subst; by simpl.
Qed.

Lemma flip_vertex x : isVertex (cells (flip p e v m) !!! x) = isVertex (cells m !!! x).
Proof. rewrite flip_at. repeat case_decide; subst; by simpl. Qed.

Lemma flip_ok : graph_ok nodes (cells (flip p e v m)).
Proof.
  destruct flip_facts as (Hvn & Hpv & Hep & Hev & Hin & Hs & Hne). split.
  - intros u Hu. rewrite flip_is_Some, flip_vertex. by apply Hok.
  - intros u x Hu Hx. rewrite flip_is_Some, flip_vertex. destruct (flip_ends x) as [-> ->].
    apply (flip_out u x Hu) in Hx as [[-> ->]|[Hx Hxe]].
    + rewrite !decide_True by done. destruct (g_out _ _ Hok p e Hp He) as (? & ? & _).
      split_and!; try done. apply flip_inn; [done|]. by left.
    + rewrite !decide_False by done. destruct (g_out _ _ Hok u x Hu Hx) as (? & ? & ? & ? & ? & ?).
      split_and!; try done. apply flip_inn; [done|]. by right.
  - intros u x Hu Hx. destruct (flip_ends x) as [-> ->].
    apply (flip_inn u x Hu) in Hx as [[-> ->]|[Hx Hxe]].
    + rewrite !decide_True by done. split_and!; try done. apply flip_out; [done|]. by left.
    + rewrite !decide_False by done. destruct (g_in _ _ Hok u x Hu Hx) as (? & ? & ?).
      split_and!; try done. apply flip_out; [done|]. by right.
  - intros u Hu. rewrite flip_at, decide_False by by apply Hne.
    pose proof (g_nodup_out _ _ Hok u Hu) as Hn. repeat case_decide; subst; simpl; [by apply NoDup_filter| |done].
    apply NoDup_app. split_and!; [done| |apply NoDup_singleton]. intros y Hy ->%list_elem_of_singleton.
    destruct (g_out _ _ Hok (tgt m e) e Hu Hy) as (_ & _ & E & _). congruence.
  - intros u Hu. rewrite flip_at, decide_False by by apply Hne.
    pose proof (g_nodup_in _ _ Hok u Hu) as Hn. repeat case_decide; subst; simpl; [|by apply NoDup_filter|done].
    apply NoDup_app. split_and!; [done| |apply NoDup_singleton]. intros y Hy ->%list_elem_of_singleton.
    destruct (g_in _ _ Hok _ e Hu Hy) as (E & _). congruence.
Qed.

End Flip.

(** What the search does to a model: edges may be turned round, the rest stays. *)
Record turned (m m' : hmodel) : Prop := {
  t_rest : temp m' = temp m ∧ vertexMapper m' = vertexMapper m ∧ roots m' = roots m ∧
           model_maxRank m' = model_maxRank m ∧ ranks m' = ranks m ∧ dfsCount m' = dfsCount m;
  t_is_Some : ∀ x, is_Some (cells m' !! x) ↔ is_Some (cells m !! x);
  t_cell : ∀ x, isVertex (cells m' !!! x) = isVertex (cells m !!! x) ∧ maxRank (cells m' !!! x) = maxRank (cells m !!! x) ∧
                minRank (cells m' !!! x) = minRank (cells m !!! x) ∧ temp_length (cells m' !!! x) = temp_length (cells m !!! x);
  t_ends : ∀ x, (src m' x = src m x ∧ tgt m' x = tgt m x ∧ isReversed (cells m' !!! x) = isReversed (cells m !!! x)) ∨
                (src m' x = tgt m x ∧ tgt m' x = src m x ∧ isReversed (cells m' !!! x) = negb (isReversed (cells m !!! x)));
  t_kept : ∀ x, x ∈ out m (src m x) → x ∈ out m' (src m' x)
}.

#[global] Instance turned_preorder : PreOrder turned.
Proof.
  split.
  - intros m. split; [by split_and!|done|intros; by split_and!|intros; by left|done].
  - intros m1 m2 m3 [R1 S1 C1 E1 K1] [R2 S2 C2 E2 K2]. split; [| | | |auto].
    + destruct R1 as (? & ? & ? & ? & ? & ?), R2 as (? & ? & ? & ? & ? & ?). split_and!; congruence.
    + intros x. by rewrite S2.
    + intros x. destruct (C1 x) as (? & ? & ? & ?), (C2 x) as (? & ? & ? & ?). split_and!; congruence.
    + intros x. destruct (E1 x) as [(A & B & C)|(A & B & C)], (E2 x) as [(A' & B' & C')|(A' & B' & C')];
        rewrite A', B', C', A, B, C, ?negb_involutive; auto.
Qed.

Lemma flip_kept nodes m p e v x : graph_ok nodes (cells m) → p ∈ nodes → e ∈ out m p → tgt m e = v →
  x ∈ out m (src m x) → x ∈ out (flip p e v m) (src (flip p e v m) x).
Proof.
  intros Hok Hp He Hv Hx. destruct (flip_facts nodes m p e v Hok Hp He Hv) as (Hvn & Hpv & Hep & Hev & _ & Hs & Hne).
  destruct (flip_ends nodes m p e v Hok Hp He Hv x) as [-> _]. case_decide as Hxe.
  - subst x. apply (flip_out nodes m p e v Hok Hp He Hv); [done|by left].
  - rewrite (flip_at nodes m p e v Hok Hp He Hv). case_decide as H1; [by rewrite H1 in Hx|].
    case_decide as H2; [rewrite H2 in Hx; simpl; by rewrite elem_of_utils_remove|].
    case_decide as H3; [rewrite H3 in Hx; simpl; apply elem_of_app; by left|done].
Qed.

Lemma turned_flip nodes m p e v : graph_ok nodes (cells m) → p ∈ nodes → e ∈ out m p → tgt m e = v → turned m (flip p e v m).
Proof.
  intros Hok Hp He Hv. split; [by split_and!|intros; apply flip_is_Some| | |intros x; by eapply flip_kept]; intros x;
    rewrite (flip_at nodes m p e v Hok Hp He Hv); repeat case_decide; subst; simpl; auto.
Qed.

Lemma turned_set_hash h m : turned m (set_hash h m).
Proof. split; [by split_and!|done|intros; by split_and!|intros; by left|done]. Qed.

(** ** The search *)

Lemma size_list_to_set_le (l : list nat) : size (list_to_set l : gset nat) ≤ length l.
Proof.
  induction l as [|x l IH]; [reflexivity|]. cbn [list_to_set length].
  rewrite size_union_alt, size_singleton. apply le_n_S. etrans; [|exact IH]. apply subseteq_size. set_solver.
Qed.

Lemma cons_split {A} (x y : A) l s1 s2 :
  x :: l = s1 ++ y :: s2 → (s1 = [] ∧ x = y ∧ l = s2) ∨ ∃ s, s1 = x :: s ∧ l = s ++ y :: s2.
Proof. destruct s1 as [|z s1]; simpl; intros E; injection E; intros; subst; eauto. Qed.

Section Search.
Context (nodes R : list nat) (k : nat).

(** The state of the search: the nodes seen, the path from the current node (first) to the
    root with the edges each of them still has to follow, and the nodes finished, the last
    one first. *)
Record searching (m : hmodel) (seen : gset nat) (stk : list (nat * list nat)) (fin : list nat) : Prop := {
  d_ok : graph_ok nodes (cells m);
  d_seen : ∀ u, u ∈ seen ↔ u ∈ stk.*1 ∨ u ∈ fin;
  d_nodup : NoDup (stk.*1 ++ fin);
  d_nodes : ∀ u, u ∈ seen → u ∈ nodes;
  d_fin : ∀ l1 f l2, fin = l1 ++ f :: l2 → ∀ e, e ∈ out m f → tgt m e ∈ l2;
  d_pend : ∀ s1 u P s2, stk = s1 ++ (u, P) :: s2 →
    NoDup P ∧ (∀ e, e ∈ P → e ∈ out m u) ∧ (∀ e, e ∈ out m u → e ∈ P ∨ tgt m e ∈ fin ∨ tgt m e ∈ s1.*1);
  d_code : ∀ u, u ∈ seen → ∃ h, hashCode m !! u = Some h ∧ head h = Some k;
  d_fresh : ∀ u h, u ∈ nodes → u ∉ seen → hashCode m !! u = Some h → head h ≠ Some k;
  d_path : ∀ s1 u P s2, stk = s1 ++ (u, P) :: s2 → ∀ w, w ∈ s2.*1 → node_isAncestor m w (Some u) = true;
  d_tree : ∀ s1 u P w Q s2, stk = s1 ++ (u, P) :: (w, Q) :: s2 → ∃ e, e ∈ inn m u ∧ src m e = w;
  d_root : ∀ s u P, stk = s ++ [(u, P)] → u ∈ R;
  d_has_in : ∀ f, f ∈ fin → f ∈ R ∨ inn m f ≠ []
}.

(** No finished node has a code that the codes below the children of [h] from the [i]-th on
    could extend. *)
Definition clear_from (m : hmodel) (fin : list nat) (h : list nat) (i : nat) : Prop :=
  ∀ f hf, f ∈ fin → hashCode m !! f = Some hf → ∀ j w w', i ≤ j → h ++ j :: w ≠ hf ++ w'.

Lemma isAncestor_prefix m w u hw hu :
  hashCode m !! w = Some hw → hashCode m !! u = Some hu →
  node_isAncestor m w (Some u) = true ↔ ∃ j r, hu = hw ++ j :: r.
Proof.
  intros Hw Hu. unfold node_isAncestor. rewrite Hw, Hu, andb_true_iff, !bool_decide_eq_true. split.
  - intros [Hl Ht]. rewrite <-(take_drop (length hw) hu), Ht. destruct (drop (length hw) hu) as [|j r] eqn:E; [|by eexists _, _].
    apply (f_equal length) in E. rewrite length_drop in E. simpl in E. lia.
  - intros (j & r & ->). rewrite length_app, take_app_length. simpl. split; [lia|done].
Qed.

Lemma searching_finish m seen v fin stk :
  searching m seen ((v, []) :: stk) fin → searching m seen stk (v :: fin).
Proof.
  intros [Ok Se Nd No Fi Pe Co Fr Pa Tr Ro Ha]. split; try done.
  - intros u. rewrite Se. simpl. rewrite !elem_of_cons. tauto.
  - simpl in Nd. by rewrite Permutation_app_comm, <-app_comm_cons, Permutation_app_comm.
  - intros [|x l1] f l2 E; injection E as <- E.
    + subst l2. intros e He. destruct (Pe [] v [] stk eq_refl) as (_ & _ & H).
      destruct (H e He) as [[]%not_elem_of_nil|[?|[]%not_elem_of_nil]]; done.
    + by apply (Fi l1).
  - intros s1 u P s2 ->. destruct (Pe ((v, []) :: s1) u P s2 eq_refl) as (H1 & H2 & H3). split_and!; [done|done|].
    intros e He. rewrite elem_of_cons. destruct (H3 e He) as [?|[?|[?|?]%elem_of_cons]]; auto.
  - intros s1 u P s2 ->. by apply (Pa ((v, []) :: s1) u P s2).
  - intros s1 u P w Q s2 ->. by apply (Tr ((v, []) :: s1) u P w Q s2).
  - intros s u P ->. by apply (Ro ((v, []) :: s) u P).
  - intros f [->|Hf]%elem_of_cons; [|by apply Ha]. destruct stk as [|[w Q] stk]; [left; by apply (Ro [] v [])|].
    destruct (Tr [] v [] w Q stk eq_refl) as (e & He & _). right. intros E. rewrite E in He. by apply not_elem_of_nil in He.
Qed.

(** Going down to a node seen for the first time. *)
Lemma searching_push m seen p e P stk fin v hp i :
  searching m seen ((p, e :: P) :: stk) fin → tgt m e = v → v ∉ seen → hashCode m !! p = Some hp →
  let m1 := set_hash (<[v := hp ++ [i]]> (hashCode m)) m in
  searching m1 ({[v]} ∪ seen) ((v, out m v) :: (p, P) :: stk) fin.
Proof.
  intros [Ok Se Nd No Fi Pe Co Fr Pa Tr Ro Ha] Hv Hns Hhp m1.
  destruct (Pe [] p (e :: P) stk eq_refl) as ([HeP HnP]%NoDup_cons & Hsub & Hdone).
  assert (e ∈ out m p) as He by (apply Hsub; left).
  assert (p ∈ seen) as Hps by (apply Se; left; left).
  destruct (g_out _ _ Ok p e (No p Hps) He) as (_ & _ & Hse & Hvn & Hvp & Hin). rewrite Hv in *.
  assert (∀ u, u ∈ seen → hashCode m1 !! u = hashCode m !! u) as Hh.
  { intros u Hu. simpl. rewrite lookup_insert_ne; [done|]. by intros ->. }
  assert (∀ u w, u ∈ seen → w ∈ seen → node_isAncestor m1 w (Some u) = node_isAncestor m w (Some u)) as Hanc.
  { intros u w Hu Hw. unfold node_isAncestor. by rewrite !Hh. }
  assert (∀ u, u ∈ ((p, P) :: stk).*1 → u ∈ seen) as Hstk by (intros u Hu; apply Se; by left).
  split; try done.
  - intros u. rewrite elem_of_union, elem_of_singleton, Se. simpl. rewrite !elem_of_cons. tauto.
  - change (NoDup (v :: ((p, e :: P) :: stk).*1 ++ fin)). apply NoDup_cons. split; [|done].
    by rewrite elem_of_app, <-Se.
  - intros u [->%elem_of_singleton|Hu]%elem_of_union; [done|by apply No].
  - intros s1 u Q s2 [(-> & [= <- <-] & <-)|(s & -> & [(-> & [= <- <-] & <-)|(s' & -> & ->)]%cons_split)]%cons_split.
    + simpl. split_and!; [by apply (g_nodup_out _ _ Ok)|done|by left].
    + split_and!; [done|intros x Hx; apply Hsub; by right|]. intros x Hx.
      destruct (Hdone x Hx) as [[->|?]%elem_of_cons|[?|[]%not_elem_of_nil]]; auto. right; right. change (tgt m e ∈ [v]). rewrite Hv. left.
    + destruct (Pe ((p, e :: P) :: s') u Q s2 eq_refl) as (A & B & C). split_and!; [done|done|].
      intros x Hx. destruct (C x Hx) as [?|[?|?]]; auto. right; right. simpl in *. rewrite elem_of_cons. by right.
  - intros u [->%elem_of_singleton|Hu]%elem_of_union.
    + exists (hp ++ [i]). split; [apply lookup_insert_eq|]. destruct (Co p Hps) as (h & Hh' & Hk). simplify_eq. by destruct hp.
    + rewrite Hh by done. by apply Co.
  - intros u h Hu [Huv%not_elem_of_singleton Hus]%not_elem_of_union. simpl. rewrite lookup_insert_ne by done. by apply Fr.
  - intros s1 u Q s2 [(-> & [= <- <-] & <-)|(s & -> & [(-> & [= <- <-] & <-)|(s' & -> & ->)]%cons_split)]%cons_split.
    + intros w Hw. destruct (Co w (Hstk w Hw)) as (hw & Hhw & _).
      apply (isAncestor_prefix m1 w v hw (hp ++ [i])); [by rewrite Hh by auto|apply lookup_insert_eq|].
      apply elem_of_cons in Hw as [->|Hw]; [assert (hw = hp) as -> by (simpl in Hhw; congruence); by exists i, []|].
      pose proof (Pa [] p (e :: P) stk eq_refl w Hw) as Hpa.
      apply (isAncestor_prefix m w p hw hp Hhw Hhp) in Hpa as (j & r & ->). exists j, (r ++ [i]). by rewrite <-app_assoc.
    + intros w Hw. rewrite Hanc; [by apply (Pa [] p (e :: P) stk eq_refl)|by apply Hstk; left|by apply Hstk; right].
    + intros w Hw. assert (∀ x, x ∈ u :: s2.*1 → x ∈ seen) as Hx.
      { intros x Hx. apply Hstk. simpl. rewrite elem_of_cons, fmap_app, elem_of_app. simpl. auto. }
      rewrite Hanc; [by apply (Pa ((p, e :: P) :: s') u Q s2)|apply Hx; left|apply Hx; by right].
  - intros s1 u Q w Q' s2 [(-> & [= <- <-] & [= <- <- <-])|(s & -> & [(-> & [= <- <-] & ->)|(s' & -> & ->)]%cons_split)]%cons_split.
    + by exists e.
    + by apply (Tr [] p (e :: P) w Q' s2).
    + by apply (Tr ((p, e :: P) :: s') u Q w Q' s2).
  - intros s1 u Q [(-> & _ & E')|(s & -> & [(-> & [= <- <-] & ->)|(s' & -> & ->)]%cons_split)]%cons_split; [done| |].
    + by apply (Ro [] p (e :: P)).
    + by apply (Ro ((p, e :: P) :: s') u Q).
Qed.

(** Turning round an edge that leads back to the path. *)
Lemma searching_flip m seen p e P stk fin v :
  searching m seen ((p, e :: P) :: stk) fin → tgt m e = v → v ∈ stk.*1 →
  searching (flip p e v m) seen ((p, P) :: stk) fin.
Proof.
  intros [Ok Se Nd No Fi Pe Co Fr Pa Tr Ro Ha] Hv Hvs.
  destruct (Pe [] p (e :: P) stk eq_refl) as ([HeP HnP]%NoDup_cons & Hsub & Hdone).
  assert (e ∈ out m p) as He by (apply Hsub; left).
  assert (∀ u, u ∈ p :: stk.*1 ∨ u ∈ fin → u ∈ nodes) as Hn by (intros u Hu; by apply No, Se).
  assert (p ∈ nodes) as Hpn by (apply Hn; left; left).
  destruct (flip_facts nodes m p e v Ok Hpn He Hv) as (Hvn & Hpv & Hep & Hev & Hin & Hsrc & Hne).
  pose proof (λ u x, flip_out nodes m p e v Ok Hpn He Hv u x) as Hout.
  pose proof (λ u x, flip_inn nodes m p e v Ok Hpn He Hv u x) as Hinn.
  pose proof (flip_ends nodes m p e v Ok Hpn He Hv) as Hends.
  assert (∀ x, x ≠ e → tgt (flip p e v m) x = tgt m x ∧ src (flip p e v m) x = src m x) as Hx.
  { intros x Hxe. destruct (Hends x) as [-> ->]. by rewrite !decide_False. }
  assert (tgt (flip p e v m) e = p) as Hte by (destruct (Hends e) as [_ ->]; by rewrite decide_True).
  simpl in Nd. apply NoDup_cons in Nd as [Hpd Nd]. rewrite elem_of_app in Hpd.
  assert (v ∉ fin) as Hvf by (apply NoDup_app in Nd as (_ & H & _); by apply H).
  assert (∀ f, f ∈ fin → f ∈ nodes ∧ f ≠ p ∧ f ≠ v) as Hf by (intros f Hf; split; [by apply Hn; right|split; intros ->; tauto]).
  split; try done; [by apply flip_ok|by apply NoDup_cons; rewrite elem_of_app|..].
  - intros l1 f l2 Hfl x Hxo. assert (f ∈ fin) as Hff by (rewrite Hfl, elem_of_app, elem_of_cons; auto).
    destruct (Hf f Hff) as (Hfn & Hfp & Hfv). apply (Hout f x Hfn) in Hxo as [[-> _]|[Hxo Hxe]]; [done|].
    destruct (Hx x Hxe) as [-> _]. by eapply Fi.
  - assert (∀ u s1 Q, u ∈ nodes → (∀ x, x ∈ Q → x ∈ out m u ∧ x ≠ e) → (u = v → p ∈ s1.*1) → NoDup Q →
      (∀ x, x ∈ out m u → x ≠ e → x ∈ Q ∨ tgt m x ∈ fin ∨ tgt m x ∈ s1.*1) →
      NoDup Q ∧ (∀ x, x ∈ Q → x ∈ out (flip p e v m) u) ∧
      (∀ x, x ∈ out (flip p e v m) u → x ∈ Q ∨ tgt (flip p e v m) x ∈ fin ∨ tgt (flip p e v m) x ∈ (s1 : list (nat * list nat)).*1)) as Hkey.
    { intros u s1 Q Hu HQ Hps1 HnQ Hd. split_and!; [done| |].
      - intros x HxQ. apply Hout; [done|]. right. by apply HQ.
      - intros x [[-> ->]|[Hxo Hxe]]%Hout; [rewrite Hte; auto| |done].
        destruct (Hx x Hxe) as [-> _]. by apply Hd. }
    intros s1 u Q s2 [(-> & [= <- <-] & <-)|(s & -> & ->)]%cons_split.
    + apply Hkey; [done|intros x HxQ; split; [apply Hsub; by right|by intros ->]|done|done|].
      intros x Hxo Hxe. destruct (Hdone x Hxo) as [[->|?]%elem_of_cons|?]; auto; done.
    + destruct (Pe ((p, e :: P) :: s) u Q s2 eq_refl) as (A & B & C).
      assert (u ∈ nodes) as Hun by (apply Hn; left; right; rewrite fmap_app, elem_of_app; right; left).
      assert (∀ x, x ∈ out m u → x ≠ e) as Hxe.
      { intros x Hxo ->. destruct (g_out _ _ Ok u e Hun Hxo) as (_ & _ & E & _).
        apply Hpd. left. rewrite fmap_app, elem_of_app. right. replace p with u by congruence. left. }
      apply Hkey; [done|intros x HxQ; split; auto|intros _; left|done|].
      intros x Hxo _. destruct (C x Hxo) as [?|[?|?]]; auto.
  - intros s1 u Q s2 [(-> & [= <- <-] & <-)|(s & -> & ->)]%cons_split.
    + by apply (Pa [] p (e :: P) stk eq_refl).
    + by apply (Pa ((p, e :: P) :: s) u Q s2).
  - assert (∀ u w, u ∈ nodes → w ≠ p ∨ u ≠ v → (∃ x, x ∈ inn m u ∧ src m x = w) → ∃ x, x ∈ inn (flip p e v m) u ∧ src (flip p e v m) x = w) as Hkey.
    { intros u w Hu Hw (x & Hxi & Hxs). assert (x ≠ e) as Hxe.
      { intros ->. destruct (g_in _ _ Ok u e Hu Hxi) as (E & _). destruct Hw as [Hw|Hw]; [by rewrite Hsrc in Hxs; subst|congruence]. }
      exists x. destruct (Hx x Hxe) as [_ ->]. split; [|done]. apply Hinn; [done|]. by right. }
    intros s1 u Q w Q' s2 [(-> & [= <- <-] & ->)|(s & -> & ->)]%cons_split.
    + apply Hkey; [done|by right|]. by apply (Tr [] p (e :: P) w Q' s2).
    + apply Hkey; [apply Hn; left; right; rewrite fmap_app, elem_of_app; right; left|left; intros ->; apply Hpd; left|].
      * rewrite fmap_app, elem_of_app. right. right. left.
      * by apply (Tr ((p, e :: P) :: s) u Q w Q' s2).
  - intros s1 u Q [(-> & [= <- <-] & ->)|(s & -> & ->)]%cons_split.
    + by apply (Ro [] p (e :: P)).
    + by apply (Ro ((p, e :: P) :: s) u Q).
  - intros f Hff. destruct (Hf f Hff) as (Hfn & Hfp & Hfv). destruct (Ha f Hff) as [?|Hi]; [by left|right].
    intros E. apply Hi. destruct (inn m f) as [|x l] eqn:Ei; [done|]. exfalso.
    assert (x ∈ inn (flip p e v m) f) as Hxi.
    { apply Hinn; [done|]. right. rewrite Ei. split; [left|]. intros ->.
      destruct (g_in _ _ Ok f e Hfn) as (E' & _); [rewrite Ei; left|congruence]. }
    rewrite E in Hxi. by apply not_elem_of_nil in Hxi.
Qed.

(** What a search that has seen [seen] does to the edges: it turns round some of those
    between nodes it has seen, and every edge stays registered at its source. *)
Record retained (m m' : hmodel) (seen : gset nat) : Prop := {
  w_turned : turned m m';
  w_moved : ∀ x, src m' x ≠ src m x → src m x ∈ seen ∧ tgt m x ∈ seen;
  w_kept : ∀ x, src m x ∈ nodes → x ∈ out m (src m x) → src m' x ∈ nodes ∧ x ∈ out m' (src m' x);
  w_same : acyclic nodes (cells m) → cells m' = cells m
}.

Lemma turned_ends m m' x : turned m m' → (src m' x = src m x ∧ tgt m' x = tgt m x) ∨ (src m' x = tgt m x ∧ tgt m' x = src m x).
Proof. intros T. destruct (t_ends _ _ T x) as [(-> & -> & _)|(-> & -> & _)]; auto. Qed.

Lemma retained_refl m seen : retained m m seen.
Proof. by split. Qed.

Lemma retained_trans m1 m2 m3 s2 s3 : s2 ⊆ s3 → retained m1 m2 s2 → retained m2 m3 s3 → retained m1 m3 s3.
Proof.
  intros S2 [T1 M1 K1 A1] [T2 M2 K2 A2]. split.
  - by etrans.
  - intros x Hx. destruct (decide (src m2 x = src m1 x)) as [E|E].
    + rewrite <-E in Hx |- *. destruct (turned_ends m1 m2 x T1) as [[_ <-]|[Ha Hb]]; [by apply M2|].
      destruct (M2 x Hx) as [A B]. rewrite <-Ha, E, <-Hb. rewrite E in *. by split.
    + destruct (M1 x E) as [A B]. split; by apply S2.
  - intros x Hn Hx. destruct (K1 x Hn Hx). by apply K2.
  - intros Ha. rewrite A2; [by apply A1|]. by rewrite A1.
Qed.

Lemma retained_set_hash h m m' seen : retained (set_hash h m) m' seen → retained m m' seen.
Proof. intros [T M K A]. split; [|done|done|done]. etrans; [apply turned_set_hash|done]. Qed.

(** What happens from one point of the search to another: the nodes finished in between get
    codes in [C]. *)
Record went (C : list nat → Prop) (m : hmodel) (seen : gset nat) (fin : list nat)
    (m' : hmodel) (seen' : gset nat) (fin' : list nat) : Prop := {
  w_retained : retained m m' seen';
  w_seen : seen ⊆ seen';
  w_code : ∀ u, u ∈ seen → hashCode m' !! u = hashCode m !! u;
  w_new : ∃ new, fin' = new ++ fin ∧ ∀ f, f ∈ new → f ∈ seen' ∧ ∃ h, hashCode m' !! f = Some h ∧ C h
}.

Lemma went_refl C m seen fin : went C m seen fin m seen fin.
Proof. split; [apply retained_refl|done|done|]. exists []. split; [done|]. by intros f ?%not_elem_of_nil. Qed.

Lemma went_trans (C C1 C2 : list nat → Prop) m1 s1 f1 m2 s2 f2 m3 s3 f3 :
  (∀ h, C1 h → C h) → (∀ h, C2 h → C h) →
  went C1 m1 s1 f1 m2 s2 f2 → went C2 m2 s2 f2 m3 s3 f3 → went C m1 s1 f1 m3 s3 f3.
Proof.
  intros HC1 HC2 [R1 S1 H1 (n1 & E1 & N1)] [R2 S2 H2 (n2 & E2 & N2)]. split.
  - by eapply retained_trans.
  - by etrans.
  - intros u Hu. rewrite H2; auto.
  - exists (n2 ++ n1). split; [by rewrite E2, E1, app_assoc|]. intros f [Hf|Hf]%elem_of_app.
    + destruct (N2 f Hf) as (? & h & ? & ?). eauto.
    + destruct (N1 f Hf) as (? & h & ? & ?). split; [by apply S2|]. exists h. rewrite H2; auto.
Qed.

Lemma went_clear C m seen fin m' seen' fin' h i :
  went C m seen fin m' seen' fin' → (∀ f, f ∈ fin → f ∈ seen) → (∀ c, C c → ∃ w, c = h ++ i :: w) →
  clear_from m fin h i → clear_from m' fin' h (S i).
Proof.
  intros W Hs HC Hc f hf Hf Hhf j w w' Hj E. destruct (w_new _ _ _ _ _ _ _ W) as (new & -> & Hn).
  apply elem_of_app in Hf as [Hf|Hf].
  - destruct (Hn f Hf) as (_ & h' & Hh' & [v ->]%HC). simplify_eq. rewrite <-app_assoc in E.
    apply app_inv_head in E. injection E as E _. lia.
  - rewrite (w_code _ _ _ _ _ _ _ W) in Hhf by auto. apply (Hc f hf Hf Hhf j w w'); [lia|done].
Qed.

Lemma clear_below m fin h i : clear_from m fin h i → clear_from m fin (h ++ [i]) 0.
Proof. intros Hc f hf Hf Hhf j w w' _ E. rewrite <-app_assoc in E. by apply (Hc f hf Hf Hhf i (j :: w) w'). Qed.

Definition unseen (seen : gset nat) : nat := size (list_to_set nodes ∖ seen : gset nat).

Lemma unseen_mono s s' : s ⊆ s' → unseen s' ≤ unseen s.
Proof. intros H. unfold unseen. apply subseteq_size. set_solver. Qed.

Lemma unseen_add v s : v ∈ nodes → v ∉ s → unseen ({[v]} ∪ s) < unseen s.
Proof. intros Hv Hs. unfold unseen. apply subset_size. split; [set_solver|]. intros H. assert (v ∈ (list_to_set nodes ∖ s : gset nat)) by set_solver. set_solver. Qed.

(** An edge to a finished node is left alone. *)
Lemma searching_skip m seen p e P stk fin :
  searching m seen ((p, e :: P) :: stk) fin → tgt m e ∈ fin → searching m seen ((p, P) :: stk) fin.
Proof.
  intros [Ok Se Nd No Fi Pe Co Fr Pa Tr Ro Ha] Hv. split; try done.
  - intros s1 u Q s2 [(-> & [= <- <-] & <-)|(s & -> & ->)]%cons_split.
    + destruct (Pe [] p (e :: P) stk eq_refl) as ([_ HnP]%NoDup_cons & Hsub & Hdone).
      split_and!; [done|intros x Hx; apply Hsub; by right|]. intros x Hx.
      destruct (Hdone x Hx) as [[->|?]%elem_of_cons|?]; auto.
    + by apply (Pe ((p, e :: P) :: s) u Q s2).
  - intros s1 u Q s2 [(-> & [= <- <-] & <-)|(s & -> & ->)]%cons_split.
    + by apply (Pa [] p (e :: P) stk eq_refl).
    + by apply (Pa ((p, e :: P) :: s) u Q s2).
  - intros s1 u Q w Q' s2 [(-> & [= <- <-] & ->)|(s & -> & ->)]%cons_split.
    + by apply (Tr [] p (e :: P) w Q' s2).
    + by apply (Tr ((p, e :: P) :: s) u Q w Q' s2).
  - intros s1 u Q [(-> & [= <- <-] & ->)|(s & -> & ->)]%cons_split.
    + by apply (Ro [] p (e :: P)).
    + by apply (Ro ((p, e :: P) :: s) u Q).
Qed.

Lemma form_hash_seen m p v i hp hv :
  hashCode m !! p = Some hp → hashCode m !! v = Some hv → head hv = head hp → form_hash (Some p) v i m = m.
Proof. intros Hp Hv E. unfold form_hash. by rewrite Hp, Hv; simpl; rewrite decide_True. Qed.

Lemma form_hash_new m p v i hp :
  hashCode m !! p = Some hp → (∀ h, hashCode m !! v = Some h → head h ≠ head hp) →
  form_hash (Some p) v i m = set_hash (<[v := hp ++ [i]]> (hashCode m)) m.
Proof.
  intros Hp Hv. unfold form_hash. rewrite Hp. simpl. destruct (hashCode m !! v) as [h|] eqn:E; [|done].
  by rewrite decide_False by by apply Hv.
Qed.

Lemma cycle_visitor_id parent v e b m : node_isAncestor m v parent = false → cycle_visitor parent v e b m = Some m.
Proof. unfold cycle_visitor. by intros ->. Qed.

(** In a graph without cycles no edge leads back to the path. *)
Lemma stack_increases m seen fin (f : nat → nat) p Q stk :
  searching m seen ((p, Q) :: stk) fin → (∀ u e, u ∈ nodes → e ∈ out m u → f (tgt m e) < f u) →
  ∀ v, v ∈ stk.*1 → f p < f v.
Proof.
  intros Hs Hf. assert (∀ u, u ∈ ((p, Q) :: stk).*1 → u ∈ nodes) as Hn.
  { intros u Hu. apply (d_nodes _ _ _ _ Hs), (d_seen _ _ _ _ Hs). by left. }
  pose proof (d_tree _ _ _ _ Hs) as Ht. pose proof (d_ok _ _ _ _ Hs) as Hok. clear Hs. revert p Q Hn Ht.
  induction stk as [|[w Q'] stk IH]; intros p Q Hn Ht v Hv; [by apply not_elem_of_nil in Hv|].
  assert (f p < f w) as Hpw.
  { destruct (Ht [] p Q w Q' stk eq_refl) as (e & He & Hse).
    destruct (g_in _ _ Hok p e (Hn p (list_elem_of_here _ _)) He) as (<- & Hsn & Ho). rewrite <-Hse. by apply Hf. }
  apply elem_of_cons in Hv as [->|Hv]; [done|]. etrans; [exact Hpw|]. eapply (IH w Q'); [|intros s1 u P x Q2 s2 E|done].
  - intros u Hu. apply Hn. by right.
  - eapply (Ht ((p, Q) :: s1)). simpl. by rewrite E.
Qed.

(** What a call of the search for the next edge of the current node does. *)
Definition call_ok (n : nat) : Prop := ∀ m seen p e P stk fin hp i,
  searching m seen ((p, e :: P) :: stk) fin → hashCode m !! p = Some hp → clear_from m fin hp i → unseen seen < n →
  ∃ m' seen' fin', extendedDfs n cycle_visitor (Some p) (tgt m e) (Some e) i (m, seen) = Some (m', seen') ∧
    searching m' seen' ((p, P) :: stk) fin' ∧ went (λ c, ∃ w, c = hp ++ i :: w) m seen fin m' seen' fin'.

Lemma search_children n : call_ok n → ∀ Q m seen p stk fin hp i,
  searching m seen ((p, Q) :: stk) fin → hashCode m !! p = Some hp → clear_from m fin hp i → unseen seen < n →
  ∃ m' seen' fin',
    foldl (λ acc ie, acc ← acc; extendedDfs n cycle_visitor (Some p) (tgt acc.1 ie.2) (Some ie.2) ie.1 acc)
      (Some (m, seen)) (imap (λ j x, (i + j, x)) Q) = Some (m', seen') ∧
    searching m' seen' ((p, []) :: stk) fin' ∧ went (λ c, ∃ j w, c = hp ++ j :: w) m seen fin m' seen' fin'.
Proof.
  intros Hcall. induction Q as [|e Q IH]; intros m seen p stk fin hp i Hs Hp Hc Hn.
  - exists m, seen, fin. split_and!; [done|done|apply went_refl].
  - rewrite imap_cons. cbn [foldl mbind option_bind fst snd]. rewrite Nat.add_0_r.
    destruct (Hcall m seen p e Q stk fin hp i Hs Hp Hc Hn) as (m1 & s1 & f1 & -> & Hs1 & W1).
    assert (∀ u, u ∈ p :: stk.*1 ∨ u ∈ fin → u ∈ seen) as Hseen by (intros u Hu; by apply (d_seen _ _ _ _ Hs)).
    destruct (IH m1 s1 p stk f1 hp (S i) Hs1) as (m2 & s2 & f2 & E2 & Hs2 & W2).
    + rewrite (w_code _ _ _ _ _ _ _ W1); [done|]. apply Hseen. left. left.
    + eapply went_clear; [done|intros f Hf; apply Hseen; by right|done|done].
    + pose proof (unseen_mono _ _ (w_seen _ _ _ _ _ _ _ W1)). lia.
    + exists m2, s2, f2. split_and!; [|done|eapply went_trans, W2; [|done|exact W1]; intros h (w & ->); eauto].
      rewrite <-E2. f_equal. apply imap_ext. intros j x _. unfold compose. f_equal. lia.
Qed.

Lemma call_ok_all n : call_ok n.
Proof.
  induction n as [|n IH]; intros m seen p e P stk fin hp i Hs Hp Hc Hn; [lia|].
  pose proof (d_seen _ _ _ _ Hs) as Hse.
  assert (p ∈ seen) as Hps by (apply Hse; left; left).
  assert (p ∈ nodes) as Hpn by by apply (d_nodes _ _ _ _ Hs).
  destruct (d_pend _ _ _ _ Hs [] p (e :: P) stk eq_refl) as (_ & Hsub & _).
  assert (e ∈ out m p) as He by (apply Hsub; left).
  destruct (g_out _ _ (d_ok _ _ _ _ Hs) p e Hpn He) as (_ & _ & Hsrc & Hvn & Hvp & _).
  destruct (d_code _ _ _ _ Hs p Hps) as (hp' & Hp' & Hk). assert (hp' = hp) as -> by congruence. clear Hp'.
  destruct (g_node _ _ (d_ok _ _ _ _ Hs) _ Hvn) as [Hsome _].
  cbn [extendedDfs]. rewrite decide_True by done. destruct (decide (tgt m e ∈ seen)) as [Hvs|Hvs].
  - destruct (d_code _ _ _ _ Hs _ Hvs) as (hv & Hhv & Hkv).
    rewrite (form_hash_seen m p _ i hp hv) by congruence.
    assert (tgt m e ∈ stk.*1 ∨ tgt m e ∈ fin) as [Hst|Hfin].
    { apply Hse in Hvs as [[?|?]%elem_of_cons|?]; [done|by left|by right]. }
    + exists (flip p e (tgt m e) m), seen, fin. split_and!.
      * unfold cycle_visitor. by rewrite (d_path _ _ _ _ Hs [] p (e :: P) stk eq_refl _ Hst).
      * by apply searching_flip.
      * pose proof (d_ok _ _ _ _ Hs) as Hok.
        pose proof (flip_ends nodes m p e _ Hok Hpn He eq_refl) as Hends.
        split; [split; [by eapply turned_flip|..]|done|done|exists []; by split; [|intros ? ?%not_elem_of_nil]].
        -- intros x. destruct (Hends x) as [-> _]. case_decide; [subst x|done]. rewrite Hsrc. done.
        -- intros x Hxn Hx. destruct (Hends x) as [-> _]. case_decide; [subst x|].
           ++ split; [done|]. by apply (flip_out nodes m p e _ Hok Hpn He eq_refl); [|left].
           ++ split; [done|]. by apply (flip_out nodes m p e _ Hok Hpn He eq_refl); [|right].
        -- intros (f & _ & Hf). pose proof (stack_increases _ _ _ f _ _ _ Hs Hf _ Hst). pose proof (Hf p e Hpn He). lia.
    + exists m, seen, fin. split_and!; [|by eapply searching_skip|apply went_refl].
      unfold cycle_visitor. destruct (node_isAncestor m (tgt m e) (Some p)) eqn:Ea; [|done]. exfalso.
      apply (isAncestor_prefix m _ p hv hp Hhv Hp) in Ea as (j & r & ->).
      apply (Hc _ hv Hfin Hhv i [] (j :: r ++ [i])); [lia|]. by rewrite <-app_assoc.
  - rewrite (form_hash_new m p _ i hp Hp).
    2:{ intros h Hh. rewrite Hk. by eapply (d_fresh _ _ _ _ Hs). }
    set (m1 := set_hash _ m). pose proof (searching_push _ _ _ _ _ _ _ _ _ i Hs eq_refl Hvs Hp) as Hs1. fold m1 in Hs1.
    assert (hashCode m1 !! tgt m e = Some (hp ++ [i])) as Hhv by apply lookup_insert_eq.
    assert (hashCode m1 !! p = Some hp) as Hp1 by (simpl; by rewrite lookup_insert_ne).
    assert (∀ u, u ∈ seen → hashCode m1 !! u = hashCode m !! u) as Hold.
    { intros u Hu. simpl. rewrite lookup_insert_ne; [done|]. by intros <-. }
    destruct (node_isAncestor m1 (tgt m e) (Some p)) eqn:Ea.
    { apply (isAncestor_prefix m1 _ p _ hp Hhv Hp1) in Ea as (j & r & E).
      apply (f_equal length) in E. rewrite !length_app in E. simpl in E. lia. }
    rewrite cycle_visitor_id by done. cbn [mbind option_bind].
    destruct (search_children n IH (out m1 (tgt m e)) m1 ({[tgt m e]} ∪ seen) (tgt m e) ((p, P) :: stk) fin (hp ++ [i]) 0)
      as (m2 & s2 & f2 & E2 & Hs2 & W2).
    + done.
    + done.
    + apply clear_below. intros f hf Hf. rewrite Hold by (apply Hse; by right). by apply Hc.
    + pose proof (unseen_add _ _ Hvn Hvs). lia.
    + exists m2, s2, (tgt m e :: f2). split_and!; [|by apply searching_finish|].
      { exact E2. }
      destruct W2 as [T2 S2 H2 (new & -> & N2)]. split.
      * by eapply retained_set_hash.
      * set_solver.
      * intros u Hu. rewrite H2 by set_solver. by apply Hold.
      * exists (tgt m e :: new). split; [done|]. intros f [->|Hf]%elem_of_cons.
        -- split; [set_solver|]. exists (hp ++ [i]). rewrite H2 by set_solver. split; [done|]. by exists [].
        -- destruct (N2 f Hf) as (? & h & ? & j & w & ->). split; [done|]. eexists. split; [done|].
           exists (j :: w). by rewrite <-app_assoc.
Qed.

(** *** The roots *)

Lemma unseen_bound seen : unseen seen ≤ length nodes.
Proof.
  unfold unseen. etrans; [|apply size_list_to_set_le]. apply subseteq_size. set_solver.
Qed.

(** A root seen for the first time, and one seen before. *)
Lemma searching_root m seen fin r i :
  searching m seen [] fin → r ∈ nodes → r ∈ R → r ∉ seen →
  let m1 := set_hash (<[r := [k; i]]> (hashCode m)) m in
  searching m1 ({[r]} ∪ seen) [(r, out m r)] fin.
Proof.
  intros [Ok Se Nd No Fi Pe Co Fr Pa Tr Ro Ha] Hrn HrR Hrs m1. split; try done.
  - intros u. rewrite elem_of_union, elem_of_singleton, Se. simpl. rewrite list_elem_of_singleton, elem_of_nil. tauto.
  - apply NoDup_cons. split; [|done]. intros Hr. apply Hrs, Se. by right.
  - intros u [->%elem_of_singleton|Hu]%elem_of_union; [done|by apply No].
  - intros s1 u Q s2 [(-> & [= <- <-] & <-)|(s & -> & E)]%cons_split; [|by destruct s].
    split_and!; [by apply (g_nodup_out _ _ Ok)|done|by left].
  - intros u [->%elem_of_singleton|Hu]%elem_of_union; simpl; [exists [k; i]; by rewrite lookup_insert_eq|].
    rewrite lookup_insert_ne by (by intros ->). by apply Co.
  - intros u h Hu [Huv%not_elem_of_singleton Hus]%not_elem_of_union. simpl. rewrite lookup_insert_ne by done. by apply Fr.
  - intros s1 u Q s2 [(-> & [= <- <-] & <-)|(s & -> & E)]%cons_split; [|by destruct s]. by intros w ?%not_elem_of_nil.
  - intros s1 u Q w Q' s2 [(-> & _ & E')|(s & -> & E)]%cons_split; [done|by destruct s].
  - intros s u Q [(-> & [= <- <-] & _)|(s' & -> & E)]%cons_split; [done|by destruct s'].
Qed.

Lemma searching_rehash m seen fin r i :
  searching m seen [] fin → r ∈ seen → searching (set_hash (<[r := [k; i]]> (hashCode m)) m) seen [] fin.
Proof.
  intros [Ok Se Nd No Fi Pe Co Fr Pa Tr Ro Ha] Hrs. split; try done.
  - intros u Hu. simpl. destruct (decide (u = r)) as [->|Hur]; [exists [k; i]; by rewrite lookup_insert_eq|].
    rewrite lookup_insert_ne by done. by apply Co.
  - intros u h Hu Hus. simpl. rewrite lookup_insert_ne by (by intros ->). by apply Fr.
  - by intros [] u P s2 [=].
Qed.

Lemma turned_rest m m' : turned m m' → dfsCount m' = dfsCount m ∧ vertexMapper m' = vertexMapper m ∧ roots m' = roots m.
Proof. intros [(_ & ? & ? & _ & _ & ?) _ _ _]. done. Qed.

Lemma search_roots rs : ∀ m seen fin i,
  searching m seen [] fin → clear_from m fin [k] i → dfsCount m = k → length nodes < dfs_fuel m →
  (∀ r, Some r ∈ rs → r ∈ nodes ∧ r ∈ R) →
  ∃ m' seen' fin',
    foldl (λ acc ir, acc ← acc;
            match ir.2 with
            | None => Some acc
            | Some node =>
                if true then
                  let m := set_hash (<[node := [dfsCount acc.1; ir.1]]> (hashCode acc.1)) acc.1 in
                  extendedDfs (dfs_fuel m) cycle_visitor None node None ir.1 (m, acc.2)
                else dfs (dfs_fuel acc.1) cycle_visitor None node None acc
            end) (Some (m, seen)) (imap (λ j x, (i + j, x)) rs) = Some (m', seen') ∧
    searching m' seen' [] fin' ∧ retained m m' seen' ∧ seen ⊆ seen' ∧ ∀ r, Some r ∈ rs → r ∈ seen'.
Proof.
  induction rs as [|r rs IH]; intros m seen fin i Hs Hc Hk Hn Hrs.
  - exists m, seen, fin. split_and!; [done|done|apply retained_refl|done|]. by intros r ?%not_elem_of_nil.
  - rewrite imap_cons, Nat.add_0_r.
    replace (imap ((λ j x, (i + j, x)) ∘ S) rs) with (imap (λ j x, (S i + j, x)) rs)
      by (apply imap_ext; intros j x _; unfold compose; f_equal; lia).
    destruct r as [r|].
    2:{ destruct (IH m seen fin (S i) Hs) as (m3 & seen3 & fin3 & E3 & Hs3 & Hr3 & Hsub3 & Hall); [|done|done|intros r' Hr'; apply Hrs; by right|].
        - intros f hf Hf Hhf j w w' Hj. apply (Hc f hf Hf Hhf j w w'). lia.
        - exists m3, seen3, fin3. split_and!; [|done|done|done|intros r' [[=]|Hr']%elem_of_cons; by apply Hall].
          exact E3. }
    cbn [foldl mbind option_bind fst snd]. rewrite Hk.
    set (m1 := set_hash _ m). destruct (Hrs r (list_elem_of_here _ _)) as [Hrn HrR].
    assert (∃ m2 seen2 fin2, extendedDfs (dfs_fuel m1) cycle_visitor None r None i (m1, seen) = Some (m2, seen2) ∧
      searching m2 seen2 [] fin2 ∧ clear_from m2 fin2 [k] (S i) ∧ retained m m2 seen2 ∧ seen ⊆ seen2 ∧ r ∈ seen2)
      as (m2 & seen2 & fin2 & -> & Hs2 & Hc2 & Hr2 & Hsub & Hr).
    { destruct (g_node _ _ (d_ok _ _ _ _ Hs) r Hrn) as [Hsome _].
      assert (hashCode m1 !! r = Some [k; i]) as Hhr by apply lookup_insert_eq.
      assert (∀ u, u ∈ fin → r ≠ u → hashCode m1 !! u = hashCode m !! u) as Hold by (intros u Hu Hru; simpl; by rewrite lookup_insert_ne).
      unfold dfs_fuel. cbn [extendedDfs form_hash]. rewrite decide_True by done.
      destruct (decide (r ∈ seen)) as [Hrs'|Hrs'].
      - rewrite cycle_visitor_id by done. cbn [mbind option_bind]. exists m1, seen, fin.
        split_and!; [done|by apply searching_rehash| |apply (retained_set_hash (hashCode m1)), retained_refl|done|done].
        intros f hf Hf Hhf j w w' Hj E. destruct (decide (r = f)) as [<-|Hrf].
        + assert (hf = [k; i]) as -> by congruence. injection E as E _. lia.
        + rewrite Hold in Hhf by done. apply (Hc f hf Hf Hhf j w w'); [lia|done].
      - rewrite cycle_visitor_id by done. cbn [mbind option_bind].
        destruct (search_children _ (call_ok_all (S (length (vertexMapper m1)))) (out m1 r) m1 ({[r]} ∪ seen) r [] fin [k; i] 0)
          as (m2 & seen2 & fin2 & E2 & Hs2 & W2).
        + by apply (searching_root m seen fin r i).
        + done.
        + apply (clear_below _ _ [k] i). intros f hf Hf. rewrite Hold; [by apply Hc|done|].
          intros ->. apply Hrs'. apply (d_seen _ _ _ _ Hs). by right.
        + pose proof (unseen_add r seen Hrn Hrs'). unfold dfs_fuel in Hn. simpl.
          pose proof (unseen_bound seen). lia.
        + exists m2, seen2, (r :: fin2). split_and!.
          * exact E2.
          * by apply searching_finish.
          * assert (clear_from m2 fin2 [k] (S i)) as Hc2.
            { eapply went_clear; [exact W2|..].
              - intros f Hf. rewrite elem_of_union. right. apply (d_seen _ _ _ _ Hs). by right.
              - intros c (j & w & ->). by exists (j :: w).
              - intros f hf Hf. rewrite Hold; [by apply Hc|done|]. intros ->. apply Hrs', (d_seen _ _ _ _ Hs). by right. }
            intros f hf [->|Hf]%elem_of_cons Hhf j w w' Hj E; [|by apply (Hc2 f hf Hf Hhf j w w')].
            rewrite (w_code _ _ _ _ _ _ _ W2) in Hhf by set_solver. assert (hf = [k; i]) as -> by congruence.
            injection E as E _. lia.
          * apply (retained_set_hash (hashCode m1)), W2.
          * pose proof (w_seen _ _ _ _ _ _ _ W2). set_solver.
          * pose proof (w_seen _ _ _ _ _ _ _ W2). set_solver. }
    destruct (turned_rest m m2 (w_turned _ _ _ Hr2)) as (Hd & Hvm & _).
    destruct (IH m2 seen2 fin2 (S i) Hs2 Hc2) as (m3 & seen3 & fin3 & E3 & Hs3 & Hr3 & Hsub3 & Hall).
    + congruence.
    + unfold dfs_fuel in *. by rewrite Hvm.
    + intros r' Hr'. apply Hrs. by right.
    + exists m3, seen3, fin3. split_and!; [|done|by eapply retained_trans|set_solver|].
      * exact E3.
      * intros r' [[= ->]|Hr']%elem_of_cons; [by apply Hsub3|by apply Hall].
Qed.


End Search.
(** ** The cycle remover *)

(** A node follows another along an edge. *)
Definition follows (m : hmodel) (u v : nat) : Prop := ∃ e, e ∈ out m u ∧ tgt m e = v.

(** The model the layout starts from: consistent references, every node is
    reached from a root (a root may have no node here), and no code left from a search with this number. *)
Record hierarchy_ok (m : hmodel) : Prop := {
  h_graph : graph_ok (vertexMapper_values m) (cells m);
  h_reach : ∀ u, u ∈ vertexMapper_values m → ∃ r, Some r ∈ root_nodes m ∧ rtc (follows m) r u;
  h_fresh : ∀ u h, u ∈ vertexMapper_values m → hashCode m !! u = Some h → head h ≠ Some (dfsCount m)
}.

Lemma vertexMapper_get_values m c u : vertexMapper_get m c = Some u → u ∈ vertexMapper_values m.
Proof.
  unfold vertexMapper_get, vertexMapper_values. intros H. apply fmap_Some in H as (cu & H & ->).
  apply fmap_Some in H as ([i cu'] & (H & _)%list_find_Some & ->). apply list_elem_of_fmap. eauto using list_elem_of_lookup_2.
Qed.

Lemma root_nodes_values m r : Some r ∈ root_nodes m → r ∈ vertexMapper_values m.
Proof. unfold root_nodes. intros (c & E & _)%list_elem_of_fmap. by apply (vertexMapper_get_values m c). Qed.

(** The number of nodes finished before [u]. *)
Fixpoint finished_before (u : nat) (fin : list nat) : nat :=
  match fin with
  | [] => 0
  | x :: fin => if decide (x = u) then length fin else finished_before u fin
  end.

Lemma finished_before_at u l1 l2 : u ∉ l1 → finished_before u (l1 ++ u :: l2) = length l2.
Proof.
  induction l1 as [|x l1 IH]; simpl; [by rewrite decide_True|].
  intros [H1 H2]%not_elem_of_cons. rewrite decide_False by done. by apply IH.
Qed.

Lemma finished_acyclic nodes R k m seen fin :
  searching nodes R k m seen [] fin → (∀ u, u ∈ nodes → u ∈ fin) → acyclic nodes (cells m).
Proof.
  intros Hs Hall. pose proof (d_nodup _ _ _ _ _ _ _ Hs) as Hnd. simpl in Hnd.
  assert (∀ u, u ∈ nodes → ∃ l1 l2, fin = l1 ++ u :: l2 ∧ u ∉ l1 ∧ finished_before u fin = length l2) as Hat.
  { intros u Hu. apply Hall in Hu as (l1 & l2 & E)%list_elem_of_split. exists l1, l2.
    assert (u ∉ l1) as Hn; [|rewrite E; auto using finished_before_at].
    rewrite E in Hnd. apply NoDup_app in Hnd as (_ & H & _). intros Hu. apply (H u Hu). by left. }
  assert (length fin ≤ length nodes) as Hle.
  { apply submseteq_length, NoDup_submseteq; [done|]. intros u Hu. apply (d_nodes _ _ _ _ _ _ _ Hs), (d_seen _ _ _ _ _ _ _ Hs). by right. }
  exists (λ u, finished_before u fin). split.
  - intros u Hu. destruct (Hat u Hu) as (l1 & l2 & E & _ & ->). rewrite E, length_app in Hle. simpl in Hle. lia.
  - intros u e Hu He. destruct (Hat u Hu) as (l1 & l2 & E & _ & ->).
    destruct (g_out _ _ (d_ok _ _ _ _ _ _ _ Hs) u e Hu He) as (_ & _ & _ & Htn & _).
    destruct (Hat _ Htn) as (l3 & l4 & E' & Hn & ->).
    destruct (list_elem_of_split _ _ (d_fin _ _ _ _ _ _ _ Hs l1 u l2 E e He)) as (l5 & l6 & ->).
    rewrite E' in E. rewrite E' in Hnd. assert (length l4 = length l6); [|rewrite length_app; simpl; lia].
    rewrite E in Hnd. rewrite app_comm_cons, app_assoc in E, Hnd.
    assert (finished_before (tgt m e) (l3 ++ tgt m e :: l4) = length l6) as H.
    { rewrite E. apply finished_before_at. apply NoDup_app in Hnd as (_ & H & _). intros Hu'. apply (H _ Hu'). by left. }
    by rewrite finished_before_at in H.
Qed.

Lemma searching_start nodes R k m :
  graph_ok nodes (cells m) → (∀ u h, u ∈ nodes → hashCode m !! u = Some h → head h ≠ Some k) → searching nodes R k m ∅ [] [].
Proof.
  intros Ok Fr. split; try done.
  - intros u. simpl. rewrite elem_of_nil. set_solver.
  - constructor.
  - by intros [].
  - by intros [].
  - intros u h Hu _. by apply Fr.
  - by intros [].
  - by intros [].
  - by intros [].
  - by intros f ?%not_elem_of_nil.
Qed.

(** Every node the roots reached before has been seen. *)
Lemma retained_reach nodes R k m m' seen fin u v :
  searching nodes R k m' seen [] fin → retained nodes m m' seen → graph_ok nodes (cells m) →
  u ∈ seen → rtc (follows m) u v → v ∈ seen.
Proof.
  intros Hs Hr Hok Hu Huv. induction Huv as [u|u w v (e & He & Hw) _ IH]; [done|]. apply IH.
  pose proof (d_nodes _ _ _ _ _ _ _ Hs u Hu) as Hun.
  destruct (g_out _ _ Hok u e Hun He) as (_ & _ & Hsrc & Hwn & _). rewrite Hw in Hwn.
  destruct (decide (src m' e = src m e)) as [E|E].
  - destruct (w_kept _ _ _ _ Hr e) as [_ He']; [by rewrite Hsrc|by rewrite Hsrc|]. rewrite E, Hsrc in He'.
    apply (d_seen _ _ _ _ _ _ _ Hs) in Hu as [[]%not_elem_of_nil|Hu].
    destruct (list_elem_of_split _ _ Hu) as (l1 & l2 & El). pose proof (d_fin _ _ _ _ _ _ _ Hs _ _ _ El e He') as Ht.
    assert (tgt m' e = w) as Hwt.
    { destruct (turned_ends m m' e (w_turned _ _ _ _ Hr)) as [[_ ->]|[Ha Hb]]; [done|]. congruence. }
    apply (d_seen _ _ _ _ _ _ _ Hs). right. rewrite El, elem_of_app, elem_of_cons, <-Hwt. auto.
  - rewrite <-Hw. by apply (w_moved _ _ _ _ Hr e E).
Qed.

Lemma remove_cycles_run m : hierarchy_ok m →
  ∃ m1, remove_cycles m = Some (set_dfsCount (S (S (dfsCount m))) m1) ∧ turned m m1 ∧
    graph_ok (vertexMapper_values m) (cells m1) ∧ acyclic (vertexMapper_values m) (cells m1) ∧
    (∀ u, u ∈ vertexMapper_values m → inn m1 u = [] → Some u ∈ root_nodes m) ∧
    (acyclic (vertexMapper_values m) (cells m) → cells m1 = cells m).
Proof.
  intros [Hok Hreach Hfresh]. set (nodes := vertexMapper_values m) in *.
  destruct (search_roots nodes (omap id (root_nodes m)) (dfsCount m) (root_nodes m) m ∅ [] 0) as (m1 & seen & fin & E & Hs & Hr & _ & Hseen).
  - by apply searching_start.
  - by intros f hf ?%not_elem_of_nil.
  - done.
  - unfold dfs_fuel, nodes, vertexMapper_values. rewrite length_fmap. lia.
  - intros r Hr. split; [by apply root_nodes_values|]. apply list_elem_of_omap. by exists (Some r).
  - pose proof (turned_rest m m1 (w_turned _ _ _ _ Hr)) as (Hd & _ & Hro).
    assert (∀ u, u ∈ nodes → u ∈ fin) as Hall.
    { intros u Hu. destruct (Hreach u Hu) as (r & Hrr & Hru).
      assert (u ∈ seen) as Hus.
      { eapply retained_reach; [done|done|done| |exact Hru]. by apply Hseen. }
      apply (d_seen _ _ _ _ _ _ _ Hs) in Hus as [[]%not_elem_of_nil|]; done. }
    exists m1. split_and!.
    + unfold remove_cycles. unfold visit at 2.
      match goal with |- context [foldl ?f (Some (m, ∅)) (imap pair (root_nodes m))] =>
        replace (foldl f (Some (m, ∅)) (imap pair (root_nodes m))) with (Some (m1, seen)) end.
      cbn [mbind option_bind fst snd visit imap foldl]. by rewrite Hd.
    + by apply w_turned with nodes seen.
    + apply Hs.
    + by eapply finished_acyclic.
    + intros u Hu Hin. destruct (d_has_in _ _ _ _ _ _ _ Hs u (Hall u Hu)) as [H|H]; [|done].
      by apply list_elem_of_omap in H as ([r|] & Hr1 & [= <-]).
    + apply (w_same _ _ _ _ Hr).
Qed.

Lemma turned_set_dfsCount n m m' : turned m m' → turned (set_dfsCount n m) (set_dfsCount n m').
Proof. intros [(? & ? & ? & ? & ? & _) Hi Hc He]. split; [by split_and!|done..]. Qed.

(** ** A check of concrete graphs *)

Definition graph_check (nodes : list nat) (cs : gmap nat hcell) : bool :=
  forallb (λ u, bool_decide (is_Some (cs !! u)) && isVertex (cs !!! u) &&
    bool_decide (NoDup (connectsAsSource (cs !!! u))) && bool_decide (NoDup (connectsAsTarget (cs !!! u))) &&
    forallb (λ e, bool_decide (is_Some (cs !! e)) && negb (isVertex (cs !!! e)) && bool_decide (source (cs !!! e) = u) &&
      bool_decide (target (cs !!! e) ∈ nodes) && bool_decide (target (cs !!! e) ≠ u) &&
      bool_decide (e ∈ connectsAsTarget (cs !!! target (cs !!! e)))) (connectsAsSource (cs !!! u)) &&
    forallb (λ e, bool_decide (target (cs !!! e) = u) && bool_decide (source (cs !!! e) ∈ nodes) &&
      bool_decide (e ∈ connectsAsSource (cs !!! source (cs !!! e)))) (connectsAsTarget (cs !!! u))) nodes.

Lemma graph_check_ok nodes cs : graph_check nodes cs = true → graph_ok nodes cs.
Proof.
  unfold graph_check. rewrite forallb_forall. intros H.
  assert (∀ u, u ∈ nodes → _) as H' by (intros u Hu%list_elem_of_In; exact (H u Hu)). clear H.
  setoid_rewrite andb_true_iff in H'.
  split; intros u; [intros Hu|intros e Hu He%list_elem_of_In|intros e Hu He%list_elem_of_In|intros Hu|intros Hu];
    destruct (H' u Hu) as [H1 Hin]; apply andb_true_iff in H1 as [H1 Hout];
    apply andb_true_iff in H1 as [H1 Hn]; apply andb_true_iff in H1 as [H1 Hm]; apply andb_true_iff in H1 as [H1 Hv].
  - split; [by eapply bool_decide_eq_true|done].
  - apply (proj1 (forallb_forall _ _)) with (x := e) in Hout; [|done]. rewrite !andb_true_iff, !bool_decide_eq_true, negb_true_iff in Hout. naive_solver.
  - apply (proj1 (forallb_forall _ _)) with (x := e) in Hin; [|done]. rewrite !andb_true_iff, !bool_decide_eq_true in Hin. naive_solver.
  - by eapply bool_decide_eq_true.
  - by eapply bool_decide_eq_true.
Qed.

(** Three nodes on a cycle, and a fourth with an edge into it; the first and the fourth are
    roots, and so is a cell of another hierarchy. Without the edge from the third to the first there is no cycle. *)
Definition fresh (asTarget asSource : list nat) : hcell := with_length 0 (node asTarget asSource (-1)).
Definition ring : hmodel :=
  HModel (list_to_map [(1, fresh [12] [10]); (2, fresh [10; 13] [11]); (3, fresh [11] [12]); (4, fresh [] [13]);
                       (10, edge 1 2); (11, edge 2 3); (12, edge 3 1); (13, edge 4 2)])
         ∅ ∅ [(21, 1); (22, 2); (23, 3); (24, 4)] [21; 29; 24] SOURCESCANSTARTRANK [] 0.
Definition path : hmodel :=
  set_cells (<[1 := fresh [] [10]]> (<[3 := fresh [11] []]> (delete 12 (cells ring)))) ring.

Lemma four_ok m :
  vertexMapper m = vertexMapper ring → roots m = roots ring → hashCode m = ∅ →
  graph_check [1; 2; 3; 4] (cells m) = true → out m 1 = [10] → out m 2 = [11] → tgt m 10 = 2 → tgt m 11 = 3 → hierarchy_ok m.
Proof.
  intros Hv Hr Hh Hg O1 O2 T1 T2.
  assert (vertexMapper_values m = [1; 2; 3; 4]) as Hn by (unfold vertexMapper_values; by rewrite Hv).
  assert (root_nodes m = [Some 1; None; Some 4]) as Hrn by (unfold root_nodes, vertexMapper_get; by rewrite Hv, Hr).
  assert (follows m 1 2) as F1 by (exists 10; rewrite O1; split; [left|done]).
  assert (follows m 2 3) as F2 by (exists 11; rewrite O2; split; [left|done]).
  split.
  - rewrite Hn. by apply graph_check_ok.
  - rewrite Hn, Hrn. intros u Hu. rewrite !elem_of_cons, elem_of_nil in Hu. destruct Hu as [->|[->|[->|[->|[]]]]].
    + exists 1. split; [left|done].
    + exists 1. split; [left|]. by apply rtc_once.
    + exists 1. split; [left|]. eapply rtc_l; [exact F1|]. by apply rtc_once.
    + exists 4. split; [right; right; left|done].
  - intros u h _. by rewrite Hh, lookup_empty.
Qed.

Lemma path_acyclic : acyclic [1; 2; 3; 4] (cells path).
Proof.
  exists (λ u, if decide (u = 3) then 0 else if decide (u = 2) then 1 else 2).
  split; intros u; [intros _; change (length _) with 4; repeat case_decide; lia|].
  intros e Hu. rewrite !elem_of_cons, elem_of_nil in Hu.
  destruct Hu as [->|[->|[->|[->|[]]]]]; vm_compute (connectsAsSource _);
    rewrite ?elem_of_cons, elem_of_nil; [intros [->|[]]|intros [->|[]]|intros []|intros [->|[]]]; vm_compute; lia.
Qed.

(** ** The theorems *)

(** C13: The removal of cycles terminates without error and leaves a graph without cycles: the
    model is the old one with edges turned round (swapped ends and a flipped [isReversed], still
    registered at both ends), and only roots are without incoming edges. *)
Theorem remove_cycles_acyclic m : hierarchy_ok m →
  ∃ m', remove_cycles m = Some m' ∧ turned (set_dfsCount (dfsCount m + 2) m) m' ∧
    graph_ok (vertexMapper_values m) (cells m') ∧ acyclic (vertexMapper_values m) (cells m') ∧
    ∀ u, u ∈ vertexMapper_values m → connectsAsTarget (cells m' !!! u) = [] → Some u ∈ root_nodes m.
Proof.
  intros (m1 & E & T & Hok & Ha & Hr & _)%remove_cycles_run. eexists. split; [exact E|].
  split; [replace (dfsCount m + 2) with (S (S (dfsCount m))) by lia; by apply turned_set_dfsCount|done].
Qed.

Lemma remove_cycles_acyclic_witness :
  hierarchy_ok ring ∧ (∃ m', remove_cycles ring = Some m' ∧ acyclic [1; 2; 3; 4] (cells m')) ∧
  (target <$> (remove_cycles ring ≫= λ m', cells m' !! 12)) = Some 3.
Proof.
  assert (hierarchy_ok ring) as H by by apply four_ok. split; [done|]. split; [|by vm_compute].
  destruct (remove_cycles_acyclic ring H) as (m' & E & _ & _ & Ha & _). by exists m'.
Defined.

(** A graph without cycles is left as it is: the search turns no edge round. *)
Theorem remove_cycles_keeps_acyclic m : hierarchy_ok m → acyclic (vertexMapper_values m) (cells m) →
  ∃ m', remove_cycles m = Some m' ∧ cells m' = cells m.
Proof. intros (m1 & E & _ & _ & _ & _ & Hs)%remove_cycles_run Ha. eexists. split; [exact E|]. by apply Hs. Qed.

Lemma remove_cycles_keeps_acyclic_witness :
  hierarchy_ok path ∧ acyclic (vertexMapper_values path) (cells path) ∧ ∃ m', remove_cycles path = Some m' ∧ cells m' = cells path.
Proof.
  assert (hierarchy_ok path) as H by by apply four_ok.
  split; [done|split; [exact path_acyclic|]]. apply remove_cycles_keeps_acyclic; [done|exact path_acyclic].
Defined.

End HierarchyCycles.
