(* ===== verification/HierarchyRanks.v ===== *)
(** * The ranks of a hierarchy

    [initialRank] gives every node of a graph without cycles a rank above those its edges lead
    to, and [fixRanks] sorts the nodes and edges into the lists of the ranks. The stages run one
    after the other up to the crossing reduction. *)

From S2P Require Import Prelude Crossings CrossingStage Hierarchy HierarchyCycles.
Import Crossings CrossingStage Hierarchy HierarchyCycles.
#[local] Open Scope nat_scope.

Module HierarchyRanks.

(** ** Graphs that differ in lengths of [temp] only *)

Definition alike (cs cs' : gmap nat hcell) : Prop := with_length 0 <$> cs = with_length 0 <$> cs'.

#[global] Instance alike_equivalence : Equivalence alike.
Proof. split; [done|by intros ???|intros ??? H1 H2; unfold alike in *; congruence]. Qed.

Lemma alike_cell cs cs' x : alike cs cs' → with_length 0 (cs !!! x) = with_length 0 (cs' !!! x).
Proof.
  intros H. rewrite !lookup_total_alt. pose proof (f_equal (λ g : gmap nat hcell, g !! x) H) as E. simpl in E.
  rewrite !lookup_fmap in E. destruct (cs !! x), (cs' !! x); simpl in *; congruence.
Qed.

Lemma alike_fields cs cs' x : alike cs cs' →
  isVertex (cs !!! x) = isVertex (cs' !!! x) ∧ maxRank (cs !!! x) = maxRank (cs' !!! x) ∧ minRank (cs !!! x) = minRank (cs' !!! x) ∧
  connectsAsTarget (cs !!! x) = connectsAsTarget (cs' !!! x) ∧ connectsAsSource (cs !!! x) = connectsAsSource (cs' !!! x) ∧
  source (cs !!! x) = source (cs' !!! x) ∧ target (cs !!! x) = target (cs' !!! x) ∧ isReversed (cs !!! x) = isReversed (cs' !!! x).
Proof. intros H%(alike_cell _ _ x). injection H. intros. by split_and!. Qed.

Lemma alike_is_Some cs cs' x : alike cs cs' → is_Some (cs !! x) ↔ is_Some (cs' !! x).
Proof.
  intros H. pose proof (f_equal (λ g : gmap nat hcell, g !! x) H) as E. simpl in E. rewrite !lookup_fmap in E.
  by rewrite <-(fmap_is_Some (with_length 0)), E, fmap_is_Some.
Qed.

Lemma alike_alter n c cs : alike (alter (λ x, with_length (n x) x) c cs) cs.
Proof.
  apply map_eq. intros x. rewrite !lookup_fmap. destruct (decide (x = c)) as [->|H].
  - rewrite lookup_alter_eq. by destruct (cs !! c) as [[]|].
  - by rewrite lookup_alter_ne.
Qed.

Lemma alike_write c i v m : alike (cells (write_temp c i v m)) (cells m).
Proof. apply (alike_alter (λ x, Z.max (temp_length x) (i + 1))). Qed.

Lemma temp0_write c v m x : temp0 (write_temp c 0 v m) x = if decide (x = c) then Some v else temp0 m x.
Proof.
  unfold temp0, write_temp. simpl. case_decide as H; [subst; by rewrite lookup_insert_eq|].
  rewrite lookup_insert_ne; [done|]. intros [= E]. by apply H.
Qed.

(** Consistency and the absence of cycles depend on such fields only. *)
Lemma graph_ok_alike nodes cs cs' : alike cs cs' → graph_ok nodes cs → graph_ok nodes cs'.
Proof.
  intros H [Hn Ho Hi No Ni].
  assert (∀ x, isVertex (cs' !!! x) = isVertex (cs !!! x) ∧ connectsAsTarget (cs' !!! x) = connectsAsTarget (cs !!! x) ∧
    connectsAsSource (cs' !!! x) = connectsAsSource (cs !!! x) ∧ source (cs' !!! x) = source (cs !!! x) ∧
    target (cs' !!! x) = target (cs !!! x) ∧ (is_Some (cs' !! x) ↔ is_Some (cs !! x))) as E.
  { intros x. destruct (alike_fields _ _ x H) as (? & _ & _ & ? & ? & ? & ? & _). split_and!; try done. symmetry. by apply alike_is_Some. }
  assert (∀ x, isVertex (cs' !!! x) = isVertex (cs !!! x)) as E1 by apply E.
  assert (∀ x, connectsAsTarget (cs' !!! x) = connectsAsTarget (cs !!! x)) as E2 by apply E.
  assert (∀ x, connectsAsSource (cs' !!! x) = connectsAsSource (cs !!! x)) as E3 by apply E.
  assert (∀ x, source (cs' !!! x) = source (cs !!! x)) as E4 by apply E.
  assert (∀ x, target (cs' !!! x) = target (cs !!! x)) as E5 by apply E.
  assert (∀ x, is_Some (cs' !! x) ↔ is_Some (cs !! x)) as E6 by apply E.
  split; intros u; rewrite ?E1, ?E2, ?E3, ?E6; [by apply Hn| | |by apply No|by apply Ni]; intros e.
  - rewrite E1, E2, E4, E5, E6. by apply Ho.
  - rewrite E3, E4, E5. by apply Hi.
Qed.

(** ** The loop over the queue *)

Section Ranking.
Context (nodes R : list nat) (G : gmap nat hcell) (f : nat → nat).
Context (Hok : graph_ok nodes G) (Hbound : ∀ u, u ∈ nodes → f u < length nodes).
Context (Hdown : ∀ u e, u ∈ nodes → e ∈ connectsAsSource (G !!! u) → f (target (G !!! e)) < f u).
Context (Hsize : (Z.of_nat (length nodes) ≤ SOURCESCANSTARTRANK)%Z).
Context (Hroots : ∀ u, u ∈ nodes → connectsAsTarget (G !!! u) = [] → u ∈ R).

Abbreviation O u := (connectsAsSource (G !!! u)).
Abbreviation I u := (connectsAsTarget (G !!! u)).
Abbreviation S_ e := (source (G !!! e)).
Abbreviation T_ e := (target (G !!! e)).

(** The lowest layer a node can get. *)
Definition lowest (u : nat) : Z := SOURCESCANSTARTRANK - Z.of_nat (length nodes - 1 - f u).

Definition has_layer (m : hmodel) (u : nat) (l : Z) : Prop :=
  temp0 m u = Some l ∧ (lowest u ≤ l ≤ SOURCESCANSTARTRANK)%Z.

(** The state of the loop over the queue. *)
Record ranking (m : hmodel) (queue : list nat) : Prop := {
  r_like : alike (cells m) G;
  r_queue : ∀ u, u ∈ queue → u ∈ nodes;
  r_value : ∀ u, u ∈ nodes → temp0 m u = Some (-1)%Z ∨ temp0 m u = Some (-2)%Z ∨ ∃ l, has_layer m u l;
  r_edge : ∀ u e, u ∈ nodes → e ∈ O u → temp0 m e = Some STAMP ↔ ∃ l, has_layer m u l;
  r_wait : ∀ u, u ∈ nodes → (∀ l, ¬ has_layer m u l) → temp0 m u = Some (-2)%Z ∨ u ∈ R → u ∈ queue;
  r_touched : ∀ u e l, u ∈ nodes → e ∈ O u → has_layer m u l → temp0 m (T_ e) ≠ Some (-1)%Z;
  r_scan : ∀ u l, u ∈ nodes → has_layer m u l → scan m (I u) SOURCESCANSTARTRANK = Some (Some l);
  r_max : (SOURCESCANSTARTRANK - Z.of_nat (length nodes - 1) ≤ model_maxRank m ≤ SOURCESCANSTARTRANK)%Z ∧ ∀ u l, u ∈ nodes → has_layer m u l → (model_maxRank m ≤ l)%Z
}.

Lemma lowest_pos u : u ∈ nodes → (0 < lowest u)%Z.
Proof. intros Hu. pose proof (Hbound u Hu). unfold lowest. lia. Qed.

(** What the scan of the edges into a node finds. *)
Lemma scan_layers m es min :
  alike (cells m) G →
  (∀ e, e ∈ es → temp0 m e = Some STAMP → ∃ l, temp0 m (S_ e) = Some l) →
  (∃ e, e ∈ es ∧ temp0 m e ≠ Some STAMP ∧ scan m es min = Some None) ∨
  (∃ l, scan m es min = Some (Some l) ∧ (l ≤ min)%Z ∧
    (∀ e, e ∈ es → temp0 m e = Some STAMP ∧ ∃ k, temp0 m (S_ e) = Some k ∧ (l < k)%Z) ∧
    (l = min ∨ ∃ e, e ∈ es ∧ temp0 m (S_ e) = Some (l + 1)%Z)).
Proof.
  intros Hl. revert min. induction es as [|e es IH]; intros min He; simpl.
  { right. exists min. split_and!; [done|lia|by intros e ?%not_elem_of_nil|by left]. }
  destruct (alike_fields _ _ e Hl) as (_ & _ & _ & _ & _ & -> & _).
  destruct (decide (temp0 m e = Some STAMP)) as [Hs|Hs].
  - destruct (He e (list_elem_of_here _ _) Hs) as [l Hle]. rewrite Hle. cbn [mbind option_bind].
    destruct (IH (Z.min min (l - 1))) as [(e' & He' & Hn & ->)|(k & -> & Hk & Hall & Hmin)].
    + intros e' He' Hs'. apply He; [by right|done].
    + left. exists e'. split_and!; [by right|done|done].
    + right. exists k. split_and!; [done|lia| |].
      * intros e' [->|He']%elem_of_cons; [|by apply Hall]. split; [done|]. exists l. split; [done|lia].
      * destruct Hmin as [->|(e' & He' & Hk')].
        -- destruct (Z.min_spec min (l - 1)) as [[_ ->]|[_ ->]]; [by left|].
           right. exists e. split; [left|]. by replace (l - 1 + 1)%Z with l by lia.
        -- right. exists e'. split; [by right|done].
  - left. exists e. split_and!; [left|done|done].
Qed.

Lemma scan_stable m m' es min k :
  alike (cells m) G → alike (cells m') G →
  (∀ e, e ∈ es → temp0 m e = Some STAMP → temp0 m' e = Some STAMP ∧ temp0 m' (S_ e) = temp0 m (S_ e)) →
  scan m es min = Some (Some k) → scan m' es min = Some (Some k).
Proof.
  intros Hl Hl'. revert min. induction es as [|e es IH]; intros min He; [done|]. simpl.
  destruct (alike_fields _ _ e Hl) as (_ & _ & _ & _ & _ & -> & _), (alike_fields _ _ e Hl') as (_ & _ & _ & _ & _ & -> & _).
  destruct (decide (temp0 m e = Some STAMP)) as [Hs|Hs]; [|done].
  destruct (He e (list_elem_of_here _ _) Hs) as [-> ->]. rewrite decide_True by done.
  destruct (temp0 m (S_ e)); [|done]. cbn [mbind option_bind]. apply IH. intros e' He'. apply He. by right.
Qed.

(** The number of nodes no one has put into the queue yet. *)
Definition untouched (m : hmodel) : nat := size (filter (λ u, temp0 m u = Some (-1)%Z) (list_to_set nodes : gset nat)).

Lemma untouched_mono m m' : (∀ u, u ∈ nodes → temp0 m' u = Some (-1)%Z → temp0 m u = Some (-1)%Z) → untouched m' ≤ untouched m.
Proof. intros H. unfold untouched. apply subseteq_size. intros u. rewrite !elem_of_filter, elem_of_list_to_set. naive_solver. Qed.

Lemma untouched_touch m v z : v ∈ nodes → temp0 m v = Some (-1)%Z → z ≠ (-1)%Z → untouched (write_temp v 0 z m) < untouched m.
Proof.
  intros Hv Hm Hz. unfold untouched. apply subset_size. split.
  - intros u. rewrite !elem_of_filter, temp0_write. case_decide; naive_solver.
  - intros H. specialize (H v). rewrite !elem_of_filter, temp0_write, decide_True, elem_of_list_to_set in H by done. naive_solver.
Qed.

(** What a stage leaves alone. *)
Definition framed (m m' : hmodel) : Prop :=
  alike (cells m') (cells m) ∧ vertexMapper m' = vertexMapper m ∧ roots m' = roots m ∧ dfsCount m' = dfsCount m.

#[global] Instance framed_preorder : PreOrder framed.
Proof.
  split; [by intros m|]. intros m1 m2 m3 (A & B & C & D) (A' & B' & C' & D'). split_and!; [by etrans|congruence..].
Qed.

Lemma framed_write c i v m : framed m (write_temp c i v m).
Proof. split_and!; [apply alike_write|done..]. Qed.

Lemma framed_like m m' : framed m m' → alike (cells m) G → alike (cells m') G.
Proof. intros [H _] ?. by etrans. Qed.

(** Marking the edges out of a node and queueing the nodes at their ends. *)
Lemma mark_spec es : ∀ queue m,
  alike (cells m) G → (∀ e, e ∈ es → e ∉ nodes ∧ T_ e ∈ nodes) → (∀ u, u ∈ nodes → is_Some (temp0 m u)) →
  ∃ new m', mark es queue m = Some (queue ++ new, m') ∧ framed m m' ∧ model_maxRank m' = model_maxRank m ∧
    (∀ e, e ∈ es → temp0 m' e = Some STAMP) ∧ (∀ x, x ∉ es → x ∉ nodes → temp0 m' x = temp0 m x) ∧
    (∀ u, u ∈ nodes → (temp0 m' u = temp0 m u ∧ (temp0 m u = Some (-1)%Z → ∀ e, e ∈ es → T_ e ≠ u)) ∨
                      (temp0 m u = Some (-1)%Z ∧ temp0 m' u = Some (-2)%Z ∧ u ∈ new)) ∧
    (∀ u, u ∈ new → u ∈ nodes) ∧ length new + untouched m' ≤ untouched m.
Proof.
  induction es as [|e es IH]; intros queue m Hl He Hn; cbn [mark].
  { exists [], m. rewrite app_nil_r. split_and!; try done; try (by intros ? ?%not_elem_of_nil). intros u Hu. left. split; [done|].
    by intros _ ? ?%not_elem_of_nil. }
  destruct (He e (list_elem_of_here _ _)) as [Hen Htn].
  set (m1 := write_temp e 0 STAMP m). assert (framed m m1) as F1 by apply framed_write.
  assert (alike (cells m1) G) as Hl1 by by eapply framed_like.
  destruct (alike_fields _ _ e Hl1) as (_ & _ & _ & _ & _ & _ & -> & _).
  assert (∀ u, u ∈ nodes → temp0 m1 u = temp0 m u) as E1.
  { intros u Hu. unfold m1. rewrite temp0_write, decide_False; [done|]. by intros ->. }
  assert (∀ e', e' ∈ es → e' ∉ nodes ∧ T_ e' ∈ nodes) as He' by (intros e' H; apply He; by right).
  assert (∀ x, x ∉ e :: es → temp0 m1 x = temp0 m x) as E1'.
  { intros x [Hx _]%not_elem_of_cons. unfold m1. by rewrite temp0_write, decide_False. }
  assert (∀ m2 m', (∀ x, x ∉ nodes → temp0 m2 x = temp0 m1 x) → (∀ e', e' ∈ es → temp0 m' e' = Some STAMP) →
    (∀ x, x ∉ es → x ∉ nodes → temp0 m' x = temp0 m2 x) → ∀ e', e' ∈ e :: es → temp0 m' e' = Some STAMP) as Hstamp.
  { intros m2 m' Hm2 H1 H2 e' [->|H]%elem_of_cons; [|by apply H1].
    destruct (decide (e ∈ es)) as [?|Hes]; [by apply H1|]. rewrite (H2 e Hes Hen), (Hm2 e Hen).
    unfold m1. by rewrite temp0_write, decide_True. }
  rewrite (E1 _ Htn). destruct (Hn _ Htn) as [z Hz]. rewrite Hz. cbn [mbind option_bind].
  assert (untouched m1 ≤ untouched m) as U1 by (apply untouched_mono; intros u Hu; by rewrite E1).
  destruct (decide (z = -1)%Z) as [->|Hz1].
  - set (m2 := write_temp (T_ e) 0 (-2) m1). assert (framed m1 m2) as F2 by apply framed_write.
    assert (∀ u, temp0 m2 u = if decide (u = T_ e) then Some (-2)%Z else temp0 m1 u) as E2 by (intros u; apply temp0_write).
    destruct (IH (queue ++ [T_ e]) m2) as (new & m' & -> & F & Hmax & Hst & Hoth & Hnod & Hnew & Hlen).
    + by eapply framed_like.
    + done.
    + intros u Hu. rewrite E2. case_decide; [done|]. rewrite E1 by done. by apply Hn.
    + exists (T_ e :: new), m'. split_and!.
      * by rewrite <-app_assoc.
      * etrans; [exact F1|]. by etrans.
      * done.
      * apply (Hstamp m2); [|done|done]. intros x Hx. rewrite E2, decide_False; [done|]. by intros ->.
      * intros x Hx Hxn. rewrite Hoth; [|by intros ?; apply Hx; right|done]. rewrite E2, decide_False by by intros ->. by apply E1'.
      * intros u Hu. rewrite <-(E1 u Hu). destruct (Hnod u Hu) as [[Ha Hb]|(Ha & Hb & Hc)]; rewrite E2 in Ha, Hb || rewrite E2 in Ha.
        -- case_decide as Eu; [subst u; right|left].
           ++ split_and!; [by rewrite E1|done|left].
           ++ split; [done|]. intros Hm e' [->|He2]%elem_of_cons; [done|by apply Hb].
        -- right. case_decide; [done|]. split_and!; [done|done|by right].
      * intros u [->|Hu]%elem_of_cons; [done|by apply Hnew].
      * assert (untouched m2 < untouched m1); [|simpl; lia]. apply untouched_touch; [done|by rewrite E1|done].
  - destruct (IH queue m1) as (new & m' & -> & F & Hmax & Hst & Hoth & Hnod & Hnew & Hlen).
    + done.
    + done.
    + intros u Hu. rewrite E1 by done. by apply Hn.
    + exists new, m'. split_and!; [done|by etrans|done|by apply (Hstamp m1)| |..].
      * intros x Hx Hxn. rewrite Hoth; [by apply E1'|by intros ?; apply Hx; right|done].
      * intros u Hu. rewrite <-(E1 u Hu). destruct (Hnod u Hu) as [[Ha Hb]|?]; [left|by right].
        split; [done|]. intros Hm e' [->|He2]%elem_of_cons; [|by apply Hb]. intros <-. rewrite E1 in Hm by done. congruence.
      * done.
      * lia.
Qed.

(** *** One round of the loop *)

Definition waits (m : hmodel) (u : nat) : Prop := ∀ l, ¬ has_layer m u l.

Lemma layer_or_waits m queue u : ranking m queue → u ∈ nodes → (∃ l, has_layer m u l) ∨ waits m u ∧ (temp0 m u = Some (-1)%Z ∨ temp0 m u = Some (-2)%Z).
Proof.
  intros Hr Hu. destruct (r_value _ _ Hr u Hu) as [H|[H|H]]; [right|right|by left];
    (split; [|auto]); intros l [Hl Hb]; pose proof (lowest_pos u Hu); rewrite H in Hl; injection Hl as <-; lia.
Qed.

Lemma in_edge v e : v ∈ nodes → e ∈ I v → T_ e = v ∧ S_ e ∈ nodes ∧ e ∈ O (S_ e) ∧ f v < f (S_ e) ∧ f (S_ e) < length nodes.
Proof.
  intros Hv He. destruct (g_in _ _ Hok v e Hv He) as (Ht & Hs & Ho). split_and!; try done.
  - rewrite <-Ht. by apply Hdown.
  - by apply Hbound.
Qed.

Lemma scan_node m queue v : ranking m queue → v ∈ nodes →
  (∃ e, e ∈ I v ∧ waits m (S_ e) ∧ scan m (I v) SOURCESCANSTARTRANK = Some None) ∨
  (∃ l, scan m (I v) SOURCESCANSTARTRANK = Some (Some l) ∧ (lowest v ≤ l ≤ SOURCESCANSTARTRANK)%Z ∧
     ∀ e, e ∈ I v → temp0 m e = Some STAMP ∧ ∃ k, has_layer m (S_ e) k ∧ (l < k)%Z).
Proof.
  intros Hr Hv.
  assert (∀ e, e ∈ I v → temp0 m e = Some STAMP ↔ ∃ l, has_layer m (S_ e) l) as Hedge.
  { intros e He. destruct (in_edge v e Hv He) as (_ & Hs & Ho & _). by apply (r_edge _ _ Hr). }
  destruct (scan_layers m (I v) SOURCESCANSTARTRANK (r_like _ _ Hr)) as [(e & He & Hn & ->)|(l & -> & Hl & Hall & Hmin)].
  - intros e He (l & Hl & _)%Hedge; [by exists l|done].
  - left. exists e. split_and!; [done| |done]. intros l Hl. apply Hn, Hedge; eauto.
  - right. exists l. split_and!; [done| |done|].
    + destruct Hmin as [->|(e & He & Hk)]; [unfold lowest; lia|].
      destruct (in_edge v e Hv He) as (_ & _ & _ & Hf & Hb).
      destruct (Hall e He) as [(k & Hk1 & Hk2)%Hedge _]; [|done]. rewrite Hk in Hk1. injection Hk1 as <-. unfold lowest in *. lia.
    + intros e He. destruct (Hall e He) as (Hst & k & Hk & Hlk). split; [done|]. exists k. split; [|done].
      apply Hedge in Hst as (k' & Hk1 & Hk2); [|done]. rewrite Hk in Hk1. injection Hk1 as <-. done.
Qed.

Lemma rank_step m u rest l : ranking m (u :: rest) → scan m (I u) SOURCESCANSTARTRANK = Some (Some l) →
  ∃ queue' m', mark (O u) (u :: rest) (set_maxRank (Z.min (model_maxRank m) l) (write_temp u 0 l m)) = Some (u :: queue', m') ∧
    ranking m' queue' ∧ framed m m' ∧ length queue' + untouched m' < length (u :: rest) + untouched m.
Proof.
  intros Hr Hscan. pose proof (r_queue _ _ Hr u (list_elem_of_here _ _)) as Hu.
  destruct (scan_node m _ u Hr Hu) as [(e & _ & _ & E)|(l' & E & Hl & Hin)]; rewrite Hscan in E; [done|]. injection E as <-.
  set (m1 := set_maxRank _ _). assert (framed m m1) as F1 by apply (framed_write u 0 l m).
  assert (∀ x, temp0 m1 x = if decide (x = u) then Some l else temp0 m x) as E1 by (intros x; apply (temp0_write u l m)).
  assert (∀ u' e, u' ∈ nodes → e ∈ O u' → e ∉ nodes ∧ T_ e ∈ nodes ∧ T_ e ≠ u') as Hout.
  { intros u' e Hu' He. destruct (g_out _ _ Hok u' e Hu' He) as (_ & Hv & _ & Ht & Hne & _). split_and!; [|done|done].
    intros Hn. destruct (g_node _ _ Hok e Hn). congruence. }
  destruct (mark_spec (O u) (u :: rest) m1) as (new & m' & -> & F & Hmax & Hst & Hoth & Hnod & Hnew & Hlen).
  { by eapply framed_like, Hr. }
  { intros e He. by destruct (Hout u e Hu He) as (? & ? & _). }
  { intros v Hv. rewrite E1. case_decide; [done|]. destruct (r_value _ _ Hr v Hv) as [->|[->|(k & -> & _)]]; done. }
  pose proof (lowest_pos u Hu) as Hpos.
  assert (∀ k, has_layer m u k → k = l) as Huniq by (intros k Hk; pose proof (r_scan _ _ Hr u k Hu Hk); congruence).
  assert (temp0 m' u = Some l) as Eu.
  { destruct (Hnod u Hu) as [[-> _]|[Ha _]]; rewrite E1, decide_True in * by done; [done|]. injection Ha as ->. lia. }
  assert (∀ v k, v ∈ nodes → has_layer m v k → has_layer m' v k) as Hkeep.
  { intros v k Hv [Hk Hkb]. destruct (decide (v = u)) as [->|Hvu]; [by rewrite (Huniq k) by done|].
    split; [|done]. destruct (Hnod v Hv) as [[-> _]|[Ha _]]; rewrite E1, decide_False in * by done; [done|].
    rewrite Hk in Ha. injection Ha as ->. pose proof (lowest_pos v Hv). lia. }
  assert (∀ v k, v ∈ nodes → has_layer m' v k → v ≠ u → has_layer m v k) as Hback.
  { intros v k Hv [Hk Hkb] Hvu. split; [|done]. destruct (Hnod v Hv) as [[Ha _]|(_ & Ha & _)].
    - by rewrite Hk, E1, decide_False in Ha.
    - rewrite Hk in Ha. injection Ha as ->. pose proof (lowest_pos v Hv). lia. }
  assert (∀ v e, v ∈ nodes → e ∈ O v → v ≠ u → temp0 m' e = temp0 m e) as Hother.
  { intros v e Hv He Hvu. destruct (Hout v e Hv He) as (Hen & _). rewrite Hoth, E1, decide_False; [done|by intros ->| |done].
    intros He'. destruct (g_out _ _ Hok u e Hu He') as (_ & _ & ? & _), (g_out _ _ Hok v e Hv He) as (_ & _ & ? & _). congruence. }
  assert (∀ v k, v ∈ nodes → scan m (I v) SOURCESCANSTARTRANK = Some (Some k) → scan m' (I v) SOURCESCANSTARTRANK = Some (Some k)) as Hstable.
  { intros v k Hv Hs. eapply scan_stable; [apply Hr|by eapply framed_like, Hr; etrans|intros e He Hm|exact Hs].
    destruct (in_edge v e Hv He) as (_ & Hse & Ho & _).
    pose proof (proj1 (r_edge _ _ Hr (S_ e) e Hse Ho) Hm) as (k' & Hk'). destruct (Hkeep _ _ Hse Hk') as [-> _]. destruct Hk' as [-> _].
    split; [|done]. destruct (decide (S_ e = u)) as [<-|Hsu]; [by apply Hst|].
    by rewrite (Hother _ e Hse Ho Hsu). }
  exists (rest ++ new), m'. split_and!; [done| |by etrans|].
  - split.
    + eapply framed_like, Hr. by etrans.
    + intros v [Hv|Hv]%elem_of_app; [apply (r_queue _ _ Hr); by right|by apply Hnew].
    + intros v Hv. destruct (decide (v = u)) as [->|Hvu]; [right; right; by exists l|].
      destruct (Hnod v Hv) as [[-> _]|(_ & Ha & _)]; [|by auto]. rewrite E1, decide_False by done.
      destruct (r_value _ _ Hr v Hv) as [?|[?|(k & Hk)]]; eauto.
    + intros v e Hv He. destruct (decide (v = u)) as [->|Hvu].
      * rewrite (Hst e He). split; [intros _; by exists l|done].
      * rewrite (Hother v e Hv He Hvu), (r_edge _ _ Hr v e Hv He). split; intros [k Hk]; eauto.
    + intros v Hv Hw Hor. assert (v ≠ u) as Hvu by (intros ->; by apply (Hw l)). rewrite elem_of_app.
      destruct (Hnod v Hv) as [[Ha _]|(_ & _ & Ha)]; [left|by right]. rewrite Ha, E1, decide_False in Hor by done.
      assert (v ∈ u :: rest) as [?|?]%elem_of_cons; [|done|done]. apply (r_wait _ _ Hr); [done| |done].
      intros k Hk. by apply (Hw k), Hkeep.
    + intros v e k Hv He Hk Hm1. destruct (Hout v e Hv He) as (_ & Htn & _).
      destruct (Hnod _ Htn) as [[Ha Hb]|(_ & Ha & _)]; [|congruence]. rewrite Ha in Hm1.
      destruct (decide (v = u)) as [->|Hvu]; [by apply (Hb Hm1 e)|]. rewrite E1 in Hm1.
      case_decide as Etu; [injection Hm1 as ->; lia|]. exact (r_touched _ _ Hr v e k Hv He (Hback v k Hv Hk Hvu) Hm1).
    + intros v k Hv Hk. apply Hstable; [done|]. destruct (decide (v = u)) as [->|Hvu].
      * destruct Hk as [Hk _]. rewrite Eu in Hk. by injection Hk as <-.
      * apply (r_scan _ _ Hr); [done|]. by apply Hback.
    + rewrite Hmax. change (model_maxRank m1) with (Z.min (model_maxRank m) l).
      destruct (r_max _ _ Hr) as [Hm1 Hm2]. split; [pose proof (Hbound u Hu); unfold lowest in Hl; lia|]. intros v k Hv Hk. destruct (decide (v = u)) as [->|Hvu].
      * destruct Hk as [Hk _]. rewrite Eu in Hk. injection Hk as <-. lia.
      * pose proof (Hm2 v k Hv (Hback v k Hv Hk Hvu)). lia.
  - assert (untouched m1 ≤ untouched m); [|rewrite length_app; simpl; lia].
    apply untouched_mono. intros v Hv. rewrite E1. case_decide; [|done]. intros [= ->]. lia.
Qed.

(** Some node of the queue can be ranked. *)
Lemma ready_above m queue : ranking m queue → ∀ n u, u ∈ nodes → waits m u → length nodes - f u ≤ n →
  ∃ v l, v ∈ queue ∧ scan m (I v) SOURCESCANSTARTRANK = Some (Some l).
Proof.
  intros Hr. induction n as [|n IH]; intros u Hu Hw Hn; [pose proof (Hbound u Hu); lia|].
  destruct (scan_node m _ u Hr Hu) as [(e & He & Hws & _)|(l & Hs & _ & Hin)].
  - destruct (in_edge u e Hu He) as (_ & Hse & _ & Hf & Hfb). apply (IH (S_ e)); [done|done|lia].
  - exists u, l. split; [|done]. apply (r_wait _ _ Hr u Hu Hw). destruct (I u) as [|e es] eqn:E; [right; by apply Hroots|left].
    assert (e ∈ I u) as He by (rewrite E; left). destruct (in_edge u e Hu He) as (Ht & Hse & Ho & _).
    destruct (Hin e (list_elem_of_here _ _)) as (_ & k & Hk & _). pose proof (r_touched _ _ Hr _ e k Hse Ho Hk) as Hne.
    rewrite Ht in Hne. by destruct (layer_or_waits m _ u Hr Hu) as [[k' Hk']|(_ & [?|?])]; [by destruct (Hw k')|..].
Qed.

Lemma ready_exists m queue : ranking m queue → queue ≠ [] →
  ∃ j v l, queue !! j = Some v ∧ scan m (I v) SOURCESCANSTARTRANK = Some (Some l).
Proof.
  intros Hr Hq. destruct queue as [|u queue]; [done|]. pose proof (r_queue _ _ Hr u (list_elem_of_here _ _)) as Hu.
  destruct (layer_or_waits m _ u Hr Hu) as [[l Hl]|[Hw _]].
  - exists 0, u, l. split; [done|]. by apply (r_scan _ _ Hr).
  - destruct (ready_above m _ Hr _ u Hu Hw (le_n _)) as (v & l & Hv & Hs).
    apply list_elem_of_lookup_1 in Hv as [j Hj]. by exists j, v, l.
Qed.

Lemma all_ranked m : ranking m [] → ∀ u, u ∈ nodes → ∃ l, has_layer m u l.
Proof.
  intros Hr u Hu. destruct (layer_or_waits m _ u Hr Hu) as [?|[Hw _]]; [done|].
  by destruct (ready_above m _ Hr _ u Hu Hw (le_n _)) as (v & l & []%not_elem_of_nil & _).
Qed.

(** *** The loop ends *)

Lemma ranking_permute m q q' : q ≡ₚ q' → ranking m q → ranking m q'.
Proof. intros Hp []. split; try done; intros; setoid_rewrite <-Hp || rewrite <-Hp in *; auto. Qed.

Definition work (m : hmodel) (queue : list nat) : nat := length queue + untouched m.

Lemma rank_loop_ends P : ∀ m queue n, ranking m queue → work m queue ≤ P → P * P ≤ n →
  ∃ m', rank_loop n queue m = Some m' ∧ ranking m' [] ∧ framed m m'.
Proof.
  induction P as [|P IH]; intros m queue n Hr Hw Hn.
  { destruct queue; [|unfold work in Hw; simpl in Hw; lia]. exists m. by destruct n. }
  destruct (decide (queue = [])) as [->|Hq]; [exists m; by destruct n|].
  destruct (ready_exists m queue Hr Hq) as (j & v & l & Hj & Hs).
  assert (∀ u rest n k, ranking m (u :: rest) → scan m (I u) SOURCESCANSTARTRANK = Some (Some k) → work m (u :: rest) ≤ S P →
    1 + P * P ≤ n → ∃ m', rank_loop n (u :: rest) m = Some m' ∧ ranking m' [] ∧ framed m m') as Hstep.
  { clear -IH Hok Hbound Hdown Hsize. intros u rest n l Hr Hs Hw Hn. destruct n as [|n]; [lia|]. cbn [rank_loop].
    destruct (alike_fields _ _ u (r_like _ _ Hr)) as (_ & _ & _ & -> & _). rewrite Hs. cbn [mbind option_bind].
    destruct (rank_step m u rest l Hr Hs) as (q' & m' & Hmark & Hr' & F & Hlt).
    match goal with |- context [mark ?es _ _] => assert (es = O u) as -> end.
    { assert (alike (cells (write_temp u 0 l m)) G) as H by (etrans; [apply (framed_write u 0 l m)|apply Hr]).
      destruct (alike_fields _ _ u H) as (_ & _ & _ & _ & E & _). exact E. }
    change (model_maxRank (write_temp u 0 l m)) with (model_maxRank m). rewrite Hmark. cbn [mbind option_bind fst snd tail].
    destruct (IH m' q' n Hr') as (m2 & -> & Hr2 & F2); [unfold work in *; lia|lia|].
    exists m2. split_and!; [done|done|by etrans]. }
  assert (j + 1 + P * P ≤ n) as Hn'.
  { apply lookup_lt_Some in Hj. unfold work in Hw. nia. }
  clear Hn Hq IH. revert queue n Hr Hw Hj Hn'. induction j as [|j IHj]; intros [|u rest] n Hr Hw Hj Hn; try done.
  - injection Hj as ->. apply (Hstep v rest n l); [done|done|done|lia].
  - simpl in Hj. pose proof (r_queue _ _ Hr u (list_elem_of_here _ _)) as Hu.
    destruct (scan_node m _ u Hr Hu) as [(e & _ & _ & E)|(k & E & _)]; [|by apply (Hstep u rest n k); [..|lia]].
    destruct n as [|n]; [lia|]. cbn [rank_loop].
    destruct (alike_fields _ _ u (r_like _ _ Hr)) as (_ & _ & _ & -> & _). rewrite E. cbn [mbind option_bind].
    rewrite decide_False by (apply lookup_lt_Some in Hj; rewrite length_app; simpl; lia).
    apply IHj; [|unfold work in *; rewrite length_app; simpl in *; lia|by apply lookup_app_l_Some|lia].
    by eapply ranking_permute; [|exact Hr]; rewrite Permutation_app_comm.
Qed.


(** *** Before and after the loop *)

Lemma for_each_cons g c l m : for_each g (c :: l) m = m' ← g c m; for_each g l m'.
Proof.
  unfold for_each. cbn [foldl mbind option_bind]. destruct (g c m) as [m'|]; [done|].
  induction l as [|x l IH]; [done|]. exact IH.
Qed.

Lemma reset_spec l m : ∃ m', for_each (λ c m, Some (write_temp c 0 (-1) m)) l m = Some m' ∧ framed m m' ∧
  model_maxRank m' = model_maxRank m ∧ ∀ x, temp0 m' x = if decide (x ∈ l) then Some (-1)%Z else temp0 m x.
Proof.
  revert m. induction l as [|c l IH]; intros m.
  - exists m. split_and!; [done|done|done|]. intros x. by rewrite decide_False by apply not_elem_of_nil.
  - rewrite for_each_cons. cbn [mbind option_bind]. destruct (IH (write_temp c 0 (-1) m)) as (m' & -> & F & Hm & Ht).
    exists m'. split_and!; [done|etrans; [apply framed_write|exact F]|done|]. intros x. rewrite Ht, temp0_write.
    destruct (decide (x ∈ l)) as [H|H]; [by rewrite decide_True by by right|].
    destruct (decide (x = c)) as [->|Hx]; [by rewrite decide_True by left|].
    by rewrite decide_False by (by intros [?|?]%elem_of_cons).
Qed.

Lemma normalize_spec l m : NoDup l → (∀ c, c ∈ l → is_Some (temp0 m c)) → ∃ m', for_each normalize l m = Some m' ∧ framed m m' ∧
  model_maxRank m' = model_maxRank m ∧
  ∀ x, temp0 m' x = if decide (x ∈ l) then (λ r, r - model_maxRank m)%Z <$> temp0 m x else temp0 m x.
Proof.
  revert m. induction l as [|c l IH]; intros m Hd Hl.
  - exists m. split_and!; [done|done|done|]. intros x. by rewrite decide_False by apply not_elem_of_nil.
  - apply NoDup_cons in Hd as [Hc Hd]. rewrite for_each_cons.
    destruct (Hl c (list_elem_of_here _ _)) as [r Hr].
    replace (normalize c m) with (Some (write_temp c 0 (r - model_maxRank m) m)) by (unfold normalize; by rewrite Hr).
    cbn [mbind option_bind].
    set (m1 := write_temp c 0 (r - model_maxRank m) m).
    assert (∀ x, temp0 m1 x = if decide (x = c) then Some (r - model_maxRank m)%Z else temp0 m x) as E1 by (intros x; apply temp0_write).
    destruct (IH m1) as (m' & -> & F & Hm & Ht); [done|intros x Hx; rewrite E1; case_decide; [done|apply Hl; by right]|].
    exists m'. split_and!; [done|etrans; [apply framed_write|exact F]|done|]. intros x. rewrite Ht, E1.
    destruct (decide (x = c)) as [->|Hx]; [rewrite (decide_False (P := c ∈ l)), (decide_True (P := c ∈ c :: l)), Hr by (done || left); done|].
    destruct (decide (x ∈ l)) as [H|H]; [by rewrite decide_True by by right|].
    by rewrite decide_False by (by intros [?|?]%elem_of_cons).
Qed.

(** Ranks from 0 to [top] that decrease along the edges. *)
Definition good (m : hmodel) (top : Z) : Prop := ∀ u, u ∈ nodes → ∃ r, temp0 m u = Some r ∧ (0 ≤ r ≤ top)%Z ∧
  ∀ e, e ∈ O u → ∃ k, temp0 m (T_ e) = Some k ∧ (k < r)%Z.

Lemma tighten_edges_spec c es : ∀ cur m, alike (cells m) G → (∀ e, e ∈ es → T_ e ≠ c ∧ is_Some (temp0 m (T_ e))) →
  ∃ L m', tighten_edges c es cur m = Some m' ∧ framed m m' ∧ model_maxRank m' = model_maxRank m ∧ (cur ≤ L)%Z ∧
    (∀ e, e ∈ es → ∃ k, temp0 m (T_ e) = Some k ∧ (k < L)%Z) ∧
    (L = cur ∨ ∃ e, e ∈ es ∧ temp0 m (T_ e) = Some (L - 1)%Z) ∧
    ∀ x, temp0 m' x = if decide (x = c ∧ es ≠ []) then Some L else temp0 m x.
Proof.
  induction es as [|e es IH]; intros cur m Hl He; cbn [tighten_edges].
  - exists cur, m. split_and!; [done|done|done|lia|by intros ? ?%not_elem_of_nil|by left|].
    intros x. rewrite decide_False; [done|]. by intros [_ ?].
  - destruct (alike_fields _ _ e Hl) as (_ & _ & _ & _ & _ & _ & -> & _).
    destruct (He e (list_elem_of_here _ _)) as [Hne [k Hk]]. rewrite Hk. cbn [mbind option_bind].
    set (layer := Z.max cur (k + 1)). set (m1 := write_temp c 0 layer m).
    assert (∀ x, temp0 m1 x = if decide (x = c) then Some layer else temp0 m x) as E1 by (intros x; apply temp0_write).
    assert (∀ e', e' ∈ es → temp0 m1 (T_ e') = temp0 m (T_ e')) as E2.
    { intros e' He'. rewrite E1, decide_False; [done|]. apply He. by right. }
    destruct (IH layer m1) as (L & m' & -> & F & Hm & HL & Hall & Hmin & Ht).
    + etrans; [apply alike_write|done].
    + intros e' He'. rewrite E2 by done. apply He. by right.
    + exists L, m'. split_and!; [done|etrans; [apply framed_write|exact F]|done|lia| | |].
      * intros e' [->|He']%elem_of_cons; [exists k; split; [done|lia]|]. rewrite <-E2 by done. by apply Hall.
      * destruct Hmin as [->|(e' & He' & Hk')].
        -- destruct (Z.max_spec cur (k + 1)) as [[_ E]|[_ E]]; fold layer in E; [|by left].
           right. exists e. split; [left|]. rewrite Hk. f_equal. lia.
        -- right. exists e'. split; [by right|]. by rewrite <-E2.
      * intros x. rewrite Ht, E1. destruct (decide (x = c)) as [->|Hx].
        -- rewrite (decide_True (P := c = c ∧ e :: es ≠ [])) by done. destruct es; [|by rewrite decide_True].
           rewrite decide_False by by intros [_ ?]. destruct Hmin as [->|(? & []%not_elem_of_nil & _)]. done.
        -- rewrite !decide_False by (by intros [? _]). done.
Qed.

Lemma tighten_good c m top : alike (cells m) G → c ∈ nodes → good m top →
  ∃ m', tighten c m = Some m' ∧ framed m m' ∧ model_maxRank m' = model_maxRank m ∧ good m' top.
Proof.
  intros Hl Hc Hg. unfold tighten. destruct (alike_fields _ _ c Hl) as (_ & _ & _ & _ & -> & _).
  destruct (Hg c Hc) as (r & Hr & Hb & Hdn).
  destruct (tighten_edges_spec c (O c) 0 m Hl) as (L & m' & -> & F & Hm & HL & Hall & Hmin & Ht).
  { intros e He. destruct (g_out _ _ Hok c e Hc He) as (_ & _ & _ & _ & Hne & _), (Hdn e He) as (k & -> & _). done. }
  assert (L ≤ r)%Z as HLr.
  { destruct Hmin as [->|(e & He & Hk)]; [lia|]. destruct (Hdn e He) as (k & Hk' & ?). rewrite Hk in Hk'. injection Hk' as <-. lia. }
  exists m'. split_and!; [done|done|done|]. intros u Hu. destruct (Hg u Hu) as (ru & Hru & Hbu & Hdu).
  assert (∀ e, e ∈ O u → ∃ k k', temp0 m (T_ e) = Some k ∧ temp0 m' (T_ e) = Some k' ∧ (k' ≤ k)%Z) as Hless.
  { intros e He. destruct (Hdu e He) as (k & Hk & _). rewrite Ht. case_decide as Ec; [|by exists k, k].
    destruct Ec as [E _]. exists k, L. split_and!; [done|done|]. rewrite E in Hk. congruence. }
  rewrite Ht. destruct (decide (u = c ∧ O c ≠ [])) as [[-> _]|Huc].
  - exists L. split_and!; [done|lia|lia|]. intros e He. destruct (Hless e He) as (k & k' & Hk & Hk' & ?).
    exists k'. split; [done|]. destruct (Hall e He) as (k2 & Hk2 & ?). rewrite Hk in Hk2. injection Hk2 as <-. lia.
  - exists ru. split_and!; [done|lia|lia|]. intros e He. destruct (Hless e He) as (k & k' & Hk & Hk' & ?).
    exists k'. split; [done|]. destruct (Hdu e He) as (k2 & Hk2 & ?). rewrite Hk in Hk2. injection Hk2 as <-. lia.
Qed.

Lemma tighten_all l : ∀ m top, alike (cells m) G → (∀ c, c ∈ l → c ∈ nodes) → good m top →
  ∃ m', for_each tighten l m = Some m' ∧ framed m m' ∧ model_maxRank m' = model_maxRank m ∧ good m' top.
Proof.
  induction l as [|c l IH]; intros m top Hl Hn Hg; [by exists m|]. rewrite for_each_cons.
  destruct (tighten_good c m top Hl) as (m1 & -> & F & Hm & Hg1); [apply Hn; left|done|]. cbn [mbind option_bind].
  destruct (IH m1 top) as (m2 & -> & F2 & Hm2 & Hg2); [by eapply framed_like|intros x Hx; apply Hn; by right|done|].
  exists m2. split_and!; [done|by etrans|congruence|done].
Qed.

Lemma ranking_start m : alike (cells m) G → (∀ u, u ∈ R → u ∈ nodes) → model_maxRank m = SOURCESCANSTARTRANK →
  (∀ u, u ∈ nodes → temp0 m u = Some (-1)%Z) → (∀ u e, u ∈ nodes → e ∈ O u → temp0 m e ≠ Some STAMP) → ranking m R.
Proof.
  intros Hl HR Hm Hn He. assert (∀ u l, u ∈ nodes → ¬ has_layer m u l) as Hw.
  { intros u l Hu [Ht Hb]. rewrite (Hn u Hu) in Ht. injection Ht as <-. pose proof (lowest_pos u Hu). lia. }
  split; try done.
  - intros u Hu. left. by apply Hn.
  - intros u e Hu Hue. split; [intros H; by destruct (He u e Hu Hue)|]. intros [l Hl']. by destruct (Hw u l).
  - intros u Hu _ [H|H]; [|done]. by rewrite (Hn u Hu) in H.
  - intros u e l Hu _ Hl'. by destruct (Hw u l).
  - intros u l Hu Hl'. by destruct (Hw u l).
  - rewrite Hm. split; [lia|]. intros u l Hu Hl'. by destruct (Hw u l).
Qed.

Lemma ranked_good m m' : ranking m [] → alike (cells m') G →
  (∀ u, u ∈ nodes → temp0 m' u = (λ r, r - model_maxRank m)%Z <$> temp0 m u) → good m' (SOURCESCANSTARTRANK - model_maxRank m).
Proof.
  intros Hr Hl Ht u Hu. destruct (all_ranked m Hr u Hu) as [l Hlu]. rewrite Ht by done. destruct Hlu as [Hl1 Hl2].
  exists (l - model_maxRank m)%Z. pose proof (proj2 (r_max _ _ Hr) u l Hu (conj Hl1 Hl2)). split_and!; [by rewrite Hl1|lia|lia|].
  intros e He. destruct (g_out _ _ Hok u e Hu He) as (_ & _ & Hs & Htn & _ & Hin). rewrite Ht by done.
  destruct (all_ranked m Hr _ Htn) as [k Hk]. pose proof (r_scan _ _ Hr _ k Htn Hk) as Hsc.
  destruct (scan_node m _ _ Hr Htn) as [(e' & _ & _ & E)|(k' & E & _ & Hall)]; rewrite Hsc in E; [done|]. injection E as <-.
  destruct (Hall e Hin) as (_ & l' & [Hl' _] & Hlt). rewrite Hs, Hl1 in Hl'. injection Hl' as <-.
  exists (k - model_maxRank m)%Z. split; [by rewrite (proj1 Hk)|lia].
Qed.

End Ranking.
(** ** [initialRank] *)

(** What [initialRank] needs: a consistent graph without cycles, roots that include every node
    without incoming edges, and a model no one has ranked before. *)
Record rankable (m : hmodel) : Prop := {
  k_graph : graph_ok (vertexMapper_values m) (cells m);
  k_acyclic : acyclic (vertexMapper_values m) (cells m);
  k_nodup : NoDup (vertexMapper_values m);
  k_size : (Z.of_nat (length (vertexMapper_values m)) ≤ SOURCESCANSTARTRANK)%Z;
  k_sources : ∀ u, u ∈ vertexMapper_values m → inn m u = [] → Some u ∈ root_nodes m;
  k_max : model_maxRank m = SOURCESCANSTARTRANK;
  k_stamp : ∀ u e, u ∈ vertexMapper_values m → e ∈ out m u → temp0 m e ≠ Some STAMP
}.

(** Every node has a rank between 0 and [maxRank] above those its edges lead to. *)
Definition ranked (m : hmodel) : Prop := ∀ u, u ∈ vertexMapper_values m →
  ∃ r, temp0 m u = Some r ∧ (0 ≤ r ≤ model_maxRank m)%Z ∧
    ∀ e, e ∈ out m u → ∃ k, temp0 m (tgt m e) = Some k ∧ (k < r)%Z.

Definition rank_fuel (m : hmodel) : nat := (length (roots m) + length (vertexMapper m)) * (length (roots m) + length (vertexMapper m)).

Lemma omap_roots m : length (omap id (root_nodes m)) ≤ length (roots m) ∧
  (∀ u, Some u ∈ root_nodes m ↔ u ∈ omap id (root_nodes m)) ∧ (∀ u, u ∈ omap id (root_nodes m) → u ∈ vertexMapper_values m).
Proof.
  assert (∀ u, Some u ∈ root_nodes m ↔ u ∈ omap id (root_nodes m)) as H.
  { intros u. rewrite list_elem_of_omap. split; [by exists (Some u)|]. intros (? & ? & E). by simpl in E; subst. }
  split_and!; [|done|intros u Hu%H; by apply root_nodes_values].
  replace (length (roots m)) with (length (root_nodes m)) by (unfold root_nodes; by rewrite length_fmap).
  clear. induction (root_nodes m) as [|[r|] l IH]; csimpl; lia.
Qed.

Lemma untouched_bound nodes m : untouched nodes m ≤ length nodes.
Proof.
  etrans; [|apply (unseen_bound nodes ∅)]. unfold untouched, unseen. apply subseteq_size. set_solver.
Qed.

Lemma initialRank_run n m : rankable m → rank_fuel m ≤ n →
  ∃ m', initialRank n m = Some m' ∧ framed m m' ∧ ranked m' ∧ (0 ≤ model_maxRank m' ≤ Z.of_nat (length (vertexMapper_values m) - 1))%Z.
Proof.
  intros [Hok (f & Hb & Hd) Hnd Hsz Hso Hmx Hst] Hn. set (nodes := vertexMapper_values m) in *.
  destruct (omap_roots m) as (Hlen & Hrs & Hrn). set (R := omap id (root_nodes m)) in *.
  assert (∀ u, u ∈ nodes → connectsAsTarget (cells m !!! u) = [] → u ∈ R) as HsoR by (intros u Hu Hi; by apply Hrs, Hso).
  unfold initialRank. fold nodes R. destruct (reset_spec nodes m) as (m1 & -> & F1 & M1 & T1). cbn [mbind option_bind].
  assert (ranking nodes R (cells m) f m1 R) as Hr1.
  { apply ranking_start; [done|done|apply F1|done|by rewrite M1|intros u Hu; by rewrite T1, decide_True|].
    intros u e Hu He. rewrite T1, decide_False; [by apply (Hst u)|]. intros Hen.
    destruct (g_node _ _ Hok e Hen) as [_ Hv], (g_out _ _ Hok u e Hu He) as (_ & ? & _). congruence. }
  destruct (rank_loop_ends nodes R (cells m) f Hok Hb Hd Hsz HsoR (length (roots m) + length nodes) m1 R n Hr1) as (m2 & -> & Hr2 & F2).
  { unfold work. pose proof (untouched_bound nodes m1). lia. }
  { etrans; [|exact Hn]. unfold rank_fuel, nodes, vertexMapper_values. by rewrite length_fmap. }
  cbn [mbind option_bind].
  assert (vertexMapper_values m2 = nodes) as En.
  { unfold nodes, vertexMapper_values. by rewrite (proj1 (proj2 F2)), (proj1 (proj2 F1)). }
  rewrite En. destruct (normalize_spec nodes m2 Hnd) as (m3 & -> & F3 & M3 & T3).
  { intros u Hu. destruct (all_ranked nodes R (cells m) f Hok Hb Hd Hsz HsoR m2 Hr2 u Hu) as (l & -> & _). done. }
  cbn [mbind option_bind].
  assert (framed m m3) as F03 by (etrans; [exact F1|by etrans]).
  pose proof (ranked_good nodes R (cells m) f Hok Hb Hd Hsz HsoR m2 m3 Hr2) as Hg.
  destruct (tighten_all nodes (cells m) Hok R m3 (SOURCESCANSTARTRANK - model_maxRank m2)) as (m4 & -> & F4 & M4 & Hg4).
  { apply F03. }
  { done. }
  { apply Hg; [apply F03|]. intros u Hu. by rewrite T3, decide_True. }
  cbn [mbind option_bind]. eexists. split; [done|]. assert (framed m m4) as F04 by by etrans.
  assert (framed m (set_maxRank (SOURCESCANSTARTRANK - model_maxRank m4) m4)) as F by done.
  split_and!; [done| |simpl; rewrite M4, M3; destruct (r_max _ _ _ _ _ _ Hr2) as [? _]; lia..].
  intros u Hu. unfold vertexMapper_values in Hu. rewrite (proj1 (proj2 F)) in Hu. fold (vertexMapper_values m) in Hu. fold nodes in Hu.
  destruct (Hg4 u Hu) as (r & Hr & Hrb & Hre). exists r. split_and!; [done|lia|simpl; rewrite M4, M3; lia|].
  intros e He. destruct (alike_fields _ _ u (proj1 F)) as (_ & _ & _ & _ & E & _). rewrite E in He.
  destruct (alike_fields _ _ e (proj1 F)) as (_ & _ & _ & _ & _ & _ & -> & _). by apply Hre.
Qed.

(** The loop when no node of the queue can be ranked. *)
Lemma rank_loop_stuck n : ∀ queue m, 2 ≤ length queue →
  (∀ c, c ∈ queue → scan m (inn m c) SOURCESCANSTARTRANK = Some None) → rank_loop n queue m = None.
Proof.
  induction n as [|n IH]; intros [|u rest] m Hl Hq; [simpl in Hl; lia|done|simpl in Hl; lia|].
  cbn [rank_loop]. rewrite Hq by left. cbn [mbind option_bind]. simpl in Hl.
  rewrite decide_False by (rewrite length_app; simpl; lia). apply IH; [rewrite length_app; simpl; lia|].
  intros c Hc. apply elem_of_app in Hc as [Hc|Hc]; apply Hq; [by right|]. apply list_elem_of_singleton in Hc as ->. left.
Qed.

(** ** The theorems *)

(** C14: [initialRank] ends, within a number of rounds quadratic in the numbers of nodes and
    roots, and gives every node of a graph without cycles a rank. The ranks go from 0 to
    [maxRank], which is less than the number of nodes, and every edge leads to a lower rank. *)
Theorem initialRank_ranks n m : rankable m → rank_fuel m ≤ n → ∃ m', initialRank n m = Some m' ∧
  with_length 0 <$> cells m' = with_length 0 <$> cells m ∧
  (0 ≤ model_maxRank m' ≤ Z.of_nat (length (vertexMapper_values m) - 1))%Z ∧
  ∀ u, u ∈ vertexMapper_values m → ∃ r, temp0 m' u = Some r ∧ (0 ≤ r ≤ model_maxRank m')%Z ∧
    ∀ e, e ∈ connectsAsSource (cells m !!! u) → ∃ k, temp0 m' (target (cells m !!! e)) = Some k ∧ (k < r)%Z.
Proof.
  intros Hk Hn. destruct (initialRank_run n m Hk Hn) as (m' & E & (Fa & Fv & _) & Hr & Hb).
  exists m'. split_and!; [done|done|lia|lia|]. intros u Hu.
  destruct (Hr u) as (r & Hr1 & Hr2 & He); [by unfold vertexMapper_values; rewrite Fv|]. exists r. split_and!; [done|lia|lia|].
  intros e Hue. destruct (alike_fields _ _ u Fa) as (_ & _ & _ & _ & E1 & _), (alike_fields _ _ e Fa) as (_ & _ & _ & _ & _ & _ & E2 & _).
  rewrite <-E2. apply He. by rewrite E1.
Qed.

Lemma path_rankable : rankable path.
Proof.
  split; change (vertexMapper_values path) with [1; 2; 3; 4].
  - by apply graph_check_ok.
  - apply path_acyclic.
  - by apply (bool_decide_unpack _).
  - done.
  - change (root_nodes path) with [Some 1; None; Some 4]. intros u Hu. rewrite !elem_of_cons, elem_of_nil in Hu.
    destruct Hu as [->|[->|[->|[->|[]]]]]; vm_compute (connectsAsTarget _); intros H; try done; rewrite !elem_of_cons; auto.
  - done.
  - intros u e _ _. assert (temp path = ∅) as E by done. unfold temp0. by rewrite E, lookup_empty.
Qed.

Lemma initialRank_ranks_witness : rankable path ∧ rank_fuel path ≤ 49 ∧ (∃ m', initialRank 49 path = Some m') ∧
  (λ m', (temp0 m' <$> [1; 2; 3; 4], model_maxRank m')) <$> initialRank 49 path = Some ([Some 2; Some 1; Some 0; Some 2]%Z, 2%Z).
Proof.
  split; [exact path_rankable|]. split; [vm_compute; lia|]. split; [|vm_compute; reflexivity].
  destruct (initialRank_ranks 49 path path_rankable) as (m' & E & _); [vm_compute; lia|]. by exists m'.
Defined.

(** C37: When two or more nodes are in the queue and each of them waits for an edge that has not
    been marked, the loop of [initialRank] goes on for ever: it only leaves the loop for a
    single such node. This happens when a cycle is left that no root reaches. *)
Theorem rank_loop_blocked queue m : 2 ≤ length queue →
  (∀ c, c ∈ queue → scan m (connectsAsTarget (cells m !!! c)) SOURCESCANSTARTRANK = Some None) → ∀ n, rank_loop n queue m = None.
Proof. intros Hl Hq n. by apply rank_loop_stuck. Qed.

Lemma rank_loop_blocked_witness : 2 ≤ length [1; 2] ∧ rank_loop 1000 [1; 2] ring = None.
Proof.
  split; [vm_compute; lia|]. apply (rank_loop_blocked [1; 2] ring); [vm_compute; lia|].
  intros c Hc. rewrite !elem_of_cons, elem_of_nil in Hc. destruct Hc as [->|[->|[]]]; vm_compute; reflexivity.
Defined.

End HierarchyRanks.
