(* ===== verification/HierarchyStages.v ===== *)
(** * The lists of the ranks, and the stages together

    [fixRanks] walks over the graph and pushes every node into the list of its rank, and every
    edge into the lists of the ranks it passes. What it builds is what the crossing reduction
    takes; so the three stages run one after the other on every consistent graph. *)

From S2P Require Import Prelude Crossings CrossingStage Hierarchy HierarchyCycles HierarchyRanks.
Import Crossings CrossingStage Hierarchy HierarchyCycles HierarchyRanks.
#[local] Open Scope nat_scope.

Module HierarchyStages.

(** ** A depth first search with an invariant *)

Section Walk.
Context (nodes : list nat) (G : gmap nat hcell) (Hok : graph_ok nodes G).
Context (visitor : visitor) (Inv : hmodel → gset nat → gset nat → Prop).

Abbreviation O u := (connectsAsSource (G !!! u)).
Abbreviation T_ e := (target (G !!! e)).

(** The invariant speaks of the nodes seen and the edges followed; it fixes the graph. *)
Context (Hgraph : ∀ m seen D x, Inv m seen D →
  (is_Some (cells m !! x) ↔ is_Some (G !! x)) ∧ out m x = O x ∧ tgt m x = T_ x).
Context (Hseen : ∀ m seen D u, Inv m seen D → u ∈ seen → u ∈ nodes).
Context (HD : ∀ m seen D x, Inv m seen D → x ∈ D → ∃ u, u ∈ seen ∧ x ∈ O u).
Context (Hedge : ∀ m seen D p e, Inv m seen D → p ∈ seen → e ∈ O p → e ∉ D →
  if decide (T_ e ∈ seen) then ∃ m', visitor (Some p) (T_ e) (Some e) true m = Some m' ∧ Inv m' seen ({[e]} ∪ D)
  else ∃ m', visitor (Some p) (T_ e) (Some e) false m = Some m' ∧ Inv m' ({[T_ e]} ∪ seen) ({[e]} ∪ D)).
Context (Hroot : ∀ m seen D r, Inv m seen D → r ∈ nodes →
  if decide (r ∈ seen) then ∃ m', visitor None r None true m = Some m' ∧ Inv m' seen D
  else ∃ m', visitor None r None false m = Some m' ∧ Inv m' ({[r]} ∪ seen) D).

(** What a call adds: nodes with all their edges, and the edge [e] that led to the call. *)
Record walked (new : gset nat) (seen D seen' D' : gset nat) : Prop := {
  wk_seen : seen ⊆ seen';
  wk_old : D ⊆ D';
  wk_new : new ⊆ D';
  wk_edges : ∀ x, x ∈ D' → x ∈ D ∨ x ∈ new ∨ ∃ u, u ∈ seen' ∧ u ∉ seen ∧ x ∈ O u;
  wk_done : ∀ u x, u ∈ seen' → u ∉ seen → x ∈ O u → x ∈ D'
}.

Lemma walked_trans new1 new2 s1 D1 s2 D2 s3 D3 :
  walked new1 s1 D1 s2 D2 → walked new2 s2 D2 s3 D3 → walked (new1 ∪ new2) s1 D1 s3 D3.
Proof.
  intros [S1 O1 N1 E1 C1] [S2 O2 N2 E2 C2]. split; [set_solver..| |].
  - intros x [Hx|[Hx|(u & Hu & Hn & Hx)]]%E2; [|set_solver|right; right; exists u; set_solver].
    apply E1 in Hx as [?|[?|(u & Hu & Hn & Hx)]]; [set_solver..|]. right; right. exists u. set_solver.
  - intros u x Hu Hn Hx. destruct (decide (u ∈ s2)) as [H|H]; [|by eapply C2]. apply O2. by eapply C1.
Qed.

Lemma own_edge p q e : p ∈ nodes → q ∈ nodes → e ∈ O p → e ∈ O q → p = q.
Proof. intros Hp Hq H1 H2. destruct (g_out _ _ Hok p e Hp H1) as (_ & _ & <- & _), (g_out _ _ Hok q e Hq H2) as (_ & _ & <- & _). done. Qed.

Lemma walk_edges n p :
  (∀ m seen D e, Inv m seen D → p ∈ seen → e ∈ O p → e ∉ D → unseen nodes seen < n →
    ∃ m' seen' D', dfs n visitor (Some p) (T_ e) (Some e) (m, seen) = Some (m', seen') ∧ Inv m' seen' D' ∧ walked {[e]} seen D seen' D') →
  ∀ es m seen D, Inv m seen D → p ∈ seen → NoDup es → (∀ e, e ∈ es → e ∈ O p ∧ e ∉ D) → unseen nodes seen < n →
  ∃ m' seen' D', foldl (λ acc e, acc ← acc; dfs n visitor (Some p) (tgt acc.1 e) (Some e) acc) (Some (m, seen)) es = Some (m', seen') ∧
    Inv m' seen' D' ∧ walked (list_to_set es) seen D seen' D'.
Proof.
  intros IH. induction es as [|e es IHes]; intros m seen D HI Hp Hnd Hes Hn.
  - exists m, seen, D. split_and!; [done|done|split; set_solver].
  - apply NoDup_cons in Hnd as [Hee Hnd]. cbn [foldl mbind option_bind fst].
    destruct (Hgraph m seen D e HI) as (_ & _ & ->). destruct (Hes e (list_elem_of_here _ _)) as [He HeD].
    destruct (IH m seen D e HI Hp He HeD Hn) as (m1 & s1 & D1 & -> & HI1 & W1).
    destruct (IHes m1 s1 D1 HI1) as (m2 & s2 & D2 & -> & HI2 & W2).
    + by apply (wk_seen _ _ _ _ _ W1).
    + done.
    + intros x Hx. destruct (Hes x (list_elem_of_further _ _ _ Hx)) as [Hxp HxD]. split; [done|].
      intros [?|[->%elem_of_singleton|(u & Hu & Hns & Hxu)]]%(wk_edges _ _ _ _ _ W1); [done|done|].
      assert (u = p) as -> by (eapply own_edge; [by eapply Hseen|by eapply (Hseen m)|done|done]). done.
    + pose proof (unseen_mono nodes _ _ (wk_seen _ _ _ _ _ W1)). lia.
    + exists m2, s2, D2. split_and!; [done|done|]. by apply (walked_trans _ _ _ _ _ _ _ _ W1 W2).
Qed.

Lemma walk_call n : ∀ m seen D p e, Inv m seen D → p ∈ seen → e ∈ O p → e ∉ D → unseen nodes seen < n →
  ∃ m' seen' D', dfs n visitor (Some p) (T_ e) (Some e) (m, seen) = Some (m', seen') ∧ Inv m' seen' D' ∧
    walked {[e]} seen D seen' D' ∧ T_ e ∈ seen'.
Proof.
  induction n as [|n IH]; intros m seen D p e HI Hp He HeD Hn; [lia|].
  pose proof (Hseen m seen D p HI Hp) as Hpn. destruct (g_out _ _ Hok p e Hpn He) as (_ & _ & _ & Hvn & Hne & _).
  cbn [dfs]. destruct (Hgraph m seen D (T_ e) HI) as (Hs & _ & _).
  rewrite decide_True by by apply Hs, (g_node _ _ Hok).
  pose proof (Hedge m seen D p e HI Hp He HeD) as Hvis. destruct (decide (T_ e ∈ seen)) as [Hv|Hv].
  - destruct Hvis as (m1 & -> & HI1). exists m1, seen, ({[e]} ∪ D). split_and!; [done|done|split; set_solver|done].
  - destruct Hvis as (m1 & -> & HI1). cbn [mbind option_bind]. destruct (Hgraph _ _ _ (T_ e) HI1) as (_ & -> & _).
    destruct (walk_edges n (T_ e)) with (es := O (T_ e)) (m := m1) (seen := {[T_ e]} ∪ seen) (D := {[e]} ∪ D)
      as (m2 & s2 & D2 & E2 & HI2 & W2).
    + intros m' s' D' e' H1 H2 H3 H4 H5. destruct (IH m' s' D' (T_ e) e' H1 H2 H3 H4 H5) as (? & ? & ? & ? & ? & ? & _); eauto 10.
    + done.
    + set_solver.
    + by apply (g_nodup_out _ _ Hok).
    + intros x Hx. split; [done|]. intros [->%elem_of_singleton|HxD]%elem_of_union.
      * by apply Hne, (own_edge _ _ e).
      * destruct (HD m seen D x HI HxD) as (u & Hu & Hxu).
        assert (u = T_ e) as -> by (apply (own_edge _ _ x); [by apply (Hseen m seen D)|done..]). done.
    + pose proof (unseen_add nodes (T_ e) seen Hvn Hv). lia.
    + exists m2, s2, D2. split_and!; [done|done| |by apply (wk_seen _ _ _ _ _ W2); set_solver].
      destruct W2 as [S2 O2 N2 E2' C2]. split; [set_solver..| |].
      * intros x [Hx|[Hx|(u & Hu & Hns & Hx)]]%E2'; [set_solver| |right; right; exists u; set_solver].
        right; right. exists (T_ e). set_solver.
      * intros u x Hu Hns Hx. destruct (decide (u = T_ e)) as [->|Hut]; [apply N2; set_solver|]. apply (C2 u); set_solver.
Qed.

(** The loop over the roots. *)
Lemma walk_roots n rs : (∀ r, Some r ∈ rs → r ∈ nodes) → length nodes < n → ∀ i m seen D, Inv m seen D → dfs_fuel m = n →
  (∀ u x, u ∈ seen → x ∈ O u → x ∈ D) → (∀ m' seen' D', Inv m' seen' D' → dfs_fuel m' = n) →
  ∃ m' seen' D',
    foldl (λ acc ir, acc ← acc;
            match ir.2 with
            | None => Some acc
            | Some node =>
                if false then
                  let m := set_hash (<[node := [dfsCount acc.1; ir.1]]> (hashCode acc.1)) acc.1 in
                  extendedDfs (dfs_fuel m) visitor None node None ir.1 (m, acc.2)
                else dfs (dfs_fuel acc.1) visitor None node None acc
            end) (Some (m, seen)) (imap (λ j x, (i + j, x)) rs) = Some (m', seen') ∧
    Inv m' seen' D' ∧ seen ⊆ seen' ∧ (∀ r, Some r ∈ rs → r ∈ seen') ∧ (∀ u x, u ∈ seen' → x ∈ O u → x ∈ D').
Proof.
  intros Hrn Hn. induction rs as [|r rs IH]; intros i m seen D HI Hf Hall Hfuel.
  - exists m, seen, D. split_and!; try done. by intros r ?%not_elem_of_nil.
  - rewrite imap_cons. cbn [foldl mbind option_bind fst snd].
    replace (imap ((λ j x, (i + j, x)) ∘ S) rs) with (imap (λ j x, (S i + j, x)) rs)
      by (apply imap_ext; intros j x _; unfold compose; f_equal; lia).
    specialize (IH (λ r' H, Hrn r' (list_elem_of_further _ _ _ H)) (S i)). destruct r as [r|].
    2:{ destruct (IH m seen D HI Hf Hall Hfuel) as (m2 & s2 & D2 & E2 & HI2 & Hsub2 & Hrs2 & Hall2).
        exists m2, s2, D2. split_and!; [exact E2|done|done|intros r' [[=]|?]%elem_of_cons; by apply Hrs2|done]. }
    rewrite Hf. pose proof (Hrn r (list_elem_of_here _ _)) as Hr.
    assert (∃ m1 s1 D1, dfs n visitor None r None (m, seen) = Some (m1, s1) ∧ Inv m1 s1 D1 ∧ seen ⊆ s1 ∧ r ∈ s1 ∧
      (∀ u x, u ∈ s1 → x ∈ O u → x ∈ D1)) as (m1 & s1 & D1 & -> & HI1 & Hsub & Hr1 & Hall1).
    { destruct n as [|n]; [lia|]. cbn [dfs]. destruct (Hgraph m seen D r HI) as (Hs & _ & _).
      rewrite decide_True by by apply Hs, (g_node _ _ Hok).
      pose proof (Hroot m seen D r HI Hr) as Hvis. destruct (decide (r ∈ seen)) as [Hv|Hv].
      - destruct Hvis as (m1 & -> & HI1). by exists m1, seen, D.
      - destruct Hvis as (m1 & -> & HI1). cbn [mbind option_bind]. destruct (Hgraph _ _ _ r HI1) as (_ & -> & _).
        destruct (walk_edges n r) with (es := O r) (m := m1) (seen := {[r]} ∪ seen) (D := D) as (m2 & s2 & D2 & E2 & HI2 & W2).
        + intros m' s' D' e' H1 H2 H3 H4 H5. destruct (walk_call n m' s' D' r e' H1 H2 H3 H4 H5) as (? & ? & ? & ? & ? & ? & _); eauto 10.
        + done.
        + set_solver.
        + by apply (g_nodup_out _ _ Hok).
        + intros x Hx. split; [done|]. intros HxD. destruct (HD m seen D x HI HxD) as (u & Hu & Hxu).
          assert (u = r) as -> by (apply (own_edge _ _ x); [by apply (Hseen m seen D)|done..]). done.
        + pose proof (unseen_add nodes r seen Hr Hv). pose proof (unseen_bound nodes seen). lia.
        + exists m2, s2, D2. pose proof (wk_seen _ _ _ _ _ W2). split_and!; [done|done|set_solver|set_solver|].
          intros u x Hu Hx. destruct (decide (u = r)) as [->|Hur]; [apply (wk_new _ _ _ _ _ W2); set_solver|].
          destruct (decide (u ∈ seen)) as [Hus|Hus]; [apply (wk_old _ _ _ _ _ W2); by eapply Hall|].
          apply (wk_done _ _ _ _ _ W2 u); set_solver. }
    destruct (IH m1 s1 D1 HI1) as (m2 & s2 & D2 & E2 & HI2 & Hsub2 & Hrs2 & Hall2).
    + by eapply Hfuel.
    + done.
    + done.
    + exists m2, s2, D2. split_and!; [exact E2|done|set_solver|intros r' [[= ->]|?]%elem_of_cons; [by apply Hsub2|by apply Hrs2]|done].
Qed.

End Walk.
(** ** What the visitor of [fixRanks] does *)

(** Graphs that differ in ranks and lengths of [temp] only. *)
Definition erase (c : hcell) : hcell := with_length 0 (with_ranks 0 0 c).
Definition skeleton (cs cs' : gmap nat hcell) : Prop := erase <$> cs = erase <$> cs'.

Lemma skeleton_fields cs cs' x : skeleton cs cs' →
  (is_Some (cs !! x) ↔ is_Some (cs' !! x)) ∧ isVertex (cs !!! x) = isVertex (cs' !!! x) ∧
  connectsAsTarget (cs !!! x) = connectsAsTarget (cs' !!! x) ∧ connectsAsSource (cs !!! x) = connectsAsSource (cs' !!! x) ∧
  source (cs !!! x) = source (cs' !!! x) ∧ target (cs !!! x) = target (cs' !!! x) ∧ isReversed (cs !!! x) = isReversed (cs' !!! x).
Proof.
  intros H. pose proof (f_equal (λ g : gmap nat hcell, g !! x) H) as E. simpl in E. rewrite !lookup_fmap in E.
  split; [by rewrite <-(fmap_is_Some erase), E, fmap_is_Some|].
  rewrite !lookup_total_alt. destruct (cs !! x) as [c|], (cs' !! x) as [c'|]; try done.
  assert (erase c = erase c') as E' by (simpl in E; congruence). injection E'. intros. by split_and!.
Qed.

Lemma skeleton_alter g c cs : (∀ x, erase (g x) = erase x) → skeleton (alter g c cs) cs.
Proof.
  intros Hg. apply map_eq. intros x. rewrite !lookup_fmap. destruct (decide (x = c)) as [->|H].
  - rewrite lookup_alter_eq. destruct (cs !! c); simpl; [by rewrite Hg|done].
  - by rewrite lookup_alter_ne.
Qed.

Lemma skeleton_update g c m G : (∀ x, erase (g x) = erase x) → skeleton (cells m) G → skeleton (cells (update c g m)) G.
Proof. intros Hg H. unfold skeleton in *. rewrite <-H. by apply skeleton_alter. Qed.

(** An edge pushed into consecutive ranks. *)
Lemma push_edge_spec e lo n : ∀ a m,
  is_Some (cells m !! e) → isVertex (cells m !!! e) = false → minRank (cells m !!! e) = lo →
  (lo < a)%Z → temp_length (cells m !!! e) = (a - lo - 1)%Z → (0 ≤ a)%Z → (a + Z.of_nat n ≤ Z.of_nat (length (ranks m)))%Z →
  ∃ m', push_edge e (seqZ a (Z.of_nat n)) m = Some m' ∧
    cells m' = alter (λ c, with_length (temp_length c + Z.of_nat n) c) e (cells m) ∧
    vertexMapper m' = vertexMapper m ∧ roots m' = roots m ∧ model_maxRank m' = model_maxRank m ∧ length (ranks m') = length (ranks m) ∧
    (∀ i r, ranks m !! i = Some r → ranks m' !! i = Some (if decide (a ≤ Z.of_nat i < a + Z.of_nat n)%Z then r ++ [e] else r)) ∧
    (∀ i r, (a ≤ Z.of_nat i < a + Z.of_nat n)%Z → ranks m !! i = Some r → temp m' !! (e, (Z.of_nat i - lo - 1)%Z) = Some (Z.of_nat (length r))) ∧
    (∀ x k, x ≠ e ∨ (k < a - lo - 1)%Z → temp m' !! (x, k) = temp m !! (x, k)).
Proof.
  induction n as [|n IH]; intros a m Hs Hv Hlo Hla Hlen Ha Hb.
  - exists m. split_and!; try done.
    + apply map_eq. intros x. destruct (decide (x = e)) as [->|Hx]; [|by rewrite lookup_alter_ne].
      rewrite lookup_alter_eq. destruct (cells m !! e) as [c|]; [|done]. simpl. destruct c. unfold with_length. simpl.
      by rewrite Z.add_0_r.
    + intros i r Hr. by rewrite decide_False by lia.
    + lia.
  - rewrite seqZ_cons by lia. cbn [push_edge]. unfold push_rank. rewrite decide_True by done.
    destruct (lookup_lt_is_Some_2 (ranks m) (Z.to_nat a)) as [r Hr]; [lia|]. rewrite Hr. cbn [mbind option_bind fst snd].
    assert (slot (cells m) a e = (e, a - lo - 1)%Z) as Eslot by (unfold slot; by rewrite Hv, Hlo).
    match goal with |- context [slot ?cs a e] => change cs with (cells m) end. rewrite Eslot. cbn [snd].
    set (m1 := write_temp _ _ _ _). replace (Z.succ a) with (a + 1)%Z by lia. replace (Z.pred (Z.of_nat (S n))) with (Z.of_nat n) by lia.
    assert (cells m1 = alter (λ c, with_length (Z.max (temp_length c) (a - lo - 1 + 1)) c) e (cells m)) as Ec by done.
    assert (cells m1 !!! e = with_length (a - lo)%Z (cells m !!! e)) as Ece.
    { rewrite Ec, lookup_total_alter_is by done. rewrite decide_True by done. rewrite Hlen. f_equal. lia. }
    assert (ranks m1 = <[Z.to_nat a := r ++ [e]]> (ranks m)) as Er by done.
    assert (temp m1 = <[(e, a - lo - 1)%Z := Z.of_nat (length r)]> (temp m)) as Et by done.
    destruct (IH (a + 1)%Z m1) as (m' & -> & Ec' & V & Ro & Mx & Hl & Hrk & Ht & Hf).
    + rewrite Ec, lookup_alter_is_Some. done.
    + by rewrite Ece.
    + by rewrite Ece.
    + lia.
    + rewrite Ece. simpl. lia.
    + lia.
    + rewrite Er, length_insert. lia.
    + exists m'. split_and!; [done| |done|done|done|by rewrite Hl, Er, length_insert|..].
      * rewrite Ec', Ec. apply map_eq. intros x. destruct (decide (x = e)) as [->|Hx]; [|by rewrite !lookup_alter_ne].
        rewrite !lookup_alter_eq. destruct Hs as [c Hc]. rewrite lookup_total_alt, Hc in Hlen. rewrite Hc. simpl in *.
        unfold with_length. simpl. do 2 f_equal. lia.
      * intros i r' Hi. destruct (decide (i = Z.to_nat a)) as [->|Hia].
        -- rewrite (Hrk _ (r ++ [e])); [|rewrite Er; by apply list_lookup_insert_eq; lia].
           rewrite decide_False, decide_True by lia. congruence.
        -- rewrite (Hrk _ r'); [|rewrite Er; by rewrite list_lookup_insert_ne]. repeat case_decide; done || lia.
      * intros i r' Hi Hir. destruct (decide (i = Z.to_nat a)) as [->|Hia].
        -- rewrite Hf by (right; lia). rewrite Et. rewrite Z2Nat.id by lia. rewrite lookup_insert_eq. congruence.
        -- apply Ht; [lia|]. rewrite Er. by rewrite list_lookup_insert_ne.
      * intros x k Hxk. rewrite Hf by lia. rewrite Et, lookup_insert_ne; [done|]. intros [= E1 E2]. lia.
Qed.

Section Fixing.
Context (m0 : hmodel) (nodes : list nat) (rk : nat → Z) (top : nat).
Abbreviation G := (cells m0).
Abbreviation O u := (connectsAsSource (G !!! u)).
Abbreviation T_ e := (target (G !!! e)).
Context (Hok : graph_ok nodes G) (Hrk : ∀ u, u ∈ nodes → (0 ≤ rk u ≤ Z.of_nat top)%Z).
Context (Hdec : ∀ u e, u ∈ nodes → e ∈ O u → (rk (T_ e) < rk u)%Z).

(** The cells a rank holds once [seen] has been seen and [D] followed. *)
Definition here (seen D : gset nat) (c : nat) (i : Z) : Prop :=
  (c ∈ seen ∧ rk c = i) ∨ (c ∈ D ∧ ∃ u, u ∈ nodes ∧ c ∈ O u ∧ (rk (T_ c) < i < rk u)%Z).

Record fixing (m : hmodel) (seen D : gset nat) : Prop := {
  x_skel : skeleton (cells m) G;
  x_rest : vertexMapper m = vertexMapper m0 ∧ roots m = roots m0 ∧ model_maxRank m = model_maxRank m0;
  x_len : length (ranks m) = S top;
  x_seen : ∀ u, u ∈ seen → u ∈ nodes;
  x_D : ∀ e, e ∈ D → ∃ u, u ∈ seen ∧ e ∈ O u ∧ T_ e ∈ seen;
  x_placed : ∀ u, u ∈ seen → maxRank (cells m !!! u) = rk u ∧ minRank (cells m !!! u) = rk u;
  x_waiting : ∀ u, u ∈ nodes → u ∉ seen → maxRank (cells m !!! u) = (-1)%Z ∧ minRank (cells m !!! u) = (-1)%Z ∧ temp0 m u = Some (rk u);
  x_edge : ∀ u e, u ∈ nodes → e ∈ O u → if decide (e ∈ D ∧ rk u - rk (T_ e) > 1)%Z
    then maxRank (cells m !!! e) = rk u ∧ minRank (cells m !!! e) = rk (T_ e) ∧ temp_length (cells m !!! e) = (rk u - rk (T_ e) - 1)%Z
    else maxRank (cells m !!! e) = (-1)%Z ∧ minRank (cells m !!! e) = (-1)%Z;
  x_at : ∀ i r j c, ranks m !! i = Some r → r !! j = Some c →
    here seen D c (Z.of_nat i) ∧ temp m !! slot (cells m) (Z.of_nat i) c = Some (Z.of_nat j);
  x_in : ∀ i c, here seen D c (Z.of_nat i) → ∃ r, ranks m !! i = Some r ∧ c ∈ r
}.

Lemma node_not_edge u p e : u ∈ nodes → p ∈ nodes → e ∈ O p → u ≠ e.
Proof.
  intros Hu Hp He ->. destruct (g_node _ _ Hok e Hu) as [_ H], (g_out _ _ Hok p e Hp He) as (_ & H' & _). congruence.
Qed.

Lemma slot_same cs cs' i c : cs !!! c = cs' !!! c → slot cs i c = slot cs' i c.
Proof. intros H. unfold slot. by rewrite H. Qed.

(** A node seen for the first time. *)
Lemma fixing_place m seen D u : fixing m seen D → u ∈ nodes → u ∉ seen →
  ∃ r, ranks m !! Z.to_nat (rk u) = Some r ∧
    fixing (write_temp u 0 (Z.of_nat (length r)) (update u (with_ranks (rk u) (rk u)) (set_ranks (<[Z.to_nat (rk u) := r ++ [u]]> (ranks m)) m)))
      ({[u]} ∪ seen) D.
Proof.
  intros [Sk Rs Ln Se Di Pl Wa Ed At In] Hu Hus. pose proof (Hrk u Hu) as Hb.
  destruct (lookup_lt_is_Some_2 (ranks m) (Z.to_nat (rk u))) as [r Hr]; [lia|]. exists r. split; [done|].
  set (m' := write_temp _ _ _ _). destruct (skeleton_fields _ _ u Sk) as (Hsu & Hvu & _).
  assert (is_Some (cells m !! u)) as Hsome by by apply Hsu, (g_node _ _ Hok).
  assert (∀ x, cells m' !!! x = if decide (x = u) then cells m' !!! u else cells m !!! x) as Ec.
  { intros x. case_decide as Hx; [by subst|]. simpl. rewrite lookup_total_alter_is by (by rewrite alter_is_Some).
    rewrite decide_False by done. rewrite lookup_total_alter_is by done. by rewrite decide_False. }
  assert (maxRank (cells m' !!! u) = rk u ∧ minRank (cells m' !!! u) = rk u ∧ isVertex (cells m' !!! u) = true) as (Hmax & Hmin & Hvx).
  { simpl. rewrite lookup_total_alter_is by (by rewrite alter_is_Some). rewrite decide_True by done.
    rewrite lookup_total_alter_is by done. rewrite decide_True by done. split_and!; [done|done|]. simpl. rewrite Hvu. by apply (g_node _ _ Hok). }
  assert (∀ x k, x ≠ u → temp m' !! (x, k) = temp m !! (x, k)) as Et by (intros x k Hx; simpl; rewrite lookup_insert_ne; [done|congruence]).
  assert (∀ c i, here seen D c i → c ≠ u) as Hhu.
  { intros c i [[Hc _]|(_ & p & Hp & Hc & _)]; [by intros ->|]. intros ->. by apply (node_not_edge u p u). }
  assert (∀ c i, here seen D c i → here ({[u]} ∪ seen) D c i) as Hmono.
  { intros c i [[Hc ?]|?]; [left; split; [set_solver|done]|by right]. }
  split.
  - simpl. apply (skeleton_update (λ x, with_length (Z.max (temp_length x) (0 + 1)) x) u (update u (with_ranks (rk u) (rk u)) m)); [done|].
    by apply skeleton_update.
  - done.
  - simpl. by rewrite length_insert.
  - intros x [->%elem_of_singleton|?]%elem_of_union; auto.
  - intros e (x & Hx & Ho & Ht)%Di. exists x. set_solver.
  - intros x [->%elem_of_singleton|Hx]%elem_of_union; [done|]. rewrite Ec, decide_False by by intros ->. by apply Pl.
  - intros x Hx [Hxu%not_elem_of_singleton Hxs]%not_elem_of_union. rewrite Ec, decide_False by done. unfold temp0.
    rewrite Et by done. by apply Wa.
  - intros x e Hx He. replace (cells m' !!! e) with (cells m !!! e); [by apply Ed|].
    rewrite Ec, decide_False; [done|]. intros ->. by apply (node_not_edge u x u).
  - intros i r' j c Hi Hj. simpl in Hi. destruct (decide (Z.to_nat (rk u) = i)) as [<-|Hiu].
    + rewrite list_lookup_insert_eq in Hi by (by eapply lookup_lt_Some). injection Hi as <-.
      apply lookup_app_Some in Hj as [Hj|[Hj1 Hj2]].
      * destruct (At _ _ _ _ Hr Hj) as [Hh Hp]. split; [by apply Hmono|]. pose proof (Hhu _ _ Hh) as Hcu.
        rewrite (slot_same (cells m') (cells m)) by (by rewrite Ec, decide_False). unfold slot in *. by rewrite Et.
      * apply list_lookup_singleton_Some in Hj2 as [Hj2 <-]. split; [left; split; [set_solver|lia]|].
        unfold slot. rewrite Hvx. simpl. rewrite lookup_insert_eq. f_equal. lia.
    + rewrite list_lookup_insert_ne in Hi by done. destruct (At _ _ _ _ Hi Hj) as [Hh Hp]. split; [by apply Hmono|].
      pose proof (Hhu _ _ Hh) as Hcu. rewrite (slot_same (cells m') (cells m)) by (by rewrite Ec, decide_False).
      unfold slot in *. by rewrite Et.
  - intros i c Hh. assert ((c = u ∧ i = Z.to_nat (rk u)) ∨ here seen D c (Z.of_nat i)) as [[-> ->]|Hold].
    { destruct Hh as [[[->%elem_of_singleton|Hc]%elem_of_union Hi]|Hh]; [left; split; [done|lia]|right; left; done|right; by right]. }
    + exists (r ++ [u]). simpl. rewrite list_lookup_insert_eq by (by eapply lookup_lt_Some). split; [done|].
      apply elem_of_app. right. left.
    + destruct (In i c Hold) as (r' & Hr' & Hc). simpl. destruct (decide (Z.to_nat (rk u) = i)) as [<-|Hiu].
      * exists (r ++ [u]). rewrite list_lookup_insert_eq by (by eapply lookup_lt_Some). split; [done|]. apply elem_of_app. left. congruence.
      * exists r'. by rewrite list_lookup_insert_ne.
Qed.

(** The edge followed to a node that has its place. *)
Definition follow (p e v : nat) (m : hmodel) : option hmodel :=
  let hi := maxRank (cells m !!! p) in
  let lo := maxRank (cells m !!! v) in
  if decide (hi - lo > 1)%Z then push_edge e (seqZ (lo + 1) (hi - lo - 1)) (clear_temp e (update e (with_ranks hi lo) m)) else Some m.

Lemma fixing_follow m seen D p e : fixing m seen D → p ∈ seen → e ∈ O p → e ∉ D → T_ e ∈ seen →
  ∃ m', follow p e (T_ e) m = Some m' ∧ fixing m' seen ({[e]} ∪ D).
Proof.
  intros [Sk Rs Ln Se Di Pl Wa Ed At In] Hp He HeD Ht. pose proof (Se p Hp) as Hpn.
  unfold follow. destruct (Pl p Hp) as [-> _], (Pl _ Ht) as [-> _].
  assert (∀ u x, u ∈ nodes → x ∈ O u → x = e → u = p) as Hown.
  { intros u x Hu Hx ->. eapply own_edge; [exact Hok|done..]. }
  assert (∀ u, u ∈ nodes → u ≠ e) as Hne by (intros u Hu; by apply (node_not_edge u p e)).
  destruct (decide (rk p - rk (T_ e) > 1)%Z) as [Hlong|Hshort].
  2:{ exists m. split; [done|]. assert (∀ c i, here seen ({[e]} ∪ D) c i ↔ here seen D c i) as Hh.
      { intros c i. split; intros [?|(Hc & u & Hu & Ho & Hb)]; [by left| |by left|right; split; [set_solver|by exists u]].
        apply elem_of_union in Hc as [->%elem_of_singleton|Hc]; [|right; split; [done|by exists u]].
        assert (u = p) as -> by by eapply Hown. lia. }
      split; try done.
      - intros x [->%elem_of_singleton|?]%elem_of_union; [by exists p|by apply Di].
      - intros u x Hu Hx. pose proof (Ed u x Hu Hx) as H. destruct (decide (x = e)) as [->|Hxe].
        + assert (u = p) as -> by by eapply Hown. rewrite decide_False in H by (by intros [? _]). by rewrite decide_False by (intros [_ ?]; lia).
        + assert (x ∈ {[e]} ∪ D ↔ x ∈ D) as E by set_solver. case_decide as H1; case_decide as H2; try done; tauto.
      - intros i r j c Hi Hj. destruct (At i r j c Hi Hj). by rewrite Hh.
      - intros i c. rewrite Hh. apply In. }
  set (m1 := clear_temp _ _).
  destruct (g_out _ _ Hok p e Hpn He) as (Hes & Hev & _ & Htn & _).
  destruct (skeleton_fields _ _ e Sk) as (Hs1 & Hv1 & _). assert (is_Some (cells m !! e)) as Hsome by by apply Hs1.
  assert (cells m1 !!! e = with_length 0 (with_ranks (rk p) (rk (T_ e)) (cells m !!! e))) as Ee.
  { simpl. rewrite lookup_total_alter_is by (by rewrite alter_is_Some). rewrite decide_True by done.
    rewrite lookup_total_alter_is by done. by rewrite decide_True. }
  pose proof (Hrk p Hpn) as Hb1. pose proof (Hrk _ Htn) as Hb2.
  destruct (push_edge_spec e (rk (T_ e)) (Z.to_nat (rk p - rk (T_ e) - 1)) (rk (T_ e) + 1) m1) as
    (m' & Em & Ec' & V & Ro & Mx & Hl & Hrks & Htm & Hfr).
  { simpl. by rewrite !alter_is_Some. }
  { rewrite Ee. simpl. by rewrite Hv1. }
  { by rewrite Ee. }
  { lia. }
  { rewrite Ee. simpl. lia. }
  { lia. }
  { change (ranks m1) with (ranks m). rewrite Ln. lia. }
  rewrite Z2Nat.id in * by lia. rewrite Em. exists m'. split; [done|].
  assert (cells m' !!! e = with_length (rk p - rk (T_ e) - 1) (with_ranks (rk p) (rk (T_ e)) (cells m !!! e))) as Ee'.
  { rewrite Ec', lookup_total_alter_is by (simpl; by rewrite !alter_is_Some). rewrite decide_True by done. by rewrite Ee. }
  assert (∀ x, x ≠ e → cells m' !!! x = cells m !!! x) as Eo.
  { intros x Hx. rewrite Ec', lookup_total_alter_is by (simpl; by rewrite !alter_is_Some). rewrite decide_False by done. simpl.
    rewrite lookup_total_alter_is by (by rewrite alter_is_Some). rewrite decide_False by done.
    rewrite lookup_total_alter_is by done. by rewrite decide_False. }
  assert (∀ x k, x ≠ e → temp m' !! (x, k) = temp m !! (x, k)) as Et.
  { intros x k Hx. rewrite Hfr by (by left). simpl. rewrite map_lookup_filter.
    destruct (temp m !! (x, k)); [|done]. simpl. by rewrite option_guard_True. }
  assert (∀ c i, here seen ({[e]} ∪ D) c i ↔ here seen D c i ∨ (c = e ∧ (rk (T_ e) < i < rk p)%Z)) as Hh.
  { intros c i. split.
    - intros [?|(Hc & u & Hu & Ho & Hb)]; [left; by left|].
      apply elem_of_union in Hc as [->%elem_of_singleton|Hc]; [|left; right; split; [done|by exists u]].
      right. assert (u = p) as -> by by eapply Hown. done.
    - intros [[?|(Hc & u & ?)]|[-> Hi]]; [by left|right; split; [set_solver|by exists u]|].
      right. split; [set_solver|]. by exists p. }
  assert (∀ c i, here seen D c i → c ≠ e) as Hhe.
  { intros c i [[Hc _]|[Hc _]]; [by apply Hne, Se|by intros ->]. }
  split.
  - rewrite Ec'. refine (eq_trans (skeleton_alter _ _ _ _) (eq_trans (skeleton_alter _ _ _ _) (eq_trans (skeleton_alter _ _ _ _) Sk))); done.
  - by rewrite V, Ro, Mx.
  - by rewrite Hl.
  - done.
  - intros x [->%elem_of_singleton|?]%elem_of_union; [by exists p|by apply Di].
  - intros u Hu. rewrite Eo by by apply Hne, Se. by apply Pl.
  - intros u Hu Hus. unfold temp0. rewrite Eo, Et by by apply Hne. by apply Wa.
  - intros u x Hu Hx. destruct (decide (x = e)) as [->|Hxe].
    + assert (u = p) as -> by by eapply Hown. rewrite decide_True by (split; [set_solver|done]). by rewrite Ee'.
    + rewrite Eo by done. pose proof (Ed u x Hu Hx) as H.
      assert (x ∈ {[e]} ∪ D ↔ x ∈ D) as E by set_solver. case_decide as H1; case_decide as H2; try done; tauto.
  - intros i r' j c Hi Hj. destruct (lookup_lt_is_Some_2 (ranks m) i) as [r Hr].
    { apply lookup_lt_Some in Hi. rewrite Hl in Hi. exact Hi. }
    rewrite (Hrks i r Hr) in Hi. injection Hi as <-. rewrite Hh.
    assert (∀ j, r !! j = Some c → (here seen D c (Z.of_nat i) ∨ c = e ∧ (rk (T_ e) < Z.of_nat i < rk p)%Z) ∧
      temp m' !! slot (cells m') (Z.of_nat i) c = Some (Z.of_nat j)) as Hold.
    { intros j' Hj'. destruct (At i r j' c Hr Hj') as [A B]. split; [by left|]. pose proof (Hhe _ _ A) as Hce.
      rewrite (slot_same (cells m') (cells m)) by by rewrite Eo. unfold slot in *. by rewrite Et. }
    case_decide as Hi; [|by apply Hold]. apply lookup_app_Some in Hj as [Hj|[Hj1 Hj2]]; [by apply Hold|].
    apply list_lookup_singleton_Some in Hj2 as [Hj2 <-]. split; [right; split; [done|lia]|].
    unfold slot. rewrite Ee'. simpl. rewrite Hv1, Hev. rewrite (Htm i r Hi Hr). f_equal. lia.
  - intros i c [Hh1|[-> Hi]]%Hh.
    + destruct (In i c Hh1) as (r & Hr & Hc). rewrite (Hrks i r Hr). eexists. split; [done|]. case_decide; [|done].
      apply elem_of_app. by left.
    + destruct (lookup_lt_is_Some_2 (ranks m) i) as [r Hr]; [rewrite Ln; lia|]. rewrite (Hrks i r Hr). eexists. split; [done|].
      rewrite decide_True by lia. apply elem_of_app. right. left.
Qed.

Lemma fixing_visit m seen D p e : fixing m seen D → p ∈ seen → e ∈ O p → e ∉ D →
  if decide (T_ e ∈ seen) then ∃ m', rank_visitor (Some p) (T_ e) (Some e) true m = Some m' ∧ fixing m' seen ({[e]} ∪ D)
  else ∃ m', rank_visitor (Some p) (T_ e) (Some e) false m = Some m' ∧ fixing m' ({[T_ e]} ∪ seen) ({[e]} ∪ D).
Proof.
  intros HF Hp He HeD. pose proof (x_seen _ _ _ HF p Hp) as Hpn.
  destruct (g_out _ _ Hok p e Hpn He) as (_ & _ & _ & Hvn & _). destruct (decide (T_ e ∈ seen)) as [Hv|Hv].
  - unfold rank_visitor. rewrite decide_False by (by intros [? _]). cbn [mbind option_bind]. by apply (fixing_follow m seen D).
  - unfold rank_visitor. destruct (x_waiting _ _ _ HF _ Hvn Hv) as (Hmax & Hmin & Htmp).
    rewrite decide_True by (by rewrite Hmax, Hmin). rewrite Htmp. cbn [mbind option_bind].
    destruct (fixing_place m seen D (T_ e) HF Hvn Hv) as (r & Hr & HF'). unfold push_rank.
    rewrite decide_True by by apply Hrk. rewrite Hr. cbn [mbind option_bind fst snd].
    apply (fixing_follow _ _ _ p e HF'); [set_solver|done..|set_solver].
Qed.

Lemma fixing_root m seen D r : fixing m seen D → r ∈ nodes →
  if decide (r ∈ seen) then ∃ m', rank_visitor None r None true m = Some m' ∧ fixing m' seen D
  else ∃ m', rank_visitor None r None false m = Some m' ∧ fixing m' ({[r]} ∪ seen) D.
Proof.
  intros HF Hn. destruct (decide (r ∈ seen)) as [Hv|Hv].
  - exists m. split; [|done]. unfold rank_visitor. by rewrite decide_False by (by intros [? _]).
  - unfold rank_visitor. destruct (x_waiting _ _ _ HF _ Hn Hv) as (Hmax & Hmin & Htmp).
    rewrite decide_True by (by rewrite Hmax, Hmin). rewrite Htmp. cbn [mbind option_bind].
    destruct (fixing_place m seen D r HF Hn Hv) as (l & Hl & HF'). unfold push_rank.
    rewrite decide_True by by apply Hrk. rewrite Hl. cbn [mbind option_bind fst snd]. eauto.
Qed.

(** When everything has been seen and followed, the ranks are what the crossing reduction
    takes. *)
Section Fixed.
Context (m : hmodel) (seen D : gset nat) (HF : fixing m seen D).
Context (Hall : ∀ u, u ∈ nodes → u ∈ seen) (Hfol : ∀ u e, u ∈ nodes → e ∈ O u → e ∈ D).

Lemma fixed_fields x : isVertex (cells m !!! x) = isVertex (G !!! x) ∧ connectsAsTarget (cells m !!! x) = connectsAsTarget (G !!! x) ∧
  connectsAsSource (cells m !!! x) = O x ∧ source (cells m !!! x) = source (G !!! x) ∧ target (cells m !!! x) = T_ x.
Proof. destruct (skeleton_fields _ _ x (x_skel _ _ _ HF)) as (_ & ? & ? & ? & ? & ? & _). done. Qed.

Lemma fixed_node i r c : ranks m !! i = Some r → c ∈ r →
  (isVertex (cells m !!! c) = true ∧ c ∈ nodes ∧ rk c = Z.of_nat i) ∨
  (isVertex (cells m !!! c) = false ∧ ∃ u, u ∈ nodes ∧ c ∈ O u ∧ (rk (T_ c) < Z.of_nat i < rk u)%Z).
Proof.
  intros Hr [j Hj]%list_elem_of_lookup_1. destruct (x_at _ _ _ HF i r j c Hr Hj) as [Hh _].
  destruct (fixed_fields c) as (-> & _). destruct Hh as [[Hc Hi]|(_ & u & Hu & Ho & Hb)].
  - left. apply (x_seen _ _ _ HF) in Hc. split_and!; [by apply (g_node _ _ Hok)|done|done].
  - right. destruct (g_out _ _ Hok u c Hu Ho) as (_ & ? & _). split; [done|]. by exists u.
Qed.

Lemma fixed_in_node u i : u ∈ nodes → rk u = Z.of_nat i → ∃ r, ranks m !! i = Some r ∧ u ∈ r.
Proof. intros Hu Hi. apply (x_in _ _ _ HF). left. auto. Qed.

Lemma fixed_in_edge u e i : u ∈ nodes → e ∈ O u → (rk (T_ e) < Z.of_nat i < rk u)%Z → ∃ r, ranks m !! i = Some r ∧ e ∈ r.
Proof. intros Hu He Hi. apply (x_in _ _ _ HF). right. split; [by eapply Hfol|by exists u]. Qed.

Lemma fixed_long u e : u ∈ nodes → e ∈ O u → (rk u - rk (T_ e) > 1)%Z →
  maxRank (cells m !!! e) = rk u ∧ minRank (cells m !!! e) = rk (T_ e) ∧ temp_length (cells m !!! e) = (rk u - rk (T_ e) - 1)%Z.
Proof.
  intros Hu He Hl. pose proof (x_edge _ _ _ HF u e Hu He) as H. rewrite decide_True in H; [done|]. split; [by eapply Hfol|done].
Qed.

Lemma fixed_short u e : u ∈ nodes → e ∈ O u → ¬ (rk u - rk (T_ e) > 1)%Z →
  maxRank (cells m !!! e) = (-1)%Z ∧ minRank (cells m !!! e) = (-1)%Z.
Proof. intros Hu He Hl. pose proof (x_edge _ _ _ HF u e Hu He) as H. rewrite decide_False in H; [done|]. by intros [_ ?]. Qed.

Lemma fixed_next i r c : ranks m !! i = Some r → c ∈ r → ∃ l, getNextLayerConnectedCells (cells m) (Z.of_nat i) c = Some l ∧
  ∀ b, b ∈ l → ∃ r', ranks m !! S i = Some r' ∧ b ∈ r'.
Proof.
  intros Hr Hc. unfold getNextLayerConnectedCells. destruct (fixed_node i r c Hr Hc) as [(-> & Hcn & Hi)|(-> & u & Hu & Ho & Hb)].
  - eexists. split; [done|]. unfold node_next. destruct (fixed_fields c) as (_ & -> & _).
    intros b (x & -> & Hx)%list_elem_of_fmap. destruct (g_in _ _ Hok c x Hcn Hx) as (Htx & Hsn & Hso).
    destruct (fixed_fields x) as (_ & _ & _ & -> & _). pose proof (Hdec _ x Hsn Hso) as Hlt. rewrite Htx in Hlt.
    destruct (decide (rk (source (G !!! x)) - rk (T_ x) > 1)%Z) as [Hl|Hl].
    + destruct (fixed_long _ x Hsn Hso Hl) as (-> & _). rewrite Htx in Hl. rewrite decide_False by (pose proof (Hrk _ Hsn); lia).
      apply (fixed_in_edge (source (G !!! x)) x (S i) Hsn Hso). rewrite Htx. lia.
    + destruct (fixed_short _ x Hsn Hso Hl) as (-> & _). rewrite Htx in Hl. rewrite decide_True by (by left). apply fixed_in_node; [done|lia].
  - destruct (fixed_long u c Hu Ho) as (_ & Hmin & Hlen); [lia|]. unfold edge_next. rewrite Hmin, Hlen.
    rewrite decide_True by lia. eexists. split; [done|]. intros b ->%list_elem_of_singleton.
    destruct (fixed_fields c) as (_ & _ & _ & -> & _). destruct (g_out _ _ Hok u c Hu Ho) as (_ & _ & -> & _).
    case_decide; [apply fixed_in_node; [done|lia]|apply (fixed_in_edge u); [done|done|lia]].
Qed.

Lemma fixed_prev i r c : ranks m !! i = Some r → c ∈ r → ∃ l, getPreviousLayerConnectedCells (cells m) (Z.of_nat i) c = Some l ∧
  ∀ b, b ∈ l → ∃ k r', i = S k ∧ ranks m !! k = Some r' ∧ b ∈ r'.
Proof.
  intros Hr Hc. unfold getPreviousLayerConnectedCells. destruct (fixed_node i r c Hr Hc) as [(-> & Hcn & Hi)|(-> & u & Hu & Ho & Hb)].
  - eexists. split; [done|]. unfold node_previous. destruct (fixed_fields c) as (_ & _ & -> & _).
    intros b (x & -> & Hx)%list_elem_of_fmap. destruct (g_out _ _ Hok c x Hcn Hx) as (_ & _ & _ & Htn & _).
    destruct (fixed_fields x) as (_ & _ & _ & _ & ->). pose proof (Hdec c x Hcn Hx) as Hlt. pose proof (Hrk _ Htn).
    exists (i - 1). destruct (decide (rk c - rk (T_ x) > 1)%Z) as [Hl|Hl].
    + destruct (fixed_long c x Hcn Hx Hl) as (_ & -> & _). rewrite decide_False by lia.
      destruct (fixed_in_edge c x (i - 1) Hcn Hx) as (r' & ? & ?); [lia|]. exists r'. split_and!; [lia|done|done].
    + destruct (fixed_short c x Hcn Hx Hl) as (_ & ->). rewrite decide_True by (by left).
      destruct (fixed_in_node (T_ x) (i - 1) Htn) as (r' & ? & ?); [lia|]. exists r'. split_and!; [lia|done|done].
  - destruct (fixed_long u c Hu Ho) as (_ & Hmin & Hlen); [lia|]. unfold edge_previous. rewrite Hmin, Hlen.
    rewrite decide_True by lia. eexists. split; [done|]. intros b ->%list_elem_of_singleton.
    destruct (fixed_fields c) as (_ & _ & _ & _ & ->). destruct (g_out _ _ Hok u c Hu Ho) as (_ & _ & _ & Htn & _). pose proof (Hrk _ Htn).
    exists (i - 1). case_decide.
    + destruct (fixed_in_node (T_ c) (i - 1) Htn) as (r' & ? & ?); [lia|]. exists r'. split_and!; [lia|done|done].
    + destruct (fixed_in_edge u c (i - 1) Hu Ho) as (r' & ? & ?); [lia|]. exists r'. split_and!; [lia|done|done].
Qed.

Lemma fixed_nodup i r : ranks m !! i = Some r → NoDup r.
Proof.
  intros Hr. apply NoDup_alt. intros j k c Hj Hk.
  destruct (x_at _ _ _ HF i r j c Hr Hj) as [_ E1], (x_at _ _ _ HF i r k c Hr Hk) as [_ E2]. rewrite E1 in E2. by simplify_eq.
Qed.

Lemma fixed_layered : (Z.of_nat (size G) ≤ 2 ^ 30)%Z → layered (cells m) (ranks m) ∧ arranged (cells m) (ranks m) (ranks m) (temp m).
Proof.
  intros Hsize. split; split.
  - exact fixed_nodup.
  - intros i j r r' c Hr Hr' Hc Hc' Hv.
    destruct (fixed_node i r c Hr Hc) as [(_ & _ & ?)|[? _]], (fixed_node j r' c Hr' Hc') as [(_ & _ & ?)|[? _]]; congruence || lia.
  - exact fixed_next.
  - exact fixed_prev.
  - intros i r Hr. etrans; [|exact Hsize]. rewrite <-size_dom. apply inj_le.
    rewrite <-(length_fmap id r), list_fmap_id. rewrite <-(size_list_to_set (C := gset nat) r) by by eapply fixed_nodup.
    apply subseteq_size. intros c Hc%elem_of_list_to_set. apply elem_of_dom.
    destruct (fixed_node i r c Hr Hc) as [(_ & Hcn & _)|(_ & u & Hu & Ho & _)]; [by apply (g_node _ _ Hok)|by destruct (g_out _ _ Hok u c Hu Ho)].
  - reflexivity.
  - intros i o j c Ho Hj. by destruct (x_at _ _ _ HF i o j c Ho Hj).
Qed.

End Fixed.

End Fixing.
(** ** [fixRanks] *)

(** What [fixRanks] needs: ranks in [temp], and cells that are in no rank yet. *)
Record fixable (m : hmodel) : Prop := {
  f_graph : graph_ok (vertexMapper_values m) (cells m);
  f_ranked : ranked m;
  f_top : (0 ≤ model_maxRank m)%Z;
  f_reach : ∀ u, u ∈ vertexMapper_values m → ∃ r, Some r ∈ root_nodes m ∧ rtc (follows m) r u;
  f_fresh : ∀ x, maxRank (cells m !!! x) = (-1)%Z ∧ minRank (cells m !!! x) = (-1)%Z;
  f_size : (Z.of_nat (size (cells m)) ≤ 2 ^ 30)%Z
}.

(** What it builds, from the ranks the nodes have in [temp]. *)
Record ranks_fixed (m m' : hmodel) : Prop := {
  rf_skeleton : skeleton (cells m') (cells m);
  rf_rest : vertexMapper m' = vertexMapper m ∧ roots m' = roots m ∧ model_maxRank m' = model_maxRank m;
  rf_length : length (ranks m') = S (Z.to_nat (model_maxRank m));
  rf_layered : layered (cells m') (ranks m');
  rf_arranged : arranged (cells m') (ranks m') (ranks m') (temp m');
  rf_rank : ∀ u r, u ∈ vertexMapper_values m → temp0 m u = Some r →
    maxRank (cells m' !!! u) = r ∧ ∃ l, ranks m' !! Z.to_nat r = Some l ∧ u ∈ l;
  rf_edge : ∀ u e i, u ∈ vertexMapper_values m → e ∈ out m u →
    (∃ l, ranks m' !! i = Some l ∧ e ∈ l) ↔ (maxRank (cells m' !!! tgt m e) < Z.of_nat i < maxRank (cells m' !!! u))%Z;
  rf_bends : ∀ u e i, u ∈ vertexMapper_values m → e ∈ out m u → (minRank (cells m' !!! e) < i < maxRank (cells m' !!! e))%Z →
    (0 ≤ i)%Z ∧ ∃ l, ranks m' !! Z.to_nat i = Some l ∧ e ∈ l;
  rf_known : ∀ i l c, ranks m' !! i = Some l → c ∈ l → is_Some (cells m' !! c)
}.

Lemma fixing_start m nodes rk top : (∀ u, u ∈ nodes → temp0 m u = Some (rk u)) →
  (∀ x, maxRank (cells m !!! x) = (-1)%Z ∧ minRank (cells m !!! x) = (-1)%Z) →
  fixing m nodes rk top (set_ranks (replicate (S top) []) m) ∅ ∅.
Proof.
  intros Ht Hf. split; try done.
  - simpl. by rewrite length_replicate.
  - intros u Hu _. destruct (Hf u). split_and!; [done|done|by apply Ht].
  - intros u e _ _. rewrite decide_False by set_solver. apply Hf.
  - intros i r j c Hi Hj. apply lookup_replicate in Hi as [-> _]. done.
  - intros i c [[? _]|[? _]]; set_solver.
Qed.

Lemma fixRanks_run m : fixable m → ∃ m', fixRanks m = Some m' ∧ ranks_fixed m m'.
Proof.
  intros [Hok Hrkd Htop Hreach Hfresh Hsize]. set (nodes := vertexMapper_values m) in *.
  set (rk := λ u, default 0%Z (temp0 m u)). set (top := Z.to_nat (model_maxRank m)).
  assert (∀ u, u ∈ nodes → temp0 m u = Some (rk u) ∧ (0 ≤ rk u ≤ Z.of_nat top)%Z ∧ ∀ e, e ∈ out m u → (rk (tgt m e) < rk u)%Z) as Hrk.
  { intros u Hu. destruct (Hrkd u Hu) as (r & Hr & Hb & He). unfold rk. rewrite Hr. simpl. split_and!; [done|lia|lia|].
    intros e Hue. destruct (He e Hue) as (k & -> & Hk). done. }
  assert (∀ u, u ∈ nodes → (0 ≤ rk u ≤ Z.of_nat top)%Z) as Hrk2 by (intros u Hu; by apply Hrk).
  assert (∀ u e, u ∈ nodes → e ∈ out m u → (rk (tgt m e) < rk u)%Z) as Hdec by (intros u e Hu; by apply Hrk).
  set (m1 := set_ranks (replicate (S top) []) m).
  destruct (walk_roots nodes (cells m) Hok rank_visitor (fixing m nodes rk top)) with (n := dfs_fuel m) (rs := root_nodes m) (i := 0)
    (m := m1) (seen := ∅ : gset nat) (D := ∅ : gset nat) as (m2 & seen & D & E & HF & _ & Hseen & Hfol).
  - intros m' s' D' x HF. destruct (skeleton_fields _ _ x (x_skel _ _ _ _ _ _ _ HF)) as (? & _ & _ & ? & _ & ? & _). done.
  - intros m' s' D' u HF. by apply (x_seen _ _ _ _ _ _ _ HF).
  - intros m' s' D' x HF Hx. destruct (x_D _ _ _ _ _ _ _ HF x Hx) as (u & ? & ? & _). by exists u.
  - intros m' s' D' p e. by apply (fixing_visit m nodes rk top).
  - intros m' s' D' r. by apply (fixing_root m nodes rk top).
  - intros r. apply root_nodes_values.
  - unfold dfs_fuel, nodes, vertexMapper_values. rewrite length_fmap. lia.
  - apply fixing_start; [intros u Hu; by apply Hrk|done].
  - done.
  - set_solver.
  - intros m' s' D' HF. unfold dfs_fuel. by rewrite (proj1 (x_rest _ _ _ _ _ _ _ HF)).
  - assert (∀ u v, u ∈ seen → rtc (follows m) u v → v ∈ seen) as Hclosed.
    { intros u v Hu Huv. induction Huv as [|u w v (e & He & <-) _ IH]; [done|]. apply IH.
      destruct (x_D _ _ _ _ _ _ _ HF e (Hfol u e Hu He)) as (_ & _ & _ & ?). done. }
    assert (∀ u, u ∈ nodes → u ∈ seen) as Hall.
    { intros u Hu. destruct (Hreach u Hu) as (r & Hr & Hru). apply (Hclosed r u); [by apply Hseen|done]. }
    assert (∀ u e, u ∈ nodes → e ∈ out m u → e ∈ D) as Hfol' by (intros u e Hu; by apply Hfol, Hall).
    destruct (fixed_layered m nodes rk top Hok Hrk2 Hdec m2 seen D HF Hall Hfol' Hsize) as [Hlay Harr].
    eexists. split.
    { unfold fixRanks. replace (Z.to_nat (model_maxRank m + 1)) with (S top) by (unfold top; lia). fold m1. unfold visit.
      match goal with |- context [foldl ?f (Some (m1, ∅)) (imap pair (root_nodes m))] =>
        replace (foldl f (Some (m1, ∅)) (imap pair (root_nodes m))) with (Some (m2, seen)) end.
      cbn [mbind option_bind fst snd]. reflexivity. }
    split.
    + apply (x_skel _ _ _ _ _ _ _ HF).
    + apply (x_rest _ _ _ _ _ _ _ HF).
    + apply (x_len _ _ _ _ _ _ _ HF).
    + exact Hlay.
    + exact Harr.
    + intros u r Hu Hr. assert (rk u = r) as <- by (unfold rk; by rewrite Hr).
      split; [by apply (x_placed _ _ _ _ _ _ _ HF), Hall|].
      apply (fixed_in_node _ _ _ _ _ _ _ HF Hall u); [done|]. specialize (Hrk2 u Hu). lia.
    + intros u e i Hu He. destruct (g_out _ _ Hok u e Hu He) as (_ & Hev & _ & Htn & _). cbn [cells ranks set_dfsCount].
      destruct (x_placed _ _ _ _ _ _ _ HF u (Hall u Hu)) as [-> _], (x_placed _ _ _ _ _ _ _ HF _ (Hall _ Htn)) as [-> _]. split.
      * intros (l & Hl & Hel). destruct (fixed_node m nodes rk top Hok m2 seen D HF i l e Hl Hel) as [(_ & Hen & _)|(_ & p & Hp & Hep & Hb)].
        -- destruct (g_node _ _ Hok e Hen). congruence.
        -- assert (p = u) as -> by by apply (own_edge nodes (cells m) Hok p u e). done.
      * by apply (fixed_in_edge m nodes rk top m2 seen D HF Hfol' u).
    + intros u e i Hu He Hi. pose proof (x_edge _ _ _ _ _ _ _ HF u e Hu He) as Hx. cbn [cells ranks set_dfsCount] in *.
      destruct (g_out _ _ Hok u e Hu He) as (_ & _ & _ & Htn & _). pose proof (Hrk2 _ Htn). case_decide; [|lia]. destruct Hx as (E1 & E2 & _).
      split; [lia|]. apply (fixed_in_edge m nodes rk top m2 seen D HF Hfol' u); [done|done|]. rewrite Z2Nat.id by lia. lia.
    + intros i l c Hl Hc. apply (skeleton_fields _ _ c (x_skel _ _ _ _ _ _ _ HF)).
      destruct (fixed_node m nodes rk top Hok m2 seen D HF i l c Hl Hc) as [(_ & Hcn & _)|(_ & u & Hu & Ho & _)]; [by apply (g_node _ _ Hok)|by destruct (g_out _ _ Hok u c Hu Ho)].
Qed.

(** ** The stages one after the other *)

(** A model as the constructor leaves it. *)
Record fresh_hierarchy (m : hmodel) : Prop := {
  fh_ok : hierarchy_ok m;
  fh_nodup : NoDup (vertexMapper_values m);
  fh_max : model_maxRank m = SOURCESCANSTARTRANK;
  fh_temp : ∀ e, isVertex (cells m !!! e) = false → temp0 m e ≠ Some STAMP;
  fh_cells : ∀ x, maxRank (cells m !!! x) = (-1)%Z ∧ minRank (cells m !!! x) = (-1)%Z;
  fh_nodes : (Z.of_nat (length (vertexMapper_values m)) ≤ SOURCESCANSTARTRANK)%Z;
  fh_size : (Z.of_nat (size (cells m)) ≤ 2 ^ 30)%Z
}.

(** In a graph without cycles every node is reached from those without incoming edges. *)
Lemma acyclic_reach m nodes (P : nat → Prop) : graph_ok nodes (cells m) → acyclic nodes (cells m) →
  (∀ u, u ∈ nodes → inn m u = [] → P u) → ∀ u, u ∈ nodes → ∃ r, P r ∧ rtc (follows m) r u.
Proof.
  intros Hok (f & Hb & Hd) HP u. remember (length nodes - f u) as n eqn:Hn. assert (length nodes - f u ≤ n) as Hle by lia. clear Hn.
  revert u Hle. induction n as [|n IH]; intros u Hle Hu; [pose proof (Hb u Hu); lia|].
  destruct (inn m u) as [|e es] eqn:E; [exists u; split; [by apply HP|done]|].
  assert (e ∈ inn m u) as He by (rewrite E; left). destruct (g_in _ _ Hok u e Hu He) as (Ht & Hs & Ho).
  pose proof (Hd _ e Hs Ho) as Hlt. rewrite Ht in Hlt. destruct (IH (src m e)) as (r & Hr & Hru); [pose proof (Hb _ Hs); lia|done|].
  exists r. split; [done|]. eapply rtc_r; [exact Hru|]. by exists e.
Qed.

Lemma rankable_after n m m1 : fresh_hierarchy m → turned (set_dfsCount n m) m1 → graph_ok (vertexMapper_values m) (cells m1) →
  acyclic (vertexMapper_values m) (cells m1) →
  (∀ u, u ∈ vertexMapper_values m → inn m1 u = [] → Some u ∈ root_nodes m) → rankable m1.
Proof.
  intros [Hh Hnd Hmx Htm Hc Hsz _] T Hok Ha Hs.
  destruct (t_rest _ _ T) as (E1 & E2 & E3 & E4 & _). assert (vertexMapper_values m1 = vertexMapper_values m) as En by (unfold vertexMapper_values; by rewrite E2).
  split; rewrite ?En; try done.
  - intros u Hu Hi. unfold root_nodes, vertexMapper_get. rewrite E2, E3. by apply Hs.
  - by rewrite E4.
  - intros u e Hu He. destruct (g_out _ _ Hok u e Hu He) as (_ & Hv & _). destruct (t_cell _ _ T e) as [E _]. rewrite E in Hv.
    unfold temp0. rewrite E1. by apply Htm.
Qed.

Lemma fixable_after n m m1 m2 : fresh_hierarchy m → turned (set_dfsCount n m) m1 → rankable m1 → framed m1 m2 → ranked m2 → (0 ≤ model_maxRank m2)%Z → fixable m2.
Proof.
  intros [Hh Hnd Hmx Htm Hc _ Hsz] T Hk F Hr Htop. destruct F as (Fa & Fv & Fr & _).
  assert (vertexMapper_values m2 = vertexMapper_values m1) as En by (unfold vertexMapper_values; by rewrite Fv).
  assert (root_nodes m2 = root_nodes m1) as Er by (unfold root_nodes, vertexMapper_get; by rewrite Fv, Fr).
  split; rewrite ?En, ?Er; try done.
  - eapply graph_ok_alike, (k_graph _ Hk). by symmetry.
  - intros u Hu. destruct (acyclic_reach m1 _ (λ r, Some r ∈ root_nodes m1) (k_graph _ Hk) (k_acyclic _ Hk) (k_sources _ Hk) u Hu) as (r & Hrr & Hru).
    exists r. split; [done|]. eapply rtc_subrel; [|exact Hru]. intros x y (e & He & <-). exists e.
    destruct (alike_fields _ _ x Fa) as (_ & _ & _ & _ & -> & _). by destruct (alike_fields _ _ e Fa) as (_ & _ & _ & _ & _ & _ & -> & _).
  - intros x. destruct (alike_fields _ _ x Fa) as (_ & -> & -> & _). destruct (t_cell _ _ T x) as (_ & -> & -> & _). apply Hc.
  - etrans; [|exact Hsz]. rewrite <-!size_dom. apply inj_le, subseteq_size. intros x. rewrite !elem_of_dom.
    rewrite (alike_is_Some _ _ x Fa). apply (t_is_Some _ _ T).
Qed.

Lemma stages_run n m : fresh_hierarchy m → rank_fuel m ≤ n → ∃ m1 m2 m3 m4,
  cycleStage m = Some m1 ∧ (turned (set_dfsCount (S (S (dfsCount m))) m) m1 ∧ (acyclic (vertexMapper_values m) (cells m) → cells m1 = cells m)) ∧
  graph_ok (vertexMapper_values m) (cells m1) ∧
  initialRank n m1 = Some m2 ∧ framed m1 m2 ∧ fixable m2 ∧
  fixRanks m2 = Some m3 ∧ ranks_fixed m2 m3 ∧
  crossingStage m3 = Some m4 ∧ (vertexMapper m4 = vertexMapper m3 ∧ model_maxRank m4 = model_maxRank m3) ∧ cells m4 = cells m3 ∧ Forall2 Permutation (ranks m4) (ranks m3) ∧
  (total_crossings (cells m3) (ranks m4) ≤ total_crossings (cells m3) (ranks m3))%Z.
Proof.
  intros Hf Hn. destruct (remove_cycles_run m (fh_ok _ Hf)) as (m1 & E1 & T%(turned_set_dfsCount (S (S (dfsCount m)))) & Hok & Ha & Hs & Hkeep).
  set (m1' := set_dfsCount (S (S (dfsCount m))) m1) in *.
  pose proof (rankable_after _ m m1' Hf T Hok Ha Hs) as Hk.
  destruct (initialRank_run n m1' Hk) as (m2 & E2 & F & Hr & Htop).
  { destruct (t_rest _ _ T) as (_ & Hv & Hro & _). unfold rank_fuel. rewrite Hv, Hro. exact Hn. }
  assert (fixable m2) as Hx by by eapply fixable_after; [..|lia].
  destruct (fixRanks_run m2 Hx) as (m3 & E3 & RF).
  destruct (execute_spec (cells m3) (ranks m3) (rf_layered _ _ RF) (Z.to_nat (model_maxRank m2)) (temp m3) (rf_length _ _ RF) (rf_arranged _ _ RF))
    as (ord & t' & E4 & Hp & Hle).
  exists m1', m2, m3, (set_temp t' (set_ranks ord m3)).
  assert (crossingStage m3 = Some (set_temp t' (set_ranks ord m3))) as E5.
  { unfold crossingStage. destruct (rf_rest _ _ RF) as (_ & _ & ->). rewrite E4. reflexivity. }
  by split_and!.
Qed.

(** The lists of the ranks that the stages leave: those of [fixRanks], each in a new order. *)
Record ranks_laid (m : hmodel) : Prop := {
  rl_layered : layered (cells m) (ranks m);
  rl_length : Z.of_nat (length (ranks m)) = (model_maxRank m + 1)%Z;
  rl_nodes : ∀ u, u ∈ vertexMapper_values m → isVertex (cells m !!! u) = true;
  rl_bends : ∀ u e, u ∈ vertexMapper_values m → e ∈ out m u → isVertex (cells m !!! e) = false ∧
    ∀ i, (minRank (cells m !!! e) < i < maxRank (cells m !!! e))%Z → (0 ≤ i)%Z ∧ ∃ l, ranks m !! Z.to_nat i = Some l ∧ e ∈ l;
  rl_known : ∀ i l c, ranks m !! i = Some l → c ∈ l → is_Some (cells m !! c)
}.

(** Ranks in a new order are well-formed. *)
Lemma layered_permuted cs rs rs' : Forall2 Permutation rs' rs → layered cs rs → layered cs rs'.
Proof.
  intros Hp [L1 L2 L3 L4 L5].
  assert (∀ i r, rs' !! i = Some r → ∃ r0, rs !! i = Some r0 ∧ r ≡ₚ r0) as Hl by (intros i r Hr; by apply (Forall2_lookup_l _ _ _ _ _ Hp Hr)).
  assert (∀ i r, rs !! i = Some r → ∃ r0, rs' !! i = Some r0 ∧ r0 ≡ₚ r) as Hr by (intros i r Hr; by apply (Forall2_lookup_r _ _ _ _ _ Hp Hr)).
  split.
  - intros i r (r0 & H0 & E)%Hl. rewrite E. by eapply L1.
  - intros i j r r' c (r0 & H0 & E0)%Hl (r1 & H1 & E1)%Hl. rewrite E0, E1. by apply L2.
  - intros i r c (r0 & H0 & E0)%Hl. rewrite E0. intros Hc. destruct (L3 i r0 c H0 Hc) as (l & El & Hlb). exists l. split; [done|].
    intros b Hb. destruct (Hlb b Hb) as (r1 & (r2 & H2 & E2)%Hr & Hb1). exists r2. split; [done|]. by rewrite E2.
  - intros i r c (r0 & H0 & E0)%Hl. rewrite E0. intros Hc. destruct (L4 i r0 c H0 Hc) as (l & El & Hlb). exists l. split; [done|].
    intros b Hb. destruct (Hlb b Hb) as (k & r1 & -> & (r2 & H2 & E2)%Hr & Hb1). exists k, r2. split_and!; [done|done|]. by rewrite E2.
  - intros i r (r0 & H0 & E)%Hl. rewrite E. by eapply L5.
Qed.

(** What the stages make of a fresh model [m]. *)
Record staged (m m' : hmodel) : Prop := {
  sg_vertices : vertexMapper m' = vertexMapper m;
  sg_ends : ∀ e, (src m' e = src m e ∧ tgt m' e = tgt m e ∧ isReversed (cells m' !!! e) = isReversed (cells m !!! e)) ∨
                 (src m' e = tgt m e ∧ tgt m' e = src m e ∧ isReversed (cells m' !!! e) = negb (isReversed (cells m !!! e)));
  sg_rank : ∀ u e, u ∈ vertexMapper_values m → e ∈ out m' u →
    src m' e = u ∧ (maxRank (cells m' !!! tgt m' e) < maxRank (cells m' !!! u))%Z;
  sg_list : ∀ u, u ∈ vertexMapper_values m → ∃ l, ranks m' !! Z.to_nat (maxRank (cells m' !!! u)) = Some l ∧ u ∈ l;
  sg_kept : ∀ u e, u ∈ vertexMapper_values m → e ∈ out m u → e ∈ out m' (src m' e);
  sg_laid : ranks_laid m';
  sg_same : ∀ x, (is_Some (cells m' !! x) ↔ is_Some (cells m !! x)) ∧ isVertex (cells m' !!! x) = isVertex (cells m !!! x);
  sg_nonneg : ∀ u, u ∈ vertexMapper_values m → (0 ≤ maxRank (cells m' !!! u))%Z;
  sg_acyclic : acyclic (vertexMapper_values m) (cells m) → ∀ x, out m' x = out m x ∧ isReversed (cells m' !!! x) = isReversed (cells m !!! x)
}.

Lemma stages_ok n m : fresh_hierarchy m → rank_fuel m ≤ n → ∃ m1 m2 m3,
  cycleStage m = Some m1 ∧ layeringStage n m1 = Some m2 ∧ crossingStage m2 = Some m3 ∧ staged m m3 ∧
  Forall2 Permutation (ranks m3) (ranks m2) ∧ (total_crossings (cells m2) (ranks m3) ≤ total_crossings (cells m2) (ranks m2))%Z.
Proof.
  intros Hf Hn. destruct (stages_run n m Hf Hn) as (m1 & m2 & m3 & m4 & E1 & [T Hkeep] & _ & E2 & F & Hx & E3 & RF & E4 & (Ev4 & Em4) & Ec & Hp & Hle).
  pose proof (f_ranked _ Hx) as Hr. destruct (t_rest _ _ T) as (_ & Ev1 & _). pose proof (proj1 (proj2 F)) as Ev2.
  assert (vertexMapper_values m2 = vertexMapper_values m) as En by (unfold vertexMapper_values; by rewrite Ev2, Ev1).
  exists m1, m3, m4. split_and!; [done|unfold layeringStage; by rewrite E2|done| |done|done]. split; rewrite ?Ec.
  - by rewrite Ev4, (proj1 (rf_rest _ _ RF)), Ev2, Ev1.
  - intros e. destruct (skeleton_fields _ _ e (rf_skeleton _ _ RF)) as (_ & _ & _ & _ & -> & -> & ->).
    destruct (alike_fields _ _ e (proj1 F)) as (_ & _ & _ & _ & _ & -> & -> & ->). apply (t_ends _ _ T).
  - intros u e Hu. destruct (skeleton_fields _ _ u (rf_skeleton _ _ RF)) as (_ & _ & _ & -> & _).
    destruct (skeleton_fields _ _ e (rf_skeleton _ _ RF)) as (_ & _ & _ & _ & -> & -> & _). intros He.
    rewrite <-En in Hu. destruct (Hr u Hu) as (r & Hr1 & _ & He1). destruct (He1 e He) as (k & Hk & Hkr).
    destruct (g_out _ _ (f_graph _ Hx) u e Hu He) as (_ & _ & Hs & Htn & _). split; [done|].
    destruct (rf_rank _ _ RF u r Hu Hr1) as [-> _], (rf_rank _ _ RF _ k Htn Hk) as [-> _]. done.
  - intros u Hu. rewrite <-En in Hu. destruct (Hr u Hu) as (r & Hr1 & _). destruct (rf_rank _ _ RF u r Hu Hr1) as (-> & l & Hl & Hul).
    destruct (Forall2_lookup_r _ _ _ _ _ Hp Hl) as (l' & Hl' & Hpl). exists l'. split; [done|]. by rewrite Hpl.
  - intros u e Hu He. destruct (g_out _ _ (h_graph _ (fh_ok _ Hf)) u e Hu He) as (_ & _ & Hs & _).
    pose proof (t_kept _ _ T e) as Hk. cbn [cells set_dfsCount] in Hk. rewrite Hs in Hk. specialize (Hk He).
    destruct (skeleton_fields _ _ e (rf_skeleton _ _ RF)) as (_ & _ & _ & _ & -> & _).
    destruct (alike_fields _ _ e (proj1 F)) as (_ & _ & _ & _ & _ & -> & _).
    destruct (skeleton_fields _ _ (src m1 e) (rf_skeleton _ _ RF)) as (_ & _ & _ & -> & _).
    by destruct (alike_fields _ _ (src m1 e) (proj1 F)) as (_ & _ & _ & _ & -> & _).
  - assert (vertexMapper_values m4 = vertexMapper_values m2) as En4 by (unfold vertexMapper_values; by rewrite Ev4, (proj1 (rf_rest _ _ RF))).
    split; rewrite ?Ec, ?En4.
    + exact (layered_permuted _ _ _ Hp (rf_layered _ _ RF)).
    + rewrite (Forall2_length _ _ _ Hp), (rf_length _ _ RF), Em4, (proj2 (proj2 (rf_rest _ _ RF))). pose proof (f_top _ Hx). lia.
    + intros u Hu. destruct (skeleton_fields _ _ u (rf_skeleton _ _ RF)) as (_ & -> & _). by apply (g_node _ _ (f_graph _ Hx)).
    + intros u e Hu. destruct (skeleton_fields _ _ u (rf_skeleton _ _ RF)) as (_ & _ & _ & -> & _). intros He.
      destruct (g_out _ _ (f_graph _ Hx) u e Hu He) as (_ & Hev & _). destruct (skeleton_fields _ _ e (rf_skeleton _ _ RF)) as (_ & -> & _).
      split; [done|]. intros i Hi. destruct (rf_bends _ _ RF u e i Hu He Hi) as (Hi0 & l & Hl & Hel). split; [done|].
      destruct (Forall2_lookup_r _ _ _ _ _ Hp Hl) as (l' & Hl' & Hpl). exists l'. split; [done|]. by rewrite Hpl.
    + intros i l c Hl. destruct (Forall2_lookup_l _ _ _ _ _ Hp Hl) as (l' & Hl' & Hpl). rewrite Hpl. by apply (rf_known _ _ RF i l' c).
  - intros x. destruct (skeleton_fields _ _ x (rf_skeleton _ _ RF)) as (-> & -> & _). rewrite (alike_is_Some _ _ x (proj1 F)).
    destruct (alike_fields _ _ x (proj1 F)) as (-> & _). split; [apply (t_is_Some _ _ T)|apply (t_cell _ _ T x)].
  - intros u Hu. rewrite <-En in Hu. destruct (Hr u Hu) as (r & Hr1 & Hr2 & _). destruct (rf_rank _ _ RF u r Hu Hr1) as (-> & _). lia.
  - intros Ha x. specialize (Hkeep Ha). destruct (skeleton_fields _ _ x (rf_skeleton _ _ RF)) as (_ & _ & _ & -> & _ & _ & ->).
    destruct (alike_fields _ _ x (proj1 F)) as (_ & _ & _ & _ & -> & _ & _ & ->). by rewrite Hkeep.
Qed.

(** ** The theorems *)

(** C15: [fixRanks] ends without error on every ranked model and builds lists of ranks that are
    well-formed for the crossing reduction: every node is in the list of its rank, an edge is
    in exactly the lists of the ranks strictly between its ends, no list holds a cell twice,
    neighbours of a cell are in the neighbouring lists, and [temp] has the position of every
    cell in its list. *)
Theorem fixRanks_layers m : fixable m → ∃ m', fixRanks m = Some m' ∧ ranks_fixed m m'.
Proof. apply fixRanks_run. Qed.

(** Edges from the first node to the second and the third, and from the second to the third:
    an edge passes a rank. *)
Definition triangle : hmodel :=
  HModel (list_to_map [(1, fresh [] [10; 12]); (2, fresh [10] [11]); (3, fresh [11; 12] []);
                       (10, edge 1 2); (11, edge 2 3); (12, edge 1 3)])
         (list_to_map [((1, 0%Z), 2%Z); ((2, 0%Z), 1%Z); ((3, 0%Z), 0%Z)]) ∅ [(21, 1); (22, 2); (23, 3)] [21] 2 [] 0.

Lemma all_fresh (cs : gmap nat hcell) :
  bool_decide (map_Forall (λ _ c, maxRank c = (-1)%Z ∧ minRank c = (-1)%Z) cs) = true →
  ∀ x, maxRank (cs !!! x) = (-1)%Z ∧ minRank (cs !!! x) = (-1)%Z.
Proof.
  intros H%bool_decide_eq_true x. rewrite lookup_total_alt. destruct (cs !! x) as [c|] eqn:E; [|done]. exact (H x c E).
Qed.

Lemma triangle_fixable : fixable triangle.
Proof.
  assert (∀ u, u ∈ vertexMapper_values triangle → u = 1 ∨ u = 2 ∨ u = 3) as Hn.
  { change (vertexMapper_values triangle) with [1; 2; 3]. intros u. rewrite !elem_of_cons, elem_of_nil. tauto. }
  split.
  - by apply graph_check_ok.
  - intros u [->|[->| ->]]%Hn; eexists; (split; [vm_compute; reflexivity|split; [vm_compute; split; discriminate|]]);
      vm_compute (connectsAsSource _); intros e; rewrite ?elem_of_cons, elem_of_nil.
    + intros [->|[->|[]]]; eexists; (split; [vm_compute; reflexivity|lia]).
    + intros [->|[]]; eexists; (split; [vm_compute; reflexivity|lia]).
    + intros [].
  - done.
  - change (root_nodes triangle) with [Some 1]. intros u Hu. exists 1. split; [left|].
    destruct (Hn u Hu) as [->|[->| ->]]; [done|apply rtc_once; exists 10|apply rtc_once; exists 12]; (split; [|done]).
    + vm_compute (connectsAsSource _). left.
    + vm_compute (connectsAsSource _). right. left.
  - by apply all_fresh.
  - by vm_compute.
Qed.

Lemma fixRanks_layers_witness : fixable triangle ∧ (∃ m', fixRanks triangle = Some m' ∧ layered (cells m') (ranks m')) ∧
  (ranks <$> fixRanks triangle) = Some [[3]; [2; 12]; [1]].
Proof.
  split; [exact triangle_fixable|]. split; [|vm_compute; reflexivity].
  destruct (fixRanks_layers triangle triangle_fixable) as (m' & E & RF). exists m'. split; [exact E|]. apply (rf_layered _ _ RF).
Defined.

(** C10: On a fresh model the stages of the layout run one after the other without error: edges
    keep their ends or are turned round and marked as reversed, every edge leads to a node of
    a lower rank, every node stays in the list of its rank, and the last stage permutes the
    lists without adding a crossing. *)
Theorem layout_stages m : fresh_hierarchy m → ∃ m1 m2 m3,
  cycleStage m = Some m1 ∧ layeringStage (rank_fuel m) m1 = Some m2 ∧ crossingStage m2 = Some m3 ∧
  (∀ e, (source (cells m3 !!! e) = source (cells m !!! e) ∧ target (cells m3 !!! e) = target (cells m !!! e) ∧
           isReversed (cells m3 !!! e) = isReversed (cells m !!! e)) ∨
        (source (cells m3 !!! e) = target (cells m !!! e) ∧ target (cells m3 !!! e) = source (cells m !!! e) ∧
           isReversed (cells m3 !!! e) = negb (isReversed (cells m !!! e)))) ∧
  (∀ u e, u ∈ vertexMapper_values m → e ∈ connectsAsSource (cells m3 !!! u) →
     source (cells m3 !!! e) = u ∧ (maxRank (cells m3 !!! target (cells m3 !!! e)) < maxRank (cells m3 !!! u))%Z) ∧
  (∀ u, u ∈ vertexMapper_values m → ∃ l, ranks m3 !! Z.to_nat (maxRank (cells m3 !!! u)) = Some l ∧ u ∈ l) ∧
  Forall2 Permutation (ranks m3) (ranks m2) ∧
  (total_crossings (cells m2) (ranks m3) ≤ total_crossings (cells m2) (ranks m2))%Z.
Proof.
  intros Hf. destruct (stages_ok (rank_fuel m) m Hf) as (m1 & m2 & m3 & E1 & E2 & E3 & [_ He Hr Hl _] & Hp & Hle); [done|].
  by exists m1, m2, m3.
Qed.

Lemma ring_fresh : fresh_hierarchy ring.
Proof.
  split; [by apply four_ok|by apply (bool_decide_unpack _)|done| |by apply all_fresh|by vm_compute|by vm_compute].
  intros e _. assert (temp ring = ∅) as E by done. unfold temp0. by rewrite E, lookup_empty.
Qed.

Lemma layout_stages_witness : fresh_hierarchy ring ∧
  (∃ m1 m2 m3, cycleStage ring = Some m1 ∧ layeringStage (rank_fuel ring) m1 = Some m2 ∧ crossingStage m2 = Some m3) ∧
  (m1 ← cycleStage ring; m2 ← layeringStage 49 m1; m3 ← crossingStage m2; Some (ranks m3)) = Some [[3]; [12; 2]; [1; 4]].
Proof.
  split; [exact ring_fresh|]. split; [|vm_compute; reflexivity].
  destruct (layout_stages ring ring_fresh) as (m1 & m2 & m3 & E1 & E2 & E3 & _). by exists m1, m2, m3.
Defined.

End HierarchyStages.
