(* ===== verification/Layout.v ===== *)
(** * From a graph to hierarchies

    Before its stages run, mxHierarchicalLayout splits the visible graph into hierarchies that
    are not connected (findRoots, traverse, run), and the constructor of mxGraphHierarchyModel
    makes the internal nodes and edges of each: one internal edge for all edges between two
    vertices, in the direction of at least half of them. *)

From S2P Require Import Prelude Crossings Hierarchy.
Import Crossings Hierarchy.
#[local] Open Scope nat_scope.

Module Layout.

(** What the layout asks the graph: the edges of a vertex it takes into account, their visible
    terminals ([None] is null), and the flags of a cell. The caches of the layout only repeat
    these answers. *)
Record lgraph := LGraph {
  getEdges : nat → list nat;
  getVisibleTerminal : nat → bool → option nat;
  isVertexCell : nat → bool;
  isCellVisible : nat → bool
}.

Section Graph.
Context (g : lgraph).

Definition isVertexIgnored (v : nat) : bool := negb (isVertexCell g v) || negb (isCellVisible g v).

Definition getEdgesBetween (source target : nat) (directed : bool) : list nat :=
  filter (λ e, (getVisibleTerminal g e true = Some source ∧ getVisibleTerminal g e false = Some target) ∨
               (directed = false ∧ getVisibleTerminal g e true = Some target ∧ getVisibleTerminal g e false = Some source))
         (getEdges g source).

(** ** Internal cells *)

(** The model under construction: the next free reference (0 is null), [edgeMapper], and the
    array [edges] of every internal edge. *)
Record builder := Builder {
  model : hmodel;
  next : nat;
  edgeMapper : gmap nat nat;
  realEdges : gmap nat (list nat)
}.
Definition set_model (m : hmodel) (b : builder) : builder := Builder m (next b) (edgeMapper b) (realEdges b).
Definition on_model (f : hmodel → hmodel) (b : builder) : builder := set_model (f (model b)) b.

Definition set_vertexMapper (l : list (nat * nat)) (m : hmodel) : hmodel :=
  HModel (cells m) (temp m) (hashCode m) l (roots m) (model_maxRank m) (ranks m) (dfsCount m).

(** [put] of a dictionary keeps the place of a key that is there. *)
Definition dictionary_put (k v : nat) (l : list (nat * nat)) : list (nat * nat) :=
  match list_find (λ p, p.1 = k) l with
  | Some (i, _) => <[i := (k, v)]> l
  | None => l ++ [(k, v)]
  end.

Definition new_node : hcell := HCell true (-1) (-1) [] [] 0 0 false 0.
Definition new_edge : hcell := HCell false (-1) (-1) [] [] 0 0 false 0.
Definition with_source (n : nat) (c : hcell) : hcell :=
  HCell (isVertex c) (maxRank c) (minRank c) (connectsAsTarget c) (connectsAsSource c) n (target c) (isReversed c) (temp_length c).
Definition with_target (n : nat) (c : hcell) : hcell :=
  HCell (isVertex c) (maxRank c) (minRank c) (connectsAsTarget c) (connectsAsSource c) (source c) n (isReversed c) (temp_length c).

Definition allocate (c : hcell) (b : builder) : builder :=
  Builder (set_cells (<[next b := c]> (cells (model b))) (model b)) (S (next b)) (edgeMapper b) (realEdges b).

(** [push] unless the array holds the cell. *)
Definition push_new (e : nat) (l : list nat) : list nat := if decide (e ∈ l) then l else l ++ [e].
Definition push_source (e : nat) (c : hcell) : hcell := with_connects (connectsAsTarget c) (push_new e (connectsAsSource c)) c.
Definition push_target (e : nat) (c : hcell) : hcell := with_connects (push_new e (connectsAsTarget c)) (connectsAsSource c) c.

(** The internal edge of node [n] of [v] for the edges between [v] and the target of [conn].
    The real edges are also reset and get a plain style, which the model leaves out. *)
Definition internal_edge (v n conn : nat) (b : builder) : builder :=
  match getVisibleTerminal g conn false with
  | Some cell =>
      if decide (cell ≠ v ∧ isVertexCell g cell = true ∧ isVertexIgnored cell = false) then
        let undirectedEdges := getEdgesBetween v cell false in
        let directedEdges := getEdgesBetween v cell true in
        match undirectedEdges with
        | [] => b
        | e0 :: _ =>
            if decide (edgeMapper b !! e0 = None ∧ length undirectedEdges ≤ length directedEdges * 2) then
              let e := next b in
              let b := allocate new_edge b in
              let b := Builder (model b) (next b) (foldl (λ em r, <[r := e]> em) (edgeMapper b) undirectedEdges)
                               (<[e := undirectedEdges]> (realEdges b)) in
              let b := on_model (update e (with_source n)) b in
              on_model (update n (push_source e)) b
            else b
        end
      else b
  | None => b
  end.

Definition create_vertex (b : builder) (v : nat) : builder :=
  let n := next b in
  let b := allocate new_node b in
  let b := on_model (λ m, set_vertexMapper (dictionary_put v n (vertexMapper m)) m) b in
  let b := foldl (λ b conn, internal_edge v n conn b) b (getEdges g v) in
  on_model (write_temp n 0 0) b.

(** [createInternalCells]; the array [internalVertices] holds the nodes in the order of the
    vertices. *)
Definition createInternalCells (vertices : list nat) (b : builder) : builder * list nat :=
  foldl (λ acc v, (create_vertex acc.1 v, acc.2 ++ [next acc.1])) (b, []) vertices.

(** The internal target of an edge of node [n], found through the first real edge. *)
Definition internal_target (n : nat) (b : builder) (e : nat) : builder :=
  match realEdges b !! e with
  | Some (realEdge :: _) =>
      let get := λ c : option nat, c ≫= vertexMapper_get (model b) in
      let t := get (getVisibleTerminal g realEdge false) in
      let t := if decide (t = Some n) then get (getVisibleTerminal g realEdge true) else t in
      match t with
      | Some t =>
          if decide (t ≠ n) then on_model (update t (push_target e)) (on_model (update e (with_target t)) b) else b
      | None => b
      end
  | _ => b
  end.

Definition connect_vertex (b : builder) (n : nat) : builder :=
  let b := foldl (internal_target n) b (connectsAsSource (cells (model b) !!! n)) in
  on_model (write_temp n 0 1) b.

(** [new mxGraphHierarchyModel(layout, vertices, roots, ...)] *)
Definition build_hierarchy (vertices roots : list nat) : builder :=
  let b := Builder (HModel ∅ ∅ ∅ [] roots SOURCESCANSTARTRANK [] 0) 1 ∅ ∅ in
  let '(b, internalVertices) := createInternalCells vertices b in
  foldl connect_vertex b internalVertices.
Definition new_hierarchy (vertices roots : list nat) : hmodel := model (build_hierarchy vertices roots).

(** [edgeMapper.getValues()]: the internal edge of every real edge, in the order in which the
    real edges were put, which is that of the internal edges. *)
Definition edgeMapper_values (b : builder) : list nat := concat (map (λ e, map (λ _, e) (realEdges b !!! e)) (seq 1 (next b))).
(** [cell.edges.length] *)
Definition edge_count (b : builder) (e : nat) : Z := Z.of_nat (length (realEdges b !!! e)).

(** ** Splitting the graph *)

Definition fanOut (cell : nat) : nat := length (filter (λ e, getVisibleTerminal g e true = Some cell) (getEdges g cell)).
Definition fanIn (cell : nat) : nat := length (filter (λ e, getVisibleTerminal g e true ≠ Some cell) (getEdges g cell)).

Definition root_step (acc : list nat * option nat * Z) (cell : nat) : list nat * option nat * Z :=
  let '(roots, best, maxDiff) := acc in
  if isVertexCell g cell && isCellVisible g cell then
    let roots := if decide (fanIn cell = 0 ∧ 0 < fanOut cell) then roots ++ [cell] else roots in
    let diff := (Z.of_nat (fanOut cell) - Z.of_nat (fanIn cell))%Z in
    if decide (maxDiff < diff)%Z then (roots, Some cell, diff) else (roots, best, maxDiff)
  else acc.

(** [findRoots(parent, vertices)] for a parent that is there. *)
Definition findRoots (vertices : list nat) : list nat :=
  let '(roots, best, _) := foldl root_step ([], None, (-100000)%Z) vertices in
  match roots, best with
  | [], Some best => [best]
  | _, _ => roots
  end.

(** The state of the traversal: the vertices seen, the components (objects of vertices, by
    reference, with their keys in the order they were set), the array of components, and the
    vertices still to be laid out, [None] for null. *)
Record tstate := TState {
  allVertices : gset nat;
  comps : gmap nat (list nat);
  hierarchyVertices : list nat;
  filledVertexSet : option (list nat)
}.

(** How many more edges go from the vertex to [next] than back, for the edge at index [i]. *)
Definition netCount (edgeIsSource : nat → bool) (es : list nat) (i : nat) (next : option nat) : Z :=
  foldl (λ n je,
    if decide (je.1 = i) then n
    else if decide (getVisibleTerminal g je.2 (negb (edgeIsSource je.2)) = next)
         then if edgeIsSource je.2 then n + 1 else n - 1
         else n)%Z 1%Z (imap pair es).

Definition visit_vertex (v cur : nat) (st : tstate) : tstate :=
  TState ({[v]} ∪ allVertices st) (alter (push_new v) cur (comps st)) (hierarchyVertices st)
         ((λ l, filter (.≠ v) l) <$> filledVertexSet st).

(** Adds a component to the current one and takes it off the array. *)
Definition merge_comps (v cur : nat) (st : tstate) : tstate :=
  match list_find (λ c, v ∈ comps st !!! c) (hierarchyVertices st) with
  | Some (i, c) =>
      TState (allVertices st) (alter (λ l, foldl (λ l x, push_new x l) l (comps st !!! c)) cur (comps st))
             (delete i (hierarchyVertices st)) (filledVertexSet st)
  | None => st
  end.

(** [traverse]; it returns the component it was given. [None] is fuel used up. *)
Fixpoint traverse (n : nat) (directed : bool) (vertex : option nat) (cur : nat) (st : tstate) : option tstate :=
  match n with
  | 0 => None
  | S n =>
      match vertex with
      | None => Some st
      | Some v =>
          if bool_decide (v ∉ allVertices st) && match filledVertexSet st with None => true | Some l => bool_decide (v ∈ l) end then
            let es := getEdges g v in
            let edgeIsSource := λ e, bool_decide (getVisibleTerminal g e true = Some v) in
            foldl (λ st ie, st ← st;
              if negb directed || edgeIsSource ie.2 then
                let next := getVisibleTerminal g ie.2 (negb (edgeIsSource ie.2)) in
                if decide (0 ≤ netCount edgeIsSource es ie.1 next)%Z then traverse n directed next cur st else Some st
              else Some st) (Some (visit_vertex v cur st)) (imap pair es)
          else if decide (v ∈ comps st !!! cur) then Some st else Some (merge_comps v cur st)
      end
  end.

(** A new component for a root, and the traversal from there. *)
Definition traverse_root (n : nat) (st : tstate) (r : nat) : option tstate :=
  let cur := size (comps st) in
  traverse n true (Some r) cur
    (TState (allVertices st) (<[cur := []]> (comps st)) (hierarchyVertices st ++ [cur]) (filledVertexSet st)).

Definition traverse_roots (n : nat) (rs : list nat) (st : tstate) : option tstate :=
  foldl (λ st r, st ← st; traverse_root n st r) (Some st) rs.

(** The loop while vertices are left; [None] is a loop that does not end. *)
Fixpoint fill_loop (k n : nat) (roots : list nat) (st : tstate) : option (list nat * tstate) :=
  match filledVertexSet st with
  | Some ((_ :: _) as vertices) =>
      match k with
      | 0 => None
      | S k =>
          let candidateRoots := findRoots vertices in
          st ← traverse_roots n candidateRoots st;
          fill_loop k n (roots ++ candidateRoots) st
      end
  | _ => Some (roots, st)
  end.

(** The split of [run]: from given roots, or from the vertices [filterDescendants] found.
    The result are the roots and the vertices of each hierarchy. *)
Definition split_hierarchies (n : nat) (given : option (list nat)) (descendants : list nat) : option (list nat * list (list nat)) :=
  let start := TState ∅ ∅ [] in
  r ← match given with
      | None => fill_loop n n [] (start (Some descendants))
      | Some rs => st ← traverse_roots n rs (start None); Some (rs, st)
      end;
  Some (r.1, (λ c, comps r.2 !!! c) <$> hierarchyVertices r.2).

(** [run] up to the crossing reduction, for every hierarchy; [n] bounds the rounds of the
    ranks. *)
Definition lay_out (n : nat) (vertices roots : list nat) : option hmodel :=
  m ← cycleStage (new_hierarchy vertices roots);
  m ← layeringStage n m;
  crossingStage m.

Definition run (n k : nat) (given : option (list nat)) (descendants : list nat) : option (list hmodel) :=
  r ← split_hierarchies n given descendants;
  mapM (λ vs, lay_out k vs r.1) r.2.

End Graph.
End Layout.
