(* ===== verification/LayoutBuild.v ===== *)
(** * The constructor of a hierarchy

    The constructor makes one node per vertex and one edge for every two vertices that are
    connected, from the vertex with at least as many edges to the other; in case of a tie from
    the one that comes first. The result is a model on which the stages run. *)

From S2P Require Import Prelude Crossings Hierarchy HierarchyCycles HierarchyStages Layout.
Import Crossings Hierarchy HierarchyCycles HierarchyStages Layout.
#[local] Open Scope nat_scope.

Module LayoutBuild.

Section Build.
Context (g : lgraph).

Abbreviation between x y := (getEdgesBetween g x y false).
Abbreviation directed x y := (getEdgesBetween g x y true).

Definition accepted (v : nat) : Prop := isVertexCell g v = true ∧ isVertexIgnored g v = false.

(** There are edges from [x] to [y], at least as many as back. *)
Definition joins (x y : nat) : Prop :=
  x ≠ y ∧ accepted y ∧ directed x y ≠ [] ∧ length (between x y) ≤ length (directed x y) * 2.

#[global] Instance joins_dec x y : Decision (joins x y).
Proof. unfold joins, accepted. apply _. Defined.

(** The edges between two vertices are the same from both sides. *)
Definition symmetric (vertices : list nat) : Prop :=
  ∀ x y, x ∈ vertices → y ∈ vertices → x ≠ y → between x y ≡ₚ between y x.

Lemma elem_of_between x y r : r ∈ between x y ↔ r ∈ getEdges g x ∧
  ((getVisibleTerminal g r true = Some x ∧ getVisibleTerminal g r false = Some y) ∨
   (getVisibleTerminal g r true = Some y ∧ getVisibleTerminal g r false = Some x)).
Proof. unfold getEdgesBetween. rewrite list_elem_of_filter. naive_solver. Qed.

Lemma elem_of_directed x y r : r ∈ directed x y ↔ r ∈ getEdges g x ∧
  getVisibleTerminal g r true = Some x ∧ getVisibleTerminal g r false = Some y.
Proof. unfold getEdgesBetween. rewrite list_elem_of_filter. naive_solver. Qed.

Lemma between_same x y x' y' r : r ∈ between x y → r ∈ between x' y' → (x = x' ∧ y = y') ∨ (x = y' ∧ y = x').
Proof. rewrite !elem_of_between. naive_solver. Qed.

Lemma joins_between x y : joins x y → ∃ r0 rs, between x y = r0 :: rs.
Proof.
  intros (_ & _ & Hd & _). destruct (directed x y) as [|r l] eqn:E; [done|].
  assert (r ∈ between x y) as H.
  { assert (r ∈ directed x y) as Hr by (rewrite E; left). apply elem_of_between. apply elem_of_directed in Hr as (? & ? & ?). auto. }
  destruct (between x y) as [|r0 rs]; [by apply not_elem_of_nil in H|eauto].
Qed.

(** ** Making nodes and edges *)

(** The internal edges made so far: their vertices and their reference. *)
Abbreviation made_edges := (list (nat * nat * nat)).
Definition outs (M : made_edges) (v : nat) : list nat := snd <$> filter (λ p, p.1.1 = v) M.
Definition pair_in (M : made_edges) (x y : nat) : Prop := ∃ e, (x, y, e) ∈ M.

Definition node_cell (T S : list nat) (len : Z) : hcell := HCell true (-1) (-1) T S 0 0 false len.
Definition edge_cell (s t : nat) : hcell := HCell false (-1) (-1) [] [] s t false 0.

Context (vertices : list nat) (Hsym : symmetric vertices).
Context (Hclosed : ∀ x y, x ∈ vertices → joins x y → y ∈ vertices).
Context (rs : list nat).

Record built (b : builder) (P : list (nat * nat)) (M : made_edges) : Prop := {
  b_rest : hashCode (model b) = ∅ ∧ vertexMapper (model b) = P ∧ roots (model b) = rs ∧
           model_maxRank (model b) = SOURCESCANSTARTRANK ∧ dfsCount (model b) = 0;
  b_next : next b = 1 + length P + length M;
  b_known : ∀ x, is_Some (cells (model b) !! x) ↔ x ∈ P.*2 ∨ x ∈ M.*2;
  b_range : ∀ x, is_Some (cells (model b) !! x) → 0 < x < next b;
  b_node : ∀ v n, (v, n) ∈ P → ∃ len, cells (model b) !! n = Some (node_cell [] (outs M v) len);
  b_edge : ∀ x y e, (x, y, e) ∈ M → ∃ n, (x, n) ∈ P ∧ cells (model b) !! e = Some (edge_cell n 0) ∧
             realEdges b !! e = Some (between x y);
  b_mapped : ∀ r, is_Some (edgeMapper b !! r) ↔ ∃ x y, pair_in M x y ∧ r ∈ between x y;
  b_distinct : NoDup P.*1 ∧ NoDup P.*2 ∧ NoDup M.*2;
  b_vertices : ∀ v, v ∈ P.*1 → v ∈ vertices;
  b_joins : ∀ x y e, (x, y, e) ∈ M → joins x y;
  b_once : ∀ x y e e', (x, y, e) ∈ M → (x, y, e') ∈ M → e = e';
  b_oneway : ∀ x y, pair_in M x y → ¬ pair_in M y x;
  b_temp : ∀ x i, x ∈ M.*2 → temp (model b) !! (x, i) = None;
  b_stale : ∀ x i, next b ≤ x → temp (model b) !! (x, i) = None;
  b_real : ∀ e, is_Some (realEdges b !! e) → e ∈ M.*2
}.

(** Whether the first real edge has an internal edge already. *)
Lemma built_mapped b P M x y r0 l : built b P M → x ∈ vertices → y ∈ vertices → x ≠ y → between x y = r0 :: l →
  edgeMapper b !! r0 = None ↔ ¬ pair_in M x y ∧ ¬ pair_in M y x.
Proof.
  intros HB Hx Hy Hxy E. assert (r0 ∈ between x y) as H1 by (rewrite E; left).
  assert (r0 ∈ between y x) as H2 by by rewrite <-(Hsym x y).
  rewrite eq_None_not_Some, (b_mapped _ _ _ HB). split.
  - intros H. split; intros Hp; apply H; eauto.
  - intros [Ha Hb] (x' & y' & Hp & Hr). by destruct (between_same _ _ _ _ _ H1 Hr) as [[-> ->]|[-> ->]].
Qed.

Lemma foldl_insert_is_Some (l : list nat) (e : nat) (em : gmap nat nat) r :
  is_Some (foldl (λ em r, <[r := e]> em) em l !! r) ↔ r ∈ l ∨ is_Some (em !! r).
Proof.
  revert em. induction l as [|x l IH]; intros em; simpl; [rewrite elem_of_nil; tauto|].
  rewrite IH, elem_of_cons, lookup_insert_is_Some. destruct (decide (x = r)) as [->|]; naive_solver.
Qed.

Lemma outs_app M v x y e : outs (M ++ [(x, y, e)]) v = if decide (x = v) then outs M v ++ [e] else outs M v.
Proof.
  unfold outs. rewrite filter_app, fmap_app. unfold filter at 2. simpl. case_decide; simpl; [done|by rewrite app_nil_r].
Qed.

Lemma elem_of_outs M v e : e ∈ outs M v ↔ ∃ y, (v, y, e) ∈ M.
Proof.
  unfold outs. rewrite list_elem_of_fmap. split.
  - intros ([[x y] e'] & -> & [<- H]%list_elem_of_filter). by exists y.
  - intros [y H]. exists (v, y, e). split; [done|]. apply list_elem_of_filter. done.
Qed.

Lemma pair_in_app M x y e a b : pair_in (M ++ [(x, y, e)]) a b ↔ pair_in M a b ∨ (a = x ∧ b = y).
Proof.
  unfold pair_in. setoid_rewrite elem_of_app. setoid_rewrite list_elem_of_singleton. naive_solver.
Qed.

Lemma push_new_fresh e l : e ∉ l → push_new e l = l ++ [e].
Proof. intros H. unfold push_new. by rewrite decide_False. Qed.

(** The builder after an internal edge was made. *)
Definition with_edge (v n y : nat) (b : builder) : builder :=
  let e := next b in
  let b := allocate new_edge b in
  let b := Builder (model b) (next b) (foldl (λ em r, <[r := e]> em) (edgeMapper b) (between v y))
                   (<[e := between v y]> (realEdges b)) in
  on_model (update n (push_source e)) (on_model (update e (with_source n)) b).

Lemma built_fresh b P M x : built b P M → x ∈ P.*2 ∨ x ∈ M.*2 → 0 < x < next b.
Proof. intros HB H. by apply (b_range _ _ _ HB), (b_known _ _ _ HB). Qed.

Lemma fmap_pair {A B} (l : list (A * B)) a b : (a, b) ∈ l → a ∈ l.*1 ∧ b ∈ l.*2.
Proof. intros H. split; [apply (list_elem_of_fmap_2 fst _ _ H)|apply (list_elem_of_fmap_2 snd _ _ H)]. Qed.

Lemma with_edge_cells b P M v n y len : built b P M → (v, n) ∈ P → cells (model b) !! n = Some (node_cell [] (outs M v) len) →
  cells (model (with_edge v n y b)) = <[n := node_cell [] (outs M v ++ [next b]) len]> (<[next b := edge_cell n 0]> (cells (model b))).
Proof.
  intros HB Hn Hc. assert (n < next b) as Hlt by (apply (built_fresh _ _ _ _ HB); left; by apply (fmap_pair P v n)).
  simpl. apply map_eq. intros x. destruct (decide (x = n)) as [->|Hxn].
  - rewrite lookup_alter_eq, lookup_insert_eq, lookup_alter_ne, lookup_insert_ne by lia. rewrite Hc. simpl.
    unfold push_source, node_cell. simpl. rewrite push_new_fresh; [done|]. intros (y' & H%fmap_pair)%elem_of_outs.
    pose proof (built_fresh _ _ _ (next b) HB (or_intror (proj2 H))). lia.
  - rewrite lookup_alter_ne, lookup_insert_ne by done. destruct (decide (x = next b)) as [->|Hxe].
    + by rewrite lookup_alter_eq, !lookup_insert_eq.
    + by rewrite lookup_alter_ne, !lookup_insert_ne by done.
Qed.

Lemma built_with_edge b P M v n y : built b P M → (v, n) ∈ P → joins v y → ¬ pair_in M v y → ¬ pair_in M y v →
  built (with_edge v n y b) P (M ++ [(v, y, next b)]).
Proof.
  intros HB Hn Hj Hp1 Hp2. destruct (b_node _ _ _ HB v n Hn) as [len Hc].
  pose proof (with_edge_cells b P M v n y len HB Hn Hc) as Ec.
  assert (∀ x, x ∈ P.*2 ∨ x ∈ M.*2 → 0 < x < next b) as Hold by (intros x; apply (built_fresh _ _ _ _ HB)).
  destruct HB as [Re Ne Kn Ra No Ed Ma (D1 & D2 & D3) Ve Jo On Ow Te St Rl]. split; try done.
  - simpl. rewrite Ne, length_app. simpl. lia.
  - intros x. rewrite Ec, !lookup_insert_is_Some, Kn, fmap_app, elem_of_app. simpl. rewrite list_elem_of_singleton.
    destruct (decide (n = x)) as [<-|Hx1]; [split; [intros _; left; by apply (fmap_pair P v n)|by left]|].
    destruct (decide (next b = x)) as [<-|Hx2]; [split; [auto|right; split; [done|by left]]|]. naive_solver.
  - intros x. rewrite Ec, !lookup_insert_is_Some. simpl. intros [<-|[_ [<-|[_ H]]]].
    + pose proof (Hold n (or_introl (proj2 (fmap_pair P v n Hn)))). lia.
    + lia.
    + pose proof (Ra x H). lia.
  - intros v' n' Hn'. rewrite Ec, outs_app. destruct (decide (n' = n)) as [->|Hnn].
    + assert (v' = v) as ->.
      { apply list_elem_of_lookup in Hn as [i Hi], Hn' as [j Hj']. assert (i = j) as ->; [|congruence].
        eapply (NoDup_lookup P.*2); [done|by rewrite list_lookup_fmap, Hi|by rewrite list_lookup_fmap, Hj']. }
      rewrite lookup_insert_eq, decide_True by done. by eexists.
    + pose proof (Hold n' (or_introl (proj2 (fmap_pair P v' n' Hn')))). rewrite !lookup_insert_ne by lia.
      destruct (No v' n' Hn') as [len' Hc']. exists len'. rewrite Hc', decide_False; [done|]. intros ->. apply Hnn.
      apply list_elem_of_lookup in Hn as [i Hi], Hn' as [j Hj']. assert (i = j) as ->; [|congruence].
      eapply (NoDup_lookup P.*1); [done|by rewrite list_lookup_fmap, Hi|by rewrite list_lookup_fmap, Hj'].
  - intros x y' e [He|[= -> -> ->]%list_elem_of_singleton]%elem_of_app.
    + destruct (Ed x y' e He) as (nx & H1 & H2 & H3). exists nx. pose proof (Hold e (or_intror (proj2 (fmap_pair M (x, y') e He)))) as Hlt.
      split; [done|]. rewrite Ec. simpl. rewrite !lookup_insert_ne; [done|lia|lia|].
      intros ->. rewrite Hc in H2. done.
    + exists n. split; [done|]. rewrite Ec. simpl. rewrite lookup_insert_eq. split; [|done].
      pose proof (Hold n (or_introl (proj2 (fmap_pair P v n Hn)))). rewrite lookup_insert_ne by lia. apply lookup_insert_eq.
  - intros r. simpl. rewrite foldl_insert_is_Some, Ma. setoid_rewrite pair_in_app. split.
    + intros [Hr|(x & y' & Hp & Hr)]; [exists v, y; auto|exists x, y'; auto].
    + intros (x & y' & [Hp|[-> ->]] & Hr); [right; by exists x, y'|by left].
  - split_and!; [done|done|]. rewrite fmap_app. simpl. apply NoDup_app. split_and!; [done| |apply NoDup_singleton].
    intros x Hx ->%list_elem_of_singleton. pose proof (Hold (next b) (or_intror Hx)). lia.
  - intros x y' e [He|[= -> -> ->]%list_elem_of_singleton]%elem_of_app; [by eapply Jo|done].
  - intros x y' e e'. rewrite !elem_of_app, !list_elem_of_singleton. intros [H1|H1] [H2|H2]; simplify_eq; try done.
    + by eapply On.
    + destruct Hp1. by exists e.
    + destruct Hp1. by exists e'.
  - intros x y'. rewrite !pair_in_app. intros [H1|[-> ->]] [H2|[E1 E2]]; subst; try done; [by eapply Ow|].
    destruct Hj as [Hj _]. done.
  - intros x i. rewrite fmap_app, elem_of_app. simpl. rewrite list_elem_of_singleton. intros [H| ->]; [by apply Te|by apply St].
  - intros x i Hx. simpl in Hx. apply St. lia.
  - intros e. simpl. rewrite lookup_insert_is_Some, fmap_app, elem_of_app. simpl. intros [<-|[_ He]]; [by right; left|left; by apply Rl].
Qed.

(** *** One vertex *)

(** At most [k] edges of [v] were added, none of them to a vertex with an edge to [v]. *)
Definition extends (v k : nat) (M M' : made_edges) : Prop :=
  ∃ new, M' = M ++ new ∧ length new ≤ k ∧ ∀ x y e, (x, y, e) ∈ new → x = v ∧ ¬ pair_in M y v.

Lemma extends_refl v k M : extends v k M M.
Proof. exists []. rewrite app_nil_r. split_and!; [done|simpl; lia|]. by intros x y e ?%not_elem_of_nil. Qed.

Lemma extends_trans v k k' M M1 M2 : extends v k M M1 → extends v k' M1 M2 → extends v (k + k') M M2.
Proof.
  intros (n1 & -> & L1 & H1) (n2 & -> & L2 & H2). exists (n1 ++ n2). split_and!; [by rewrite app_assoc|rewrite length_app; lia|].
  intros x y e [H|H]%elem_of_app; [by eapply H1|]. destruct (H2 x y e H) as [-> Hn]. split; [done|].
  intros [e' He']. apply Hn. exists e'. apply elem_of_app. by left.
Qed.

Lemma extends_pair v k M M' x y : extends v k M M' → pair_in M x y → pair_in M' x y.
Proof. intros (n & -> & _) [e He]. exists e. apply elem_of_app. by left. Qed.

Lemma internal_edge_built b P M v n conn : built b P M → (v, n) ∈ P → ∃ M', built (internal_edge g v n conn b) P M' ∧ extends v 1 M M' ∧
  ∀ y, joins v y → getVisibleTerminal g conn false = Some y → pair_in M' v y ∨ pair_in M' y v.
Proof.
  intros HB Hn. assert (v ∈ vertices) as Hv by by apply (b_vertices _ _ _ HB), (fmap_pair P v n).
  unfold internal_edge. destruct (getVisibleTerminal g conn false) as [y|] eqn:Et; [|exists M; split_and!; [done|apply extends_refl|done]].
  destruct (decide (joins v y)) as [Hj|Hj].
  - destruct (joins_between v y Hj) as (r0 & l & E). destruct Hj as (Hne & [Ha1 Ha2] & Hd & Hlen).
    assert (joins v y) as Hj by done. pose proof (Hclosed v y Hv Hj) as Hy.
    rewrite decide_True by auto. pose proof (built_mapped b P M v y r0 l HB Hv Hy Hne E) as Hmap.
    destruct (decide (edgeMapper b !! r0 = None)) as [Hr|Hr].
    + exists (M ++ [(v, y, next b)]). apply Hmap in Hr as Hp. split_and!.
      * rewrite E. rewrite decide_True by (rewrite <-E; done). rewrite <-E. apply built_with_edge; [done|done|done|apply Hp|apply Hp].
      * exists [(v, y, next b)]. split_and!; [done|done|]. intros x y' e H. apply list_elem_of_singleton in H. simplify_eq. split; [done|apply Hp].
      * intros y' _ [= <-]. left. rewrite pair_in_app. auto.
    + exists M. split_and!; [|apply extends_refl|].
      * rewrite E, decide_False by (by intros [? _]). done.
      * intros y' _ [= <-]. apply not_eq_None_Some, (b_mapped _ _ _ HB) in Hr as (x & z & Hp & Hr).
        assert (r0 ∈ between v y) as H0 by (rewrite E; left). destruct (between_same _ _ _ _ _ H0 Hr) as [[<- <-]|[<- <-]]; auto.
  - exists M. split_and!; [|apply extends_refl|intros y' Hy' [= <-]; done].
    case_decide as Hd; [|done]. destruct Hd as (Hne & Ha1 & Ha2). destruct (between v y) as [|e0 l] eqn:E; [done|].
    rewrite decide_False; [done|]. intros [_ Hlen]. apply Hj. split_and!; [done|done|intros Hd; rewrite Hd in Hlen; simpl in Hlen; lia|by rewrite E].
Qed.

Lemma conns_built conns : ∀ b P M v n, built b P M → (v, n) ∈ P → ∃ M',
  built (foldl (λ b conn, internal_edge g v n conn b) b conns) P M' ∧ extends v (length conns) M M' ∧
  ∀ y conn, conn ∈ conns → joins v y → getVisibleTerminal g conn false = Some y → pair_in M' v y ∨ pair_in M' y v.
Proof.
  induction conns as [|c conns IH]; intros b P M v n HB Hn.
  - exists M. split_and!; [done|apply extends_refl|]. by intros y conn ?%not_elem_of_nil.
  - destruct (internal_edge_built b P M v n c HB Hn) as (M1 & HB1 & X1 & J1). simpl.
    destruct (IH _ P M1 v n HB1 Hn) as (M2 & HB2 & X2 & J2). exists M2. split_and!; [done|apply (extends_trans v 1 _ M M1 M2 X1 X2)|].
    intros y conn [->|Hc]%elem_of_cons Hj Ht; [|by eapply J2].
    destruct (J1 y Hj Ht) as [H|H]; [left|right]; by eapply extends_pair.
Qed.

Lemma built_write_temp b P M v n z : built b P M → (v, n) ∈ P → built (on_model (write_temp n 0 z) b) P M.
Proof.
  intros HB Hn. assert (n ∉ M.*2) as HnM.
  { intros ([[x y] e] & -> & He)%list_elem_of_fmap. destruct (b_edge _ _ _ HB x y e He) as (nx & _ & Hc & _).
    destruct (b_node _ _ _ HB v _ Hn) as [len Hc']. simpl in Hc'. rewrite Hc in Hc'. done. }
  destruct (b_node _ _ _ HB v n Hn) as [len0 Hc0].
  pose proof (built_fresh _ _ _ n HB (or_introl (proj2 (fmap_pair P v n Hn)))) as Hlt.
  destruct HB as [Re Ne Kn Ra No Ed Ma Di Ve Jo On Ow Te St Rl]. split; try done.
  - intros x. simpl. by rewrite alter_is_Some.
  - intros x. simpl. rewrite alter_is_Some. apply Ra.
  - intros v' n' Hn'. destruct (No v' n' Hn') as [len Hc]. simpl. destruct (decide (n' = n)) as [->|Hne].
    + rewrite lookup_alter_eq, Hc. by eexists.
    + rewrite lookup_alter_ne by done. by exists len.
  - intros x y e He. destruct (Ed x y e He) as (nx & ? & Hc & ?). exists nx. split_and!; [done| |done]. simpl.
    rewrite lookup_alter_ne; [done|]. intros ->. apply HnM. by apply (fmap_pair M (x, y) e).
  - intros x i Hx. simpl. rewrite lookup_insert_ne; [by apply Te|]. intros [= -> _]. done.
  - intros x i Hx. simpl in *. rewrite lookup_insert_ne; [by apply St|]. intros [= -> _]. lia.
Qed.

Lemma dictionary_put_new k v l : k ∉ l.*1 → dictionary_put k v l = l ++ [(k, v)].
Proof.
  intros H. unfold dictionary_put. destruct (list_find _ l) as [[i p]|] eqn:E; [|done]. exfalso. apply H.
  apply list_find_Some in E as (Hi & <- & _). apply list_elem_of_fmap_2. by eapply list_elem_of_lookup_2.
Qed.

(** A node without edges. *)
Definition with_node (v : nat) (b : builder) : builder :=
  on_model (λ m, set_vertexMapper (dictionary_put v (next b) (vertexMapper m)) m) (allocate new_node b).

Lemma built_with_node b P M v : built b P M → v ∈ vertices → v ∉ P.*1 → built (with_node v b) (P ++ [(v, next b)]) M.
Proof.
  intros HB Hv HvP. assert (∀ x, x ∈ P.*2 ∨ x ∈ M.*2 → 0 < x < next b) as Hold by (intros x; apply (built_fresh _ _ _ _ HB)).
  assert (∀ x y e, (x, y, e) ∈ M → x ≠ v) as HvM.
  { intros x y e He ->. destruct (b_edge _ _ _ HB v y e He) as (n & Hn & _). by apply HvP, (fmap_pair P v n). }
  destruct HB as [(Re1 & Re2 & Re3) Ne Kn Ra No Ed Ma (D1 & D2 & D3) Ve Jo On Ow Te St Rl].
  assert (vertexMapper (model (with_node v b)) = P ++ [(v, next b)]) as Evm by (simpl; rewrite Re2; by apply dictionary_put_new).
  assert (cells (model (with_node v b)) = <[next b := new_node]> (cells (model b))) as Ec by done.
  assert (∀ x, x < next b → cells (model (with_node v b)) !! x = cells (model b) !! x) as Eo.
  { intros x Hx. rewrite Ec, lookup_insert_ne by lia. done. }
  split; try done.
  - simpl. rewrite Ne, length_app. simpl. lia.
  - intros x. rewrite Ec, lookup_insert_is_Some, Kn, fmap_app, elem_of_app. simpl. rewrite list_elem_of_singleton.
    destruct (decide (next b = x)) as [<-|]; naive_solver.
  - intros x. rewrite Ec, lookup_insert_is_Some. simpl. intros [<-|[_ H]]; [lia|]. pose proof (Ra x H). lia.
  - intros v' n' Hn'. apply elem_of_app in Hn' as [Hn'|Hn'].
    + rewrite Eo; [by apply No|]. apply Hold. left. by apply (fmap_pair P v' n').
    + apply list_elem_of_singleton in Hn'. simplify_eq. rewrite Ec, lookup_insert_eq. exists 0%Z.
      assert (outs M v = []) as ->; [|done]. destruct (outs M v) as [|e l] eqn:E; [done|]. exfalso.
      assert (e ∈ outs M v) as (y & He)%elem_of_outs by (rewrite E; left). by apply (HvM v y e He).
  - intros x y e He. destruct (Ed x y e He) as (n & H1 & H2 & H3). exists n. split_and!; [apply elem_of_app; by left| |done].
    rewrite Eo; [done|]. apply Hold. right. by apply (fmap_pair M (x, y) e).
  - rewrite !fmap_app. simpl. split_and!; [..|done]; apply NoDup_app; (split_and!; [done| |apply NoDup_singleton]);
      intros x Hx ->%list_elem_of_singleton; [done|]. pose proof (Hold (next b) (or_introl Hx)). lia.
  - intros x. rewrite fmap_app, elem_of_app. simpl. rewrite list_elem_of_singleton. intros [H| ->]; [by apply Ve|done].
  - intros x i Hx. simpl in *. apply St. lia.
Qed.

Lemma create_vertex_built b P M v : built b P M → v ∈ vertices → v ∉ P.*1 → ∃ M', built (create_vertex g b v) (P ++ [(v, next b)]) M' ∧
  extends v (length (getEdges g v)) M M' ∧ ∀ y, joins v y → pair_in M' v y ∨ pair_in M' y v.
Proof.
  intros HB Hv HvP. assert ((v, next b) ∈ P ++ [(v, next b)]) as Hn by (apply elem_of_app; right; left).
  destruct (conns_built (getEdges g v) _ _ _ v (next b) (built_with_node b P M v HB Hv HvP) Hn) as (M' & HB' & X & J).
  exists M'. split_and!; [|done|].
  - unfold create_vertex. eapply built_write_temp; [exact HB'|exact Hn].
  - intros y Hj. destruct Hj as (Hne & Ha & Hd & Hl). destruct (directed v y) as [|r l] eqn:E; [done|].
    assert (r ∈ directed v y) as (Hr & _ & Ht)%elem_of_directed by (rewrite E; left).
    apply (J y r Hr); [|done]. split_and!; [done|done|by rewrite E|by rewrite E].
Qed.

(** *** All vertices *)

Record complete (l : list nat) (M : made_edges) : Prop := {
  c_made : ∀ x y, x ∈ l → joins x y → pair_in M x y ∨ pair_in M y x;
  c_first : ∀ l1 x l2 y, l = l1 ++ x :: l2 → y ∈ l1 → pair_in M x y → ¬ joins y x;
  c_source : ∀ x y, pair_in M x y → x ∈ l
}.

Lemma complete_step v k l M M' : complete l M → v ∉ l → extends v k M M' → (∀ y, joins v y → pair_in M' v y ∨ pair_in M' y v) →
  complete (l ++ [v]) M'.
Proof.
  intros [C1 C2 C3] Hv (new & -> & _ & Hnew) Hj.
  assert (∀ x y, pair_in (M ++ new) x y → pair_in M x y ∨ (x = v ∧ ¬ pair_in M y v)) as Hp.
  { intros x y [e [He|He]%elem_of_app]; [left; by exists e|right; by eapply Hnew]. }
  assert (∀ x y, pair_in M x y → pair_in (M ++ new) x y) as Hm by (intros x y [e He]; exists e; apply elem_of_app; by left).
  split.
  - intros x y [Hx|Hx]%elem_of_app Hxy.
    + destruct (C1 x y Hx Hxy); auto.
    + apply list_elem_of_singleton in Hx as ->. by apply Hj.
  - intros l1 x l2 y E Hy Hxy Hyx. destruct l2 as [|z l2 _] using rev_ind.
    + apply app_inj_2 in E as [<- [= <-]]; [|done]. destruct (Hp v y Hxy) as [H|[_ Hn]].
      * apply Hv. by eapply C3.
      * destruct (C1 y v Hy Hyx) as [?|H]; [done|]. apply Hv. by eapply C3.
    + rewrite app_comm_cons, app_assoc in E. apply app_inj_2 in E as [E _]; [|done].
      destruct (Hp x y Hxy) as [H|[-> _]]; [by eapply C2|]. apply Hv. rewrite E. apply elem_of_app. right. left.
  - intros x y Hxy. apply elem_of_app. destruct (Hp x y Hxy) as [H|[-> _]]; [left; by eapply C3|right; left].
Qed.

Lemma createInternalCells_built l : ∀ b P M, built b P M → complete P.*1 M → NoDup (P.*1 ++ l) → (∀ v, v ∈ l → v ∈ vertices) →
  ∃ b' P' M', foldl (λ acc v, (create_vertex g acc.1 v, acc.2 ++ [next acc.1])) (b, P.*2) l = (b', P'.*2) ∧
    P'.*1 = P.*1 ++ l ∧ built b' P' M' ∧ complete P'.*1 M' ∧
    length M' ≤ length M + sum_list ((λ v, length (getEdges g v)) <$> l).
Proof.
  induction l as [|v l IH]; intros b P M HB HC Hnd Hl; csimpl.
  - exists b, P, M. rewrite app_nil_r. split_and!; try done. lia.
  - assert (v ∉ P.*1) as HvP by (apply NoDup_app in Hnd as (_ & H & _); intros Hv; apply (H v Hv); left).
    destruct (create_vertex_built b P M v HB (Hl v (list_elem_of_here _ _)) HvP) as (M1 & HB1 & X & J).
    destruct (IH (create_vertex g b v) (P ++ [(v, next b)]) M1 HB1) as (b' & P' & M' & E & E1 & HB' & HC' & Hlen).
    + rewrite fmap_app. by eapply complete_step.
    + rewrite fmap_app. simpl. by rewrite <-app_assoc.
    + intros x Hx. apply Hl. by right.
    + exists b', P', M'. rewrite fmap_app in E, E1. simpl in E, E1. rewrite <-app_assoc in E1. split_and!; try done.
      destruct X as (new & -> & Hnew & _). rewrite length_app in Hlen. lia.
Qed.

(** ** The targets of the edges *)

Lemma vertexMapper_get_in m v n : NoDup (vertexMapper m).*1 → (v, n) ∈ vertexMapper m → vertexMapper_get m v = Some n.
Proof.
  intros Hnd [i Hi]%list_elem_of_lookup_1. unfold vertexMapper_get.
  assert (list_find (λ p : nat * nat, p.1 = v) (vertexMapper m) = Some (i, (v, n))) as ->; [|done].
  apply list_find_Some. split_and!; [done|done|]. intros j [v' n'] Hj Hlt E. simpl in E. subst v'.
  assert (j = i); [|lia]. eapply (NoDup_lookup (vertexMapper m).*1); [done|by rewrite list_lookup_fmap, Hj|by rewrite list_lookup_fmap, Hi].
Qed.

Lemma NoDup_fst_inj {A B} (l : list (A * B)) a b b' : NoDup l.*1 → (a, b) ∈ l → (a, b') ∈ l → b = b'.
Proof.
  intros Hnd [i Hi]%list_elem_of_lookup_1 [j Hj]%list_elem_of_lookup_1. assert (i = j) as ->; [|congruence].
  eapply (NoDup_lookup l.*1); [done|by rewrite list_lookup_fmap, Hi|by rewrite list_lookup_fmap, Hj].
Qed.

Lemma NoDup_snd_inj {A B} (l : list (A * B)) a a' b : NoDup l.*2 → (a, b) ∈ l → (a', b) ∈ l → a = a'.
Proof.
  intros Hnd [i Hi]%list_elem_of_lookup_1 [j Hj]%list_elem_of_lookup_1. assert (i = j) as ->; [|congruence].
  eapply (NoDup_lookup l.*2); [done|by rewrite list_lookup_fmap, Hi|by rewrite list_lookup_fmap, Hj].
Qed.

Section Connect.
Context (b0 : builder) (P : list (nat * nat)) (M : made_edges) (HB : built b0 P M) (Hall : ∀ v, v ∈ vertices → v ∈ P.*1).

Record connected (b : builder) (D : list nat) : Prop := {
  n_real : realEdges b = realEdges b0;
  n_rest : hashCode (model b) = ∅ ∧ vertexMapper (model b) = P ∧ roots (model b) = rs ∧
           model_maxRank (model b) = SOURCESCANSTARTRANK ∧ dfsCount (model b) = 0;
  n_known : ∀ x, is_Some (cells (model b) !! x) ↔ x ∈ P.*2 ∨ x ∈ M.*2;
  n_node : ∀ v n, (v, n) ∈ P → ∃ T len, cells (model b) !! n = Some (node_cell T (outs M v) len) ∧ NoDup T ∧
             ∀ e, e ∈ T ↔ e ∈ D ∧ ∃ x, (x, v, e) ∈ M;
  n_edge : ∀ x y e, (x, y, e) ∈ M → ∃ nx ny, (x, nx) ∈ P ∧ (y, ny) ∈ P ∧
             cells (model b) !! e = Some (edge_cell nx (if decide (e ∈ D) then ny else 0));
  n_temp : ∀ x i, x ∈ M.*2 → temp (model b) !! (x, i) = None
}.

Lemma M_end x y e : (x, y, e) ∈ M → ∃ ny, (y, ny) ∈ P.
Proof.
  intros He. destruct (b_edge _ _ _ HB x y e He) as (nx & Hx & _).
  assert (y ∈ P.*1) as Hy by (apply Hall, (Hclosed x); [by apply (b_vertices _ _ _ HB), (fmap_pair P x nx)|by eapply b_joins]).
  apply list_elem_of_fmap in Hy as ([y' ny] & -> & Hy). by exists ny.
Qed.

Lemma connected_start : connected b0 [].
Proof.
  split; [done|by destruct HB|by destruct HB| | |by destruct HB].
  - intros v n Hn. destruct (b_node _ _ _ HB v n Hn) as [len Hc]. exists [], len. split_and!; [done|constructor|].
    intros e. rewrite elem_of_nil. naive_solver.
  - intros x y e He. destruct (b_edge _ _ _ HB x y e He) as (nx & Hx & Hc & _). destruct (M_end x y e He) as [ny Hy].
    exists nx, ny. split_and!; [done|done|]. rewrite decide_False by apply not_elem_of_nil. done.
Qed.

Lemma node_not_made v n e : (v, n) ∈ P → e ∈ M.*2 → n ≠ e.
Proof.
  intros Hn ([[x y] e'] & -> & He)%list_elem_of_fmap ->. destruct (b_edge _ _ _ HB x y e' He) as (nx & _ & Hc & _).
  destruct (b_node _ _ _ HB v _ Hn) as [len Hc']. simpl in Hc'. by rewrite Hc in Hc'.
Qed.

(** The node the edge leads to is found through either terminal of the first real edge. *)
Lemma internal_target_is b D x y e nx ny : connected b D → (x, y, e) ∈ M → (x, nx) ∈ P → (y, ny) ∈ P →
  internal_target g nx b e = on_model (update ny (push_target e)) (on_model (update e (with_target ny)) b).
Proof.
  intros HC He Hx Hy. destruct (b_distinct _ _ _ HB) as (D1 & D2 & _). destruct (n_rest _ _ HC) as (_ & Evm & _).
  destruct (b_edge _ _ _ HB x y e He) as (_ & _ & _ & Hr). pose proof (b_joins _ _ _ HB x y e He) as Hj.
  destruct (joins_between x y Hj) as (r0 & l & E). unfold internal_target. rewrite (n_real _ _ HC), Hr, E.
  assert (r0 ∈ between x y) as H0 by (rewrite E; left). apply elem_of_between in H0 as [_ H0].
  assert (vertexMapper_get (model b) x = Some nx) as Gx by (apply vertexMapper_get_in; by rewrite Evm).
  assert (vertexMapper_get (model b) y = Some ny) as Gy by (apply vertexMapper_get_in; by rewrite Evm).
  assert (ny ≠ nx) as Hne by (intros ->; destruct Hj as [Hj _]; apply Hj; by eapply (NoDup_snd_inj P)).
  destruct H0 as [[-> ->]|[-> ->]]; cbn [mbind option_bind]; rewrite ?Gx, ?Gy.
  - rewrite decide_False by congruence. by rewrite decide_True.
  - rewrite decide_True by done. by rewrite decide_True.
Qed.

Lemma connected_target b D x y e nx ny : connected b D → (x, y, e) ∈ M → (x, nx) ∈ P → (y, ny) ∈ P → e ∉ D →
  connected (on_model (update ny (push_target e)) (on_model (update e (with_target ny)) b)) (D ++ [e]).
Proof.
  intros HC He Hx Hy HeD. destruct (b_distinct _ _ _ HB) as (D1 & D2 & D3).
  assert (e ∈ M.*2) as HeM by by apply (fmap_pair M (x, y) e).
  pose proof (node_not_made y ny e Hy HeM) as Hye.
  destruct HC as [Rl Re Kn No Ed Te]. set (b' := on_model _ _).
  assert (∀ z, cells (model b') !! z = if decide (z = ny) then push_target e <$> cells (model b) !! ny
    else if decide (z = e) then with_target ny <$> cells (model b) !! e else cells (model b) !! z) as Ec.
  { intros z. simpl. destruct (decide (z = ny)) as [->|Hz]; [by rewrite lookup_alter_eq, lookup_alter_ne|].
    rewrite lookup_alter_ne by done. destruct (decide (z = e)) as [->|Hze]; [by rewrite lookup_alter_eq|by rewrite lookup_alter_ne]. }
  split; try done.
  - intros z. simpl. by rewrite !alter_is_Some.
  - intros v n Hn. rewrite Ec. pose proof (node_not_made v n e Hn HeM) as Hne. destruct (No v n Hn) as (T & len & Hc & HT1 & HT2).
    destruct (decide (n = ny)) as [->|Hny].
    + assert (v = y) as -> by by eapply (NoDup_snd_inj P). rewrite Hc. exists (T ++ [e]), len.
      assert (e ∉ T) as HeT by (rewrite HT2; by intros [? _]).
      split_and!; [unfold push_target, node_cell; simpl; by rewrite push_new_fresh| |].
      * apply NoDup_app. split_and!; [done| |apply NoDup_singleton]. by intros z Hz ->%list_elem_of_singleton.
      * intros z. rewrite !elem_of_app, !list_elem_of_singleton, HT2. split; [intros [?| ->]; [tauto|split; [by right|by exists x]]|tauto].
    + rewrite decide_False by done. exists T, len. split_and!; [done|done|]. intros z. rewrite HT2, elem_of_app, list_elem_of_singleton.
      split; [tauto|]. intros [[?| ->] [x' Hx']]; [by split; [|exists x']|]. exfalso.
      assert ((x', v) = (x, y)) as [= -> ->] by by eapply (NoDup_snd_inj M). apply Hny. by eapply (NoDup_fst_inj P).
  - intros x' y' e' He'. destruct (Ed x' y' e' He') as (nx' & ny' & Hx' & Hy' & Hc). exists nx', ny'. split_and!; [done|done|].
    rewrite Ec. rewrite decide_False by (intros ->; apply (node_not_made y ny ny Hy); [by apply (fmap_pair M (x', y') ny)|done]).
    destruct (decide (e' = e)) as [->|Hee].
    + assert ((x', y') = (x, y)) as [= -> ->] by by eapply (NoDup_snd_inj M). rewrite Hc, decide_False by done. simpl.
      rewrite decide_True by (apply elem_of_app; right; left). f_equal. assert (ny' = ny) as -> by by eapply (NoDup_fst_inj P). done.
    + rewrite Hc. do 3 f_equal. destruct (decide (e' ∈ D)) as [H|H]; [by rewrite decide_True by (apply elem_of_app; by left)|].
      rewrite decide_False; [done|]. by intros [?|?%list_elem_of_singleton]%elem_of_app.
Qed.

Lemma targets_connected x nx es : (x, nx) ∈ P → ∀ b D, connected b D → NoDup es → (∀ e, e ∈ es → e ∈ outs M x ∧ e ∉ D) →
  connected (foldl (internal_target g nx) b es) (D ++ es).
Proof.
  intros Hx. induction es as [|e es IH]; intros b D HC Hnd Hes; simpl; [by rewrite app_nil_r|].
  apply NoDup_cons in Hnd as [Hee Hnd]. destruct (Hes e (list_elem_of_here _ _)) as [(y & He)%elem_of_outs HeD].
  destruct (M_end x y e He) as [ny Hy]. rewrite (internal_target_is b D x y e nx ny HC He Hx Hy).
  replace (D ++ e :: es) with ((D ++ [e]) ++ es) by by rewrite <-app_assoc.
  apply IH; [by eapply connected_target|done|]. intros e' He'. destruct (Hes e' (list_elem_of_further _ _ _ He')) as [H1 H2].
  split; [done|]. intros [?| ->%list_elem_of_singleton]%elem_of_app; done.
Qed.

Lemma connected_write_temp b D v n z : connected b D → (v, n) ∈ P → connected (on_model (write_temp n 0 z) b) D.
Proof.
  intros [Rl Re Kn No Ed Te] Hn. split; try done.
  - intros x. simpl. by rewrite alter_is_Some.
  - intros v' n' Hn'. destruct (No v' n' Hn') as (T & len & Hc & HT). simpl. destruct (decide (n' = n)) as [->|Hne].
    + rewrite lookup_alter_eq, Hc. by exists T, (Z.max len (0 + 1)).
    + rewrite lookup_alter_ne by done. by exists T, len.
  - intros x y e He. destruct (Ed x y e He) as (nx & ny & ? & ? & Hc). exists nx, ny. split_and!; [done|done|]. simpl.
    rewrite lookup_alter_ne; [done|]. intros ->. eapply (node_not_made v e e); [done|by apply (fmap_pair M (x, y) e)|done].
  - intros x i Hx. simpl. rewrite lookup_insert_ne; [by apply Te|]. intros [= -> _]. by eapply (node_not_made v x x).
Qed.

Lemma outs_nodup v : NoDup (outs M v).
Proof.
  destruct (b_distinct _ _ _ HB) as (_ & _ & D3). unfold outs. revert D3. clear. induction M as [|[[x y] e] M' IH]; intros Hd; [constructor|].
  rewrite fmap_cons in Hd. apply NoDup_cons in Hd as [He Hd]. rewrite filter_cons. case_decide; [|by apply IH].
  rewrite fmap_cons. apply NoDup_cons. split; [|by apply IH]. simpl in *. intros (p & -> & [_ Hp]%list_elem_of_filter)%list_elem_of_fmap.
  apply He. by apply list_elem_of_fmap_2.
Qed.

Lemma outs_own v w e : e ∈ outs M v → e ∈ outs M w → v = w.
Proof.
  intros (y & H1)%elem_of_outs (z & H2)%elem_of_outs. destruct (b_distinct _ _ _ HB) as (_ & _ & D3).
  assert ((v, y) = (w, z)) as [=]; [by eapply (NoDup_snd_inj M)|done].
Qed.


Lemma connect_all l : ∀ b D, connected b D → NoDup l.*1 → (∀ p, p ∈ l → p ∈ P) →
  (∀ v e, v ∈ l.*1 → e ∈ outs M v → e ∉ D) →
  ∃ D', connected (foldl (connect_vertex g) b l.*2) D' ∧ ∀ e, e ∈ D ∨ (∃ v, v ∈ l.*1 ∧ e ∈ outs M v) → e ∈ D'.
Proof.
  induction l as [|[v n] l IH]; intros b D HC Hnd Hl HD; csimpl.
  - exists D. split; [done|]. intros e [?|(v & []%not_elem_of_nil & _)]. done.
  - rewrite fmap_cons in Hnd. apply NoDup_cons in Hnd as [Hv Hnd]. simpl in Hv. pose proof (Hl (v, n) (list_elem_of_here _ _)) as Hn.
    assert (connectsAsSource (cells (model b) !!! n) = outs M v) as Eo.
    { destruct (n_node _ _ HC v n Hn) as (T & len & Hc & _). by rewrite (lookup_total_correct _ _ _ Hc). }
    destruct (IH (connect_vertex g b n) (D ++ outs M v)) as (D' & HC' & HD').
    + unfold connect_vertex. rewrite Eo. eapply connected_write_temp; [|exact Hn].
      apply (targets_connected v n); [done|done|apply outs_nodup|]. intros e He. split; [done|]. by apply (HD v e (list_elem_of_here _ _)).
    + done.
    + intros p Hp. apply Hl. by right.
    + intros w e Hw He [?|He']%elem_of_app; [by eapply (HD w e); [by right|..]|].
      apply Hv. by rewrite (outs_own v w e He' He).
    + exists D'. split; [done|]. intros e [He|(w & [->|Hw]%elem_of_cons & He)]; apply HD'; rewrite elem_of_app; eauto.
Qed.

End Connect.

(** ** The whole constructor *)

Lemma built_start : built (Builder (HModel ∅ ∅ ∅ [] rs SOURCESCANSTARTRANK [] 0) 1 ∅ ∅) [] [].
Proof.
  split; simpl; try done.
  - intros x. rewrite lookup_empty, !elem_of_nil. split; [by intros [? ?]|tauto].
  - intros x [? ?]. done.
  - by intros v n ?%not_elem_of_nil.
  - by intros x y e ?%not_elem_of_nil.
  - intros r. rewrite lookup_empty. split; [by intros [? ?]|]. by intros (x & y & [e ?%not_elem_of_nil] & _).
  - by split_and!; constructor.
  - by intros v ?%not_elem_of_nil.
  - by intros x y e ?%not_elem_of_nil.
  - by intros x y e e' ?%not_elem_of_nil.
  - by intros x y [e ?%not_elem_of_nil].
  - intros e. rewrite lookup_empty. by intros [? ?].
Qed.

Lemma new_hierarchy_connected : NoDup vertices → ∃ b0 b P M D,
  b = build_hierarchy g vertices rs ∧ built b0 P M ∧ connected b0 P M b D ∧ P.*1 = vertices ∧ complete vertices M ∧
  (∀ x y e, (x, y, e) ∈ M → e ∈ D) ∧ length M ≤ sum_list ((λ v, length (getEdges g v)) <$> vertices).
Proof.
  intros Hnd. set (b := Builder (HModel ∅ ∅ ∅ [] rs SOURCESCANSTARTRANK [] 0) 1 ∅ ∅).
  destruct (createInternalCells_built vertices b [] [] built_start) as (b0 & P & M & E & EP & HB & HC & Hlen).
  - split; [by intros x y ?%not_elem_of_nil|by intros [] x l2 y [=]|by intros x y [e ?%not_elem_of_nil]].
  - done.
  - done.
  - simpl in EP. rewrite EP in HC. assert (∀ v, v ∈ vertices → v ∈ P.*1) as Hall by (intros v; by rewrite EP).
    destruct (connect_all b0 P M HB Hall P b0 [] (connected_start b0 P M HB Hall)) as (D & HD & Hin).
    + by rewrite EP.
    + done.
    + by intros v e _ _ ?%not_elem_of_nil.
    + exists b0, (foldl (connect_vertex g) b0 P.*2), P, M, D. split_and!; try done.
      * unfold build_hierarchy. fold b. unfold createInternalCells. simpl in E. by rewrite E.
      * intros x y e He. apply Hin. right. exists x. destruct (b_edge _ _ _ HB x y e He) as (n & Hn & _).
        split; [by apply (fmap_pair P x n)|]. apply elem_of_outs. by exists y.
Qed.

(** What the finished model looks like: [P] are its nodes and [M] its edges. *)
Section Finished.
Context (b0 b : builder) (P : list (nat * nat)) (M : made_edges) (D : list nat).
Context (HB : built b0 P M) (HC : connected b0 P M b D) (EP : P.*1 = vertices).
Context (HM : complete vertices M) (HD : ∀ x y e, (x, y, e) ∈ M → e ∈ D).
Abbreviation m := (model b).

Lemma finished_node v n : (v, n) ∈ P → is_Some (cells m !! n) ∧ isVertex (cells m !!! n) = true ∧ out m n = outs M v ∧
  NoDup (inn m n) ∧ ∀ e, e ∈ inn m n ↔ ∃ x, (x, v, e) ∈ M.
Proof.
  intros Hn. destruct (n_node _ _ _ _ _ HC v n Hn) as (T & len & Hc & HT1 & HT2). rewrite (lookup_total_correct _ _ _ Hc), Hc.
  split_and!; try done. intros e. simpl. rewrite HT2. split; [by intros [_ ?]|]. intros [x Hx]. split; [by eapply HD|by exists x].
Qed.

Lemma finished_edge x y e : (x, y, e) ∈ M → ∃ nx ny, (x, nx) ∈ P ∧ (y, ny) ∈ P ∧ is_Some (cells m !! e) ∧
  isVertex (cells m !!! e) = false ∧ src m e = nx ∧ tgt m e = ny.
Proof.
  intros He. destruct (n_edge _ _ _ _ _ HC x y e He) as (nx & ny & Hx & Hy & Hc). rewrite decide_True in Hc by by eapply HD.
  exists nx, ny. rewrite (lookup_total_correct _ _ _ Hc), Hc. done.
Qed.

Lemma finished_values : vertexMapper_values m = P.*2.
Proof. unfold vertexMapper_values. by destruct (n_rest _ _ _ _ _ HC) as (_ & -> & _). Qed.

Lemma finished_get v n : (v, n) ∈ P → vertexMapper_get m v = Some n.
Proof.
  intros Hn. destruct (n_rest _ _ _ _ _ HC) as (_ & E & _). destruct (b_distinct _ _ _ HB) as (D1 & _).
  apply vertexMapper_get_in; by rewrite E.
Qed.

Lemma finished_P u : u ∈ P.*2 → ∃ v, (v, u) ∈ P.
Proof. intros ([v u'] & -> & H)%list_elem_of_fmap. by exists v. Qed.

Lemma finished_graph : graph_ok (vertexMapper_values m) (cells m).
Proof.
  rewrite finished_values. destruct (b_distinct _ _ _ HB) as (D1 & D2 & _). split.
  - intros u [v Hv]%finished_P. by destruct (finished_node v u Hv) as (? & ? & _).
  - intros u e [v Hv]%finished_P He. destruct (finished_node v u Hv) as (_ & _ & Eo & _). rewrite Eo in He.
    apply elem_of_outs in He as [y He]. destruct (finished_edge v y e He) as (nx & ny & Hx & Hy & Hs & Hve & Es & Et).
    rewrite Es, Et. destruct (finished_node y ny Hy) as (_ & _ & _ & _ & HT). split_and!; [done|done| | | |].
    + by eapply (NoDup_fst_inj P).
    + by apply (fmap_pair P y ny).
    + intros ->. destruct (b_joins _ _ _ HB v y e He) as [Hne _]. apply Hne. exact (NoDup_snd_inj P v y u D2 Hv Hy).
    + apply HT. by exists v.
  - intros u e [v Hv]%finished_P He. destruct (finished_node v u Hv) as (_ & _ & _ & _ & HT). apply HT in He as [x He].
    destruct (finished_edge x v e He) as (nx & ny & Hx & Hy & _ & _ & Es & Et). rewrite Es, Et. split_and!.
    + by eapply (NoDup_fst_inj P).
    + by apply (fmap_pair P x nx).
    + destruct (finished_node x nx Hx) as (_ & _ & -> & _). apply elem_of_outs. by exists v.
  - intros u [v Hv]%finished_P. destruct (finished_node v u Hv) as (_ & _ & -> & _). by eapply outs_nodup.
  - intros u [v Hv]%finished_P. by destruct (finished_node v u Hv) as (_ & _ & _ & ? & _).
Qed.

(** The internal edges are those of the vertices, in the direction of the majority. *)
Lemma finished_follows x y nx ny : (x, nx) ∈ P → (y, ny) ∈ P → follows m nx ny ↔ pair_in M x y.
Proof.
  intros Hx Hy. destruct (finished_node x nx Hx) as (_ & _ & Eo & _). destruct (b_distinct _ _ _ HB) as (D1 & D2 & _).
  unfold follows. rewrite Eo. split.
  - intros (e & (z & He)%elem_of_outs & Et). exists e.
    destruct (finished_edge x z e He) as (_ & nz & _ & Hz & _ & _ & _ & Et'). assert (nz = ny) as -> by congruence.
    by assert (z = y) as -> by by eapply (NoDup_snd_inj P).
  - intros [e He]. exists e. split; [apply elem_of_outs; by exists y|].
    destruct (finished_edge x y e He) as (_ & nz & _ & Hz & _ & _ & _ & ->). by eapply (NoDup_fst_inj P).
Qed.

Lemma finished_pairs x y : x ∈ vertices → y ∈ vertices → pair_in M x y ↔
  joins x y ∧ (¬ joins y x ∨ ∃ l1 l2, vertices = l1 ++ x :: l2 ∧ y ∈ l2).
Proof.
  intros Hx Hy. destruct HM as [C1 C2 C3]. split.
  - intros Hp. assert (joins x y) as Hj by (destruct Hp as [e He]; by eapply b_joins). split; [done|].
    destruct (decide (joins y x)) as [Hyx|]; [right|by left].
    destruct (list_elem_of_split _ _ Hx) as (l1 & l2 & E). exists l1, l2. split; [done|]. rewrite E in Hy.
    apply elem_of_app in Hy as [Hy|[->|Hy]%elem_of_cons]; [by destruct (C2 l1 x l2 y E Hy Hp)|by destruct Hj|done].
  - intros [Hj Hor]. destruct (C1 x y Hx Hj) as [?|Hp]; [done|]. exfalso.
    assert (joins y x) as Hyx by (destruct Hp as [e He]; by eapply b_joins). destruct Hor as [?|(l1 & l2 & E & Hy2)]; [done|].
    apply list_elem_of_split in Hy2 as (l3 & l4 & ->). apply (C2 (l1 ++ x :: l3) y l4 x); [by rewrite E, <-app_assoc| |done|done].
    apply elem_of_app. right. left.
Qed.

End Finished.

(** The edge between two vertices leads from the first to the second. *)
Definition internal (x y : nat) : Prop := joins x y ∧ (¬ joins y x ∨ ∃ l1 l2, vertices = l1 ++ x :: l2 ∧ y ∈ l2).

(** The finished model: a node per vertex, and one edge, not reversed, for every two vertices
    that are connected. *)
Record constructed (m : hmodel) : Prop := {
  o_graph : graph_ok (vertexMapper_values m) (cells m);
  o_vertices : (vertexMapper m).*1 = vertices;
  o_roots : roots m = rs;
  o_get : ∀ v n, (v, n) ∈ vertexMapper m → vertexMapper_get m v = Some n;
  o_nodup : NoDup (vertexMapper_values m);
  o_edge : ∀ x nx y ny, (x, nx) ∈ vertexMapper m → (y, ny) ∈ vertexMapper m → follows m nx ny ↔ internal x y;
  o_single : ∀ x nx e e', (x, nx) ∈ vertexMapper m → e ∈ out m nx → e' ∈ out m nx → tgt m e = tgt m e' → e = e';
  o_forward : ∀ x nx e, (x, nx) ∈ vertexMapper m → e ∈ out m nx → isReversed (cells m !!! e) = false
}.

Lemma new_hierarchy_constructed : NoDup vertices → constructed (new_hierarchy g vertices rs).
Proof.
  intros Hnd. destruct (new_hierarchy_connected Hnd) as (b0 & b & P & M & D & Eb & HB & HC & EP & HM & HD & _).
  unfold new_hierarchy. rewrite <-Eb. destruct (n_rest _ _ _ _ _ HC) as (_ & Rv & Rr & _). destruct (b_distinct _ _ _ HB) as (D1 & D2 & _).
  assert (∀ x nx e, (x, nx) ∈ P → e ∈ out (model b) nx → ∃ y, (x, y, e) ∈ M) as Hout.
  { intros x nx e Hx. destruct (finished_node b0 b P M D HC HD x nx Hx) as (_ & _ & -> & _). apply elem_of_outs. }
  split; rewrite ?Rv.
  - by eapply finished_graph.
  - done.
  - done.
  - by apply (finished_get b0 b P M D HB HC).
  - by rewrite (finished_values b0 b P M D HC).
  - intros x nx y ny Hx Hy. rewrite (finished_follows b0 b P M D HB HC HD x y nx ny Hx Hy).
    apply (finished_pairs b0 P M HB HM); rewrite <-EP; [by apply (fmap_pair P x nx)|by apply (fmap_pair P y ny)].
  - intros x nx e e' Hx He He' Ht. destruct (Hout x nx e Hx He) as [y Hy], (Hout x nx e' Hx He') as [y' Hy'].
    destruct (finished_edge b0 b P M D HC HD x y e Hy) as (_ & ny & _ & Hny & _ & _ & _ & E1).
    destruct (finished_edge b0 b P M D HC HD x y' e' Hy') as (_ & ny' & _ & Hny' & _ & _ & _ & E2).
    assert (ny = ny') as <- by congruence. assert (y = y') as <- by by eapply (NoDup_snd_inj P). by eapply b_once.
  - intros x nx e Hx He. destruct (Hout x nx e Hx He) as [y Hy]. destruct (n_edge _ _ _ _ _ HC x y e Hy) as (? & ? & _ & _ & Hc).
    by rewrite (lookup_total_correct _ _ _ Hc).
Qed.

(** Every vertex is a root or joined to from an earlier one. *)
Definition rooted : Prop := ∀ l1 v l2, vertices = l1 ++ v :: l2 → v ∈ rs ∨ ∃ u, u ∈ l1 ∧ joins u v.

(** The bound on the number of internal cells. *)
Definition cell_bound : nat := 1 + length vertices + sum_list ((λ v, length (getEdges g v)) <$> vertices).

Lemma new_hierarchy_fresh : NoDup vertices → rooted → (Z.of_nat (length vertices) ≤ SOURCESCANSTARTRANK)%Z →
  (Z.of_nat cell_bound ≤ 2 ^ 30)%Z → fresh_hierarchy (new_hierarchy g vertices rs).
Proof.
  intros Hnd Hroot Hn Hsz. destruct (new_hierarchy_connected Hnd) as (b0 & b & P & M & D & Eb & HB & HC & EP & HM & HD & Hlen).
  unfold new_hierarchy. rewrite <-Eb. destruct (n_rest _ _ _ _ _ HC) as (Rh & Rv & Rr & Rm & Rd). destruct (b_distinct _ _ _ HB) as (D1 & D2 & _).
  pose proof (finished_values b0 b P M D HC) as Ev.
  assert (∀ n v l1 l2, length l1 ≤ n → vertices = l1 ++ v :: l2 → ∀ u, (v, u) ∈ P →
    ∃ r, Some r ∈ root_nodes (model b) ∧ rtc (follows (model b)) r u) as Hreach.
  { induction n as [|n IH]; intros v l1 l2 Hl E u Hu; destruct (Hroot l1 v l2 E) as [Hv|(w & Hw & Hj)].
    1,3: exists u; split; [|done]; unfold root_nodes; apply list_elem_of_fmap; exists v; rewrite Rr, (finished_get b0 b P M D HB HC v u Hu); done.
    - destruct l1; [by apply not_elem_of_nil in Hw|simpl in Hl; lia].
    - destruct (list_elem_of_split _ _ Hw) as (l3 & l4 & ->). rewrite <-app_assoc in E. simpl in E.
      assert (w ∈ P.*1) as ([w' nw] & -> & Hnw)%list_elem_of_fmap by (rewrite EP, E; apply elem_of_app; right; left).
      destruct (IH w' l3 (l4 ++ v :: l2)) with (u := nw) as (r & Hr & Hru); [rewrite length_app in Hl; simpl in Hl; lia|done|done|].
      exists r. split; [done|]. eapply rtc_r; [exact Hru|]. apply (finished_follows b0 b P M D HB HC HD w' v nw u Hnw Hu).
      apply (finished_pairs b0 P M HB HM); [rewrite E; apply elem_of_app; right; left|rewrite E; apply elem_of_app; right; right; apply elem_of_app; right; left|].
      split; [done|]. right. exists l3, (l4 ++ v :: l2). split; [done|]. apply elem_of_app. right. left. }
  split.
  - split.
    + by eapply finished_graph.
    + rewrite Ev. intros u ([v u'] & -> & Hu)%list_elem_of_fmap.
      assert (v ∈ vertices) as (l1 & l2 & E)%list_elem_of_split by (rewrite <-EP; by apply (fmap_pair P v u')).
      by eapply Hreach.
    + intros u h _. by rewrite Rh, lookup_empty.
  - by rewrite Ev.
  - done.
  - intros e He. destruct (cells (model b) !! e) as [c|] eqn:Ee; [|by rewrite lookup_total_alt, Ee in He].
    destruct (proj1 (n_known _ _ _ _ _ HC e)) as [HeP|HeM]; [by rewrite Ee| |].
    + apply list_elem_of_fmap in HeP as ([v n] & -> & Hv). destruct (finished_node b0 b P M D HC HD v n Hv) as (_ & E & _).
      simpl in He. congruence.
    + unfold temp0. by rewrite (n_temp _ _ _ _ _ HC).
  - intros x. destruct (cells (model b) !! x) as [c|] eqn:Ex; [|by rewrite lookup_total_alt, Ex].
    destruct (proj1 (n_known _ _ _ _ _ HC x)) as [HxP|HxM]; [by rewrite Ex| |].
    + apply list_elem_of_fmap in HxP as ([v n] & -> & Hv). destruct (n_node _ _ _ _ _ HC v n Hv) as (T & len & Hc & _).
      simpl. by rewrite (lookup_total_correct _ _ _ Hc).
    + apply list_elem_of_fmap in HxM as ([[v y] e] & -> & He). destruct (n_edge _ _ _ _ _ HC v y e He) as (nx & ny & _ & _ & Hc).
      simpl. by rewrite (lookup_total_correct _ _ _ Hc).
  - rewrite Ev. by rewrite length_fmap, <-(length_fmap fst), EP.
  - etrans; [|exact Hsz]. apply inj_le. unfold cell_bound. rewrite <-size_dom.
    trans (size (list_to_set (P.*2 ++ M.*2) : gset nat)).
    + apply subseteq_size. intros x Hx%elem_of_dom. apply elem_of_list_to_set, elem_of_app, (n_known _ _ _ _ _ HC x). done.
    + etrans; [apply size_list_to_set_le|]. rewrite length_app, !length_fmap.
      assert (length P = length vertices) as -> by by rewrite <-EP, length_fmap. lia.
Qed.

(** The internal edges of the model and those of [edgeMapper] are the same. *)
Lemma build_edges : NoDup vertices → let b := build_hierarchy g vertices rs in
  (∀ e, is_Some (cells (model b) !! e) → isVertex (cells (model b) !!! e) = false → (1 ≤ edge_count b e)%Z) ∧
  ∀ e, e ∈ edgeMapper_values b → ∃ u, u ∈ vertexMapper_values (model b) ∧ e ∈ out (model b) u.
Proof.
  intros Hnd b'. destruct (new_hierarchy_connected Hnd) as (b0 & b & P & M & D & Eb & HB & HC & EP & HM & HD & _). unfold b'. rewrite <-Eb. split.
  - intros e He Hv. destruct (proj1 (n_known _ _ _ _ _ HC e) He) as [HeP|HeM].
    + apply list_elem_of_fmap in HeP as ([v n] & -> & Hn). destruct (finished_node b0 b P M D HC HD v n Hn) as (_ & E & _). simpl in Hv. congruence.
    + apply list_elem_of_fmap in HeM as ([[x y] e'] & -> & Hm). destruct (b_edge _ _ _ HB x y e' Hm) as (_ & _ & _ & Er).
      unfold edge_count. rewrite (n_real _ _ _ _ _ HC), lookup_total_alt. simpl. rewrite Er. simpl.
      destruct (joins_between x y) as (r & l & ->); [by eapply b_joins|]. simpl. lia.
  - intros e (l & He & Hl)%elem_of_concat. apply list_elem_of_In, in_map_iff in Hl as (e' & <- & _). apply list_elem_of_In, in_map_iff in He as (r & <- & Hr%list_elem_of_In).
    rewrite (n_real _ _ _ _ _ HC), lookup_total_alt in Hr. destruct (realEdges b0 !! e') as [l|] eqn:E; [|by apply elem_of_nil in Hr].
    pose proof (b_real _ _ _ HB e' (ex_intro _ l E)) as Hm. apply list_elem_of_fmap in Hm as ([[x y] e] & -> & Hm). simpl.
    destruct (b_edge _ _ _ HB x y e Hm) as (n & Hn & _). exists n. rewrite (finished_values b0 b P M D HC). split; [by apply (fmap_pair P x n)|].
    destruct (finished_node b0 b P M D HC HD x n Hn) as (_ & _ & -> & _). apply elem_of_outs. by exists y.
Qed.

End Build.
(** ** The theorem *)

(** C16: The constructor makes one node per vertex and, for every two vertices that are
    connected, exactly one edge, registered at both ends: from the vertex with more edges to
    the other one, in case of a tie from the one that comes first. *)
Theorem new_hierarchy_edges g vertices rs : symmetric g vertices → (∀ x y, x ∈ vertices → joins g x y → y ∈ vertices) → NoDup vertices →
  constructed g vertices rs (new_hierarchy g vertices rs).
Proof. intros Hs Hc. by apply new_hierarchy_constructed. Qed.

(** A graph of vertices, given by its edges with their terminals. *)
Definition graph_of (es : list (nat * (nat * nat))) : lgraph := LGraph
  (λ v, (filter (λ e, e.2.1 = v ∨ e.2.2 = v) es).*1)
  (λ e source, p ← list_find (λ p, p.1 = e) es; Some (if source : bool then p.2.2.1 else p.2.2.2))
  (λ _, true) (λ _, true).

Lemma symmetric_check g (V : list nat) : bool_decide (Forall (λ v, Forall (λ w, getEdgesBetween g v w false = getEdgesBetween g w v false) V) V) = true →
  symmetric g V.
Proof. intros H%bool_decide_eq_true x y Hx Hy _. rewrite Forall_forall in H. specialize (H x Hx). rewrite Forall_forall in H. by rewrite (H y Hy). Qed.

Lemma inside_check g (V : list nat) : bool_decide (Forall (λ v, Forall (λ e, default v (getVisibleTerminal g e false) ∈ V) (getEdges g v)) V) = true →
  ∀ v e w, v ∈ V → e ∈ getEdges g v → getVisibleTerminal g e false = Some w → w ∈ V.
Proof.
  intros H%bool_decide_eq_true v e w Hv He Hw. rewrite Forall_forall in H. specialize (H v Hv). rewrite Forall_forall in H.
  specialize (H e He). by rewrite Hw in H.
Qed.

Lemma joins_inside g (V : list nat) : (∀ v e w, v ∈ V → e ∈ getEdges g v → getVisibleTerminal g e false = Some w → w ∈ V) →
  ∀ x y, x ∈ V → joins g x y → y ∈ V.
Proof.
  intros H x y Hx (_ & _ & Hd & _). destruct (getEdgesBetween g x y true) as [|e l] eqn:E; [done|].
  assert (e ∈ getEdgesBetween g x y true) as (He & _ & Ht)%elem_of_directed by (rewrite E; left). by apply (H x e y).
Qed.

(** Two edges from 1 to 2 and one back, one edge between 2 and 3 in each direction, and one to
    3 from 1. *)
Definition tangle : lgraph := graph_of [(10, (1, 2)); (11, (2, 1)); (12, (1, 2)); (13, (3, 2)); (14, (2, 3)); (15, (1, 3))].

Lemma new_hierarchy_edges_witness : symmetric tangle [1; 2; 3] ∧ constructed tangle [1; 2; 3] [1] (new_hierarchy tangle [1; 2; 3] [1]) ∧
  (λ n, (λ c, (isVertex c, source c, target c)) <$> cells (new_hierarchy tangle [1; 2; 3] [1]) !! n) <$> [1; 2; 3; 4; 5; 6] =
    [Some (true, 0, 0); Some (false, 1, 4); Some (false, 1, 6); Some (true, 0, 0); Some (false, 4, 6); Some (true, 0, 0)].
Proof.
  assert (symmetric tangle [1; 2; 3]) as Hs by (apply symmetric_check; vm_compute; reflexivity).
  split; [exact Hs|]. split; [|vm_compute; reflexivity]. apply new_hierarchy_edges; [exact Hs| |].
  - apply joins_inside, inside_check. vm_compute. reflexivity.
  - apply (bool_decide_unpack _). by vm_compute.
Defined.

End LayoutBuild.
