(* ===== verification/LayoutTraverse.v ===== *)
(** * The traversal that splits a graph

    The traversal from a root puts every vertex it leads to into one component, in an order in
    which every vertex but a root comes after one that leads to it; a component that it meets
    is merged into the current one. It ends, and no component holds vertices that are not
    connected. *)

From S2P Require Import Prelude Crossings Hierarchy HierarchyCycles HierarchyRanks HierarchyStages Layout LayoutBuild.
Import Crossings Hierarchy HierarchyCycles HierarchyRanks HierarchyStages Layout LayoutBuild.
#[local] Open Scope nat_scope.

Module LayoutTraverse.

Section Split.
Context (g : lgraph) (V : list nat).

Abbreviation between x y := (getEdgesBetween g x y false).
Abbreviation directed x y := (getEdgesBetween g x y true).

(** What the layout relies on: the edges of a vertex end there, the edges between two vertices
    are the same from both sides, and edges do not leave the vertices to be laid out. *)
Record consistent : Prop := {
  l_nodup : NoDup V;
  l_accepted : ∀ v, v ∈ V → accepted g v;
  l_ends : ∀ v e, v ∈ V → e ∈ getEdges g v → getVisibleTerminal g e true = Some v ∨ getVisibleTerminal g e false = Some v;
  l_inside : ∀ v e w, v ∈ V → e ∈ getEdges g v → getVisibleTerminal g e false = Some w → w ∈ V;
  l_symmetric : symmetric g V
}.
Context (HL : consistent).

(** The traversal goes from [v] to [w]. *)
Definition steps (v w : nat) : Prop :=
  v ∈ V ∧ v ≠ w ∧ directed v w ≠ [] ∧ length (between v w) ≤ length (directed v w) * 2.

Lemma steps_joins v w : v ∈ V → w ∈ V → steps v w ↔ joins g v w.
Proof. intros Hv Hw. unfold steps, joins. pose proof (l_accepted HL w Hw). tauto. Qed.

Lemma steps_inside v w : steps v w → w ∈ V.
Proof.
  intros (Hv & _ & Hd & _). destruct (directed v w) as [|e l] eqn:E; [done|].
  assert (e ∈ directed v w) as (He & _ & Ht)%elem_of_directed by (rewrite E; left). by apply (l_inside HL v e w).
Qed.

(** ** The count of edges *)

(** What an edge of [v] adds to the count for [next]. *)
Definition weigh (v : nat) (next : option nat) (e : nat) : Z :=
  if decide (getVisibleTerminal g e (negb (bool_decide (getVisibleTerminal g e true = Some v))) = next)
  then if bool_decide (getVisibleTerminal g e true = Some v) then 1 else (-1) else 0.
Definition weight (v : nat) (next : option nat) (es : list nat) : Z := foldr (λ e n, weigh v next e + n)%Z 0%Z es.

Lemma netCount_fold v es i next : ∀ k acc,
  foldl (λ n je, if decide (je.1 = i) then n
    else if decide (getVisibleTerminal g je.2 (negb (bool_decide (getVisibleTerminal g je.2 true = Some v))) = next)
         then if bool_decide (getVisibleTerminal g je.2 true = Some v) then n + 1 else n - 1 else n)%Z acc (imap (λ j x, (k + j, x)) es) =
  (acc + weight v next es - (if decide (k ≤ i)%nat then default 0 (weigh v next <$> es !! (i - k)%nat) else 0))%Z.
Proof.
  induction es as [|e es IH]; intros k acc; [simpl; case_decide; lia|].
  rewrite imap_cons, Nat.add_0_r. cbn [foldl fst snd].
  replace (imap ((λ j x, (k + j, x)) ∘ S) es) with (imap (λ j x, (S k + j, x)) es) by (apply imap_ext; intros; unfold compose; f_equal; lia).
  rewrite IH. change (weight v next (e :: es)) with (weigh v next e + weight v next es)%Z.
  destruct (decide (k = i)) as [->|Hki].
  - rewrite decide_False, decide_True, Nat.sub_diag by lia. simpl. lia.
  - replace (if decide (getVisibleTerminal g e (negb (bool_decide (getVisibleTerminal g e true = Some v))) = next)
      then if bool_decide (getVisibleTerminal g e true = Some v) then acc + 1 else acc - 1 else acc)%Z with (acc + weigh v next e)%Z
      by (unfold weigh; case_decide; [case_bool_decide|]; lia).
    destruct (decide (k ≤ i)) as [Hle|Hgt]; [rewrite decide_True by lia|rewrite decide_False by lia]; [|lia].
    replace (i - k) with (S (i - S k)) by lia. simpl. lia.
Qed.

Lemma weight_counts v w : v ∈ V → v ≠ w →
  weight v (Some w) (getEdges g v) = (2 * Z.of_nat (length (directed v w)) - Z.of_nat (length (between v w)))%Z.
Proof.
  intros Hv Hvw. unfold getEdgesBetween. pose proof (l_ends HL v) as He.
  assert (∀ e, e ∈ getEdges g v → getVisibleTerminal g e true = Some v ∨ getVisibleTerminal g e false = Some v) as Hends by auto.
  clear He. induction (getEdges g v) as [|e es IH]; [done|]. simpl.
  assert (weight v (Some w) es = _) as -> by (apply IH; intros e' He'; apply Hends; by right). rewrite !filter_cons.
  unfold weigh. pose proof (Hends e (list_elem_of_here _ _)) as Hend.
  destruct (decide (getVisibleTerminal g e true = Some v)) as [Hs|Hs].
  - rewrite bool_decide_eq_true_2 by done. simpl. destruct (decide (getVisibleTerminal g e false = Some w)) as [Ht|Ht].
    + rewrite !decide_True by auto. simpl. lia.
    + rewrite !decide_False; [lia| |]; intros H; naive_solver.
  - rewrite bool_decide_eq_false_2 by done. simpl. destruct (decide (getVisibleTerminal g e true = Some w)) as [Ht|Ht].
    + rewrite decide_False by naive_solver. rewrite decide_True by naive_solver. simpl. lia.
    + rewrite !decide_False; [lia| |]; intros H; naive_solver.
Qed.

(** The traversal goes on exactly when at least half of the edges between the two vertices
    lead there. *)
Lemma netCount_steps v e i w : v ∈ V → v ≠ w → getEdges g v !! i = Some e →
  getVisibleTerminal g e true = Some v → getVisibleTerminal g e false = Some w →
  (0 ≤ netCount g (λ e, bool_decide (getVisibleTerminal g e true = Some v)) (getEdges g v) i (Some w))%Z ↔ steps v w.
Proof.
  intros Hv Hvw Hi Hs Ht. unfold netCount. pose proof (netCount_fold v (getEdges g v) i (Some w) 0 1) as E.
  assert (weigh v (Some w) e = 1%Z) as Ew by (unfold weigh; by rewrite bool_decide_eq_true_2, decide_True by done).
  rewrite decide_True, Nat.sub_0_r, Hi in E by lia. cbn [fmap option_fmap option_map default from_option] in E. rewrite Ew in E.
  change (imap pair (getEdges g v)) with (imap (λ j x, (0 + j, x)) (getEdges g v)). cbv beta. rewrite E.
  rewrite (weight_counts v w Hv Hvw). unfold steps, id.
  assert (directed v w ≠ []) as Hd.
  { intros Hd. assert (e ∈ directed v w) as H by (apply elem_of_directed; split_and!; [by eapply list_elem_of_lookup_2|done|done]).
    rewrite Hd in H. by apply not_elem_of_nil in H. }
  split; [intros H; split_and!; [done|done|done|lia]|intros (_ & _ & _ & H); lia].
Qed.

(** ** The state of the traversal *)

Abbreviation comp st c := (comps st !!! c : list nat).

(** Every vertex seen is in one component, behind a root or a vertex that leads to it. *)
Record split_ok (R : list nat) (st : tstate) : Prop := {
  s_inside : ∀ v, v ∈ allVertices st → v ∈ V;
  s_filled : match filledVertexSet st with None => True | Some l => NoDup l ∧ ∀ v, v ∈ l ↔ v ∈ V ∧ v ∉ allVertices st end;
  s_ids : ∀ c, is_Some (comps st !! c) ↔ c < size (comps st);
  s_hierarchies : NoDup (hierarchyVertices st) ∧ ∀ c, c ∈ hierarchyVertices st → is_Some (comps st !! c);
  s_nodup : ∀ c, c ∈ hierarchyVertices st → NoDup (comp st c);
  s_cover : ∀ v, v ∈ allVertices st ↔ ∃ c, c ∈ hierarchyVertices st ∧ v ∈ comp st c;
  s_disjoint : ∀ c c' v, c ∈ hierarchyVertices st → c' ∈ hierarchyVertices st → v ∈ comp st c → v ∈ comp st c' → c = c';
  s_rooted : ∀ c l1 v l2, c ∈ hierarchyVertices st → comp st c = l1 ++ v :: l2 → v ∈ R ∨ ∃ u, u ∈ l1 ∧ steps u v;
  s_linked : ∀ c u w, c ∈ hierarchyVertices st → u ∈ comp st c → w ∈ comp st c → rtsc steps u w
}.

(** Where a call for [v] comes from: a root starts its component, other vertices follow. *)
Definition leads (R : list nat) (st : tstate) (cur v : nat) : Prop := (v ∈ R ∧ comp st cur = []) ∨ ∃ u, u ∈ comp st cur ∧ steps u v.

Lemma leads_linked R st cur u v : split_ok R st → cur ∈ hierarchyVertices st → leads R st cur v → u ∈ comp st cur → rtsc steps u v.
Proof.
  intros HS Hcur [[_ E]|(x & Hx & Hs)] Hu; [rewrite E in Hu; by apply not_elem_of_nil in Hu|].
  trans x; [exact (s_linked _ _ HS cur u x Hcur Hu Hx)|by apply rtsc_lr].
Qed.

Definition together (st : tstate) (u w : nat) : Prop := ∃ c, c ∈ hierarchyVertices st ∧ u ∈ comp st c ∧ w ∈ comp st c.
Definition closed_at (st : tstate) (v : nat) : Prop := ∀ w, steps v w → together st v w.

(** What a call for the component [cur] does. *)
Record progress (cur : nat) (st st' : tstate) : Prop := {
  p_all : allVertices st ⊆ allVertices st';
  p_cur : cur ∈ hierarchyVertices st → cur ∈ hierarchyVertices st';
  p_comp : ∀ v, v ∈ comp st cur → v ∈ comp st' cur;
  p_together : ∀ u w, together st u w → together st' u w;
  p_closed : ∀ v, v ∈ allVertices st' → v ∉ allVertices st → closed_at st' v;
  p_kind : filledVertexSet st' = None ↔ filledVertexSet st = None;
  p_filled : (∀ c, c ∈ hierarchyVertices st → c ≠ cur → comp st c ≠ []) → ∀ c, c ∈ hierarchyVertices st' → c ≠ cur → comp st' c ≠ []
}.

#[local] Instance progress_preorder cur : PreOrder (progress cur).
Proof.
  split; [intros st; by split|]. intros s1 s2 s3 [A1 C1 M1 T1 L1 K1 F1] [A2 C2 M2 T2 L2 K2 F2]. split; auto.
  - by etrans.
  - intros v Hv Hn w Hw. destruct (decide (v ∈ allVertices s2)) as [H|H]; [|by apply L2]. by apply T2, L1.
  - by rewrite K2.
Qed.

Lemma comp_alter f c st c' : is_Some (comps st !! c) → (alter f c (comps st) !!! c' : list nat) = if decide (c' = c) then f (comp st c) else comp st c'.
Proof.
  intros [l Hl]. rewrite !lookup_total_alt. case_decide as H; [subst; by rewrite lookup_alter_eq, Hl|by rewrite lookup_alter_ne].
Qed.

Lemma push_new_nodup (l : list nat) x : NoDup l → x ∉ l → NoDup (l ++ [x]).
Proof. intros H Hx. apply NoDup_app. split_and!; [done| |apply NoDup_singleton]. by intros y Hy ->%list_elem_of_singleton. Qed.

Lemma size_alter (f : list nat → list nat) c (m : gmap nat (list nat)) : size (alter f c m) = size m.
Proof. by rewrite <-!size_dom, dom_alter_L. Qed.

(** A vertex is put at the end of the current component. *)
Lemma split_visit R st cur v : split_ok R st → cur ∈ hierarchyVertices st → v ∈ V → v ∉ allVertices st →
  leads R st cur v →
  split_ok R (visit_vertex v cur st) ∧ comp (visit_vertex v cur st) cur = comp st cur ++ [v] ∧
  ∀ c, c ≠ cur → comp (visit_vertex v cur st) c = comp st c.
Proof.
  intros HS Hcur HvV Hv Hlead. pose proof (λ u, leads_linked R st cur u v HS Hcur Hlead) as Hlink.
  destruct HS as [In Fi Id [H1 H2] Nd Co Di Ro Li]. set (st' := visit_vertex v cur st).
  pose proof (H2 cur Hcur) as Hsome. assert (v ∉ comp st cur) as Hvc by (intros H; apply Hv, Co; eauto).
  assert (∀ c, comp st' c = if decide (c = cur) then comp st cur ++ [v] else comp st c) as Ec.
  { intros c. simpl. rewrite comp_alter by done. by rewrite push_new_fresh. }
  assert (comp st' cur = comp st cur ++ [v]) as Ecur by (rewrite Ec; by rewrite decide_True).
  split; [|split; [done|intros c Hc; by rewrite Ec, decide_False]].
  assert (∀ c x, x ∈ comp st' c ↔ x ∈ comp st c ∨ (c = cur ∧ x = v)) as Hin.
  { intros c x. rewrite Ec. case_decide as E; [subst; rewrite elem_of_app, list_elem_of_singleton|]; naive_solver. }
  split.
  - intros x [->%elem_of_singleton|Hx]%elem_of_union; [done|by apply In].
  - simpl. destruct (filledVertexSet st) as [l|]; simpl; [|done]. destruct Fi as [F1 F2]. split; [by apply NoDup_filter|].
    intros x. rewrite list_elem_of_filter, F2, not_elem_of_union, not_elem_of_singleton. tauto.
  - intros c. simpl. by rewrite lookup_alter_is_Some, size_alter.
  - split; [done|]. intros c Hc. simpl. rewrite lookup_alter_is_Some. by apply H2.
  - intros c Hc. rewrite Ec. case_decide; [|by apply Nd]. apply push_new_nodup; [by apply Nd|done].
  - intros x. simpl. rewrite elem_of_union, elem_of_singleton, Co. split.
    + intros [->|(c & Hc & Hx)]; [exists cur; split; [done|]; apply Hin; auto|exists c; split; [done|]; apply Hin; auto].
    + intros (c & Hc & [Hx|[-> ->]]%Hin); [right; by exists c|by left].
  - intros c c' x Hc Hc' [Hx|[-> ->]]%Hin [Hx'|[-> E]]%Hin; [by eapply Di| | |done].
    + subst x. destruct Hv. apply Co. by exists c.
    + destruct Hv. apply Co. by exists c'.
  - intros c l1 x l2 Hc E. rewrite Ec in E. case_decide as Hcc; [subst c|by eapply Ro].
    destruct l2 as [|z l2 _] using rev_ind.
    + apply app_inj_2 in E as [<- [= <-]]; [|done]. destruct Hlead as [[? _]|(u & Hu & Hs)]; [by left|right; by exists u].
    + rewrite app_comm_cons, app_assoc in E. apply app_inj_2 in E as [E _]; [|done]. by eapply (Ro cur).
  - intros c u w Hc [Hu|[-> ->]]%Hin [Hw|[E ->]]%Hin; [by eapply Li|subst; by apply Hlink| |done].
    symmetry. by apply Hlink.
Qed.

(** A component found to hold a vertex is added to the current one. *)
Lemma fold_push_new l : ∀ acc : list nat, NoDup l → (∀ x, x ∈ l → x ∉ acc) → foldl (λ l x, push_new x l) acc l = acc ++ l.
Proof.
  induction l as [|x l IH]; intros acc Hnd Hl; simpl; [by rewrite app_nil_r|]. apply NoDup_cons in Hnd as [Hx Hnd].
  rewrite push_new_fresh by (apply Hl; left). rewrite IH, <-app_assoc; [done|done|].
  intros y Hy [Hya| ->%list_elem_of_singleton]%elem_of_app; [|done]. apply (Hl y); [by right|done].
Qed.

Lemma elem_of_delete (l : list nat) i c x : NoDup l → l !! i = Some c → x ∈ delete i l ↔ x ∈ l ∧ x ≠ c.
Proof.
  intros Hnd Hi. pose proof (delete_Permutation l i c Hi) as Hp. set (k := delete i l) in *. clearbody k.
  rewrite Hp, elem_of_cons. rewrite Hp in Hnd. apply NoDup_cons in Hnd as [Hc _]. naive_solver.
Qed.

Lemma split_merge R st cur v : split_ok R st → cur ∈ hierarchyVertices st → v ∈ allVertices st → v ∉ comp st cur →
  leads R st cur v → split_ok R (merge_comps v cur st) ∧ progress cur st (merge_comps v cur st) ∧ v ∈ comp (merge_comps v cur st) cur.
Proof.
  intros HS Hcur Hv Hvc Hlead. pose proof (λ u, leads_linked R st cur u v HS Hcur Hlead) as Hlink.
  destruct HS as [In Fi Id [H1 H2] Nd Co Di Ro Li]. unfold merge_comps.
  destruct (list_find _ (hierarchyVertices st)) as [[i c]|] eqn:Ef.
  2:{ exfalso. apply Co in Hv as (c & Hc & Hvc'). by apply (proj1 (Forall_forall _ _) (proj1 (list_find_None _ _) Ef) c Hc). }
  apply list_find_Some in Ef as (Hi & Hvi & _). pose proof (list_elem_of_lookup_2 _ _ _ Hi) as Hc.
  assert (c ≠ cur) as Hne by by intros ->. pose proof (H2 cur Hcur) as Hsome. set (st' := TState _ _ _ _).
  assert (∀ x, x ∈ comp st c → x ∉ comp st cur) as Hdis by (intros x Hx Hx'; apply Hne; by eapply Di).
  assert (∀ k, comp st' k = if decide (k = cur) then comp st cur ++ comp st c else comp st k) as Ec.
  { intros k. simpl. rewrite comp_alter by done. case_decide; [|done]. by rewrite fold_push_new by auto. }
  assert (∀ k, k ∈ hierarchyVertices st' ↔ k ∈ hierarchyVertices st ∧ k ≠ c) as Eh by (intros k; by apply elem_of_delete).
  assert (∀ k x, k ∈ hierarchyVertices st' → x ∈ comp st' k ↔ x ∈ comp st k ∨ (k = cur ∧ x ∈ comp st c)) as Hin.
  { intros k x Hk. rewrite Ec. case_decide as E; [subst; rewrite elem_of_app|]; naive_solver. }
  assert (cur ∈ hierarchyVertices st') as Hcur' by by apply Eh.
  assert (∀ k x, k ∈ hierarchyVertices st → x ∈ comp st k → x ∈ comp st' (if decide (k = c) then cur else k) ∧
    (if decide (k = c) then cur else k) ∈ hierarchyVertices st') as Hmove.
  { intros k x Hk Hx. case_decide; [subst; split; [apply Hin; auto|done]|]. assert (k ∈ hierarchyVertices st') by by apply Eh.
    split; [apply Hin; auto|done]. }
  split; [|split].
  - split; [done|done| | | | | | |].
    + intros k. simpl. by rewrite lookup_alter_is_Some, size_alter.
    + split; [simpl; eapply sublist_NoDup; [exact H1|apply sublist_delete]|]. intros k [Hk _]%Eh. simpl. rewrite lookup_alter_is_Some. by apply H2.
    + intros k [Hk Hkc]%Eh. rewrite Ec. case_decide; [|by apply Nd]. apply NoDup_app. split_and!; [by apply Nd| |by apply Nd].
      intros x Hx Hx'. by apply (Hdis x).
    + intros x. change (allVertices st') with (allVertices st). rewrite Co. split.
      * intros (k & Hk & Hx). destruct (Hmove k x Hk Hx). eauto.
      * intros (k & Hk & [Hx|[-> Hx]]%Hin); [|by exists c|done]. apply Eh in Hk as [Hk _]. by exists k.
    + intros k k' x Hk Hk' Hx Hx'. apply Hin in Hx; [|done]. apply Hin in Hx'; [|done]. apply Eh in Hk as [Hk Hkc], Hk' as [Hk' Hkc'].
      destruct Hx as [Hx|[-> Hx]], Hx' as [Hx'|[-> Hx']]; [by eapply Di| | |done].
      * destruct Hkc. by eapply Di.
      * destruct Hkc'. by eapply (Di k' c x).
    + intros k l1 x l2 Hk E. rewrite Ec in E. apply Eh in Hk as [Hk _]. case_decide as Hkc; [|by eapply Ro].
      apply app_eq_inv in E as [(l & E1 & E2)|(l & E1 & E2)].
      * destruct l as [|z l].
        -- destruct (Ro c [] x l2 Hc (eq_sym E2)) as [?|(u & []%not_elem_of_nil & _)]. by left.
        -- injection E2 as <- _. by apply (Ro cur l1 x l).
      * destruct (Ro c l x l2 Hc E2) as [?|(u & Hu & Hs)]; [by left|right]. exists u. split; [|done]. rewrite E1, elem_of_app. by right.
    + assert (∀ u w, u ∈ comp st cur → w ∈ comp st c → rtsc steps u w) as Hjoin.
      { intros u w Hu Hw. trans v; [by apply Hlink|exact (Li c v w Hc Hvi Hw)]. }
      intros k u w Hk Hu Hw. apply Hin in Hu; [|done]. apply Hin in Hw; [|done]. apply Eh in Hk as [Hk _].
      destruct Hu as [Hu|[-> Hu]], Hw as [Hw|[E Hw]]; subst; [by eapply Li|by apply Hjoin|symmetry; by apply Hjoin|by eapply (Li c)].
  - split; [done|done| | | |done|].
    + intros x Hx. apply Hin; auto.
    + intros u w (k & Hk & Hu & Hw). destruct (Hmove k u Hk Hu) as [? Hk'], (Hmove k w Hk Hw) as [? _]. eexists. split_and!; [exact Hk'|done|done].
    + intros x Hx Hn. done.
    + intros Hfill k [Hk _]%Eh Hkc. rewrite Ec, decide_False by done. by apply Hfill.
  - apply Hin; auto.
Qed.

(** ** The traversal *)

(** The vertices that were not seen: what the fuel of the traversal counts. *)
Definition unseen (st : tstate) : nat := size (list_to_set V ∖ allVertices st : gset nat).

Lemma unseen_progress cur st st' : progress cur st st' → unseen st' ≤ unseen st.
Proof. intros H. unfold unseen. apply subseteq_size. pose proof (p_all _ _ _ H). set_solver. Qed.

Lemma unseen_visit v cur st : v ∈ V → v ∉ allVertices st → unseen (visit_vertex v cur st) < unseen st.
Proof.
  intros HvV Hv. unfold unseen. apply subset_size, strict_spec. simpl. split; [set_solver|]. intros H.
  assert (v ∈ list_to_set V ∖ ({[v]} ∪ allVertices st)) as Hc; [|set_solver].
  apply H, elem_of_difference. by rewrite elem_of_list_to_set.
Qed.

(** What a call of the traversal does with [n] fuel. *)
Definition traverses (n : nat) (R : list nat) (st : tstate) (cur v : nat) : Prop :=
  split_ok R st → cur ∈ hierarchyVertices st → v ∈ V → v ∈ comp st cur ∨ leads R st cur v → unseen st < n →
  ∃ st', traverse g n true (Some v) cur st = Some st' ∧ split_ok R st' ∧ progress cur st st' ∧ v ∈ comp st' cur.

(** One round of the loop over the edges of [v]. *)
Definition edge_round (n v cur : nat) (st : option tstate) (ie : nat * nat) : option tstate :=
  st ← st;
  let edgeIsSource := λ e, bool_decide (getVisibleTerminal g e true = Some v) in
  if negb true || edgeIsSource ie.2 then
    let next := getVisibleTerminal g ie.2 (negb (edgeIsSource ie.2)) in
    if decide (0 ≤ netCount g edgeIsSource (getEdges g v) ie.1 next)%Z then traverse g n true next cur st else Some st
  else Some st.

Lemma edge_round_ok n R v cur st i e : (∀ st w, traverses n R st cur w) → split_ok R st → cur ∈ hierarchyVertices st →
  v ∈ V → v ∈ comp st cur → unseen st < n → getEdges g v !! i = Some e →
  ∃ st', edge_round n v cur (Some st) (i, e) = Some st' ∧ split_ok R st' ∧ progress cur st st' ∧
    ∀ w, getVisibleTerminal g e true = Some v → getVisibleTerminal g e false = Some w → steps v w → w ∈ comp st' cur.
Proof.
  intros IH HS Hcur Hv Hvc Hn Hi. cbn [edge_round mbind option_bind fst snd negb orb].
  case_bool_decide as Hs; [|by exists st]. cbn [negb].
  destruct (getVisibleTerminal g e false) as [w|] eqn:Ht.
  2:{ assert (∃ n', n = S n') as [n' ->] by (exists (pred n); lia). exists st. split; [by case_decide|done]. }
  destruct (decide (w = v)) as [->|Hwv].
  - destruct (IH st v HS Hcur Hv (or_introl Hvc) Hn) as (st' & E & HS' & HP & _). case_decide; [exists st'|exists st];
      (split_and!; [done|done|done|]); by intros w _ [= <-] (_ & [] & _).
  - pose proof (netCount_steps v e i w Hv (not_eq_sym Hwv) Hi Hs Ht) as Hnc. case_decide as Hd.
    + assert (steps v w) as Hvw by by apply Hnc. destruct (IH st w HS Hcur (steps_inside v w Hvw)) as (st' & E & HS' & HP & Hw); [right; right; eauto|done|].
      exists st'. split_and!; [done|done|done|]. by intros w' _ [= <-] _.
    + exists st. split_and!; [done|done|done|]. by intros w' _ [= <-] ?%Hnc.
Qed.

Lemma edge_loop_ok n R v cur l : (∀ st w, traverses n R st cur w) → v ∈ V → (∀ ie, ie ∈ l → getEdges g v !! ie.1 = Some ie.2) →
  ∀ st, split_ok R st → cur ∈ hierarchyVertices st → v ∈ comp st cur → unseen st < n →
  ∃ st', foldl (edge_round n v cur) (Some st) l = Some st' ∧ split_ok R st' ∧ progress cur st st' ∧
    ∀ ie w, ie ∈ l → getVisibleTerminal g ie.2 true = Some v → getVisibleTerminal g ie.2 false = Some w → steps v w → w ∈ comp st' cur.
Proof.
  intros IH Hv. induction l as [|[i e] l IHl]; intros Hl st HS Hcur Hvc Hn.
  - exists st. split_and!; [done|done|done|]. by intros ie w ?%not_elem_of_nil.
  - destruct (edge_round_ok n R v cur st i e IH HS Hcur Hv Hvc Hn (Hl (i, e) (list_elem_of_here _ _))) as (s1 & E1 & S1 & P1 & W1).
    pose proof (unseen_progress _ _ _ P1). destruct (IHl (λ ie H, Hl ie (list_elem_of_further _ _ _ H)) s1) as (s2 & E2 & S2 & P2 & W2);
      [done|by apply (p_cur _ _ _ P1)|by apply (p_comp _ _ _ P1)|lia|].
    exists s2. split_and!; [by cbn [foldl]; rewrite E1|done|by etrans|].
    intros ie w [->|Hie]%elem_of_cons Hs Ht Hw; [|by eapply W2]. by eapply (p_comp _ _ _ P2), W1.
Qed.

(** The traversal ends with enough fuel, and what it reached is laid out together. *)
Lemma traverse_ok n : ∀ R st cur v, traverses n R st cur v.
Proof.
  induction n as [|n IH]; intros R st cur v HS Hcur HvV Hlead Hn; [lia|]. cbn [traverse].
  destruct (decide (v ∈ allVertices st)) as [Hv|Hv].
  { rewrite bool_decide_eq_false_2 by auto. cbn [andb]. destruct (decide (v ∈ comp st cur)) as [Hc|Hc]; [by exists st|].
    destruct Hlead as [?|Hlead]; [done|]. destruct (split_merge R st cur v HS Hcur Hv Hc Hlead) as (? & ? & ?). by eexists. }
  rewrite bool_decide_eq_true_2 by done. cbn [andb].
  assert (leads R st cur v) as Hlead'.
  { destruct Hlead as [Hc|?]; [|done]. destruct Hv. apply (s_cover _ _ HS). by exists cur. }
  destruct (split_visit R st cur v HS Hcur HvV Hv Hlead') as (HS1 & Ecur & Eoth). pose proof (unseen_visit v cur st HvV Hv) as Hun.
  set (s1 := visit_vertex v cur st) in *.
  assert (match filledVertexSet st with None => true | Some l => bool_decide (v ∈ l) end = true) as ->.
  { pose proof (s_filled _ _ HS) as Hf. destruct (filledVertexSet st); [|done]. by apply bool_decide_eq_true_2, Hf. }
  assert (∀ c x, x ∈ comp st c → x ∈ comp s1 c) as Hgrow.
  { intros c x Hx. destruct (decide (c = cur)) as [->|Hc]; [rewrite Ecur; apply elem_of_app; by left|by rewrite Eoth]. }
  destruct (edge_loop_ok n R v cur (imap pair (getEdges g v)) (λ st w, IH R st cur w) HvV) with (st := s1) as (st' & E & HS' & HP & HW).
  - intros [i e] (j & e' & [= -> ->] & H)%elem_of_lookup_imap. done.
  - done.
  - done.
  - rewrite Ecur. apply elem_of_app. right. left.
  - lia.
  - assert (v ∈ comp st' cur) as Hvc by (apply (p_comp _ _ _ HP); rewrite Ecur; apply elem_of_app; right; left).
    assert (cur ∈ hierarchyVertices st') as Hcur' by by apply (p_cur _ _ _ HP).
    exists st'. split_and!; [exact E|done| |done]. split.
    + intros x Hx. apply (p_all _ _ _ HP). simpl. set_solver.
    + done.
    + intros x Hx. by apply (p_comp _ _ _ HP), Hgrow.
    + intros u w (c & Hc & Hu & Hw). apply (p_together _ _ _ HP). exists c. split_and!; [done|by apply Hgrow|by apply Hgrow].
    + intros x Hx Hnx. destruct (decide (x = v)) as [->|Hxv].
      * intros w Hw. exists cur. split_and!; [done|done|]. pose proof Hw as (_ & _ & Hd & _). destruct (directed v w) as [|e l] eqn:Ed; [done|].
        assert (e ∈ directed v w) as ([i Hi]%list_elem_of_lookup & Hs & Ht)%elem_of_directed by (rewrite Ed; left).
        apply (HW (i, e)); [|done|done|done]. apply elem_of_lookup_imap. by exists i, e.
      * apply (p_closed _ _ _ HP); [done|]. simpl. set_solver.
    + rewrite (p_kind _ _ _ HP). simpl. by destruct (filledVertexSet st).
    + intros Hfill. apply (p_filled _ _ _ HP). intros c Hc Hne. rewrite Eoth by done. by apply Hfill.
Qed.

End Split.
End LayoutTraverse.
