(* ===== verification/LayoutRun.v ===== *)
(** * Splitting a graph and laying out its hierarchies

    The hierarchies of a graph are its connected components, so that the constructor and the
    stages run on every one of them. *)

From S2P Require Import Prelude Crossings Hierarchy HierarchyCycles HierarchyRanks HierarchyStages Layout LayoutBuild LayoutTraverse.
Import Crossings Hierarchy HierarchyCycles HierarchyRanks HierarchyStages Layout LayoutBuild LayoutTraverse.
#[local] Open Scope nat_scope.

Module LayoutRun.

Section Split.
Context (g : lgraph) (V : list nat) (HL : consistent g V).

Abbreviation comp st c := (comps st !!! c : list nat).
Abbreviation steps := (steps g V).
Abbreviation split_ok := (split_ok g V).

(** Every edge of the traversal from a vertex that was seen stays in its component. *)
Record settled (st : tstate) : Prop := {
  se_closed : ∀ v, v ∈ allVertices st → closed_at g V st v;
  se_filled : ∀ c, c ∈ hierarchyVertices st → comp st c ≠ []
}.

(** ** Roots *)

Lemma split_more R R' st : split_ok R st → R ⊆ R' → split_ok R' st.
Proof.
  intros [In Fi Id Hi Nd Co Di Ro Li] HR. split; try done. intros c l1 v l2 Hc E.
  destruct (Ro c l1 v l2 Hc E) as [?|?]; [left; by apply HR|by right].
Qed.

(** What is kept from one root to the next. *)
Record advance (st st' : tstate) : Prop := {
  a_all : allVertices st ⊆ allVertices st';
  a_settled : settled st';
  a_kind : filledVertexSet st' = None ↔ filledVertexSet st = None
}.

(** The state with a new component for a root. *)
Definition with_comp (st : tstate) : tstate :=
  TState (allVertices st) (<[size (comps st) := []]> (comps st)) (hierarchyVertices st ++ [size (comps st)]) (filledVertexSet st).

Lemma with_comp_ok R st : split_ok R st → split_ok R (with_comp st) ∧ comp (with_comp st) (size (comps st)) = [] ∧
  ∀ c, c ∈ hierarchyVertices st → comp (with_comp st) c = comp st c.
Proof.
  intros [In Fi Id [H1 H2] Nd Co Di Ro Li]. set (new := size (comps st)).
  assert (comps st !! new = None) as Hnew by (apply eq_None_not_Some; rewrite Id; unfold new; lia).
  assert (new ∉ hierarchyVertices st) as Hni by (intros H%H2; rewrite Hnew in H; by destruct H).
  assert (comp (with_comp st) new = []) as Enew by apply lookup_total_insert_eq.
  assert (∀ c, c ∈ hierarchyVertices st → comp (with_comp st) c = comp st c) as Eold.
  { intros c Hc. apply lookup_total_insert_ne. by intros <-. }
  assert (∀ c x, c ∈ hierarchyVertices (with_comp st) → x ∈ comp (with_comp st) c → c ∈ hierarchyVertices st ∧ x ∈ comp st c) as Hin.
  { intros c x [Hc| ->%list_elem_of_singleton]%elem_of_app Hx; [by rewrite Eold in Hx|]. fold new in Hx. rewrite Enew in Hx. by apply not_elem_of_nil in Hx. }
  split; [|done]. split.
  - done.
  - done.
  - intros c. simpl. rewrite lookup_insert_is_Some, map_size_insert_None, Id by done. fold new. lia.
  - split; [by apply push_new_nodup|]. intros c [Hc| ->%list_elem_of_singleton]%elem_of_app; simpl; rewrite lookup_insert_is_Some; [right|by left].
    split; [by intros <-|by apply H2].
  - intros c [Hc| ->%list_elem_of_singleton]%elem_of_app; [rewrite Eold by done; by apply Nd|]. fold new. rewrite Enew. constructor.
  - intros x. change (allVertices (with_comp st)) with (allVertices st). rewrite Co. split.
    + intros (c & Hc & Hx). exists c. rewrite Eold by done. split; [apply elem_of_app; by left|done].
    + intros (c & Hc & Hx). destruct (Hin c x Hc Hx). by exists c.
  - intros c c' x Hc Hc' Hx Hx'. destruct (Hin c x Hc Hx), (Hin c' x Hc' Hx'). by eapply Di.
  - intros c l1 x l2 Hc E. assert (x ∈ comp (with_comp st) c) as Hx by (rewrite E; apply elem_of_app; right; left).
    destruct (Hin c x Hc Hx) as [Hc' _]. rewrite Eold in E by done. by eapply Ro.
  - intros c u w Hc Hu Hw. destruct (Hin c u Hc Hu), (Hin c w Hc Hw). by eapply Li.
Qed.

Lemma traverse_root_ok n R st r : split_ok R st → settled st → r ∈ V → r ∈ R → unseen V st < n →
  ∃ st', traverse_root g n st r = Some st' ∧ split_ok R st' ∧ advance st st' ∧ r ∈ allVertices st'.
Proof.
  intros HS Hset HrV HrR Hn. destruct (with_comp_ok R st HS) as (HS0 & E0 & Eold). set (new := size (comps st)) in *.
  assert (new ∈ hierarchyVertices (with_comp st)) as Hnew by (apply elem_of_app; right; left).
  destruct (traverse_ok g V HL n R (with_comp st) new r HS0 Hnew HrV) as (st' & E & HS' & HP & Hr); [right; left; done|done|].
  exists st'. split_and!; [exact E|done| |apply (s_cover _ _ _ _ HS'); exists new; split; [by apply (p_cur _ _ _ _ _ HP)|done]].
  split; [by apply (p_all _ _ _ _ _ HP)| |by rewrite (p_kind _ _ _ _ _ HP)]. split.
  - intros v Hv. destruct (decide (v ∈ allVertices st)) as [H|H]; [|by apply (p_closed _ _ _ _ _ HP)].
    intros w Hw. apply (p_together _ _ _ _ _ HP). destruct (se_closed _ Hset v H w Hw) as (c & Hc & Hvc & Hwc).
    exists c. rewrite Eold by done. split_and!; [apply elem_of_app; by left|done|done].
  - intros c Hc. destruct (decide (c = new)) as [->|Hne]; [intros E'; rewrite E' in Hr; by apply elem_of_nil in Hr|].
    apply (p_filled _ _ _ _ _ HP); [|done|done]. intros c' [Hc'| ->%list_elem_of_singleton]%elem_of_app Hn'; [|done].
    rewrite Eold by done. by apply (se_filled _ Hset).
Qed.

Lemma traverse_roots_ok n R rs : ∀ st, split_ok R st → settled st → (∀ r, r ∈ rs → r ∈ V ∧ r ∈ R) → unseen V st < n →
  ∃ st', traverse_roots g n rs st = Some st' ∧ split_ok R st' ∧ advance st st' ∧ ∀ r, r ∈ rs → r ∈ allVertices st'.
Proof.
  induction rs as [|r rs IH]; intros st HS Hset Hrs Hn.
  - exists st. split_and!; [done|done|by split|]. by intros r ?%not_elem_of_nil.
  - destruct (Hrs r (list_elem_of_here _ _)) as [HrV HrR].
    destruct (traverse_root_ok n R st r HS Hset HrV HrR Hn) as (s1 & E1 & S1 & [A1 T1 K1] & R1).
    assert (unseen V s1 ≤ unseen V st) by (unfold unseen; apply subseteq_size; set_solver).
    destruct (IH s1 S1 T1) as (s2 & E2 & S2 & [A2 T2 K2] & R2); [intros; apply Hrs; by right|lia|].
    exists s2. split_and!; [unfold traverse_roots; cbn [foldl mbind option_bind]; by rewrite E1|done| |].
    + split; [by etrans|done|by rewrite K2].
    + intros x [->|Hx]%elem_of_cons; [by apply A2|by apply R2].
Qed.

(** ** Looking for roots *)

(** The numbers that the layout starts from are out of reach: the difference of [findRoots], the
    rank where the longest path starts, and the limit of the sort of the last stage. *)
Record bounded : Prop := {
  bd_degree : ∀ v, v ∈ V → (Z.of_nat (length (getEdges g v)) < 100000)%Z;
  bd_vertices : (Z.of_nat (length V) ≤ SOURCESCANSTARTRANK)%Z;
  bd_cells : (Z.of_nat (cell_bound g V) ≤ 2 ^ 30)%Z
}.
Context (HB : bounded).

Lemma accepted_visible v : v ∈ V → isVertexCell g v && isCellVisible g v = true.
Proof.
  intros Hv. destruct (l_accepted _ _ HL v Hv) as [H1 H2]. revert H2. unfold isVertexIgnored. rewrite H1. by destruct (isCellVisible g v).
Qed.

Lemma fan_bound v : v ∈ V → (-100000 < Z.of_nat (fanOut g v) - Z.of_nat (fanIn g v))%Z.
Proof.
  intros Hv. pose proof (bd_degree HB v Hv). assert (fanIn g v ≤ length (getEdges g v)) by (unfold fanIn; apply length_filter). lia.
Qed.

Lemma root_fold l : ∀ roots best maxDiff, (∀ v, v ∈ l → v ∈ V) → (best = None → maxDiff = (-100000)%Z) →
  ∃ roots' best' maxDiff', foldl (root_step g) (roots, best, maxDiff) l = (roots', best', maxDiff') ∧
    (∀ r, r ∈ roots' → r ∈ roots ∨ r ∈ l) ∧ (∀ b, best' = Some b → best = Some b ∨ b ∈ l) ∧ (l ≠ [] ∨ is_Some best → is_Some best') ∧
    (NoDup (roots ++ l) → NoDup roots').
Proof.
  induction l as [|v l IH]; intros roots best maxDiff Hl Hb.
  - exists roots, best, maxDiff. split_and!; [done|by left|by left|by intros [?|?]|by rewrite app_nil_r].
  - cbn [foldl]. unfold root_step at 2. rewrite accepted_visible by (apply Hl; left). set (rs := if decide _ then _ else roots).
    assert (∀ r, r ∈ rs → r ∈ roots ∨ r = v) as Hrs.
    { intros r. unfold rs. case_decide; [|by left]. rewrite elem_of_app, list_elem_of_singleton. tauto. }
    assert (NoDup (roots ++ v :: l) → NoDup (rs ++ l)) as Hnd.
    { unfold rs. case_decide; [by rewrite <-app_assoc|]. intros H0. eapply sublist_NoDup; [exact H0|]. apply sublist_app; [done|by apply sublist_cons]. }
    assert (∀ v, v ∈ l → v ∈ V) as Hl' by (intros; apply Hl; by right). case_decide as Hd.
    + destruct (IH rs (Some v) (Z.of_nat (fanOut g v) - Z.of_nat (fanIn g v))%Z Hl') as (r' & b' & d' & E & H1 & H2 & H3 & H4); [done|].
      exists r', b', d'. split_and!; [done| | |intros _; apply H3; by right|auto].
      * intros r [Hr|?]%H1; [destruct (Hrs r Hr) as [?| ->]; [by left|right; left]|right; by right].
      * intros b [[= <-]|?]%H2; right; [left|by right].
    + destruct (IH rs best maxDiff Hl' Hb) as (r' & b' & d' & E & H1 & H2 & H3 & H4).
      exists r', b', d'. split_and!; [done| | | |auto].
      * intros r [Hr|?]%H1; [destruct (Hrs r Hr) as [?| ->]; [by left|right; left]|right; by right].
      * intros b [?|?]%H2; [by left|right; by right].
      * intros _. apply H3. right. destruct best as [b|]; [done|]. destruct Hd. rewrite Hb by done. apply fan_bound, Hl. left.
Qed.

(** There are roots as long as there are vertices, and they are among them. *)
Lemma findRoots_ok l : l ≠ [] → (∀ v, v ∈ l → v ∈ V) → findRoots g l ≠ [] ∧ (∀ r, r ∈ findRoots g l → r ∈ l) ∧ (NoDup l → NoDup (findRoots g l)).
Proof.
  intros Hl HV. unfold findRoots. destruct (root_fold l [] None (-100000) HV) as (rs & b & d & -> & H1 & H2 & H3 & H4); [done|].
  destruct H3 as [best ->]; [by left|]. destruct rs as [|r0 rs].
  - split_and!; [done| |intros _; apply NoDup_singleton]. intros r ->%list_elem_of_singleton. by destruct (H2 best eq_refl).
  - split_and!; [done| |done]. intros r Hr. destruct (H1 r Hr) as [?%not_elem_of_nil|?]; done.
Qed.

(** ** The loop *)

Lemma fill_loop_ok k n : ∀ roots st l, split_ok roots st → settled st → filledVertexSet st = Some l → length l ≤ k → length V < n →
  (∀ r, r ∈ roots → r ∈ allVertices st) → NoDup roots →
  ∃ roots' st', fill_loop g k n roots st = Some (roots', st') ∧ split_ok roots' st' ∧ settled st' ∧
    (∀ v, v ∈ V → v ∈ allVertices st') ∧ NoDup roots' ∧ ∀ r, r ∈ roots' → r ∈ V.
Proof.
  induction k as [|k IH]; intros roots st l HS Hset Hf Hk Hn HrV Hrn; pose proof (s_filled _ _ _ _ HS) as Hfill; rewrite Hf in Hfill;
    destruct Hfill as [Hnd Hfill]; (destruct l as [|v l];
      [exists roots, st; split_and!; [simpl; by rewrite Hf|done|done| |done|intros r Hr; by apply (s_inside _ _ _ _ HS), HrV];
       intros v Hv; destruct (decide (v ∈ allVertices st)); [done|]; destruct (not_elem_of_nil v (proj2 (Hfill v) (conj Hv ltac:(done))))|]); [simpl in Hk; lia|].
  cbn [fill_loop]. rewrite Hf. cbv beta zeta. assert (∀ x, x ∈ v :: l → x ∈ V) as HlV by (intros x Hx; by apply Hfill).
  destruct (findRoots_ok (v :: l)) as (Hne & Hin & Hnr); [done|done|]. set (rs := findRoots g (v :: l)) in *.
  assert (unseen V st < n) as Hun.
  { eapply Nat.le_lt_trans; [|exact Hn]. etrans; [|apply size_list_to_set_le]. unfold unseen. apply subseteq_size. set_solver. }
  destruct (traverse_roots_ok n (roots ++ rs) rs st) as (s1 & E1 & S1 & [A1 T1 K1] & R1).
  - eapply split_more; [done|]. intros r Hr. apply elem_of_app. by left.
  - done.
  - intros r Hr. split; [by apply HlV, Hin|]. apply elem_of_app. by right.
  - done.
  - rewrite E1. cbn [mbind option_bind]. destruct (filledVertexSet s1) as [l1|] eqn:F1; [|rewrite Hf in K1; discriminate (proj1 K1 eq_refl)].
    pose proof (s_filled _ _ _ _ S1) as Hfill1. rewrite F1 in Hfill1. destruct Hfill1 as [Hnd1 Hfill1].
    apply (IH (roots ++ rs) s1 l1); [done|done|done| |done| |].
    + destruct rs as [|r rs'] eqn:Ers; [done|]. assert (r ∈ r :: rs') as Hr by left.
      assert (length (r :: l1) ≤ length (v :: l)) as Hlen; [|simpl in Hlen, Hk; lia].
      apply submseteq_length, NoDup_submseteq.
      * apply NoDup_cons. split; [|done]. intros [_ H]%Hfill1. by apply H, R1.
      * intros x [->|Hx]%elem_of_cons; [by apply Hin|]. apply Hfill1 in Hx as [HxV Hx]. apply Hfill. split; [done|]. intros H. by apply Hx, A1.
    + intros r [?|Hr]%elem_of_app; [by apply A1, HrV|by apply R1].
    + apply NoDup_app. split_and!; [done| |by apply Hnr]. intros r Hr [_ H]%Hin%Hfill. by apply H, HrV.
Qed.

(** ** The hierarchies *)

(** What the split gives: no vertex twice, every hierarchy closed and in an order in which
    every vertex but the roots follows another one. *)
Record hierarchies_of (roots : list nat) (hs : list (list nat)) : Prop := {
  h_inside : ∀ h v, h ∈ hs → v ∈ h → v ∈ V;
  h_nodup : NoDup (concat hs);
  h_rooted : ∀ h, h ∈ hs → rooted g h roots;
  h_closed : ∀ h u w, h ∈ hs → u ∈ h → steps u w → w ∈ h;
  h_linked : ∀ h u w, h ∈ hs → u ∈ h → w ∈ h → rtsc steps u w;
  h_filled : ∀ h, h ∈ hs → h ≠ []
}.

Lemma NoDup_concat_indexed (f : nat → list nat) cs : NoDup cs → (∀ c, c ∈ cs → NoDup (f c)) →
  (∀ c c' x, c ∈ cs → c' ∈ cs → x ∈ f c → x ∈ f c' → c = c') → NoDup (concat (f <$> cs)).
Proof.
  induction cs as [|c cs IH]; intros Hnd Hf Hd; csimpl; [constructor|]. apply NoDup_cons in Hnd as [Hc Hnd].
  apply NoDup_app. split_and!; [apply Hf; left| |apply IH; [done|intros; apply Hf; by right|intros; eapply Hd; [by right..|done|done]]].
  intros x Hx (l & Hxl & Hl)%elem_of_concat. apply list_elem_of_fmap in Hl as (c' & -> & Hc'). apply Hc.
  rewrite (Hd c c' x); [done|left|by right|done|done].
Qed.

Abbreviation result st := ((λ c, comps st !!! c) <$> hierarchyVertices st : list (list nat)).

Lemma result_vertices R st v : split_ok R st → v ∈ concat (result st) ↔ v ∈ allVertices st.
Proof.
  intros HS. rewrite (s_cover _ _ _ _ HS), elem_of_concat. split.
  - intros (l & Hv & (c & -> & Hc)%list_elem_of_fmap). by exists c.
  - intros (c & Hc & Hv). exists (comp st c). split; [done|]. exact (list_elem_of_fmap_2 (λ c, comp st c) _ _ Hc).
Qed.

Lemma split_result roots st : split_ok roots st → settled st → hierarchies_of roots (result st).
Proof.
  intros HS Hset. pose proof HS as [In Fi Id [H1 H2] Nd Co Di Ro Li].
  assert (∀ h, h ∈ result st → ∃ c, h = comp st c ∧ c ∈ hierarchyVertices st) as Hh by (intros h; apply list_elem_of_fmap).
  assert (∀ c x, c ∈ hierarchyVertices st → x ∈ comp st c → x ∈ V) as HcV by (intros c x Hc Hx; apply In, Co; by exists c).
  split.
  - intros h v (c & -> & Hc)%Hh Hv. by eapply HcV.
  - by apply NoDup_concat_indexed.
  - intros h (c & -> & Hc)%Hh l1 v l2 E. destruct (Ro c l1 v l2 Hc E) as [?|(u & Hu & Hs)]; [by left|right]. exists u. split; [done|].
    apply (steps_joins g V HL); [| |done]; apply (HcV c); rewrite ?E, ?elem_of_app; [done|by left|done|right; left].
  - intros h u w (c & -> & Hc)%Hh Hu Hs. destruct (se_closed _ Hset u) with (w := w) as (c' & Hc' & Hu' & Hw'); [apply Co; by exists c|done|].
    by rewrite (Di c c' u Hc Hc' Hu Hu').
  - intros h u w (c & -> & Hc)%Hh Hu Hw. by eapply (Li c).
  - intros h (c & -> & Hc)%Hh. by apply (se_filled _ Hset).
Qed.

Lemma split_start l : NoDup l → (∀ v, v ∈ l ↔ v ∈ V) → split_ok [] (TState ∅ ∅ [] (Some l)) ∧ split_ok [] (TState ∅ ∅ [] None).
Proof.
  clear HL HB.
  intros Hnd Hl. assert (∀ c, is_Some ((∅ : gmap nat (list nat)) !! c) ↔ c < 0) as Hs.
  { intros c. rewrite lookup_empty. split; [by intros [? ?]|lia]. }
  split; (split; [set_solver| |done|by split; [constructor|intros c ?%not_elem_of_nil]|by intros c ?%not_elem_of_nil| |
    by intros c c' v ?%not_elem_of_nil|by intros c l1 v l2 ?%not_elem_of_nil|by intros c u w ?%not_elem_of_nil]).
  - split; [done|]. intros v. rewrite Hl. set_solver.
  - intros v. split; [set_solver|]. by intros (c & ?%not_elem_of_nil & _).
  - done.
  - intros v. split; [set_solver|]. by intros (c & ?%not_elem_of_nil & _).
Qed.

(** The split of all vertices. *)
Lemma split_all n : length V < n → ∃ roots hs, split_hierarchies g n None V = Some (roots, hs) ∧ hierarchies_of roots hs ∧
  concat hs ≡ₚ V ∧ NoDup roots ∧ ∀ r, r ∈ roots → r ∈ V.
Proof.
  intros Hn. destruct (split_start V (l_nodup _ _ HL)) as [HS _]; [done|].
  destruct (fill_loop_ok n n [] _ V HS) as (roots & st & E & HS' & Hset & Hall & Hnd & Hr);
    [split; [intros v; set_solver|by intros c ?%elem_of_nil]|done|lia|done|by intros r ?%not_elem_of_nil|constructor|].
  exists roots, (result st). pose proof (split_result roots st HS' Hset) as Hres. split_and!; [|done| |done|done].
  - unfold split_hierarchies. rewrite E. done.
  - apply NoDup_Permutation; [by apply h_nodup with roots|by apply (l_nodup _ _ HL)|]. intros v.
    rewrite (result_vertices roots st v HS'). split; [by apply (s_inside _ _ _ _ HS')|by apply Hall].
Qed.

(** The split from given roots. *)
Lemma split_given n rs ds : length V < n → (∀ r, r ∈ rs → r ∈ V) → ∃ hs, split_hierarchies g n (Some rs) ds = Some (rs, hs) ∧
  hierarchies_of rs hs ∧ ∀ r, r ∈ rs → r ∈ concat hs.
Proof.
  clear HB.
  intros Hn Hrs. destruct (split_start V (l_nodup _ _ HL)) as [_ HS]; [done|].
  destruct (traverse_roots_ok n rs rs (TState ∅ ∅ [] None)) as (st & E & HS' & [_ Hset _] & Hr).
  - eapply split_more; [exact HS|]. by intros r ?%not_elem_of_nil.
  - split; [intros v; set_solver|by intros c ?%elem_of_nil].
  - auto.
  - eapply Nat.le_lt_trans; [|exact Hn]. etrans; [|apply size_list_to_set_le]. unfold unseen. apply subseteq_size. set_solver.
  - exists (result st). split_and!; [unfold split_hierarchies; by rewrite E|by apply split_result|].
    intros r H. by apply (result_vertices rs st r HS'), Hr.
Qed.

(** Hierarchies are connected components. *)
Lemma hierarchy_component roots hs h u w : hierarchies_of roots hs → concat hs ≡ₚ V → h ∈ hs → u ∈ h → w ∈ h ↔ rtsc steps u w.
Proof.
  intros HH HP Hh Hu. split; [by apply (h_linked _ _ HH)|]. intros Hr. revert Hu. induction Hr as [|u v w [H|H] _ IH]; intros Hu; [done|..]; apply IH.
  - by apply (h_closed _ _ HH h u v).
  - assert (v ∈ concat hs) as (h' & Hv & Hh')%elem_of_concat by (rewrite HP; by destruct H).
    pose proof (h_closed _ _ HH h' v u Hh' Hv H) as Hu'.
    assert (h = h') as ->; [|done]. clear -HH Hh Hh' Hu Hu'. pose proof (h_nodup _ _ HH) as Hnd. clear HH.
    induction hs as [|k hs IH]; [by apply not_elem_of_nil in Hh|]. simpl in Hnd. apply NoDup_app in Hnd as (_ & Hd & Hnd).
    apply elem_of_cons in Hh as [->|Hh], Hh' as [->|Hh']; [done| | |by apply IH].
    + destruct (Hd u Hu). apply elem_of_concat. by exists h'.
    + destruct (Hd u Hu'). apply elem_of_concat. by exists h.
Qed.

(** Hierarchies hold what the roots lead to. *)
Lemma hierarchy_reach roots hs v : hierarchies_of roots hs → (∀ r, r ∈ roots → r ∈ concat hs) →
  v ∈ concat hs ↔ ∃ r, r ∈ roots ∧ rtc steps r v.
Proof.
  intros HH Hr. split.
  - intros (h & Hv & Hh)%elem_of_concat. apply list_elem_of_split in Hv as (l1 & l2 & E). remember (length l1) as k eqn:Hk.
    revert v l1 l2 E Hk. induction k as [k IH] using lt_wf_ind. intros v l1 l2 E ->.
    destruct (h_rooted _ _ HH h Hh l1 v l2 E) as [?|(u & Hu & Hj)]; [by exists v|].
    assert (∀ x, x ∈ h → x ∈ V) as HhV by (intros x; by apply (h_inside _ _ HH)).
    apply list_elem_of_split in Hu as (l3 & l4 & ->). rewrite <-app_assoc in E.
    destruct (IH (length l3)) with (v := u) (l1 := l3) (l2 := l4 ++ v :: l2) as (r & Hrr & Hru); [rewrite length_app; simpl; lia|done|done|].
    exists r. split; [done|]. eapply rtc_r; [exact Hru|]. apply (steps_joins g V HL); [| |done]; apply HhV; rewrite E.
    + apply elem_of_app. right. left.
    + apply elem_of_app. right. right. apply elem_of_app. right. left.
  - intros (r & Hrr & Hrv). specialize (Hr r Hrr). clear Hrr. induction Hrv as [|r u v Hs _ IH]; [done|]. apply IH.
    apply elem_of_concat in Hr as (h & Hv & Hh). apply elem_of_concat. exists h. split; [|done]. by apply (h_closed _ _ HH h r u).
Qed.

(** ** Laying out a hierarchy *)

(** What laying out the hierarchy [h] gives: every vertex in the list of its rank, and for
    every two vertices that are connected an edge that leads to the lower rank, marked as
    reversed when that is not its own direction. *)
Record laid_out (h : list nat) (m : hmodel) : Prop := {
  lo_vertices : (vertexMapper m).*1 = h;
  lo_list : ∀ v n, (v, n) ∈ vertexMapper m → ∃ l, ranks m !! Z.to_nat (maxRank (cells m !!! n)) = Some l ∧ n ∈ l;
  lo_edge : ∀ x y nx ny, (x, nx) ∈ vertexMapper m → (y, ny) ∈ vertexMapper m → internal g h x y → ∃ e,
    (isReversed (cells m !!! e) = false ∧ e ∈ out m nx ∧ src m e = nx ∧ tgt m e = ny ∧ (maxRank (cells m !!! ny) < maxRank (cells m !!! nx))%Z) ∨
    (isReversed (cells m !!! e) = true ∧ e ∈ out m ny ∧ src m e = ny ∧ tgt m e = nx ∧ (maxRank (cells m !!! nx) < maxRank (cells m !!! ny))%Z)
}.

Lemma staged_laid_out h rs m m' : constructed g h rs m → staged m m' → laid_out h m'.
Proof.
  intros [Gr Ve Ro Ge Nd Ed Si Fo] [Ev En Rk Ls Kp La Sm Nn Ac].
  assert (∀ v n, (v, n) ∈ vertexMapper m → n ∈ vertexMapper_values m) as Hval by (intros v n H; exact (list_elem_of_fmap_2 snd _ _ H)).
  split; rewrite ?Ev; [done|intros v n Hn; by apply Ls, (Hval v)|].
  intros x y nx ny Hx Hy Hi. apply (Ed x nx y ny Hx Hy) in Hi as (e & He & Ht). exists e.
  pose proof (Kp nx e (Hval x nx Hx) He) as Hk. pose proof (Fo x nx e Hx He) as Hf.
  destruct (g_out _ _ Gr nx e (Hval x nx Hx) He) as (_ & _ & Hs & _).
  destruct (En e) as [(E1 & E2 & E3)|(E1 & E2 & E3)]; rewrite Hf in E3; [left; rewrite Hs in E1|right; rewrite Hs in E2];
    rewrite Ht in *; rewrite E1 in Hk; [destruct (Rk nx e (Hval x nx Hx) Hk) as [_ Hr]|destruct (Rk ny e (Hval y ny Hy) Hk) as [_ Hr]];
    rewrite E2 in Hr; by split_and!.
Qed.

Lemma sum_list_submseteq (f : nat → nat) l k : l ⊆+ k → sum_list (f <$> l) ≤ sum_list (f <$> k).
Proof.
  intros H. induction H as [|x l k _ IH|x y l|x l k _ IH|l1 l2 l3 _ IH1 _ IH2]; csimpl; lia.
Qed.

Lemma hierarchy_inside roots hs h : hierarchies_of roots hs → h ∈ hs → NoDup h ∧ h ⊆+ V.
Proof.
  intros HH Hh. assert (NoDup h) as Hnd; [|split; [done|apply NoDup_submseteq; [done|intros x; by apply (h_inside _ _ HH)]]].
  apply list_elem_of_split in Hh as (h1 & h2 & E). pose proof (h_nodup _ _ HH) as Hc. rewrite E, concat_app in Hc. simpl in Hc.
  apply NoDup_app in Hc as (_ & _ & Hc). by apply NoDup_app in Hc as (? & _ & _).
Qed.

Lemma lay_out_staged k roots hs h : hierarchies_of roots hs → h ∈ hs → (length roots + length h) * (length roots + length h) ≤ k →
  symmetric g h ∧ (∀ x y, x ∈ h → joins g x y → y ∈ h) ∧ NoDup h ∧
  ∃ m, lay_out g k h roots = Some m ∧ constructed g h roots (new_hierarchy g h roots) ∧ staged (new_hierarchy g h roots) m.
Proof.
  intros HH Hh Hk. assert (∀ x, x ∈ h → x ∈ V) as HhV by (intros x; by apply (h_inside _ _ HH)).
  destruct (hierarchy_inside roots hs h HH Hh) as [Hnd Hsub]. pose proof (submseteq_length _ _ Hsub) as Hlen.
  pose proof (sum_list_submseteq (λ v, length (getEdges g v)) h V Hsub) as Hsum.
  assert (symmetric g h) as Hsym by (intros x y Hx Hy; apply (l_symmetric _ _ HL); by apply HhV).
  assert (∀ x y, x ∈ h → joins g x y → y ∈ h) as Hcl.
  { intros x y Hx (Hne & Ha & Hd & Hle). apply (h_closed _ _ HH h x y Hh Hx). split_and!; [by apply HhV|done|done|done]. }
  pose proof (new_hierarchy_constructed g h Hsym Hcl roots Hnd) as HC.
  pose proof (bd_vertices HB) as Hbv. pose proof (bd_cells HB) as Hbc. unfold cell_bound in Hbc.
  pose proof (new_hierarchy_fresh g h Hsym Hcl roots Hnd (h_rooted _ _ HH h Hh)) as HF.
  destruct (stages_ok k (new_hierarchy g h roots)) as (m1 & m2 & m3 & E1 & E2 & E3 & HS & _).
  - apply HF; [lia|unfold cell_bound; lia].
  - unfold rank_fuel. assert (length (vertexMapper (new_hierarchy g h roots)) = length h) as -> by by rewrite <-(length_fmap fst), (o_vertices _ _ _ _ HC).
    by rewrite (o_roots _ _ _ _ HC).
  - split_and!; [done|done|done|]. exists m3. split; [unfold lay_out; by rewrite E1; cbn [mbind option_bind]; rewrite E2|done].
Qed.
Lemma lay_out_ok k roots hs h : hierarchies_of roots hs → h ∈ hs → (length roots + length h) * (length roots + length h) ≤ k →
  ∃ m, lay_out g k h roots = Some m ∧ laid_out h m.
Proof.
  intros HH Hh Hk. destruct (lay_out_staged k roots hs h HH Hh Hk) as (_ & _ & _ & m & E & HC & HS). exists m. split; [done|by eapply staged_laid_out].
Qed.

(** *** All hierarchies *)

Lemma mapM_all {A B} (f : A → option B) (P : A → B → Prop) l : (∀ a, a ∈ l → ∃ b, f a = Some b ∧ P a b) →
  ∃ bs, mapM f l = Some bs ∧ Forall2 P l bs.
Proof.
  induction l as [|a l IH]; intros H; [by exists []|]. destruct (H a (list_elem_of_here _ _)) as (b & E & Hb).
  destruct IH as (bs & E' & Hbs); [intros; apply H; by right|]. exists (b :: bs). cbn [mapM mbind option_bind]. rewrite E. cbn [mbind option_bind]. rewrite E'.
  split; [done|by constructor].
Qed.

Lemma lay_out_all k roots hs : hierarchies_of roots hs → (length roots + length V) * (length roots + length V) ≤ k →
  ∃ ms, mapM (λ vs, lay_out g k vs roots) hs = Some ms ∧ Forall2 laid_out hs ms.
Proof.
  intros HH Hk. apply mapM_all. intros h Hh. apply (lay_out_ok k roots hs h HH Hh).
  pose proof (submseteq_length _ _ (proj2 (hierarchy_inside roots hs h HH Hh))). nia.
Qed.

End Split.

(** ** The theorems *)

Lemma graph_of_consistent es V : bool_decide (NoDup V) = true →
  bool_decide (Forall (λ v, Forall (λ e, getVisibleTerminal (graph_of es) e true = Some v ∨ getVisibleTerminal (graph_of es) e false = Some v)
    (getEdges (graph_of es) v)) V) = true →
  bool_decide (Forall (λ v, Forall (λ e, default v (getVisibleTerminal (graph_of es) e false) ∈ V) (getEdges (graph_of es) v)) V) = true →
  bool_decide (Forall (λ v, Forall (λ w, getEdgesBetween (graph_of es) v w false = getEdgesBetween (graph_of es) w v false) V) V) = true →
  consistent (graph_of es) V.
Proof.
  intros Hnd%bool_decide_eq_true He%bool_decide_eq_true Hi Hs. split; [done|done| |by apply inside_check|by apply symmetric_check].
  intros v e Hv Hve. rewrite Forall_forall in He. specialize (He v Hv). rewrite Forall_forall in He. by apply He.
Qed.

(** Three components: edges in both directions between 1 and 4, a cycle from 1 to 3 that 8 also
    leads to, a vertex alone, and 9 and 10 with an edge in each direction. *)
Definition islands : lgraph := graph_of [(100, (1, 2)); (101, (2, 3)); (102, (3, 1)); (103, (1, 4)); (104, (4, 1)); (106, (6, 7));
  (107, (8, 6)); (108, (8, 3)); (109, (9, 10)); (110, (10, 9))].
Definition islanders : list nat := [1; 2; 3; 4; 5; 6; 7; 8; 9; 10].

Lemma islands_consistent : consistent islands islanders.
Proof. apply graph_of_consistent; vm_compute; reflexivity. Qed.

Lemma islands_bounded : bounded islands islanders.
Proof.
  split; [|by vm_compute|by vm_compute].
  assert (Forall (λ v, (Z.of_nat (length (getEdges islands v)) < 100000)%Z) islanders) as H by (apply (bool_decide_unpack _); by vm_compute).
  by rewrite Forall_forall in H.
Qed.

(** C6: The layout runs without error: it splits the vertices into hierarchies, each of them
    once in one of them, and for every hierarchy the constructor and the stages give a model
    in which every vertex is in the list of its rank and every two connected vertices are
    joined by an edge to the lower rank, marked as reversed when most edges lead the other
    way. *)
Theorem run_lays_out g V n k : consistent g V → bounded g V → length V < n → 2 * length V * (2 * length V) ≤ k →
  ∃ roots hs ms, split_hierarchies g n None V = Some (roots, hs) ∧ run g n k None V = Some ms ∧
    concat hs ≡ₚ V ∧ Forall2 (laid_out g) hs ms.
Proof.
  intros HL HB Hn Hk. destruct (split_all g V HL HB n Hn) as (roots & hs & E & HH & HP & Hnd & Hr).
  assert (length roots ≤ length V) as Hlr by by apply submseteq_length, NoDup_submseteq.
  destruct (lay_out_all g V HL HB k roots hs HH) as (ms & Em & Hms); [nia|].
  exists roots, hs, ms. split_and!; [done| |done|done]. unfold run. by rewrite E.
Qed.

Lemma run_lays_out_witness : consistent islands islanders ∧ bounded islands islanders ∧
  (∃ hs ms, run islands 20 400 None islanders = Some ms ∧ concat hs ≡ₚ islanders ∧ Forall2 (laid_out islands) hs ms) ∧
  option_map (map (λ m, ((vertexMapper m).*1, ranks m))) (run islands 20 400 None islanders) =
    Some [([8; 6; 7; 3; 1; 2; 4], [[14; 12]; [6; 9; 13]; [4; 7]; [1]]); ([5], [[1]]); ([9; 10], [[3]; [1]])].
Proof.
  split; [exact islands_consistent|]. split; [exact islands_bounded|]. split; [|vm_compute; reflexivity].
  destruct (run_lays_out islands islanders 20 400 islands_consistent islands_bounded) as (roots & hs & ms & _ & E & Hp & Hf).
  - vm_compute. lia.
  - apply (bool_decide_unpack _). by vm_compute.
  - exists hs, ms. exact (conj E (conj Hp Hf)).
Defined.

(** C11: The hierarchies are the connected components: two vertices are in the same one exactly
    when a sequence of connections, in either direction, leads from one to the other. *)
Theorem split_components g V n : consistent g V → bounded g V → length V < n →
  ∃ roots hs, split_hierarchies g n None V = Some (roots, hs) ∧ concat hs ≡ₚ V ∧
    ∀ h u w, h ∈ hs → u ∈ h → w ∈ h ↔ rtsc (steps g V) u w.
Proof.
  intros HL HB Hn. destruct (split_all g V HL HB n Hn) as (roots & hs & E & HH & HP & _). exists roots, hs.
  split_and!; [done|done|]. intros h u w Hh Hu. by eapply hierarchy_component.
Qed.

Lemma split_components_witness : consistent islands islanders ∧ bounded islands islanders ∧
  (∃ hs, concat hs ≡ₚ islanders ∧ ∀ h u w, h ∈ hs → u ∈ h → w ∈ h ↔ rtsc (steps islands islanders) u w) ∧
  split_hierarchies islands 20 None islanders = Some ([8; 5; 9], [[8; 6; 7; 3; 1; 2; 4]; [5]; [9; 10]]).
Proof.
  split; [exact islands_consistent|]. split; [exact islands_bounded|]. split; [|vm_compute; reflexivity].
  destruct (split_components islands islanders 20 islands_consistent islands_bounded) as (roots & hs & _ & Hp & Hh).
  - vm_compute. lia.
  - by exists hs.
Defined.

(** C17: From given roots, whatever the order and the repetitions among them, the hierarchies
    hold the vertices that the roots lead to, each of them once. *)
Theorem given_roots_reached g V n rs ds : consistent g V → length V < n → (∀ r, r ∈ rs → r ∈ V) →
  ∃ hs, split_hierarchies g n (Some rs) ds = Some (rs, hs) ∧ NoDup (concat hs) ∧
    ∀ v, v ∈ concat hs ↔ ∃ r, r ∈ rs ∧ rtc (steps g V) r v.
Proof.
  intros HL Hn Hrs. destruct (split_given g V HL n rs ds Hn Hrs) as (hs & E & HH & Hin). exists hs.
  split_and!; [done|by eapply h_nodup|]. intros v. by apply (hierarchy_reach g V HL rs hs v HH).
Qed.

Lemma given_roots_reached_witness : consistent islands islanders ∧
  (∃ hs, NoDup (concat hs) ∧ ∀ v, v ∈ concat hs ↔ ∃ r, r ∈ [6; 1; 8; 6] ∧ rtc (steps islands islanders) r v) ∧
  split_hierarchies islands 20 (Some [6; 1; 8; 6]) [] = Some ([6; 1; 8; 6], [[8; 6; 7; 1; 2; 3; 4]]).
Proof.
  split; [exact islands_consistent|]. split; [|vm_compute; reflexivity].
  destruct (given_roots_reached islands islanders 20 [6; 1; 8; 6] [] islands_consistent) as (hs & _ & Hn & Hh).
  - vm_compute. lia.
  - intros r Hr. assert (Forall (λ r, r ∈ islanders) [6; 1; 8; 6]) as H by (apply (bool_decide_unpack _); by vm_compute).
    rewrite Forall_forall in H. by apply H.
  - by exists hs.
Defined.

End LayoutRun.
