(* ===== verification/MxLayout.v ===== *)
(** * The hierarchical layout of a graph model

    What mxHierarchicalLayout asks the graph it lays out: the terminals of an edge that are
    displayed, the edges of a vertex, and the vertices below the parent. For the cells of a
    graph model these answers have the laws the layout relies on. *)

From S2P Require Import Prelude MxGeometry MxCell MxModel MxUndo MxOps Crossings Hierarchy Layout LayoutBuild LayoutTraverse LayoutRun.
Import MxGeometry MxCell MxModel MxUndo MxOps.
#[local] Open Scope nat_scope.

Module MxLayout.

Section Answers.
(** The model; [currentRoot] and [getState] of the view: the displayed terminals of an edge
    that was drawn already; the parent of the layout and its flag. *)
Context (d : data) (currentRoot : option ref) (getState : ref → option (bool → option ref)).
Context (par : option ref) (traverseAncestors : bool).
Abbreviation h := (hp d).

(** The loop of [getVisibleTerminal] of the view. *)
Fixpoint terminal_loop (n : nat) (result best : option ref) : option ref :=
  match n, result with
  | S n, Some _ =>
      if decide (result = currentRoot) then best
      else let best := if negb (isVisible h best) || isCollapsed h result then result else best in
           terminal_loop n (getParent h result) best
  | _, _ => best
  end.

Definition view_getVisibleTerminal (e : ref) (isSource : bool) : option ref :=
  let result := getTerminal h e isSource in
  let best := terminal_loop (fuel h) result result in
  if decide (best ≠ None ∧ (contains d best = false ∨ getParent h best = root d ∨ best = currentRoot)) then None else best.

Definition isPort (cell : ref) : bool :=
  match geometry (h !!! cell) with Some geo => relative geo | None => false end.

(** [getVisibleTerminal] of the layout; what is looked up again when it was null is null again. *)
Definition getVisibleTerminal (e : ref) (isSource : bool) : option ref :=
  let terminal := match getState e with
                  | Some state => state isSource
                  | None => view_getVisibleTerminal e isSource
                  end in
  match terminal with
  | Some t => if isPort t then getParent h (Some t) else Some t
  | None => None
  end.

(** [isAncestor] of the layout. *)
Definition layout_isAncestor (parent child : option ref) : bool :=
  if negb traverseAncestors then bool_decide (getParent h child = parent)
  else negb (bool_decide (child = parent)) && isAncestor h parent child.

Definition child_edges (cell child : ref) : list ref :=
  if isPort child then getEdges h child true true true
  else if isCollapsed h (Some cell) || negb (isVisible h (Some child)) then getEdges h child true true true else [].

Definition layout_getEdges (cell : ref) : list ref :=
  filter (λ e, let source := getVisibleTerminal e true in
               let target := getVisibleTerminal e false in
               source = target ∨
               (source ≠ target ∧
                ((target = Some cell ∧ (par = None ∨ layout_isAncestor par source = true)) ∨
                 (source = Some cell ∧ (par = None ∨ layout_isAncestor par target = true)))))
         (concat (map (child_edges cell) (kids h cell)) ++ getEdges h cell true true true).

(** [filterDescendants] of the layout; the object of vertices by their keys in order. *)
Fixpoint layout_filterDescendants (n : nat) (cell : ref) (result : list ref) : list ref :=
  match n with
  | 0 => result
  | S n =>
      let result := if isVertex h (Some cell) && negb (bool_decide (Some cell = par)) && isVisible h (Some cell)
                    then Layout.push_new cell result else result in
      if traverseAncestors || (bool_decide (Some cell = par) && isVisible h (Some cell)) then
        foldl (λ result child, if isPort child then result else layout_filterDescendants n child result) result (kids h cell)
      else result
  end.

(** The graph as the layout sees it. *)
Definition graph : Layout.lgraph :=
  Layout.LGraph layout_getEdges getVisibleTerminal (λ c, isVertex h (Some c)) (λ c, isVisible h (Some c)).

Definition descendants : list ref :=
  match par with Some p => layout_filterDescendants (fuel h) p [] | None => [] end.

(** [execute(parent, roots)] up to the placement, for a layout whose [roots] are given; the
    result are the new [roots] and the models of the hierarchies. *)
Definition execute (n k : nat) (this_roots roots : option (list ref)) : option (option (list ref) * list Hierarchy.hmodel) :=
  if decide (roots = None ∧ par = None) then Some (this_roots, [])
  else
    let this_roots := match roots with
                      | Some rs => Some (filter (λ r, (bool_decide (par = None) || isAncestor h par (Some r)) && isVertex h (Some r) = true) rs)
                      | None => this_roots
                      end in
    r ← Layout.split_hierarchies graph n this_roots descendants;
    ms ← mapM (λ vs, Layout.lay_out graph k vs r.1) r.2;
    Some (Some r.1, ms).

End Answers.

(** ** The laws *)

Section Laws.
Context (d : data) (currentRoot : option ref) (P : ref) (traverseAncestors : bool).
Abbreviation h := (hp d).
Abbreviation no_state := (λ _ : ref, @None (bool → option ref)).
Abbreviation below v := (layout_isAncestor d traverseAncestors (Some P) (Some v) = true).
Abbreviation G := (graph d currentRoot no_state (Some P) traverseAncestors).
Abbreviation Vs := (descendants d (Some P) traverseAncestors).
Abbreviation terminal e b := (getVisibleTerminal d currentRoot no_state e b).

(** A model whose cells below [P] can be laid out: no cell is collapsed and none at or above a
    vertex is a port; an edge connects vertices that are displayed; nothing was drawn yet. *)
Record layoutable : Prop := {
  y_tree : tree_ok h;
  y_acyclic : acyclic h;
  y_edges : edges_sound h;
  y_attached : ∀ u e, e ∈ eds h u → attached h e;
  y_parent : ∃ r, root d = Some r ∧ r ≠ P ∧ ancestor h r P;
  y_root : ∀ v, ancestor h P v → v ≠ P → currentRoot ≠ Some v;
  y_plain : ∀ c, collapsed (h !!! c) = false;
  y_ports : ∀ u v, ancestor h P u → ancestor h u v → u ≠ P → vertex (h !!! v) = true → isPort d u = false;
  y_terminals : ∀ u e, e ∈ eds h u → vertex (h !!! u) = true ∧ visible (h !!! u) = true ∧ isPort d u = false
}.
Context (HY : layoutable).

Lemma ancestor_antisym x y : ancestor h x y → ancestor h y x → x = y.
Proof.
  intros Hxy Hyx. destruct (y_acyclic HY x) as [n Hn], (y_acyclic HY y) as [m Hm].
  assert (n = m) as <- by (pose proof (depth_ancestor _ _ _ _ _ Hn Hm Hxy); pose proof (depth_ancestor _ _ _ _ _ Hm Hn Hyx); lia).
  destruct Hxy as [y|y z x Hs Hr]; [done|]. exfalso. unfold step_up in Hs.
  inversion Hm as [? Hp|? p k Hp Hk]; subst; [congruence|]. assert (p = z) as -> by congruence.
  pose proof (depth_ancestor _ _ _ _ _ Hn Hk Hr). lia.
Qed.

Lemma below_ancestor v : below v → ancestor h P v ∧ v ≠ P.
Proof.
  unfold layout_isAncestor. destruct traverseAncestors; simpl.
  - intros [H1%negb_true_iff H2]%andb_true_iff. apply bool_decide_eq_false in H1. split; [|congruence].
    by apply (isAncestor_spec h P v (y_acyclic HY)).
  - intros H%bool_decide_eq_true. unfold getParent in H. simpl in H. split; [by apply rtc_once|].
    intros ->. destruct (y_acyclic HY P) as [n Hn]. assert (∀ n, ¬ depth h P n) as Hno; [|by eapply Hno].
    intros k Hk. remember P as Q eqn:EQ in Hk. induction Hk as [c Hc|c p k Hc _ IH]; subst; [congruence|]. apply IH. congruence.
Qed.

Lemma below_parent v : below v → getParent h (Some v) ≠ root d.
Proof.
  intros [Ha Hv]%below_ancestor. destruct (y_parent HY) as (r & -> & Hr & Hrp).
  inversion Ha as [|? q ? Hs Hq]; subst; [done|]. unfold getParent. simpl. unfold step_up in Hs. rewrite Hs.
  intros [= ->]. by apply Hr, ancestor_antisym.
Qed.

Lemma below_contained v : below v → contains d (Some v) = true.
Proof.
  intros [Ha _]%below_ancestor. destruct (y_parent HY) as (r & Er & _ & Hrp). unfold contains. rewrite Er.
  apply (isAncestor_spec h r v (y_acyclic HY)). by etrans.
Qed.

(** *** Displayed terminals *)

Lemma terminal_loop_visible n result t : visible (h !!! t) = true → terminal_loop d currentRoot n result (Some t) = Some t.
Proof.
  intros Hv. revert result. induction n as [|n IH]; intros [r|]; simpl; try done. case_decide; [done|].
  rewrite Hv, (y_plain HY). simpl. apply IH.
Qed.

Lemma terminal_shown u e b : e ∈ eds h u → getTerminal h e b = Some u → terminal e b = None ∨ terminal e b = Some u.
Proof.
  intros He Ht. destruct (y_terminals HY u e He) as (_ & Hv & Hp). unfold getVisibleTerminal, view_getVisibleTerminal.
  rewrite Ht, terminal_loop_visible by done. case_decide; [by left|right]. by rewrite Hp.
Qed.

Lemma terminal_below u e b : e ∈ eds h u → getTerminal h e b = Some u → below u → terminal e b = Some u.
Proof.
  intros He Ht Hu. destruct (y_terminals HY u e He) as (_ & Hv & Hp). unfold getVisibleTerminal, view_getVisibleTerminal.
  rewrite Ht, terminal_loop_visible by done. rewrite decide_False; [by rewrite Hp|].
  intros (_ & [H|[H|H]]); [by rewrite below_contained in H|by apply (below_parent u)|].
  destruct (below_ancestor u Hu) as [Ha Hne]. by apply (y_root HY u Ha Hne).
Qed.

Lemma terminal_actual u e b w : e ∈ eds h u → terminal e b = Some w → getTerminal h e b = Some w ∧ e ∈ eds h w.
Proof.
  intros He Hw. destruct (getTerminal h e b) as [t|] eqn:Et.
  - assert (e ∈ eds h t) as Het by by apply (y_attached HY u e He b t).
    destruct (terminal_shown t e b Het Et) as [E|E]; rewrite E in Hw; [done|]. by injection Hw as ->.
  - exfalso. unfold getVisibleTerminal, view_getVisibleTerminal in Hw. rewrite Et in Hw.
    rewrite decide_False in Hw; [done|]. by intros [[] _].
Qed.

(** *** Edges *)

Lemma edges_listed u : getEdges h u true true true = eds h u.
Proof.
  unfold getEdges. assert (∀ e, e ∈ eds h u → ∃ b, getTerminal h e b = Some u) as H by apply (edges_incident h (y_edges HY)).
  induction (eds h u) as [|e l IH]; [done|]. rewrite filter_cons_True; [f_equal; apply IH; intros; apply H; by right|].
  destruct (H e (list_elem_of_here _ _)) as [b Hb]. cbv zeta. case_bool_decide as E; [done|]. cbn [negb andb orb].
  destruct b; rewrite Hb, (bool_decide_eq_true_2 (Some u = Some u)) by done; [apply orb_true_r|done].
Qed.

Lemma child_edges_nil v c : child_edges d v c = [].
Proof.
  unfold child_edges. rewrite edges_listed. destruct (eds h c) as [|e l] eqn:E; [by destruct (isPort d c), (isCollapsed h (Some v) || negb (isVisible h (Some c)))|].
  destruct (y_terminals HY c e) as (_ & Hv & ->); [rewrite E; left|]. unfold isCollapsed, isVisible. by rewrite (y_plain HY), Hv.
Qed.

Lemma elem_of_edges v e : e ∈ layout_getEdges d currentRoot no_state (Some P) traverseAncestors v ↔ e ∈ eds h v ∧
  (terminal e true = terminal e false ∨ (terminal e false = Some v ∧ layout_isAncestor d traverseAncestors (Some P) (terminal e true) = true) ∨
   (terminal e true = Some v ∧ layout_isAncestor d traverseAncestors (Some P) (terminal e false) = true)).
Proof.
  unfold layout_getEdges. assert (concat (map (child_edges d v) (kids h v)) = []) as ->.
  { induction (kids h v) as [|c l IH]; [done|]. simpl. by rewrite child_edges_nil. }
  simpl. rewrite list_elem_of_filter, edges_listed. destruct (decide (terminal e true = terminal e false)); naive_solver.
Qed.

Lemma edges_nodup_layout v : NoDup (layout_getEdges d currentRoot no_state (Some P) traverseAncestors v).
Proof.
  unfold layout_getEdges. assert (concat (map (child_edges d v) (kids h v)) = []) as ->.
  { induction (kids h v) as [|c l IH]; [done|]. simpl. by rewrite child_edges_nil. }
  simpl. rewrite edges_listed. apply NoDup_filter, (edges_nodup h (y_edges HY)).
Qed.

Lemma edge_end v e : below v → e ∈ eds h v → ∃ b, terminal e b = Some v.
Proof. intros Hv He. destruct (edges_incident h (y_edges HY) v e He) as [b Hb]. exists b. by apply terminal_below. Qed.

(** An edge between two vertices is an edge of both. *)
Lemma between_other x y e : below x → below y → x ≠ y → e ∈ Layout.getEdgesBetween G x y false → e ∈ Layout.getEdgesBetween G y x false.
Proof.
  intros Hx Hy Hxy. rewrite !LayoutBuild.elem_of_between. cbn [Layout.getEdges Layout.getVisibleTerminal graph].
  rewrite !elem_of_edges. intros [[He _] Hor].
  assert (∀ b, terminal e b = Some y → e ∈ eds h y) as Hey by (intros b Hb; by apply (terminal_actual x e b y He)).
  destruct Hor as [[E1 E2]|[E1 E2]]; rewrite E1, E2; (split; [split; [by eapply Hey|]|auto]).
  - right. left. done.
  - right. right. done.
Qed.

(** *** Vertices *)

Abbreviation collect n c acc := (layout_filterDescendants d (Some P) traverseAncestors n c acc).
Definition taken (c : ref) : Prop := vertex (h !!! c) = true ∧ c ≠ P ∧ visible (h !!! c) = true.
Definition drills (c : ref) : Prop := traverseAncestors = true ∨ (c = P ∧ visible (h !!! P) = true).

Inductive found : ref → ref → Prop :=
| found_here c : taken c → found c c
| found_below c k x : drills c → k ∈ kids h c → isPort d k = false → found k x → found c x.

Lemma collect_step n c acc : collect (S n) c acc =
  (let result := if decide (taken c) then Layout.push_new c acc else acc in
   if decide (drills c) then foldl (λ result child, if isPort d child then result else collect n child result) result (kids h c) else result).
Proof.
  cbn [layout_filterDescendants]. cbv zeta. unfold taken, drills, isVertex, isVisible.
  assert (bool_decide (Some c = Some P) = bool_decide (c = P)) as -> by (apply bool_decide_ext; naive_solver).
  destruct (decide (c = P)) as [->|Hc]; [rewrite (bool_decide_eq_true_2 (P = P)) by done|rewrite (bool_decide_eq_false_2 (c = P)) by done];
    destruct (vertex (h !!! _)), (visible (h !!! _)), traverseAncestors; cbn [andb orb negb]; repeat case_decide; naive_solver.
Qed.

Lemma elem_of_push_new x c acc : x ∈ Layout.push_new c acc ↔ x ∈ acc ∨ x = c.
Proof. unfold Layout.push_new. case_decide; [naive_solver|]. rewrite elem_of_app, list_elem_of_singleton. done. Qed.

Lemma collect_sound n : ∀ c acc x, x ∈ collect n c acc → x ∈ acc ∨ found c x.
Proof.
  induction n as [|n IH]; intros c acc x; [by left|]. rewrite collect_step. cbv zeta.
  set (result := if decide (taken c) then _ else acc).
  assert (x ∈ result → x ∈ acc ∨ found c x) as Hr.
  { unfold result. case_decide as Ht; [|by left]. intros [?| ->]%elem_of_push_new; [by left|right]. by constructor. }
  case_decide as Hd; [|done]. assert (∀ l acc, l ⊆ kids h c → x ∈ foldl (λ result child, if isPort d child then result else collect n child result) acc l →
    x ∈ acc ∨ found c x) as Hl; [|intros H; destruct (Hl _ _ (reflexivity _) H); auto].
  intros l. induction l as [|k l IHl]; intros acc' Hk Hx; [by left|]. simpl in Hx.
  assert (l ⊆ kids h c) as Hk' by (intros y Hy; apply Hk; by right). destruct (IHl _ Hk' Hx) as [H|H]; [|by right].
  destruct (isPort d k) eqn:Ep; [by left|]. apply IH in H as [?|H]; [by left|right]. eapply found_below; [done| |done|done].
  apply Hk. left.
Qed.

Lemma collect_grows n : ∀ c acc x, x ∈ acc → x ∈ collect n c acc.
Proof.
  induction n as [|n IH]; intros c acc x Hx; [done|]. rewrite collect_step. cbv zeta. set (result := if decide (taken c) then _ else acc).
  assert (x ∈ result) as Hr by (unfold result; case_decide; [apply elem_of_push_new; by left|done]).
  case_decide; [|done]. revert Hr. generalize result. induction (kids h c) as [|k l IHl]; intros acc' Hr; [done|]. simpl.
  apply IHl. destruct (isPort d k); [done|by apply IH].
Qed.

Lemma found_ancestor c x : found c x → ancestor h c x.
Proof.
  induction 1 as [c _|c k x _ Hk _ _ IH]; [done|]. eapply rtc_r; [exact IH|]. by apply (tree_parent h (y_tree HY)).
Qed.

Lemma collect_complete c x : found c x → ∀ n dc dx acc, depth h c dc → depth h x dx → dx < n + dc → x ∈ collect n c acc.
Proof.
  induction 1 as [c Ht|c k x Hd Hk Hp Hf IH]; intros n dc dx acc Hc Hx Hlt.
  - destruct n as [|n]; [rewrite (depth_fun _ _ _ _ Hc Hx) in Hlt; lia|]. rewrite collect_step, (decide_True _ _ Ht). cbv zeta.
    assert (c ∈ Layout.push_new c acc) as Hr by (apply elem_of_push_new; by right).
    case_decide; [|done]. revert Hr. generalize (Layout.push_new c acc).
    induction (kids h c) as [|k l IHl]; intros acc' Hr; [done|]. simpl. apply IHl. destruct (isPort d k); [done|by apply collect_grows].
  - assert (depth h k (S dc)) as Hkd by (econstructor; [by apply (tree_parent h (y_tree HY))|done]).
    destruct n as [|n].
    { exfalso. assert (S dc ≤ dx); [|lia]. eapply depth_ancestor; [exact Hkd|exact Hx|by apply found_ancestor]. }
    rewrite collect_step, (decide_True _ _ Hd). cbv zeta. generalize (if decide (taken c) then Layout.push_new c acc else acc).
    apply list_elem_of_split in Hk as (l1 & l2 & El). rewrite El. intros acc'. rewrite foldl_app. simpl. rewrite Hp.
    generalize (foldl (λ result child, if isPort d child then result else collect n child result) acc' l1). intros acc2.
    assert (x ∈ collect n k acc2) as Hin by (eapply IH; [done|done|lia]). revert Hin. generalize (collect n k acc2).
    clear El. induction l2 as [|k' l2 IHl]; intros acc3 Hin; [done|]. simpl. apply IHl. destruct (isPort d k'); [done|by apply collect_grows].
Qed.

Lemma collect_nodup n : ∀ c acc, NoDup acc → NoDup (collect n c acc).
Proof.
  induction n as [|n IH]; intros c acc Hnd; [done|]. rewrite collect_step. cbv zeta. set (result := if decide (taken c) then _ else acc).
  assert (NoDup result) as Hr.
  { unfold result, Layout.push_new. repeat case_decide; [done| |done]. by apply LayoutTraverse.push_new_nodup. }
  case_decide; [|done]. revert Hr. generalize result. induction (kids h c) as [|k l IHl]; intros acc' Hr; [done|]. simpl.
  apply IHl. destruct (isPort d k); [done|by apply IH].
Qed.

(** The vertices to be laid out. *)
Definition wanted (v : ref) : Prop := vertex (h !!! v) = true ∧ visible (h !!! v) = true ∧ below v ∧ (traverseAncestors = true ∨ visible (h !!! P) = true).

Lemma found_wanted v : found P v ↔ wanted v.
Proof.
  split.
  - intros Hf. pose proof (found_ancestor P v Hf) as Ha.
    assert (∀ c x, found c x → taken x) as Ht by (induction 1; done). destruct (Ht P v Hf) as (Hv & Hne & Hs).
    inversion Hf as [c _|c k x Hd Hk Hp Hf' E1 E2]; subst; [done|]. split_and!; [done|done| |destruct Hd as [?|[_ ?]]; auto].
    unfold layout_isAncestor. destruct traverseAncestors eqn:Etr; simpl.
    + rewrite (proj2 (isAncestor_spec h P v (y_acyclic HY)) Ha), bool_decide_eq_false_2 by congruence. done.
    + apply bool_decide_eq_true. unfold getParent. simpl. apply (tree_parent h (y_tree HY)) in Hk.
      inversion Hf' as [c Hc E1 E2|c k' x' Hd' Hk' Hp' Hf'' E1 E2]; subst; [done|]. exfalso. destruct Hd' as [?|[-> _]]; [congruence|].
      assert (below P) as [_ []]%below_ancestor; [|done]. unfold layout_isAncestor. rewrite Etr. simpl. by apply bool_decide_eq_true.
  - intros (Hv & Hs & Hb & Hor). destruct (below_ancestor v Hb) as [Ha Hne]. unfold layout_isAncestor in Hb.
    destruct traverseAncestors eqn:Etr; simpl in Hb.
    + assert (∀ z, ancestor h z v → ancestor h P z → found z v) as H; [|by apply (H P)].
      refine (rtc_ind_r (λ z, ancestor h P z → found z v) v _ _); [by constructor|]. intros y z Hy Hyz IH Hpz. unfold step_up in Hyz.
      assert (ancestor h P y) as Hpy by (eapply rtc_l; [exact Hyz|done]).
      assert (y ≠ P) as HyP.
      { intros ->. assert (P = z) as <- by (apply ancestor_antisym; [done|by apply rtc_once]).
        destruct (y_acyclic HY P) as [n Hn]. pose proof (depth_up _ _ _ _ Hyz Hn) as Hn'. pose proof (depth_fun _ _ _ _ Hn Hn'). lia. }
      eapply found_below; [by left|by apply (tree_parent h (y_tree HY))|by apply (y_ports HY y v)|by apply IH].
    + apply bool_decide_eq_true in Hb. unfold getParent in Hb. simpl in Hb. destruct Hor as [?|Hor]; [congruence|].
      eapply found_below; [by right|by apply (tree_parent h (y_tree HY))|by apply (y_ports HY v v)|by constructor].
Qed.

Lemma elem_of_descendants v : v ∈ Vs ↔ wanted v.
Proof.
  rewrite <-found_wanted. unfold descendants. split.
  - intros [?%not_elem_of_nil|?]%collect_sound; done.
  - intros Hf. destruct (y_acyclic HY P) as [n Hn], (y_acyclic HY v) as [m Hm]. eapply collect_complete; [exact Hf|exact Hn|exact Hm|].
    pose proof (depth_fuel _ _ _ Hm). lia.
Qed.

Lemma model_consistent : LayoutTraverse.consistent G Vs.
Proof.
  assert (∀ v, v ∈ Vs → wanted v) as HV by (intros v; apply elem_of_descendants). split.
  - apply collect_nodup. constructor.
  - intros v (Hv & Hs & _)%HV. split; [done|]. unfold Layout.isVertexIgnored. simpl. by rewrite Hv, Hs.
  - intros v e (_ & _ & Hb & _)%HV [He _]%elem_of_edges. destruct (edge_end v e Hb He) as [[] E]; auto.
  - intros v e w Hv He Hw. destruct (HV v Hv) as (_ & _ & Hb & Hor). apply elem_of_edges in He as [He Hc]. cbn in Hw.
    destruct (edge_end v e Hb He) as [b Eb]. destruct (terminal_actual v e false w He Hw) as [_ Hew].
    destruct (y_terminals HY w e Hew) as (Hwv & Hws & _). rewrite Hw in Hc.
    assert (w = v ∨ below w) as [->|Hbw]; [|done|by apply elem_of_descendants].
    destruct Hc as [E|[[E _]|[E H]]]; [|left; congruence|by right]. left. destruct b; congruence.
  - intros x y (_ & _ & Hx & _)%HV (_ & _ & Hy & _)%HV Hxy. unfold Layout.getEdgesBetween.
    apply NoDup_Permutation; [apply NoDup_filter, edges_nodup_layout|apply NoDup_filter, edges_nodup_layout|].
    intros e. split; by apply between_other.
Qed.

End Laws.

(** ** A model *)

Abbreviation seen d cr P tr := (graph d cr (λ _, None) (Some P) tr).

Definition layout_check (d : data) (P : ref) : bool :=
  forallb (λ p, negb (collapsed p.2)
    && (negb (isPort d p.1) || (negb (vertex p.2) && bool_decide (kids (hp d) p.1 = [] ∧ eds (hp d) p.1 = [])))
    && (bool_decide (eds (hp d) p.1 = []) || (vertex p.2 && visible p.2))
    && forallb (attached_check (hp d)) (eds (hp d) p.1)) (map_to_list (hp d))
  && match root d with Some r => bool_decide (r ≠ P) && isAncestor (hp d) (Some r) (Some P) | None => false end.

Lemma layout_check_sound d P : wf_check (hp d) = true → layout_check d P = true → layoutable d None P.
Proof.
  intros [Ht Ha He]%wf_check_sound [Hc Hr]%andb_true_iff.
  assert (∀ x, collapsed (hp d !!! x) = false ∧
    (isPort d x = true → vertex (hp d !!! x) = false ∧ kids (hp d) x = [] ∧ eds (hp d) x = []) ∧
    ∀ e, e ∈ eds (hp d) x → vertex (hp d !!! x) = true ∧ visible (hp d !!! x) = true ∧ attached (hp d) e) as Hx.
  { intros x. destruct (hp d !! x) as [c|] eqn:E.
    - rewrite forallb_forall in Hc. specialize (Hc (x, c)). rewrite (lookup_total_correct _ _ _ E).
      assert (List.In (x, c) (map_to_list (hp d))) as Hin by by apply list_elem_of_In, elem_of_map_to_list.
      specialize (Hc Hin). cbn [fst snd] in Hc. rewrite !andb_true_iff in Hc. destruct Hc as [[[H1 H2] H3] H4].
      apply negb_true_iff in H1. split_and!; [done| |].
      + intros Hp. rewrite Hp in H2. simpl in H2. apply andb_true_iff in H2 as [Hv Hk]. apply negb_true_iff in Hv.
        by apply bool_decide_eq_true in Hk as [? ?].
      + intros e Hel. assert (bool_decide (eds (hp d) x = []) = false) as Hne.
        { apply bool_decide_eq_false. intros Hn. rewrite Hn in Hel. by apply not_elem_of_nil in Hel. }
        rewrite Hne in H3. simpl in H3. apply andb_true_iff in H3 as [? ?]. rewrite forallb_forall in H4.
        split_and!; [done|done|]. apply attached_check_sound, H4. by apply list_elem_of_In.
    - rewrite (no_cell _ _ E). unfold isPort, eds. rewrite (no_cell _ _ E). split_and!; [done|done|]. by intros e ?%not_elem_of_nil. }
  split.
  - done.
  - done.
  - done.
  - intros u e Hu. by apply (Hx u).
  - destruct (root d) as [r|]; [|done]. apply andb_true_iff in Hr as [H1%bool_decide_eq_true H2].
    exists r. split_and!; [done|done|]. by apply (isAncestor_spec (hp d) r P Ha).
  - done.
  - intros c. by apply (Hx c).
  - intros u v _ Huv _ Hv. destruct (isPort d u) eqn:Hp; [|done]. destruct (proj1 (proj2 (Hx u)) Hp) as (Hnv & Hk & _).
    apply rtc_inv_r in Huv as [->|(y & _ & Hy)]; [congruence|]. apply (tree_parent _ Ht) in Hy. rewrite Hk in Hy. by apply not_elem_of_nil in Hy.
  - intros u e He'. destruct (proj2 (proj2 (Hx u)) e He') as (Hv & Hs & _). split_and!; [done|done|].
    destruct (isPort d u) eqn:Hp; [|done]. destruct (proj1 (proj2 (Hx u)) Hp) as (? & _). congruence.
Qed.

(** A layer (1) with four vertices and a group (6) with a vertex (7) in it; edges (10 to 13)
    from 2 to 3 and back, from 3 to 4 and from 7 to 4; 5 has no edges. *)
Definition drawing : data :=
  Data (list_to_map
    [(0, cell_in None (Some [1]) None false false None None);
     (1, cell_in (Some 0) (Some [2; 3; 4; 5; 6; 10; 11; 12; 13]) None false false None None);
     (2, cell_in (Some 1) None (Some [10; 11]) true false None None);
     (3, cell_in (Some 1) None (Some [10; 11; 12]) true false None None);
     (4, cell_in (Some 1) None (Some [12; 13]) true false None None);
     (5, cell_in (Some 1) None None true false None None);
     (6, cell_in (Some 1) (Some [7]) None true false None None);
     (7, cell_in (Some 6) None (Some [13]) true false None None);
     (10, cell_in (Some 1) None None false true (Some 2) (Some 3));
     (11, cell_in (Some 1) None None false true (Some 3) (Some 2));
     (12, cell_in (Some 1) None None false true (Some 3) (Some 4));
     (13, cell_in (Some 1) None None false true (Some 7) (Some 4))]) (Some 0) None 0 0.

Lemma drawing_layoutable : layoutable drawing None 1.
Proof. apply layout_check_sound; vm_compute; reflexivity. Qed.

Lemma drawing_bounded : LayoutRun.bounded (seen drawing None 1 true) (descendants drawing (Some 1) true).
Proof.
  split; [|by vm_compute|by vm_compute].
  assert (Forall (λ v, Z.lt (Z.of_nat (length (layout_getEdges drawing None (λ _, None) (Some 1) true v))) 100000)
    (descendants drawing (Some 1) true)) as H by (apply (bool_decide_unpack _); by vm_compute).
  by rewrite Forall_forall in H.
Qed.

(** ** The theorems *)

(** C3: The layout of the cells below a parent runs without error on every graph model whose
    cells are displayed: the hierarchies hold exactly the visible vertices below the parent,
    each of them once, and every hierarchy is laid out. *)
Theorem execute_lays_out d currentRoot P traverseAncestors n k : layoutable d currentRoot P →
  LayoutRun.bounded (seen d currentRoot P traverseAncestors) (descendants d (Some P) traverseAncestors) →
  length (descendants d (Some P) traverseAncestors) < n →
  2 * length (descendants d (Some P) traverseAncestors) * (2 * length (descendants d (Some P) traverseAncestors)) ≤ k →
  ∃ roots hs ms, execute d currentRoot (λ _, None) (Some P) traverseAncestors n k None None = Some (Some roots, ms) ∧
    Forall2 (LayoutRun.laid_out (seen d currentRoot P traverseAncestors)) hs ms ∧
    NoDup (concat hs) ∧ ∀ v, v ∈ concat hs ↔ wanted d P traverseAncestors v.
Proof.
  intros HY HB Hn Hk. pose proof (model_consistent d currentRoot P traverseAncestors HY) as HL.
  destruct (LayoutRun.split_all _ _ HL HB n Hn) as (roots & hs & E & HH & HP & Hnd & Hr).
  assert (length roots ≤ length (descendants d (Some P) traverseAncestors)) as Hlr by by apply submseteq_length, NoDup_submseteq.
  destruct (LayoutRun.lay_out_all _ _ HL HB k roots hs HH) as (ms & Em & Hms); [nia|].
  exists roots, hs, ms. split_and!; [|done|by eapply LayoutRun.h_nodup|].
  - unfold execute. rewrite decide_False by (by intros [_ ?]). cbv zeta. rewrite E. cbn [mbind option_bind fst snd]. by rewrite Em.
  - intros v. rewrite HP. by eapply elem_of_descendants.
Qed.

Lemma execute_lays_out_witness :
  layoutable drawing None 1 ∧ LayoutRun.bounded (seen drawing None 1 true) (descendants drawing (Some 1) true) ∧
  (∃ roots hs ms, execute drawing None (λ _, None) (Some 1) true 20 400 None None = Some (Some roots, ms) ∧
    NoDup (concat hs) ∧ ∀ v, v ∈ concat hs ↔ wanted drawing 1 true v) ∧
  option_map (λ r, (r.1, map (λ m, ((Hierarchy.vertexMapper m).*1, Hierarchy.ranks m)) r.2))
    (execute drawing None (λ _, None) (Some 1) true 20 400 None None) =
    Some (Some [7; 3; 5; 6], [([3; 2; 7; 4], [[7; 4]; [5; 1]]); ([5], [[1]]); ([6], [[1]])]).
Proof.
  split; [exact drawing_layoutable|]. split; [exact drawing_bounded|]. split; [|vm_compute; reflexivity].
  destruct (execute_lays_out drawing None 1 true 20 400 drawing_layoutable drawing_bounded) as (roots & hs & ms & E & _ & Hn & Hv).
  - apply (bool_decide_unpack _). by vm_compute.
  - apply (bool_decide_unpack _). by vm_compute.
  - exists roots, hs, ms. exact (conj E (conj Hn Hv)).
Defined.

(** The roots of a layout are not cleared: executed again without roots, the layout starts
    from those of its last execution, so that vertices which these do not lead to are in no
    hierarchy. *)
Theorem execute_keeps_roots d currentRoot P traverseAncestors n k rs : layoutable d currentRoot P →
  LayoutRun.bounded (seen d currentRoot P traverseAncestors) (descendants d (Some P) traverseAncestors) →
  length (descendants d (Some P) traverseAncestors) < n →
  (length rs + length (descendants d (Some P) traverseAncestors)) * (length rs + length (descendants d (Some P) traverseAncestors)) ≤ k →
  (∀ r, r ∈ rs → wanted d P traverseAncestors r) →
  ∃ hs ms, execute d currentRoot (λ _, None) (Some P) traverseAncestors n k (Some rs) None = Some (Some rs, ms) ∧
    Forall2 (LayoutRun.laid_out (seen d currentRoot P traverseAncestors)) hs ms ∧
    ∀ v, v ∈ concat hs ↔
      ∃ r, r ∈ rs ∧ rtc (LayoutTraverse.steps (seen d currentRoot P traverseAncestors) (descendants d (Some P) traverseAncestors)) r v.
Proof.
  intros HY HB Hn Hk Hrs. pose proof (model_consistent d currentRoot P traverseAncestors HY) as HL.
  assert (∀ r, r ∈ rs → r ∈ descendants d (Some P) traverseAncestors) as Hrs' by (intros r Hr; by eapply elem_of_descendants; [|apply Hrs]).
  destruct (LayoutRun.split_given _ _ HL n rs (descendants d (Some P) traverseAncestors) Hn Hrs') as (hs & E & HH & Hin).
  destruct (LayoutRun.lay_out_all _ _ HL HB k rs hs HH Hk) as (ms & Em & Hms).
  exists hs, ms. split_and!; [|done|].
  - unfold execute. rewrite decide_False by (by intros [_ ?]). cbv zeta. rewrite E. cbn [mbind option_bind fst snd]. by rewrite Em.
  - intros v. by apply (LayoutRun.hierarchy_reach _ _ HL rs hs v HH).
Qed.

Lemma execute_keeps_roots_witness :
  layoutable drawing None 1 ∧ LayoutRun.bounded (seen drawing None 1 true) (descendants drawing (Some 1) true) ∧
  (∃ ms, execute drawing None (λ _, None) (Some 1) true 20 400 (Some [3]) None = Some (Some [3], ms)) ∧
  option_map (λ r, (r.1, map (λ m, (Hierarchy.vertexMapper m).*1) r.2))
    (execute drawing None (λ _, None) (Some 1) true 20 400 (Some [3]) None) = Some (Some [3], [[3; 2; 4]]).
Proof.
  split; [exact drawing_layoutable|]. split; [exact drawing_bounded|]. split; [|vm_compute; reflexivity].
  destruct (execute_keeps_roots drawing None 1 true 20 400 [3] drawing_layoutable drawing_bounded) as (hs & ms & E & _).
  - apply (bool_decide_unpack _). by vm_compute.
  - apply (bool_decide_unpack _). by vm_compute.
  - intros r ->%list_elem_of_singleton. split_and!; [by vm_compute|by vm_compute|by vm_compute|by left].
  - exists ms. exact E.
Defined.

End MxLayout.
