(* ===== verification/Coordinates.v ===== *)
(** * The coordinates of a hierarchical layout

    Models mxCoordinateAssignment.js up to the routing of edges: the stage that gives every
    cell of the ranks a horizontal position and every rank a vertical one. Coordinates are
    exact rationals; the stage computes with numbers of floating point, whose sums and halves
    are exact for the sizes of a graph. A function returns [None] where the code would go on
    with an undefined coordinate or end with a TypeError. *)

From Stdlib Require Import QArith Qminmax.
From stdpp Require Import sorting.
From S2P Require Import Prelude Crossings.
Import Crossings.
#[local] Open Scope nat_scope.

Module Coordinates.

(** [v / 2] *)
Definition half (v : Q) : Q := (v * (1 # 2))%Q.

Inductive direction := NORTH | EAST | SOUTH | WEST.
#[global] Instance direction_eq_dec : EqDecision direction.
Proof. solve_decision. Defined.

(** The settings the layout gives to the stage. *)
Record settings := Settings {
  intraCellSpacing : Q;
  interRankCellSpacing : Q;
  orientation : direction;
  initialX : Q;
  parallelEdgeSpacing : Q;
  fineTuning : bool
}.

(** The arrays [x], [temp] and [y] of the cells, by cell and index; their sizes, 0 unless set;
    and the fields of the stage, of which [widestRank] and [widestRankValue] start as null. *)
Record place := Place {
  xs : gmap (nat * Z) Q;
  ts : gmap (nat * Z) Q;
  ys : gmap (nat * Z) Q;
  widths : gmap nat Q;
  heights : gmap nat Q;
  currentXDelta : Q;
  widestRank : option Z;
  widestRankValue : option Q;
  rankWidths : gmap Z Q
}.
Definition new_place : place := Place ∅ ∅ ∅ ∅ ∅ 0 None None ∅.

Definition width (p : place) (c : nat) : Q := default 0%Q (widths p !! c).
Definition height (p : place) (c : nat) : Q := default 0%Q (heights p !! c).
Definition set_xs (m : gmap (nat * Z) Q) (p : place) : place :=
  Place m (ts p) (ys p) (widths p) (heights p) (currentXDelta p) (widestRank p) (widestRankValue p) (rankWidths p).
Definition set_ts (m : gmap (nat * Z) Q) (p : place) : place :=
  Place (xs p) m (ys p) (widths p) (heights p) (currentXDelta p) (widestRank p) (widestRankValue p) (rankWidths p).
Definition set_ys (m : gmap (nat * Z) Q) (p : place) : place :=
  Place (xs p) (ts p) m (widths p) (heights p) (currentXDelta p) (widestRank p) (widestRankValue p) (rankWidths p).
Definition set_size (w h : gmap nat Q) (p : place) : place :=
  Place (xs p) (ts p) (ys p) w h (currentXDelta p) (widestRank p) (widestRankValue p) (rankWidths p).
Definition set_delta (d : Q) (p : place) : place :=
  Place (xs p) (ts p) (ys p) (widths p) (heights p) d (widestRank p) (widestRankValue p) (rankWidths p).
Definition set_widest (r : option Z) (v : option Q) (w : gmap Z Q) (p : place) : place :=
  Place (xs p) (ts p) (ys p) (widths p) (heights p) (currentXDelta p) r v w.

Section Placement.
(** The cells and the ranks of the model, its [maxRank], the values of its [edgeMapper]; for a
    node the size of its vertex, null when it has no bounds, and for an edge the number of
    edges it stands for. *)
Context (cfg : settings) (cs : gmap nat hcell) (ranks : list (list nat)) (model_maxRank : Z) (edgeMapper_values : list nat).
Context (getVertexBounds : nat → option (Q * Q)) (edge_count : nat → Z).

Definition getT (p : place) (layer : Z) (c : nat) : option Q := ts p !! slot cs layer c.
(** The fraction is stored in lowest terms. *)
Definition setT (layer : Z) (c : nat) (v : Q) (p : place) : place := set_ts (<[slot cs layer c := Qred v]> (ts p)) p.
Definition getX (p : place) (layer : Z) (c : nat) : option Q := xs p !! slot cs layer c.
Definition setX (layer : Z) (c : nat) (v : Q) (p : place) : place := set_xs (<[slot cs layer c := v]> (xs p)) p.
Definition setY (layer : Z) (c : nat) (v : Q) (p : place) : place := set_ys (<[slot cs layer c := v]> (ys p)) p.

(** ** Initial coordinates *)

Definition upright : bool := bool_decide (orientation cfg = NORTH ∨ orientation cfg = SOUTH).

(** The size of a cell of a rank. *)
Definition measure (c : nat) (p : place) : place :=
  if isVertex (cs !!! c) then
    match getVertexBounds c with
    | Some (w, h) =>
        if upright then set_size (<[c := w]> (widths p)) (<[c := h]> (heights p)) p
        else set_size (<[c := h]> (widths p)) (<[c := w]> (heights p)) p
    | None => p
    end
  else set_size (<[c := (inject_Z (edge_count c) - 1) * parallelEdgeSpacing cfg]> (widths p))%Q (heights p) p.

(** Puts a cell behind the last one; the result has the next free position. *)
Definition put_behind (layer : Z) (c : nat) (localX : Q) (p : place) : place * Q :=
  let localX := (localX + half (width p c))%Q in
  (setT layer c localX (setX layer c localX p), (localX + half (width p c) + intraCellSpacing cfg)%Q).

Definition widest_cell (rankValue : Z) (acc : place * Q * Q) (c : nat) : place * Q * Q :=
  let '(p, localX, maxCellHeight) := acc in
  let p := measure c p in
  let maxCellHeight := if isVertex (cs !!! c) then Qmax maxCellHeight (height p c) else maxCellHeight in
  let '(p, localX) := put_behind rankValue c localX p in
  let p := if Qlt_le_dec (default 0%Q (widestRankValue p)) localX
           then set_widest (Some rankValue) (Some localX) (rankWidths p) p else p in
  (set_widest (widestRank p) (widestRankValue p) (<[rankValue := localX]> (rankWidths p)) p, localX, maxCellHeight).

(** One rank of [calculateWidestRank]: the state, [y] and the height of the rank before. *)
Definition widest_rank (acc : option (place * Q * Q)) (rankValue : Z) : option (place * Q * Q) :=
  acc ← acc;
  let '(p, y, lastRankMaxCellHeight) := acc in
  rank ← ranks !! Z.to_nat rankValue;
  let '(p, _, maxCellHeight) := foldl (widest_cell rankValue) (p, initialX cfg, 0%Q) rank in
  let distanceToNextRank := (half maxCellHeight + half lastRankMaxCellHeight + interRankCellSpacing cfg)%Q in
  let y := if decide (orientation cfg = NORTH ∨ orientation cfg = WEST) then (y + distanceToNextRank)%Q
           else (y - distanceToNextRank)%Q in
  Some (foldl (λ p c, setY rankValue c y p) p rank, y, maxCellHeight).

Definition calculateWidestRank (p : place) : option place :=
  r ← foldl widest_rank (Some (p, - interRankCellSpacing cfg, 0)%Q) (reverse (seqZ 0 (model_maxRank + 1)));
  Some r.1.1.

Definition coordinate_cell (rankValue : Z) (acc : place * Q) (c : nat) : place * Q :=
  put_behind rankValue c acc.2 (measure c acc.1).

Definition rankCoordinates (rankValue : Z) (p : place) : option place :=
  rank ← ranks !! Z.to_nat rankValue;
  match rank with
  | [] => Some p
  | _ =>
      w ← rankWidths p !! rankValue;
      Some (foldl (coordinate_cell rankValue) (p, initialX cfg + half (default 0 (widestRankValue p) - w))%Q rank).1
  end.

Definition coordinate_ranks (rs : list Z) (p : place) : option place :=
  foldl (λ p r, p ← p; rankCoordinates r p) (Some p) rs.

Definition initialCoords (p : place) : option place :=
  p ← calculateWidestRank p;
  match widestRank p with
  | Some w =>
      p ← coordinate_ranks (filter (λ i, (i < model_maxRank)%Z) (reverse (seqZ 0 (w + 1)))) p;
      coordinate_ranks (filter (λ i, (0 < i)%Z) (seqZ (w + 1) (model_maxRank - w))) p
  | None => if decide (0 < model_maxRank)%Z then None else Some p
  end.

(** ** Medians *)

#[global] Instance Qle_decision a b : Decision (Qle a b).
Proof. destruct (Qlt_le_dec b a) as [H|H]; [right; by apply Qlt_not_le|by left]. Defined.

Definition medianXValue (p : place) (connectedCells : list nat) (rankValue : Z) : option Q :=
  match connectedCells with
  | [] => Some 0%Q
  | _ =>
      values ← mapM (getT p rankValue) connectedCells;
      let medianValues := merge_sort Qle values in
      if decide (length connectedCells mod 2 = 1) then medianValues !! (length connectedCells / 2)
      else
        let medianPoint := length connectedCells / 2 in
        leftMedian ← medianValues !! (medianPoint - 1);
        rightMedian ← medianValues !! medianPoint;
        Some (half (leftMedian + rightMedian))
  end.

(** *** [minNode] *)

(** A wrapper: the cell, its rank and its index there. The queue holds wrappers by number. *)
Record wrapper := Wrapper { w_cell : nat; w_rank : Z; w_index : nat }.

Definition wrappers : list wrapper := concat (imap (λ i rank, imap (λ j c, Wrapper c (Z.of_nat i) j) rank) (take (Z.to_nat (model_maxRank + 1)) ranks)).

(** [map]: the wrapper that was put last for a cell. *)
Definition wrapper_map : gmap nat nat :=
  foldl (λ m iw, <[w_cell iw.2 := iw.1]> m) ∅ (imap pair wrappers).

(** The limits that the neighbours in the rank set. *)
Definition left_limit (p : place) (rankValue : Z) (leftCell c : nat) : option Q :=
  v ← getT p rankValue leftCell; Some (v + half (width p leftCell) + intraCellSpacing cfg + half (width p c))%Q.
Definition right_limit (p : place) (rankValue : Z) (rightCell c : nat) : option Q :=
  v ← getT p rankValue rightCell; Some (v - half (width p rightCell) - intraCellSpacing cfg - half (width p c))%Q.

(** Where [minNode] moves a cell to; [None] inside is no move. *)
Definition new_position (p : place) (rank : list nat) (rankValue : Z) (rankIndex : nat) (c : nat) (cellMedian currentPosition : Q) : option (option Q) :=
  let tolerance := 1%Q in
  if Qlt_le_dec cellMedian (currentPosition - tolerance) then
    match rankIndex with
    | 0 => Some (Some cellMedian)
    | S l =>
        leftCell ← rank !! l;
        leftLimit ← left_limit p rankValue leftCell c;
        Some (if Qlt_le_dec leftLimit cellMedian then Some cellMedian
              else if Qlt_le_dec leftLimit (currentPosition - tolerance) then Some leftLimit else None)
    end
  else if Qlt_le_dec (currentPosition + tolerance) cellMedian then
    if decide (rankIndex = length rank - 1) then Some (Some cellMedian)
    else
      rightCell ← rank !! S rankIndex;
      rightLimit ← right_limit p rankValue rightCell c;
      Some (if Qlt_le_dec cellMedian rightLimit then Some cellMedian
            else if Qlt_le_dec (currentPosition + tolerance) rightLimit then Some rightLimit else None)
  else Some None.

(** Puts the wrapper of a cell into the queue unless it is there. *)
Definition enqueue (acc : list nat * gset nat) (c : nat) : list nat * gset nat :=
  match wrapper_map !! c with
  | Some i => if decide (i ∈ acc.2) then acc else (acc.1 ++ [i], {[i]} ∪ acc.2)
  | None => acc
  end.

Definition min_step (p : place) (i : nat) (queue : list nat) (visited : gset nat) : option (place * (list nat * gset nat)) :=
  w ← wrappers !! i;
  let '(Wrapper c rankValue rankIndex) := w in
  next ← getNextLayerConnectedCells cs rankValue c;
  previous ← getPreviousLayerConnectedCells cs rankValue c;
  medianNextLevel ← medianXValue p next (rankValue + 1);
  medianPreviousLevel ← medianXValue p previous (rankValue - 1);
  currentPosition ← getT p rankValue c;
  let n := inject_Z (Z.of_nat (length next)) in
  let m := inject_Z (Z.of_nat (length previous)) in
  let cellMedian := if decide (0 < length next + length previous)
                    then ((medianNextLevel * n + medianPreviousLevel * m) / (n + m))%Q else currentPosition in
  rank ← ranks !! Z.to_nat rankValue;
  position ← new_position p rank rankValue rankIndex c cellMedian currentPosition;
  let '(p, (queue, visited)) :=
    match position with
    | Some v => (setT rankValue c v p, foldl enqueue (foldl enqueue (queue, visited) next) previous)
    | None => (p, (queue, visited))
    end in
  Some (p, (queue, visited ∖ {[i]})).

Fixpoint min_loop (n : nat) (p : place) (queue : list nat) (visited : gset nat) : option place :=
  match n, queue with
  | S n, i :: queue => r ← min_step p i queue visited; min_loop n r.1 r.2.1 r.2.2
  | _, _ => Some p
  end.

(** [minNode]; the queue is read at most [maxTries + 1] times. *)
Definition minNode (p : place) : option place :=
  min_loop (S (length wrappers * 10)) p (seq 0 (length wrappers)) (set_seq 0 (length wrappers)).

(** *** [medianPos] *)

Definition calculatedWeightedValue (c : nat) (collection : list nat) : Z :=
  foldl (λ totalWeight b,
    if isVertex (cs !!! c) && isVertex (cs !!! b) then totalWeight + 1
    else if negb (isVertex (cs !!! c)) && negb (isVertex (cs !!! b)) then totalWeight + 8 else totalWeight + 2)%Z 0%Z collection.

(** The connections to the rank [nextRankValue]. *)
Definition connected_to (rankValue nextRankValue : Z) (c : nat) : option (list nat) :=
  if decide (nextRankValue < rankValue)%Z then getPreviousLayerConnectedCells cs rankValue c
  else getNextLayerConnectedCells cs rankValue c.

(** The key of a cell in [cellMap]: an edge has no [id], so all edges have the key undefined. *)
Definition cell_key (c : nat) : option nat := if isVertex (cs !!! c) then Some c else None.
(** For a key the index of the wrapper that was put last. *)
Definition cellMap (rank : list nat) : gmap (option nat) nat :=
  foldl (λ m ic, <[cell_key ic.2 := ic.1]> m) ∅ (imap pair rank).

(** The index and the weight of a wrapper. Of two wrappers of equal weight [compare] says both
    ways that the first is greater; an insertion leaves them in their order. *)
Definition weighted_values (rank : list nat) (rankValue nextRankValue : Z) : option (list (nat * Z)) :=
  mapM (λ ic, l ← connected_to rankValue nextRankValue ic.2; Some (ic.1, calculatedWeightedValue ic.2 l)) (imap pair rank).
Fixpoint insert_weighted (x : nat * Z) (l : list (nat * Z)) : list (nat * Z) :=
  match l with
  | [] => [x]
  | y :: l => if decide (x.2 ≤ y.2)%Z then x :: y :: l else y :: insert_weighted x l
  end.
Definition sort_weighted (l : list (nat * Z)) : list (nat * Z) := foldr insert_weighted [] l.

(** The loops for the limits on either side, over the indices of the cells there. *)
Fixpoint left_scan (p : place) (rank : list nat) (rankValue : Z) (visited : gset nat) (c : nat) (js : list nat) (leftBuffer : Q) : option Q :=
  match js with
  | [] => Some (- 100000000)%Q
  | j :: js =>
      b ← rank !! j; i ← cellMap rank !! cell_key b; leftCell ← rank !! i;
      if decide (i ∈ visited) then
        v ← getT p rankValue leftCell;
        Some (v + half (width p leftCell) + intraCellSpacing cfg + leftBuffer + half (width p c))%Q
      else left_scan p rank rankValue visited c js (leftBuffer + width p leftCell + intraCellSpacing cfg)%Q
  end.
Fixpoint right_scan (p : place) (rank : list nat) (rankValue : Z) (visited : gset nat) (c : nat) (js : list nat) (rightBuffer : Q) : option Q :=
  match js with
  | [] => Some 100000000%Q
  | j :: js =>
      b ← rank !! j; i ← cellMap rank !! cell_key b; rightCell ← rank !! i;
      if decide (i ∈ visited) then
        v ← getT p rankValue rightCell;
        Some (v - half (width p rightCell) - intraCellSpacing cfg - rightBuffer - half (width p c))%Q
      else right_scan p rank rankValue visited c js (rightBuffer + width p rightCell + intraCellSpacing cfg)%Q
  end.

Definition place_median (rank : list nat) (rankValue nextRankValue : Z) (acc : option (place * gset nat)) (iw : nat * Z) : option (place * gset nat) :=
  acc ← acc;
  let '(p, visited) := acc in
  c ← rank !! iw.1;
  connected ← connected_to rankValue nextRankValue c;
  medianNextLevel ← match connected with [] => getT p rankValue c | _ => medianXValue p connected nextRankValue end;
  leftLimit ← left_scan p rank rankValue visited c (reverse (seq 0 iw.1)) 0%Q;
  rightLimit ← right_scan p rank rankValue visited c (seq (S iw.1) (length rank - S iw.1)) 0%Q;
  let p :=
    if Qlt_le_dec medianNextLevel leftLimit then
      set_delta (currentXDelta p + (leftLimit - medianNextLevel))%Q (setT rankValue c leftLimit p)
    else if Qlt_le_dec rightLimit medianNextLevel then
      set_delta (currentXDelta p + (medianNextLevel - rightLimit))%Q (setT rankValue c rightLimit p)
    else setT rankValue c medianNextLevel p in
  Some (p, {[iw.1]} ∪ visited).

Definition rankMedianPosition (rankValue nextRankValue : Z) (p : place) : option place :=
  rank ← ranks !! Z.to_nat rankValue;
  weightedValues ← weighted_values rank rankValue nextRankValue;
  r ← foldl (place_median rank rankValue nextRankValue) (Some (p, ∅)) (sort_weighted weightedValues);
  Some r.1.

Definition medianPos (i : nat) (p : place) : option place :=
  if decide (i mod 2 = 0)
  then foldl (λ p j, p ← p; rankMedianPosition (j - 1) j p) (Some p) (reverse (seqZ 1 model_maxRank))
  else foldl (λ p j, p ← p; rankMedianPosition (j + 1) j p) (Some p) (seqZ 0 (model_maxRank - 1)).

(** ** Straight edges *)

Definition repositionValid (p : place) (c : nat) (rankValue : Z) (position : Q) : option bool :=
  rankArray ← ranks !! Z.to_nat rankValue;
  match list_find (.= c) rankArray with
  | None => Some false
  | Some (rankIndex, _) =>
      currentX ← getT p rankValue c;
      if Qlt_le_dec position currentX then
        match rankIndex with
        | 0 => Some true
        | S l =>
            leftCell ← rankArray !! l;
            leftLimit ← left_limit p rankValue leftCell c;
            Some (Qle_bool leftLimit position)
        end
      else if Qlt_le_dec currentX position then
        if decide (rankIndex = length rankArray - 1) then Some true
        else
          rightCell ← rankArray !! S rankIndex;
          rightLimit ← right_limit p rankValue rightCell c;
          Some (Qle_bool position rightLimit)
      else Some true
  end.

(** Whether the edge is straight, and the segments that are. *)
Definition straight_segments (p : place) (e : nat) : option (bool * nat) :=
  referenceX ← getT p (minRank (cs !!! e) + 1) e;
  r ← foldl (λ acc i, acc ← acc; x ← getT p i e;
        let '(referenceX, edgeStraight, refSegCount) := acc in
        Some (if Qeq_bool referenceX x then (referenceX, edgeStraight, S refSegCount) else (x, false, refSegCount)))
      (Some (referenceX, true, 0)) (seqZ (minRank (cs !!! e) + 2) (maxRank (cs !!! e) - minRank (cs !!! e) - 2));
  Some (r.1.2, r.2).

(** One step of the loops that straighten an edge, to the rank [to]: the current position, the
    positions so far by rank, and the number of straight segments. *)
Definition straighten (p : place) (e : nat) (acc : option (Q * gmap Z Q * nat)) (to : Z) : option (Q * gmap Z Q * nat) :=
  acc ← acc;
  let '(currentX, positions, segCount) := acc in
  nextX ← getX p to e;
  if Qeq_bool currentX nextX then Some (currentX, <[to := currentX]> positions, S segCount)
  else
    valid ← repositionValid p e to currentX;
    Some (if valid : bool then (currentX, <[to := currentX]> positions, S segCount) else (nextX, <[to := nextX]> positions, segCount)).

Definition apply_positions (e : nat) (positions : gmap Z Q) (rs : list Z) (p : place) : option place :=
  foldl (λ p i, p ← p; x ← positions !! i; Some (setX i e x p)) (Some p) rs.

Definition straighten_edge (p : option place) (e : nat) : option place :=
  p ← p;
  let lo := minRank (cs !!! e) in let hi := maxRank (cs !!! e) in
  if decide (hi - lo - 1 < 1)%Z then Some p
  else
    s ← straight_segments p e;
    let '(edgeStraight, refSegCount) := s in
    if edgeStraight : bool then Some p
    else
      currentX ← getT p (lo + 1) e;
      up ← foldl (straighten p e) (Some (currentX, ∅, 0)) (seqZ (lo + 2) (hi - lo - 2));
      currentX ← getX p (hi - 1) e;
      down ← foldl (straighten p e) (Some (currentX, ∅, 0)) (reverse (seqZ (lo + 1) (hi - lo - 2)));
      if decide (refSegCount < down.2 ∨ refSegCount < up.2) then
        if decide (up.2 ≤ down.2) then apply_positions e down.1.2 (reverse (seqZ (lo + 1) (hi - lo - 2))) p
        else apply_positions e up.1.2 (seqZ (lo + 2) (hi - lo - 2)) p
      else Some p.

Definition minPath (p : place) : option place := foldl straighten_edge (Some p) edgeMapper_values.

(** ** The stage *)

Definition maxIterations : nat := 8.

Definition each_cell (f : Z → nat → place → option place) (p : place) : option place :=
  foldl (λ p jc, p ← p; f jc.1 jc.2 p) (Some p) (concat (imap (λ j rank, pair (Z.of_nat j) <$> rank) ranks)).
Definition store_positions : place → option place := each_cell (λ j c p, v ← getT p j c; Some (setX j c v p)).
Definition restore_positions : place → option place := each_cell (λ j c p, v ← getX p j c; Some (setT j c v p)).

(** One iteration of [execute], with the best offset so far. *)
Definition iteration (acc : option (place * Q)) (i : nat) : option (place * Q) :=
  acc ← acc;
  let '(p, bestXDelta) := acc in
  p ← (if decide (i = 0) then Some p else p ← medianPos i p; minNode p);
  r ← (if Qlt_le_dec (currentXDelta p) bestXDelta
       then q ← store_positions p; Some (q, currentXDelta p)
       else q ← restore_positions p; Some (q, bestXDelta));
  p ← minPath r.1;
  Some (set_delta 0%Q p, r.2).

(** The position of a vertex, and the right border of the vertices; [limitX] starts as null. *)
Definition vertex_location (p : place) (n : nat) : option (Q * Q) :=
  x ← xs p !! (n, 0%Z); y ← ys p !! (n, 0%Z);
  let positionX := (x - half (width p n))%Q in
  let positionY := (y - half (height p n))%Q in
  Some (if upright then (positionX, positionY) else (positionY, positionX)).
Definition limit_step (p : place) (limitX : option Q) (n : nat) : option Q :=
  limitX ← limitX; x ← xs p !! (n, 0%Z); Some (Qmax limitX (x - half (width p n) + width p n))%Q.

(** The offsets of the edges that a cell stands for. *)
Fixpoint offsets (n : nat) (offsetX : Q) : list Q :=
  match n with
  | 0 => []
  | S n => offsetX :: offsets n (if Qeq_bool offsetX 0 then parallelEdgeSpacing cfg
                                 else if Qlt_le_dec 0 offsetX then - offsetX else - offsetX + parallelEdgeSpacing cfg)%Q
  end.

(** The part of [setEdgePosition] for [limitX]: the edge's bends at the ranks it passes. An edge
    is done once, marked by [temp[0]]. *)
Definition edge_limit (acc : option (place * Q)) (e : nat) : option (place * Q) :=
  acc ← acc;
  let '(p, limitX) := acc in
  if (match ts p !! (e, 0%Z) with Some v => Qeq_bool v 101207 | None => false end) then Some (p, limitX)
  else
    positions ← mapM (λ j, xs p !! (e, j)) (seqZ 0 (maxRank (cs !!! e) - minRank (cs !!! e) - 1));
    Some (set_ts (<[(e, 0%Z) := 101207%Q]> (ts p)) p,
          foldl (λ limitX offsetX, foldl (λ limitX x, Qmax limitX (x + offsetX)) limitX positions) limitX
            (offsets (Z.to_nat (edge_count e)) 0))%Q.

(** [execute]: the coordinates, the locations of the vertices and [limitX]. *)
Definition execute (vertices : list nat) : option (place * list (Q * Q) * Q) :=
  p ← initialCoords (set_delta 0%Q new_place);
  p ← (if fineTuning cfg then minNode p else Some p);
  p ← (if fineTuning cfg then r ← foldl iteration (Some (p, 100000000%Q)) (seq 0 maxIterations); Some r.1 else Some p);
  locations ← mapM (vertex_location p) vertices;
  limitX ← foldl (limit_step p) (Some 0%Q) vertices;
  r ← foldl edge_limit (Some (p, limitX)) edgeMapper_values;
  Some (r.1, locations, r.2).

End Placement.
End Coordinates.
