(* ===== verification/CoordinateStage.v ===== *)
(** * The placement keeps vertices apart

    The cells of a rank start side by side, and no step of the stage moves a vertex too close
    to its neighbours; so no two vertices of a hierarchy overlap. The sweeps of the medians
    that follow the first positions have no effect. *)

From Stdlib Require Import QArith Qminmax Lqa.
From stdpp Require Import sorting.
From S2P Require Import Prelude Crossings CrossingStage Coordinates.
Import Crossings CrossingStage Coordinates.
#[local] Open Scope nat_scope.

Module CoordinateStage.

Ltac qlra := unfold half in *; lra.

Section Stage.
Context (cfg : settings) (cs : gmap nat hcell) (ranks : list (list nat)) (model_maxRank : Z) (edge_values : list nat).
Context (getVertexBounds : nat → option (Q * Q)) (edge_count : nat → Z).

Abbreviation getT := (Coordinates.getT cs).
Abbreviation setT := (Coordinates.setT cs).
Abbreviation getX := (Coordinates.getX cs).
Abbreviation setX := (Coordinates.setX cs).
Abbreviation measure := (measure cfg cs getVertexBounds edge_count).
Abbreviation put_behind := (put_behind cfg cs).
Abbreviation intra := (intraCellSpacing cfg).
Abbreviation inter := (interRankCellSpacing cfg).

(** What the stage needs of the model and the settings. *)
Record placeable : Prop := {
  pl_layered : layered cs ranks;
  pl_length : Z.of_nat (length ranks) = (model_maxRank + 1)%Z;
  pl_cells : ∃ i r c, ranks !! i = Some r ∧ c ∈ r;
  pl_spacing : (0 < intra)%Q ∧ (0 <= parallelEdgeSpacing cfg)%Q ∧ (0 <= initialX cfg)%Q;
  pl_inter : (0 <= inter)%Q;
  pl_bounds : ∀ c w h, getVertexBounds c = Some (w, h) → (0 <= w)%Q ∧ (0 <= h)%Q;
  pl_counts : ∀ i r c, ranks !! i = Some r → c ∈ r → isVertex (cs !!! c) = false → (1 ≤ edge_count c)%Z;
  pl_values : ∀ e, e ∈ edge_values → isVertex (cs !!! e) = false ∧
    ∀ i, (minRank (cs !!! e) < i < maxRank (cs !!! e))%Z → (0 ≤ i)%Z ∧ ∃ r, ranks !! Z.to_nat i = Some r ∧ e ∈ r
}.
Context (HP : placeable).

Abbreviation in_rank i c := (∃ r, ranks !! i = Some r ∧ c ∈ r).

Lemma slots_differ i j c c' : in_rank i c → in_rank j c' → slot cs (Z.of_nat i) c = slot cs (Z.of_nat j) c' → i = j ∧ c = c'.
Proof. intros (r & Hr & Hc) (r' & Hr' & Hc'). by apply (slot_inj cs ranks (pl_layered HP) i j r r'). Qed.

(** ** Sizes *)

Definition cell_width (c : nat) : Q :=
  if isVertex (cs !!! c) then match getVertexBounds c with Some (w, h) => if upright cfg then w else h | None => 0%Q end
  else ((inject_Z (edge_count c) - 1) * parallelEdgeSpacing cfg)%Q.
Definition cell_height (c : nat) : Q :=
  if isVertex (cs !!! c) then match getVertexBounds c with Some (w, h) => if upright cfg then h else w | None => 0%Q end else 0%Q.

(** Sizes are set to those of the cell or not yet; the cells of a list have theirs. *)
Record sized (p : place) : Prop := {
  z_width : ∀ c w, widths p !! c = Some w → w = cell_width c;
  z_height : ∀ c h, heights p !! c = Some h → h = cell_height c
}.
Definition measured (p : place) (c : nat) : Prop := width p c = cell_width c ∧ height p c = cell_height c.
Definition same_sizes (p p' : place) : Prop := widths p' = widths p ∧ heights p' = heights p.

Lemma cell_width_nonneg i c : in_rank i c → (0 <= cell_width c)%Q.
Proof.
  intros (r & Hr & Hc). unfold cell_width. destruct (isVertex (cs !!! c)) eqn:Ev.
  - destruct (getVertexBounds c) as [[w h]|] eqn:E; [|qlra]. destruct (pl_bounds HP c w h E). by destruct (upright cfg).
  - destruct (pl_spacing HP) as (_ & Hp & _). apply Qmult_le_0_compat; [|done].
    assert (inject_Z 1 <= inject_Z (edge_count c))%Q by (rewrite <-Zle_Qle; by apply (pl_counts HP i r)). change (inject_Z 1) with 1%Q in *. qlra.
Qed.

Lemma set_size_sized c p : sized p →
  sized (set_size (<[c := cell_width c]> (widths p)) (<[c := cell_height c]> (heights p)) p) ∧
  measured (set_size (<[c := cell_width c]> (widths p)) (<[c := cell_height c]> (heights p)) p) c.
Proof.
  intros [Z1 Z2]. split; [split; intros c' v; simpl; rewrite lookup_insert_Some; intros [[<- <-]|[_ H]]; auto|].
  unfold measured, width, height. simpl. by rewrite !lookup_insert_eq.
Qed.

Lemma measure_sized c p : sized p → sized (measure c p) ∧ measured (measure c p) c.
Proof.
  intros Hz. pose proof Hz as [Z1 Z2]. pose proof (set_size_sized c p Hz) as Hs.
  unfold Coordinates.measure. destruct (isVertex (cs !!! c)) eqn:Ev.
  - destruct (getVertexBounds c) as [[w h]|] eqn:Eb.
    + unfold cell_width, cell_height in Hs. rewrite Ev, Eb in Hs. fold cell_width cell_height in Hs. by destruct (upright cfg).
    + split; [done|]. assert (cell_width c = 0%Q ∧ cell_height c = 0%Q) as [E1 E2] by (unfold cell_width, cell_height; by rewrite Ev, Eb).
      unfold measured, width, height. rewrite E1, E2. split.
      * destruct (widths p !! c) as [w|] eqn:E; [|done]. simpl. by rewrite (Z1 c w E).
      * destruct (heights p !! c) as [w|] eqn:E; [|done]. simpl. by rewrite (Z2 c w E).
  - assert (cell_width c = ((inject_Z (edge_count c) - 1) * parallelEdgeSpacing cfg)%Q ∧ cell_height c = 0%Q) as [E1 E2]
      by (unfold cell_width, cell_height; by rewrite Ev).
    rewrite <-E1. split; [split; [intros c' v; simpl; rewrite lookup_insert_Some; intros [[<- <-]|[_ H]]; auto|done]|].
    unfold measured, width, height. simpl. rewrite lookup_insert_eq, E2. split; [done|].
    destruct (heights p !! c) as [w|] eqn:E; [|done]. simpl. by rewrite (Z2 c w E).
Qed.

Lemma measure_other c p c' : sized p → measured p c' → measured (measure c p) c'.
Proof.
  intros Hz Hc. destruct (decide (c = c')) as [<-|Hne]; [by apply measure_sized|].
  unfold measured, width, height, Coordinates.measure in *. destruct (isVertex (cs !!! c)); [destruct (getVertexBounds c) as [[w h]|]; [destruct (upright cfg)|]|];
    simpl; rewrite ?lookup_insert_ne by done; done.
Qed.

Lemma measure_keeps c p : xs (measure c p) = xs p ∧ ts (measure c p) = ts p ∧ ys (measure c p) = ys p ∧ currentXDelta (measure c p) = currentXDelta p ∧
  widestRank (measure c p) = widestRank p ∧ widestRankValue (measure c p) = widestRankValue p ∧ rankWidths (measure c p) = rankWidths p.
Proof.
  unfold Coordinates.measure. destruct (isVertex (cs !!! c)); [destruct (getVertexBounds c) as [[w h]|]; [destruct (upright cfg)|]|]; done.
Qed.

(** ** Cells side by side *)

Abbreviation W := cell_width.

(** What putting one cell behind the last does, and a list of cells. *)
Record put (r : Z) (c : nat) (p : place) (x : Q) (p' : place) (x' : Q) : Prop := {
  u_ts : ts p' = <[slot cs r c := Qred (x + half (W c))]> (ts p);
  u_xs : xs p' = <[slot cs r c := (x + half (W c))%Q]> (xs p);
  u_ys : ys p' = ys p;
  u_delta : currentXDelta p' = currentXDelta p;
  u_sized : sized p' ∧ measured p' c;
  u_measured : ∀ c', measured p c' → measured p' c';
  u_next : x' = (x + half (W c) + half (W c) + intra)%Q
}.
Inductive row (r : Z) : list nat → place → Q → place → Q → Prop :=
| row_nil p x : sized p → row r [] p x p x
| row_cons c l p x p1 x1 p2 x2 : put r c p x p1 x1 → row r l p1 x1 p2 x2 → row r (c :: l) p x p2 x2.

Lemma put_behind_put r c p x : sized p → put r c p x (put_behind r c x (measure c p)).1 (put_behind r c x (measure c p)).2.
Proof.
  intros Hz. destruct (measure_sized c p Hz) as [Hz' [Hw Hh]]. destruct (measure_keeps c p) as (E1 & E2 & E3 & E4 & _).
  unfold Coordinates.put_behind. cbv zeta. cbn [fst snd]. rewrite Hw. split; try done.
  - simpl. by rewrite E2.
  - simpl. by rewrite E1.
  - split; [|done]. split; apply Hz'.
  - intros c' Hc'. by apply (measure_other c p c' Hz).
Qed.

(** The positions of a row of cells that starts at [x]. *)
Fixpoint chain (p : place) (r : Z) (l : list nat) (x : Q) : Prop :=
  match l with
  | [] => True
  | c :: l => (∃ u v, getT p r c = Some u ∧ getX p r c = Some v ∧ (u == x + half (W c))%Q ∧ (v == x + half (W c))%Q) ∧
              chain p r l (x + half (W c) + half (W c) + intra)%Q
  end.

Definition keeps_except (r : Z) (l : list nat) (p p' : place) : Prop :=
  ∀ k, (∀ c, c ∈ l → k ≠ slot cs r c) → ts p' !! k = ts p !! k ∧ xs p' !! k = xs p !! k.

Lemma row_facts i l p x p' x' : NoDup l → (∀ c, c ∈ l → in_rank i c) → row (Z.of_nat i) l p x p' x' →
  chain p' (Z.of_nat i) l x ∧ keeps_except (Z.of_nat i) l p p' ∧ ys p' = ys p ∧ currentXDelta p' = currentXDelta p ∧ sized p' ∧
  (∀ c, c ∈ l → measured p' c) ∧ (∀ c, measured p c → measured p' c).
Proof.
  intros Hnd Hl Hr. induction Hr as [p x Hz|c l p x p1 x1 p2 x2 Hp Hr IH]; [split_and!; try done; by intros c ?%not_elem_of_nil|].
  apply NoDup_cons in Hnd as [Hc Hnd]. destruct IH as (C & K & Y & D & Z & M1 & M2); [done|intros; apply Hl; by right|].
  destruct Hp as [U1 U2 U3 U4 [U5 U6] U7 U8]. split_and!; try done.
  - split; [|by rewrite <-U8]. destruct (K (slot cs (Z.of_nat i) c)) as [K1 K2].
    { intros c' Hc' E. destruct (slots_differ i i c c') as [_ ->]; [apply Hl; left|apply Hl; by right|done|done]. }
    exists (Qred (x + half (W c))), (x + half (W c))%Q. unfold Coordinates.getT, Coordinates.getX. rewrite K1, K2, U1, U2, !lookup_insert_eq.
    split_and!; [done|done|apply Qred_correct|done].
  - intros k Hk. destruct (K k) as [K1 K2]; [intros c' Hc'; apply Hk; by right|]. rewrite K1, K2, U1, U2.
    rewrite !lookup_insert_ne; [done| |]; apply not_eq_sym, Hk; left.
  - congruence.
  - congruence.
  - intros c' [->|Hc']%elem_of_cons; [by apply M2|by apply M1].
  - auto.
Qed.

(** The loop of [rankCoordinates]. *)
Lemma coordinate_row r l : ∀ p x, sized p → row r l p x (foldl (coordinate_cell cfg cs getVertexBounds edge_count r) (p, x) l).1
  (foldl (coordinate_cell cfg cs getVertexBounds edge_count r) (p, x) l).2.
Proof.
  induction l as [|c l IH]; intros p x Hz; [by constructor|]. pose proof (put_behind_put r c p x Hz) as Hp.
  cbn [foldl]. unfold coordinate_cell at 2 4. cbn [fst snd]. destruct (put_behind r c x (measure c p)) as [p1 x1]. cbn [fst snd] in Hp.
  econstructor; [exact Hp|]. apply IH. apply (u_sized _ _ _ _ _ _ Hp).
Qed.

(** The loop of [calculateWidestRank] over a rank. *)
Record widened (r : Z) (l : list nat) (p : place) (x h : Q) (p' : place) (x' h' : Q) : Prop := {
  d_row : row r l p x p' x';
  d_height : (h <= h')%Q ∧ ∀ c, c ∈ l → isVertex (cs !!! c) = true → (cell_height c <= h')%Q;
  d_width : ∀ k, is_Some (rankWidths p' !! k) ↔ is_Some (rankWidths p !! k) ∨ (k = r ∧ l ≠ []);
  d_widest : widestRank p' = widestRank p ∨ widestRank p' = Some r;
  d_value : (is_Some (widestRankValue p') ↔ is_Some (widestRank p')) ∧ (is_Some (widestRank p) → is_Some (widestRank p'));
  d_found : l ≠ [] → (0 <= x)%Q → is_Some (widestRank p')
}.

Lemma put_widest r c p x p1 x1 a b w : put r c p x p1 x1 → put r c p x (set_widest a b w p1) x1.
Proof. intros [U1 U2 U3 U4 [[U5 U5'] U6] U7 U8]. split; try done. Qed.

Lemma widest_cell_step r c p x h : (0 <= W c)%Q → sized p → (is_Some (widestRankValue p) ↔ is_Some (widestRank p)) →
  ∃ p1 x1 h1, widest_cell cfg cs getVertexBounds edge_count r (p, x, h) c = (p1, x1, h1) ∧ put r c p x p1 x1 ∧
    (h <= h1)%Q ∧ (isVertex (cs !!! c) = true → (cell_height c <= h1)%Q) ∧
    (∀ k, is_Some (rankWidths p1 !! k) ↔ is_Some (rankWidths p !! k) ∨ k = r) ∧
    (widestRank p1 = widestRank p ∨ widestRank p1 = Some r) ∧
    (is_Some (widestRankValue p1) ↔ is_Some (widestRank p1)) ∧ (is_Some (widestRank p) → is_Some (widestRank p1)) ∧
    ((0 <= x)%Q → is_Some (widestRank p1)).
Proof.
  intros Hwc Hz Hw. pose proof (put_behind_put r c p x Hz) as Hp. destruct (measure_keeps c p) as (_ & _ & _ & _ & E1 & E2 & E3).
  destruct (measure_sized c p Hz) as [_ [_ Hh]]. unfold widest_cell.
  assert (widestRank (put_behind r c x (measure c p)).1 = widestRank p ∧ widestRankValue (put_behind r c x (measure c p)).1 = widestRankValue p ∧
    rankWidths (put_behind r c x (measure c p)).1 = rankWidths p) as (F1 & F2 & F3) by (unfold Coordinates.put_behind; simpl; by rewrite E1, E2, E3).
  destruct (put_behind r c x (measure c p)) as [q y] eqn:Eq. cbn [fst snd] in *.
  set (h1 := if isVertex (cs !!! c) then _ else h). set (q1 := if Qlt_le_dec _ y then _ else q).
  assert (∀ a b w, put r c p x (set_widest a b w q1) y) as Hput.
  { intros a b w. apply put_widest. unfold q1. destruct (Qlt_le_dec _ y); [by apply put_widest|done]. }
  exists (set_widest (widestRank q1) (widestRankValue q1) (<[r := y]> (rankWidths q1)) q1), y, h1. split_and!.
  - done.
  - apply Hput.
  - unfold h1. destruct (isVertex (cs !!! c)); [apply Q.le_max_l|apply Qle_refl].
  - intros Hv. unfold h1. rewrite Hv, <-Hh. apply Q.le_max_r.
  - intros k. assert (rankWidths q1 = rankWidths p) as E by (unfold q1; by destruct (Qlt_le_dec _ y)). simpl.
    rewrite E, lookup_insert_is_Some. destruct (decide (r = k)) as [->|]; naive_solver.
  - simpl. unfold q1. destruct (Qlt_le_dec _ y); simpl; auto.
  - simpl. unfold q1. destruct (Qlt_le_dec _ y); simpl; [by split|]. by rewrite F1, F2.
  - simpl. unfold q1. destruct (Qlt_le_dec _ y); simpl; [done|by rewrite F1].
  - intros Hx. simpl. unfold q1. destruct (Qlt_le_dec _ y) as [H|H]; simpl; [done|]. rewrite F1. apply Hw. rewrite F2 in H.
    destruct (widestRankValue p) as [v|]; [done|]. exfalso. simpl in H.
    pose proof (u_next _ _ _ _ _ _ Hp) as ->. destruct (pl_spacing HP) as (Hi & _). qlra.
Qed.

Lemma widest_fold r l : ∀ p x h, (∀ c, c ∈ l → (0 <= W c)%Q) → sized p → (is_Some (widestRankValue p) ↔ is_Some (widestRank p)) → (0 <= x)%Q →
  ∃ p' x' h', foldl (widest_cell cfg cs getVertexBounds edge_count r) (p, x, h) l = (p', x', h') ∧ widened r l p x h p' x' h'.
Proof.
  induction l as [|c l IH]; intros p x h Hl Hz Hw Hx.
  - exists p, x, h. split; [done|]. split; [by constructor| | | |done|done].
    + split; [qlra|]. by intros c ?%not_elem_of_nil.
    + intros k. naive_solver.
    + by left.
  - pose proof (Hl c (list_elem_of_here _ _)) as Hwc. destruct (widest_cell_step r c p x h Hwc Hz Hw) as (p1 & x1 & h1 & E & Hp & H1 & H2 & H3 & H4 & H5 & H6 & H7).
    destruct (IH p1 x1 h1) as (p2 & x2 & h2 & E2 & [D1 [D2 D2'] D3 D4 [D5 D5'] D6]).
    + intros; apply Hl; by right.
    + apply (u_sized _ _ _ _ _ _ Hp).
    + done.
    + rewrite (u_next _ _ _ _ _ _ Hp). destruct (pl_spacing HP) as (Hi & _). qlra.
    + exists p2, x2, h2. cbn [foldl]. rewrite E. split; [done|]. split.
      * by econstructor.
      * split; [qlra|]. intros b [->|Hb]%elem_of_cons Hv; [specialize (H2 Hv); qlra|by apply D2'].
      * intros k. rewrite D3, H3. split; [intros [[?|?]|[? _]]; auto|intros [?|[? _]]; auto].
      * destruct D4 as [->| ->]; [done|by right].
      * split; [done|auto].
      * intros _ Hx'. apply D5', H7. done.
Qed.

(** *** All ranks *)

(** [a] comes [d] or more after [b] in the direction in which the ranks follow each other. *)
Definition beyond (a b d : Q) : Prop :=
  if decide (orientation cfg = NORTH ∨ orientation cfg = WEST) then (b + d <= a)%Q else (a + d <= b)%Q.

Lemma setY_fold r y l : ∀ p, let p' := foldl (λ p c, setY cs r c y p) p l in
  xs p' = xs p ∧ ts p' = ts p ∧ widths p' = widths p ∧ heights p' = heights p ∧ currentXDelta p' = currentXDelta p ∧
  widestRank p' = widestRank p ∧ widestRankValue p' = widestRankValue p ∧ rankWidths p' = rankWidths p ∧
  (∀ c, c ∈ l → ys p' !! slot cs r c = Some y) ∧ ∀ k, (∀ c, c ∈ l → k ≠ slot cs r c) → ys p' !! k = ys p !! k.
Proof.
  induction l as [|c l IH]; intros p p'; [split_and!; try done; by intros c ?%not_elem_of_nil|].
  destruct (IH (setY cs r c y p)) as (E1 & E2 & E3 & E4 & E5 & E6 & E7 & E8 & E9 & E10). split_and!; try done.
  - intros b Hb. destruct (decide (b ∈ l)) as [Hbl|Hbl]; [by apply E9|]. apply elem_of_cons in Hb as [->|?]; [|done].
    simpl. rewrite E10; [simpl; by rewrite lookup_insert_eq|]. intros c' Hc' Es. injection Es as -> _. done.
  - intros k Hk. simpl. rewrite E10 by (intros c' Hc'; apply Hk; by right). simpl. rewrite lookup_insert_ne; [done|]. apply not_eq_sym, Hk. left.
Qed.

(** What the ranks below [n] become: positions side by side, a height and a vertical position
    for each rank. *)
Record initial (n : nat) (p : place) (Y M : nat → Q) : Prop := {
  i_chain : ∀ i r, i < n → ranks !! i = Some r → chain p (Z.of_nat i) r (initialX cfg);
  i_measured : ∀ i c, i < n → in_rank i c → measured p c ∧ ys p !! slot cs (Z.of_nat i) c = Some (Y i);
  i_width : ∀ i r, i < n → ranks !! i = Some r → r ≠ [] → is_Some (rankWidths p !! Z.of_nat i);
  i_height : ∀ i c, i < n → in_rank i c → isVertex (cs !!! c) = true → (cell_height c <= M i)%Q;
  i_beyond : ∀ i j, i < j < n → beyond (Y i) (Y j) (half (M i) + half (M j) + inter)%Q
}.

Record ranks_placed (n : nat) (p p' : place) : Prop := {
  k_keeps : ∀ k, (∀ i c, i < n → in_rank i c → k ≠ slot cs (Z.of_nat i) c) → ts p' !! k = ts p !! k ∧ xs p' !! k = xs p !! k ∧ ys p' !! k = ys p !! k;
  k_measured : ∀ c, measured p c → measured p' c;
  k_width : ∀ k, is_Some (rankWidths p !! k) → is_Some (rankWidths p' !! k);
  k_sized : sized p';
  k_delta : currentXDelta p' = currentXDelta p;
  k_value : (is_Some (widestRankValue p') ↔ is_Some (widestRank p')) ∧ (is_Some (widestRank p) → is_Some (widestRank p'));
  k_widest : widestRank p' = widestRank p ∨ ∃ i, i < n ∧ widestRank p' = Some (Z.of_nat i);
  k_found : (∃ i c, i < n ∧ in_rank i c) → is_Some (widestRank p')
}.

Lemma chain_ext p p' r l x : (∀ c, c ∈ l → ts p' !! slot cs r c = ts p !! slot cs r c ∧ xs p' !! slot cs r c = xs p !! slot cs r c) →
  chain p r l x → chain p' r l x.
Proof.
  revert x. induction l as [|c l IH]; intros x Hl; [done|]. intros [(u & v & H1 & H2 & H3) H]. split.
  - exists u, v. unfold Coordinates.getT, Coordinates.getX in *. destruct (Hl c (list_elem_of_here _ _)) as [-> ->]. done.
  - apply IH; [|done]. intros b Hb. apply Hl. by right.
Qed.

Lemma widest_rank_step i r p y h : ranks !! i = Some r → sized p → (is_Some (widestRankValue p) ↔ is_Some (widestRank p)) →
  ∃ p' y' h', widest_rank cfg cs ranks getVertexBounds edge_count (Some (p, y, h)) (Z.of_nat i) = Some (p', y', h') ∧
    chain p' (Z.of_nat i) r (initialX cfg) ∧ (∀ c, c ∈ r → measured p' c ∧ ys p' !! slot cs (Z.of_nat i) c = Some y') ∧
    (r ≠ [] → is_Some (rankWidths p' !! Z.of_nat i)) ∧ (0 <= h')%Q ∧ (∀ c, c ∈ r → isVertex (cs !!! c) = true → (cell_height c <= h')%Q) ∧
    beyond y' y (half h' + half h + inter)%Q ∧
    (∀ k, (∀ c, c ∈ r → k ≠ slot cs (Z.of_nat i) c) → ts p' !! k = ts p !! k ∧ xs p' !! k = xs p !! k ∧ ys p' !! k = ys p !! k) ∧
    (∀ c, measured p c → measured p' c) ∧ (∀ k, is_Some (rankWidths p !! k) → is_Some (rankWidths p' !! k)) ∧ sized p' ∧
    currentXDelta p' = currentXDelta p ∧ (is_Some (widestRankValue p') ↔ is_Some (widestRank p')) ∧
    (is_Some (widestRank p) → is_Some (widestRank p')) ∧ (widestRank p' = widestRank p ∨ widestRank p' = Some (Z.of_nat i)) ∧
    (r ≠ [] → is_Some (widestRank p')).
Proof.
  intros Hr Hz Hw. destruct (pl_spacing HP) as (_ & _ & Hx0).
  destruct (widest_fold (Z.of_nat i) r p (initialX cfg) 0 ltac:(intros c Hc; apply (cell_width_nonneg i); by exists r) Hz Hw Hx0) as (p1 & x1 & h1 & E & [D1 [D2 D2'] D3 D4 [D5 D5'] D6]).
  destruct (row_facts i r p (initialX cfg) p1 x1) as (C & K & Y & D & Z & M1 & M2); [by eapply ly_nodup; [apply (pl_layered HP)|]|intros c Hc; by exists r|done|].
  set (d := (half h1 + half h + inter)%Q). set (y' := if decide (orientation cfg = NORTH ∨ orientation cfg = WEST) then (y + d)%Q else (y - d)%Q).
  destruct (setY_fold (Z.of_nat i) y' r p1) as (E1 & E2 & E3 & E4 & E5 & E6 & E7 & E8 & E9 & E10).
  set (p' := foldl _ p1 r) in *. exists p', y', h1.
  assert (∀ c, measured p1 c → measured p' c) as Hm by (intros c; unfold measured, width, height; by rewrite E3, E4).
  split_and!.
  - unfold widest_rank. cbn [mbind option_bind]. rewrite Nat2Z.id, Hr. cbn [mbind option_bind]. rewrite E. done.
  - eapply chain_ext; [|exact C]. intros c Hc. by rewrite E1, E2.
  - intros c Hc. split; [by apply Hm, M1|by apply E9].
  - intros Hne. rewrite E8. apply D3. by right.
  - qlra.
  - done.
  - unfold beyond, y', d. case_decide; qlra.
  - intros k Hk. destruct (K k Hk) as [K1 K2]. rewrite E1, E2, E10 by done. by rewrite Y.
  - intros c Hc. by apply Hm, M2.
  - intros k Hk. rewrite E8. apply D3. by left.
  - split; [rewrite E3; apply Z|rewrite E4; apply Z].
  - congruence.
  - by rewrite E6, E7.
  - rewrite E6. done.
  - rewrite E6. done.
  - intros Hne. rewrite E6. by apply D6.
Qed.

Lemma beyond_trans a b c d d1 d2 : beyond a b d1 → beyond b c d2 → (d <= d1 + d2)%Q → beyond a c d.
Proof. unfold beyond. case_decide; intros; lra. Qed.

Lemma seqZ_reverse m : reverse (seqZ 0 (Z.of_nat (S m))) = Z.of_nat m :: reverse (seqZ 0 (Z.of_nat m)).
Proof. rewrite Nat2Z.inj_succ, <-Z.add_1_r, seqZ_app by lia. by rewrite reverse_app. Qed.

Lemma widest_ranks n : ∀ p y h, n ≤ length ranks → sized p → (is_Some (widestRankValue p) ↔ is_Some (widestRank p)) → (0 <= h)%Q →
  ∃ p' y' h' Y M, foldl (widest_rank cfg cs ranks getVertexBounds edge_count) (Some (p, y, h)) (reverse (seqZ 0 (Z.of_nat n))) = Some (p', y', h') ∧
    initial n p' Y M ∧ ranks_placed n p p' ∧ ∀ i, i < n → beyond (Y i) y (half (M i) + half h + inter) ∧ (0 <= M i)%Q.
Proof.
  induction n as [|m IH]; intros p y h Hn Hz Hw Hh.
  { exists p, y, h, (λ _, 0%Q), (λ _, 0%Q). split_and!; [done|split; intros; lia| |intros; lia].
    split; try done; [by left|]. intros (i & c & Hi & _). lia. }
  destruct (lookup_lt_is_Some_2 ranks m ltac:(lia)) as [r Hr].
  destruct (widest_rank_step m r p y h Hr Hz Hw) as (p1 & y1 & h1 & E & A1 & A2 & A3 & A4 & A5 & A6 & A7 & A8 & A9 & A10 & A11 & A12 & A13 & A14 & A15).
  destruct (IH p1 y1 h1 ltac:(lia) A10 A12 A4) as (p' & y' & h' & Y & M & E' & [B1 B2 B3 B4 B5] & [C1 C2 C3 C4 C5 C6 C7 C8] & B6).
  exists p', y', h', (λ i, if decide (i = m) then y1 else Y i), (λ i, if decide (i = m) then h1 else M i).
  assert (∀ c, c ∈ r → ∀ i b, i < m → in_rank i b → slot cs (Z.of_nat m) c ≠ slot cs (Z.of_nat i) b) as Hdiff.
  { intros c Hc i b Hi Hb Es. apply slots_differ in Es as [-> _]; [lia|by exists r|done]. }
  assert (∀ i, i < S m → i = m ∨ i < m) as Hcase by lia.
  split_and!.
  - rewrite seqZ_reverse. cbn [foldl]. rewrite E. exact E'.
  - split.
    + intros i r' Hi Hr'. destruct (Hcase i Hi) as [->|Hi']; [|by apply B1]. simplify_eq.
      eapply chain_ext; [|exact A1]. intros c Hc. by destruct (C1 (slot cs (Z.of_nat m) c)) as (-> & -> & _); [intros; by apply Hdiff|].
    + intros i c Hi Hc. case_decide as Him; [subst i|by apply B2; [lia|]]. destruct Hc as (r' & Hr' & Hc). simplify_eq.
      destruct (A2 c Hc) as [Hm Hy]. split; [by apply C2|].
      by destruct (C1 (slot cs (Z.of_nat m) c)) as (_ & _ & ->); [intros; by apply Hdiff|].
    + intros i r' Hi Hr' Hne. destruct (Hcase i Hi) as [->|Hi']; [|by eapply B3]. simplify_eq. by apply C3, A3.
    + intros i c Hi Hc Hv. case_decide as Him; [subst i|by apply B4; [lia| |]]. destruct Hc as (r' & Hr' & Hc). simplify_eq. by apply A5.
    + intros i j Hij. case_decide; [lia|]. case_decide; [|apply B5; lia]. apply B6. lia.
  - split.
    + intros k Hk. destruct (C1 k) as (-> & -> & ->); [intros i c Hi; apply Hk; lia|]. apply A7. intros c Hc. apply Hk; [lia|by exists r].
    + auto.
    + auto.
    + done.
    + congruence.
    + split; [apply C6|]. intros H. by apply C6, A13.
    + destruct C7 as [->|(i & Hi & ->)]; [|right; exists i; split; [lia|done]]. destruct A14 as [->| ->]; [by left|right]. exists m. split; [lia|done].
    + intros (i & c & Hi & Hc). destruct (Hcase i Hi) as [->|Hi']; [|apply C8; by exists i, c].
      destruct Hc as (r' & Hr' & Hc). simplify_eq. apply C6, A15. by intros ->; apply elem_of_nil in Hc.
  - intros i Hi. case_decide as Him; [done|]. destruct (B6 i ltac:(lia)) as [H1 H2]. split; [|done].
    eapply beyond_trans; [exact H1|exact A6|]. pose proof (pl_inter HP). qlra.
Qed.

(** *** The ranks moved to their places *)

Lemma coordinate_fold_widths r l : ∀ acc, rankWidths (foldl (coordinate_cell cfg cs getVertexBounds edge_count r) acc l).1 = rankWidths acc.1.
Proof.
  induction l as [|c l IH]; intros acc; [done|]. cbn [foldl]. rewrite IH. unfold coordinate_cell, Coordinates.put_behind. simpl. apply measure_keeps.
Qed.

(** The cells of each rank lie side by side, with their sizes; [Y] is the vertical position of
    each rank. *)
Record arranged (Y : nat → Q) (p : place) : Prop := {
  a_chain : ∀ i r, ranks !! i = Some r → ∃ x, chain p (Z.of_nat i) r x;
  a_measured : ∀ i c, in_rank i c → measured p c ∧ ys p !! slot cs (Z.of_nat i) c = Some (Y i);
  a_width : ∀ i r, ranks !! i = Some r → r ≠ [] → is_Some (rankWidths p !! Z.of_nat i);
  a_sized : sized p;
  a_delta : currentXDelta p = 0%Q
}.

Lemma rank_coordinates_arranged Y i p : i < length ranks → arranged Y p →
  ∃ p', rankCoordinates cfg cs ranks getVertexBounds edge_count (Z.of_nat i) p = Some p' ∧ arranged Y p'.
Proof.
  intros [r Hr]%lookup_lt_is_Some HA. destruct HA as [A1 A2 A3 A4 A5]. unfold rankCoordinates. rewrite Nat2Z.id, Hr. cbn [mbind option_bind].
  destruct r as [|b l]; [by exists p|]. destruct (A3 i _ Hr) as [w Hw]; [done|]. rewrite Hw. cbn [mbind option_bind].
  set (r := b :: l) in *. set (x := (initialX cfg + half (default 0 (widestRankValue p) - w))%Q).
  pose proof (coordinate_row (Z.of_nat i) r p x A4) as Hrow. pose proof (coordinate_fold_widths (Z.of_nat i) r (p, x)) as Hws.
  destruct (foldl _ (p, x) r) as [p' x']. cbn [fst snd] in *. exists p'. split; [done|].
  destruct (row_facts i r p x p' x') as (C & K & Y' & D & Z & M1 & M2); [by eapply ly_nodup; [apply (pl_layered HP)|]|intros c Hc; by exists r|done|].
  split.
  - intros j r' Hr'. destruct (decide (i = j)) as [<-|Hij]; [simplify_eq; by exists x|]. destruct (A1 j r' Hr') as [x1 Hx1]. exists x1.
    eapply chain_ext; [|exact Hx1]. intros c Hc. apply K. intros c' Hc' Es. apply slots_differ in Es as [-> _]; [done|by exists r'|by exists r].
  - intros j c Hc. destruct (A2 j c Hc). rewrite Y'. auto.
  - intros j r' Hr' Hne. rewrite Hws. by eapply A3.
  - done.
  - congruence.
Qed.

Lemma coordinate_ranks_arranged Y rs : ∀ p, (∀ r, r ∈ rs → (0 ≤ r < Z.of_nat (length ranks))%Z) → arranged Y p →
  ∃ p', coordinate_ranks cfg cs ranks getVertexBounds edge_count rs p = Some p' ∧ arranged Y p'.
Proof.
  unfold coordinate_ranks. induction rs as [|r rs IH]; intros p Hrs HA; [by exists p|].
  destruct (Hrs r (list_elem_of_here _ _)). destruct (rank_coordinates_arranged Y (Z.to_nat r) p) as (p1 & E & H1); [lia|done|].
  rewrite Z2Nat.id in E by done. cbn [foldl mbind option_bind]. rewrite E. apply IH; [|done]. intros r' Hr'. apply Hrs. by right.
Qed.

Lemma new_place_sized : sized (set_delta 0%Q new_place).
Proof. by split. Qed.

(** [initialCoords] places every cell; the ranks are one beyond the other. *)
Lemma initialCoords_arranged : ∃ p Y M, initialCoords cfg cs ranks model_maxRank getVertexBounds edge_count (set_delta 0%Q new_place) = Some p ∧
  arranged Y p ∧ (∀ i c, in_rank i c → isVertex (cs !!! c) = true → (cell_height c <= M i)%Q) ∧
  ∀ i j, i < j < length ranks → beyond (Y i) (Y j) (half (M i) + half (M j) + inter)%Q.
Proof.
  destruct (widest_ranks (length ranks) (set_delta 0%Q new_place) (- inter)%Q 0%Q) as (p & y & h & Y & M & E & [B1 B2 B3 B4 B5] & [C1 C2 C3 C4 C5 C6 C7 C8] & _);
    [lia|by split|split; by intros [? ?]|qlra|].
  unfold initialCoords, calculateWidestRank. rewrite <-(pl_length HP), E. cbn [mbind option_bind fst].
  assert (∀ i c, in_rank i c → i < length ranks) as Hlt by (intros i c (r & Hr & _); by apply lookup_lt_Some in Hr).
  assert (arranged Y p) as HA.
  { split; try done.
    - intros i r Hr. exists (initialX cfg). apply B1; [|done]. by apply lookup_lt_Some in Hr.
    - intros i c Hc. apply B2; [by eapply Hlt|done].
    - intros i r Hr. apply B3; [by apply lookup_lt_Some in Hr|done]. }
  destruct (pl_cells HP) as (i0 & r0 & c0 & Hr0 & Hc0). destruct C8 as [w Hw]; [exists i0, c0; split; [eapply Hlt|]; by exists r0|].
  rewrite Hw. destruct C7 as [C7|(i & Hi & C7)]; [by rewrite C7 in Hw|]. assert (w = Z.of_nat i) as -> by congruence.
  destruct (coordinate_ranks_arranged Y (filter (λ i, (i < model_maxRank)%Z) (reverse (seqZ 0 (Z.of_nat i + 1)))) p) as (p1 & E1 & H1); [|done|].
  { intros r [_ Hr]%list_elem_of_filter. apply elem_of_reverse, elem_of_seqZ in Hr. lia. }
  destruct (coordinate_ranks_arranged Y (filter (λ i, (0 < i)%Z) (seqZ (Z.of_nat i + 1) (model_maxRank - Z.of_nat i))) p1) as (p2 & E2 & H2); [|done|].
  { intros r [_ Hr]%list_elem_of_filter. apply elem_of_seqZ in Hr. pose proof (pl_length HP). lia. }
  rewrite E1. cbn [mbind option_bind]. exists p2, Y, M. split_and!; [exact E2|done| |done]. intros j c Hc. apply B4; [by eapply Hlt|done].
Qed.

(** ** The medians of [minNode] *)

Abbreviation wrappers := (wrappers ranks model_maxRank).
Abbreviation wrapper_map := (wrapper_map ranks model_maxRank).

(** The temporary positions of all cells are there; those of neighbours are apart. *)
Definition defined (p : place) : Prop := ∀ i c, in_rank i c → is_Some (getT p (Z.of_nat i) c).
Definition apart (r : nat) (a b : nat) (p : place) : Prop :=
  ∀ u v, getT p (Z.of_nat r) a = Some u → getT p (Z.of_nat r) b = Some v → (u + half (W a) + intra + half (W b) <= v)%Q.
Record spaced (p : place) : Prop := {
  sp_defined : defined p;
  sp_measured : ∀ i c, in_rank i c → measured p c;
  sp_apart : ∀ i r j a b, ranks !! i = Some r → r !! j = Some a → r !! S j = Some b → apart i a b p
}.

Lemma chain_apart p r l x : chain p (Z.of_nat r) l x → ∀ j a b, l !! j = Some a → l !! S j = Some b → apart r a b p.
Proof.
  revert x. induction l as [|c l IH]; intros x; [done|]. intros [(u & v & Hu & _ & Eu & _) Hl] [|j] a b Ha Hb; [|by eapply IH].
  injection Ha as <-. destruct l as [|d l]; [done|]. injection Hb as <-. destruct Hl as [(u' & v' & Hu' & _ & Eu' & _) _].
  intros u1 v1 Hu1 Hv1. simplify_eq. qlra.
Qed.
Lemma chain_defined p r l x c : chain p r l x → c ∈ l → is_Some (getT p r c) ∧ is_Some (getX p r c).
Proof.
  revert x. induction l as [|b l IH]; intros x; [by intros _ ?%elem_of_nil|].
  intros [(u & v & Hu & Hv & _) Hl] [->|Hc]%elem_of_cons; [by rewrite Hu, Hv|by eapply IH].
Qed.

Lemma arranged_spaced Y p : arranged Y p → spaced p.
Proof.
  intros [A1 A2 A3 A4 A5]. split.
  - intros i c (r & Hr & Hc). destruct (A1 i r Hr) as [x Hx]. by eapply chain_defined.
  - intros i c Hc. by apply (A2 i).
  - intros i r j a b Hr. destruct (A1 i r Hr) as [x Hx]. by eapply chain_apart.
Qed.

Lemma mapM_getT p r l : (∀ b, b ∈ l → is_Some (getT p r b)) → ∃ vs, mapM (getT p r) l = Some vs ∧ length vs = length l.
Proof.
  intros Hl. destruct (proj2 (mapM_is_Some (getT p r) l)) as [vs Hvs]; [by apply Forall_forall|]. exists vs. split; [done|].
  by apply length_mapM in Hvs.
Qed.

Lemma medianXValue_some p l r : (∀ b, b ∈ l → is_Some (getT p r b)) → is_Some (medianXValue cs p l r).
Proof.
  intros Hl. unfold medianXValue. destruct l as [|b l]; [done|]. set (k := b :: l) in *.
  destruct (mapM_getT p r k Hl) as (vs & -> & Hlen). cbn [mbind option_bind].
  assert (length (merge_sort Qle vs) = length k) as E by (by rewrite (merge_sort_Permutation Qle vs)).
  assert (0 < length k) by (unfold k; simpl; lia).
  assert (length k / 2 < length k) by (apply Nat.div_lt; lia).
  assert (is_Some (merge_sort Qle vs !! (length k / 2))) as [v2 H2] by (apply lookup_lt_is_Some; lia).
  assert (is_Some (merge_sort Qle vs !! (length k / 2 - 1))) as [v1 H1] by (apply lookup_lt_is_Some; lia).
  rewrite H1, H2. case_decide; done.
Qed.

Lemma wrappers_lookup i w : wrappers !! i = Some w →
  ∃ k r, w_rank w = Z.of_nat k ∧ ranks !! k = Some r ∧ r !! w_index w = Some (w_cell w).
Proof.
  intros Hw%list_elem_of_lookup_2. apply elem_of_concat in Hw as (l & Hw & Hl).
  apply elem_of_lookup_imap in Hl as (k & r & -> & Hr). apply elem_of_lookup_imap in Hw as (j & c & -> & Hc).
  exists k, r. split_and!; [done| |done]. apply lookup_take_Some in Hr. apply Hr.
Qed.

Lemma wrapper_map_bound c i : wrapper_map !! c = Some i → i < length wrappers.
Proof.
  unfold Coordinates.wrapper_map. set (l := wrappers).
  assert (∀ (iw : list (nat * wrapper)) m, (∀ c i, (m : gmap nat nat) !! c = Some i → i < length l) → (∀ x, x ∈ iw → x.1 < length l) →
    ∀ c i, foldl (λ m iw, <[w_cell iw.2 := iw.1]> m) m iw !! c = Some i → i < length l) as Hgen.
  { induction iw as [|x iw IH]; intros m Hm Hx; [done|]. apply IH; [|intros y Hy; apply Hx; by right].
    intros c' i' [[_ <-]|[_ H]]%lookup_insert_Some; [apply Hx; left|by eapply Hm]. }
  apply Hgen; [done|]. intros x (k & w & -> & Hw)%elem_of_lookup_imap. by apply lookup_lt_Some in Hw.
Qed.

Lemma enqueue_bound l : ∀ acc, (∀ i, i ∈ acc.1 → i < length wrappers) →
  ∀ i, i ∈ (foldl (enqueue ranks model_maxRank) acc l).1 → i < length wrappers.
Proof.
  induction l as [|c l IH]; intros acc Hacc; [done|]. cbn [foldl]. apply IH. intros i. unfold enqueue.
  destruct (wrapper_map !! c) as [k|] eqn:E; [|apply Hacc]. case_decide; [apply Hacc|]. cbn [fst].
  intros [Hi|Hi]%elem_of_app; [by apply Hacc|]. apply list_elem_of_singleton in Hi as ->. by eapply wrapper_map_bound.
Qed.

(** A cell keeps its distance to its neighbours where [minNode] moves it. *)
Lemma new_position_spaced p k r j c cellMedian cur : spaced p → ranks !! k = Some r → r !! j = Some c → getT p (Z.of_nat k) c = Some cur →
  ∃ o, new_position cfg cs p r (Z.of_nat k) j c cellMedian cur = Some o ∧ ∀ v, o = Some v →
    (∀ l a u, j = S l → r !! l = Some a → getT p (Z.of_nat k) a = Some u → (u + half (W a) + intra + half (W c) <= v)%Q) ∧
    (∀ b w, r !! S j = Some b → getT p (Z.of_nat k) b = Some w → (v + half (W c) + intra + half (W b) <= w)%Q).
Proof.
  intros [S1 S2 S3] Hr Hc Hcur. destruct (S2 k c) as [Wc _]; [exists r; split; [done|by eapply list_elem_of_lookup_2]|].
  assert (∀ l a u, j = S l → r !! l = Some a → getT p (Z.of_nat k) a = Some u → (u + half (W a) + intra + half (W c) <= cur)%Q) as Hleft.
  { intros l a u -> Ha Hu. by apply (S3 k r l a c Hr Ha Hc). }
  assert (∀ b w, r !! S j = Some b → getT p (Z.of_nat k) b = Some w → (cur + half (W c) + intra + half (W b) <= w)%Q) as Hright.
  { intros b w Hb Hw. by apply (S3 k r j c b Hr Hc Hb). }
  assert (∀ i a, r !! i = Some a → is_Some (getT p (Z.of_nat k) a) ∧ width p a = W a) as Hall.
  { intros i a Ha. assert (in_rank k a) as Hin by (exists r; split; [done|by eapply list_elem_of_lookup_2]). split; [by apply S1|by apply (S2 k a)]. }
  pose proof (lookup_lt_Some _ _ _ Hc) as Hj. unfold new_position. cbv zeta. destruct (Qlt_le_dec cellMedian (cur - 1)) as [H1|H1].
  - destruct j as [|l].
    + exists (Some cellMedian). split; [done|]. intros v [= <-]. split; [done|]. intros b w Hb Hw. specialize (Hright b w Hb Hw). qlra.
    + destruct (lookup_lt_is_Some_2 r l ltac:(lia)) as [a Ha]. rewrite Ha. cbn [mbind option_bind]. unfold left_limit.
      destruct (Hall l a Ha) as [[u Hu] Wa]. rewrite Hu, Wa, Wc. cbn [mbind option_bind]. eexists. split; [done|]. intros v Hv. split.
      * intros l' a' u' [= <-] Ha' Hu'. simplify_eq. destruct (Qlt_le_dec _ cellMedian); [|destruct (Qlt_le_dec _ _)]; simplify_eq; qlra.
      * intros b w Hb Hw. specialize (Hright b w Hb Hw). destruct (Qlt_le_dec _ cellMedian); [|destruct (Qlt_le_dec _ _)]; simplify_eq; qlra.
  - destruct (Qlt_le_dec (cur + 1) cellMedian) as [H2|H2]; [|by exists None].
    case_decide as Hlast.
    + exists (Some cellMedian). split; [done|]. intros v [= <-]. split; [|intros b w Hb%lookup_lt_Some; lia].
      intros l a u -> Ha Hu. specialize (Hleft l a u eq_refl Ha Hu). qlra.
    + destruct (lookup_lt_is_Some_2 r (S j) ltac:(lia)) as [b Hb]. rewrite Hb. cbn [mbind option_bind]. unfold right_limit.
      destruct (Hall (S j) b Hb) as [[u Hu] Wb]. rewrite Hu, Wb, Wc. cbn [mbind option_bind]. eexists. split; [done|]. intros v Hv. split.
      * intros l a u' -> Ha Hu'. specialize (Hleft l a u' eq_refl Ha Hu'). destruct (Qlt_le_dec cellMedian _); [|destruct (Qlt_le_dec _ _)]; simplify_eq; qlra.
      * intros b' w Hb' Hw. simplify_eq. destruct (Qlt_le_dec cellMedian _); [|destruct (Qlt_le_dec _ _)]; simplify_eq; qlra.
Qed.

Lemma getT_setT_ne k i c b v p : slot cs (Z.of_nat k) c ≠ slot cs (Z.of_nat i) b → getT (setT (Z.of_nat k) c v p) (Z.of_nat i) b = getT p (Z.of_nat i) b.
Proof. intros H. unfold Coordinates.getT, Coordinates.setT. simpl. by rewrite lookup_insert_ne. Qed.
Lemma getT_setT r c v p : getT (setT r c v p) r c = Some (Qred v).
Proof. unfold Coordinates.getT, Coordinates.setT. simpl. by rewrite lookup_insert_eq. Qed.

Lemma setT_defined r c v p : defined p → defined (setT r c v p).
Proof.
  intros HD i b Hb. unfold Coordinates.getT, Coordinates.setT. simpl. apply lookup_insert_is_Some.
  destruct (decide (slot cs r c = slot cs (Z.of_nat i) b)); [by left|right]. split; [done|by apply HD].
Qed.

Lemma setT_spaced p k r j c v : spaced p → ranks !! k = Some r → r !! j = Some c →
  (∀ l a u, j = S l → r !! l = Some a → getT p (Z.of_nat k) a = Some u → (u + half (W a) + intra + half (W c) <= v)%Q) →
  (∀ b w, r !! S j = Some b → getT p (Z.of_nat k) b = Some w → (v + half (W c) + intra + half (W b) <= w)%Q) →
  spaced (setT (Z.of_nat k) c v p).
Proof.
  intros [S1 S2 S3] Hr Hc Hl Hrt. split; [by apply setT_defined|done|].
  assert (in_rank k c) as Hin by (exists r; split; [done|by eapply list_elem_of_lookup_2]).
  assert (∀ i r' l b, ranks !! i = Some r' → r' !! l = Some b → slot cs (Z.of_nat k) c = slot cs (Z.of_nat i) b → i = k ∧ l = j ∧ b = c) as Hsame.
  { intros i r' l b Hr' Hb Es. assert (in_rank i b) as Hin' by (exists r'; split; [done|by eapply list_elem_of_lookup_2]).
    apply slots_differ in Es as [<- <-]; [|done|done]. simplify_eq. split_and!; [done| |done].
    by eapply NoDup_lookup; [eapply ly_nodup; [apply (pl_layered HP)|]|..]. }
  intros i r' l a b Hr' Ha Hb u w. pose proof (Qred_correct v) as Ev.
  destruct (decide (slot cs (Z.of_nat k) c = slot cs (Z.of_nat i) a)) as [Es|Es].
  - destruct (Hsame i r' l a Hr' Ha Es) as (-> & -> & ->). rewrite getT_setT. intros [= <-].
    destruct (decide (slot cs (Z.of_nat k) c = slot cs (Z.of_nat k) b)) as [Es'|Es'].
    + destruct (Hsame k r' (S j) b Hr' Hb Es') as (_ & ? & _). lia.
    + rewrite getT_setT_ne by done. intros Hw. simplify_eq. specialize (Hrt b w Hb Hw). lra.
  - rewrite getT_setT_ne by done. intros Hu. destruct (decide (slot cs (Z.of_nat k) c = slot cs (Z.of_nat i) b)) as [Es'|Es'].
    + destruct (Hsame i r' (S l) b Hr' Hb Es') as (-> & <- & ->). rewrite getT_setT. intros [= <-]. simplify_eq. specialize (Hl l a u eq_refl Ha Hu). lra.
    + rewrite getT_setT_ne by done. intros Hw. by apply (S3 i r' l a b).
Qed.

Lemma next_defined p k c : defined p → in_rank k c → ∃ l, getNextLayerConnectedCells cs (Z.of_nat k) c = Some l ∧ ∀ b, b ∈ l → is_Some (getT p (Z.of_nat k + 1) b).
Proof.
  intros HD (r & Hr & Hc). destruct (ly_next _ _ (pl_layered HP) k r c Hr Hc) as (l & E & Hl). exists l. split; [done|].
  intros b Hb. specialize (HD (S k) b (Hl b Hb)). by replace (Z.of_nat k + 1)%Z with (Z.of_nat (S k)) by lia.
Qed.
Lemma previous_defined p k c : defined p → in_rank k c → ∃ l, getPreviousLayerConnectedCells cs (Z.of_nat k) c = Some l ∧ ∀ b, b ∈ l → is_Some (getT p (Z.of_nat k - 1) b).
Proof.
  intros HD (r & Hr & Hc). destruct (ly_prev _ _ (pl_layered HP) k r c Hr Hc) as (l & E & Hl). exists l. split; [done|].
  intros b Hb. destruct (Hl b Hb) as (i & r' & -> & Hr' & Hb'). specialize (HD i b (ex_intro _ r' (conj Hr' Hb'))).
  by replace (Z.of_nat (S i) - 1)%Z with (Z.of_nat i) by lia.
Qed.

Lemma new_position_some p k r j c cellMedian cur : defined p → ranks !! k = Some r → j < length r →
  is_Some (new_position cfg cs p r (Z.of_nat k) j c cellMedian cur).
Proof.
  intros HD Hr Hj. assert (∀ a, a ∈ r → is_Some (getT p (Z.of_nat k) a)) as Hall by (intros a Ha; apply HD; by exists r).
  unfold new_position, left_limit, right_limit. cbv zeta. destruct (Qlt_le_dec cellMedian (cur - 1)).
  - destruct j as [|l]; [done|]. destruct (lookup_lt_is_Some_2 r l ltac:(lia)) as [a Ha]. rewrite Ha. cbn [mbind option_bind].
    destruct (Hall a) as [u ->]; [by eapply list_elem_of_lookup_2|done].
  - destruct (Qlt_le_dec (cur + 1) cellMedian); [|done]. case_decide; [done|].
    destruct (lookup_lt_is_Some_2 r (S j) ltac:(lia)) as [a Ha]. rewrite Ha. cbn [mbind option_bind].
    destruct (Hall a) as [u ->]; [by eapply list_elem_of_lookup_2|done].
Qed.

(** The temporary positions [m] differ from those of [p] only for cells of the ranks. *)
Definition others (m : gmap (nat * Z) Q) (p : place) : Prop := ∀ k, (∀ i c, in_rank i c → k ≠ slot cs (Z.of_nat i) c) → m !! k = ts p !! k.
Lemma others_refl p : others (ts p) p.
Proof. done. Qed.
Lemma others_setT m p k c v : others m p → in_rank k c → others (<[slot cs (Z.of_nat k) c := v]> m) p.
Proof. intros Ho Hc s Hs. rewrite lookup_insert_ne by (apply not_eq_sym, Hs, Hc). by apply Ho. Qed.
Lemma set_ts_same p : set_ts (ts p) p = p.
Proof. by destruct p. Qed.

(** What a step of [minNode] does: temporary positions change, and stay apart if they are. *)
Record moved (m : gmap (nat * Z) Q) (p : place) : Prop := {
  mv_others : others m p;
  mv_defined : defined (set_ts m p);
  mv_spaced : spaced p → spaced (set_ts m p)
}.
Lemma moved_refl p : defined p → moved (ts p) p.
Proof. intros HD. split; [done| |]; by rewrite set_ts_same. Qed.

Lemma min_step_moved p i queue visited : defined p → i < length wrappers → (∀ q, q ∈ queue → q < length wrappers) →
  ∃ m q v, min_step cfg cs ranks model_maxRank p i queue visited = Some (set_ts m p, (q, v)) ∧ moved m p ∧ ∀ x, x ∈ q → x < length wrappers.
Proof.
  intros HD [w Hw]%lookup_lt_is_Some_2 Hq. destruct (wrappers_lookup i w Hw) as (k & r & Ek & Hr & Hc).
  unfold min_step. rewrite Hw. cbn [mbind option_bind]. destruct w as [c z j]. cbn [w_rank w_index w_cell] in *. subst z.
  assert (in_rank k c) as Hin by (exists r; split; [done|by eapply list_elem_of_lookup_2]).
  destruct (next_defined p k c HD Hin) as (next & -> & Hnext). destruct (previous_defined p k c HD Hin) as (previous & -> & Hprev). cbn [mbind option_bind].
  destruct (medianXValue_some p next (Z.of_nat k + 1) Hnext) as [m1 ->]. destruct (medianXValue_some p previous (Z.of_nat k - 1) Hprev) as [m2 ->].
  cbn [mbind option_bind]. destruct (HD k c Hin) as [cur Hcur]. rewrite Hcur. cbn [mbind option_bind].
  rewrite Nat2Z.id, Hr. cbn [mbind option_bind]. cbv zeta. set (med := if decide (0 < length next + length previous) then _ else cur).
  destruct (new_position_some p k r j c med cur HD Hr) as [o Eo]; [by eapply lookup_lt_Some|]. rewrite Eo.
  cbn [mbind option_bind]. destruct o as [v|].
  - pose proof (enqueue_bound previous (foldl (enqueue ranks model_maxRank) (queue, visited) next)) as Hb.
    destruct (foldl (enqueue ranks model_maxRank) (foldl (enqueue ranks model_maxRank) (queue, visited) next) previous) as [q' v'].
    eexists _, q', _. split_and!; [done| |by apply Hb, enqueue_bound, Hq].
    split; [by apply others_setT|by apply (setT_defined (Z.of_nat k) c v p)|]. intros HS.
    destruct (new_position_spaced p k r j c med cur HS Hr Hc Hcur) as (o & Eo' & Ho). rewrite Eo in Eo'. injection Eo' as <-.
    destruct (Ho v eq_refl) as [H1 H2]. exact (setT_spaced p k r j c v HS Hr Hc H1 H2).
  - exists (ts p), queue, (visited ∖ {[i]}). rewrite set_ts_same. split_and!; [done|by apply moved_refl|done].
Qed.

Lemma moved_trans m m' p : moved m p → moved m' (set_ts m p) → moved m' p.
Proof. intros [A1 A2 A3] [B1 B2 B3]. split; [|done|auto]. intros k Hk. rewrite (B1 k Hk). by apply A1. Qed.

Lemma min_loop_moved n : ∀ p queue visited, defined p → (∀ q, q ∈ queue → q < length wrappers) →
  ∃ m, min_loop cfg cs ranks model_maxRank n p queue visited = Some (set_ts m p) ∧ moved m p.
Proof.
  induction n as [|n IH]; intros p queue visited HD Hq; [exists (ts p); rewrite set_ts_same; split; [done|by apply moved_refl]|].
  destruct queue as [|i queue]; [exists (ts p); rewrite set_ts_same; split; [done|by apply moved_refl]|].
  destruct (min_step_moved p i queue visited HD) as (m & q & v & E & Hm & Hq'); [apply Hq; left|intros; apply Hq; by right|].
  cbn [min_loop]. rewrite E. cbn [mbind option_bind fst snd]. destruct (IH (set_ts m p) q v (mv_defined _ _ Hm) Hq') as (m' & E' & Hm').
  exists m'. split; [done|by eapply moved_trans].
Qed.

Lemma minNode_moved p : defined p → ∃ m, minNode cfg cs ranks model_maxRank p = Some (set_ts m p) ∧ moved m p.
Proof. intros HD. apply min_loop_moved; [done|]. intros q [_ Hq]%elem_of_seq. lia. Qed.

(** ** The sweeps of [medianPos] *)

Lemma cellMap_lookup r b : b ∈ r → ∃ i, cellMap cs r !! cell_key cs b = Some i ∧ i < length r.
Proof.
  intros Hb. unfold cellMap.
  assert (∀ (l : list (nat * nat)) m, (∀ x i, (m : gmap (option nat) nat) !! x = Some i → i < length r) → (∀ x, x ∈ l → x.1 < length r) →
    (is_Some (m !! cell_key cs b) ∨ ∃ x, x ∈ l ∧ x.2 = b) →
    ∃ i, foldl (λ m ic, <[cell_key cs ic.2 := ic.1]> m) m l !! cell_key cs b = Some i ∧ i < length r) as Hgen.
  { induction l as [|x l IH]; intros m Hm Hl [Hx|(y & Hy & Ey)].
    - destruct Hx as [i Hi]. exists i. split; [done|by eapply Hm].
    - by apply elem_of_nil in Hy.
    - apply IH; [|intros; apply Hl; by right|left; apply lookup_insert_is_Some'; by right].
      intros z i [[_ <-]|[_ H]]%lookup_insert_Some; [apply Hl; left|by eapply Hm].
    - apply IH; [|intros; apply Hl; by right|].
      + intros z i [[_ <-]|[_ H]]%lookup_insert_Some; [apply Hl; left|by eapply Hm].
      + apply elem_of_cons in Hy as [->|Hy]; [left; rewrite Ey; by rewrite lookup_insert_eq|right; by exists y]. }
  apply Hgen; [done| |right].
  - intros x (k & c & -> & Hc)%elem_of_lookup_imap. by apply lookup_lt_Some in Hc.
  - apply list_elem_of_lookup_1 in Hb as [k Hk]. exists (k, b). split; [|done]. apply elem_of_lookup_imap. by exists k, b.
Qed.

Section Scans.
Context (p : place) (k : nat) (r : list nat) (visited : gset nat) (c : nat).
Context (HD : defined p) (Hr : ranks !! k = Some r).

Lemma scan_lookup j : j < length r → ∃ b i d v, r !! j = Some b ∧ cellMap cs r !! cell_key cs b = Some i ∧ r !! i = Some d ∧ getT p (Z.of_nat k) d = Some v.
Proof using All.
  intros [b Hb]%lookup_lt_is_Some_2. destruct (cellMap_lookup r b) as (i & Hi & [d Hd]%lookup_lt_is_Some_2); [by eapply list_elem_of_lookup_2|].
  destruct (HD k d) as [v Hv]; [exists r; split; [done|by eapply list_elem_of_lookup_2]|]. by exists b, i, d, v.
Qed.

Lemma left_scan_some js : ∀ buffer, (∀ j, j ∈ js → j < length r) → is_Some (left_scan cfg cs p r (Z.of_nat k) visited c js buffer).
Proof using All.
  induction js as [|j js IH]; intros buffer Hjs; [done|]. cbn [left_scan].
  destruct (scan_lookup j) as (b & i & d & v & -> & E & E' & Hv); [apply Hjs; left|]. cbn [mbind option_bind]. rewrite E. cbn [mbind option_bind].
  rewrite E'. cbn [mbind option_bind]. rewrite Hv. case_decide; [done|]. apply IH. intros; apply Hjs; by right.
Qed.
Lemma right_scan_some js : ∀ buffer, (∀ j, j ∈ js → j < length r) → is_Some (right_scan cfg cs p r (Z.of_nat k) visited c js buffer).
Proof using All.
  induction js as [|j js IH]; intros buffer Hjs; [done|]. cbn [right_scan].
  destruct (scan_lookup j) as (b & i & d & v & -> & E & E' & Hv); [apply Hjs; left|]. cbn [mbind option_bind]. rewrite E. cbn [mbind option_bind].
  rewrite E'. cbn [mbind option_bind]. rewrite Hv. case_decide; [done|]. apply IH. intros; apply Hjs; by right.
Qed.
End Scans.

(** What a median sweep does: temporary positions change, and the offset grows. *)
Definition swept (p p' : place) : Prop :=
  ∃ m d, p' = set_delta d (set_ts m p) ∧ others m p ∧ defined p' ∧ (currentXDelta p <= d)%Q.
Lemma swept_refl p : defined p → swept p p.
Proof. intros HD. exists (ts p), (currentXDelta p). split_and!; [by destruct p|done|done|qlra]. Qed.
Lemma swept_trans p p1 p2 : swept p p1 → swept p1 p2 → swept p p2.
Proof.
  intros (m & d & -> & Ho & HD & Hd) (m' & d' & -> & Ho' & HD' & Hd'). exists m', d'. split_and!; [done| |done|].
  - intros k Hk. rewrite (Ho' k Hk). by apply Ho.
  - simpl in Hd'. qlra.
Qed.
Lemma swept_setT p k c v d : defined p → in_rank k c → (currentXDelta p <= d)%Q → swept p (set_delta d (setT (Z.of_nat k) c v p)).
Proof. intros HD Hc Hd. eexists _, d. split_and!; [done|by apply others_setT|by apply (setT_defined (Z.of_nat k) c v p)|done]. Qed.

(** The sweeps compare a rank with the one above it or below it. *)
Definition adjacent (k : nat) (n : Z) : Prop := n = (Z.of_nat k + 1)%Z ∨ n = (Z.of_nat k - 1)%Z.
Lemma connected_defined p k n c : defined p → adjacent k n → in_rank k c →
  ∃ l, connected_to cs (Z.of_nat k) n c = Some l ∧ ∀ b, b ∈ l → is_Some (getT p n b).
Proof.
  intros HD Hn Hc. unfold connected_to. destruct Hn as [->| ->].
  - rewrite decide_False by lia. by apply next_defined.
  - rewrite decide_True by lia. by apply previous_defined.
Qed.

Lemma place_median_swept p k n r visited iw : defined p → adjacent k n → ranks !! k = Some r → iw.1 < length r →
  ∃ p', place_median cfg cs r (Z.of_nat k) n (Some (p, visited)) iw = Some (p', {[iw.1]} ∪ visited) ∧ swept p p'.
Proof.
  intros HD Hn Hr Hiw. destruct (lookup_lt_is_Some_2 r iw.1 Hiw) as [c Hc]. assert (in_rank k c) as Hin by (exists r; split; [done|by eapply list_elem_of_lookup_2]).
  unfold place_median. cbn [mbind option_bind]. rewrite Hc. cbn [mbind option_bind].
  destruct (connected_defined p k n c HD Hn Hin) as (l & -> & Hl). cbn [mbind option_bind].
  assert (is_Some (match l with [] => getT p (Z.of_nat k) c | _ => medianXValue cs p l n end)) as [med ->].
  { destruct l as [|b l]; [by apply HD|by apply medianXValue_some]. }
  cbn [mbind option_bind].
  destruct (left_scan_some p k r visited c HD Hr (reverse (seq 0 iw.1)) 0) as [ll ->]; [intros j Hj%elem_of_reverse%elem_of_seq; lia|].
  cbn [mbind option_bind].
  destruct (right_scan_some p k r visited c HD Hr (seq (S iw.1) (length r - S iw.1)) 0) as [rl ->]; [intros j Hj%elem_of_seq; lia|].
  cbn [mbind option_bind]. eexists. split; [done|].
  destruct (Qlt_le_dec med ll); [apply swept_setT; [done|done|qlra]|]. destruct (Qlt_le_dec rl med); [apply swept_setT; [done|done|qlra]|].
  pose proof (swept_setT p k c med (currentXDelta p) HD Hin (Qle_refl _)) as H. exact H.
Qed.

Lemma insert_weighted_elem x y l : y ∈ insert_weighted x l → y = x ∨ y ∈ l.
Proof.
  induction l as [|z l IH]; simpl; [intros ->%list_elem_of_singleton; by left|]. case_decide; rewrite !elem_of_cons; [naive_solver|].
  intros [->|Hy]; [by right; left|]. destruct (IH Hy); auto.
Qed.
Lemma sort_weighted_elem y l : y ∈ sort_weighted l → y ∈ l.
Proof. induction l as [|z l IH]; [done|]. simpl. intros [->|Hy]%insert_weighted_elem; [left|right; auto]. Qed.

Lemma weighted_values_some k n r p : defined p → adjacent k n → ranks !! k = Some r →
  ∃ l, weighted_values cs r (Z.of_nat k) n = Some l ∧ ∀ iw, iw ∈ l → iw.1 < length r.
Proof.
  intros HD Hn Hr. unfold weighted_values. set (f := λ ic : nat * nat, _).
  destruct (proj2 (mapM_is_Some f (imap pair r))) as [l Hl].
  { apply Forall_forall. intros x (i & c & -> & Hc)%elem_of_lookup_imap. unfold f. simpl.
    destruct (connected_defined p k n c HD Hn) as (b & -> & _); [exists r; split; [done|by eapply list_elem_of_lookup_2]|done]. }
  exists l. split; [done|]. apply mapM_Some in Hl. intros iw Hiw. destruct (list_elem_of_lookup_1 _ _ Hiw) as [j Hj].
  destruct (Forall2_lookup_r _ _ _ _ _ Hl Hj) as (x & Hx & Ex). rewrite list_lookup_imap in Hx.
  destruct (r !! j) as [c|] eqn:Ec; [|done]. injection Hx as <-. unfold f in Ex. simpl in Ex. apply bind_Some in Ex as (b & _ & [= <-]).
  by apply lookup_lt_Some in Ec.
Qed.

Lemma rankMedianPosition_swept p k n : defined p → adjacent k n → k < length ranks →
  ∃ p', rankMedianPosition cfg cs ranks (Z.of_nat k) n p = Some p' ∧ swept p p'.
Proof.
  intros HD Hn [r Hr]%lookup_lt_is_Some_2. unfold rankMedianPosition. rewrite Nat2Z.id, Hr. cbn [mbind option_bind].
  destruct (weighted_values_some k n r p HD Hn Hr) as (l & -> & Hl). cbn [mbind option_bind].
  assert (∀ iw, iw ∈ sort_weighted l → iw.1 < length r) as Hs by (intros iw ?%sort_weighted_elem; auto).
  assert (∀ s p visited, defined p → (∀ iw, iw ∈ s → iw.1 < length r) →
    ∃ p' v, foldl (place_median cfg cs r (Z.of_nat k) n) (Some (p, visited)) s = Some (p', v) ∧ swept p p') as Hfold.
  { induction s as [|iw s IH]; intros q visited HDq Hiw; [exists q, visited; split; [done|by apply swept_refl]|].
    destruct (place_median_swept q k n r visited iw HDq Hn Hr) as (q1 & E & H1); [apply Hiw; left|]. cbn [foldl]. rewrite E.
    destruct (IH q1 ({[iw.1]} ∪ visited)) as (q2 & v & E2 & H2); [by destruct H1 as (? & ? & ? & ? & ? & ?)|intros; apply Hiw; by right|].
    exists q2, v. split; [done|by eapply swept_trans]. }
  destruct (Hfold (sort_weighted l) p ∅ HD Hs) as (p' & v & -> & H). by exists p'.
Qed.

Lemma medianPos_swept i p : defined p → ∃ p', medianPos cfg cs ranks model_maxRank i p = Some p' ∧ swept p p'.
Proof.
  intros HD. assert (∀ (f : Z → Z) l p, defined p → (∀ j, j ∈ l → ∃ k, f j = Z.of_nat k ∧ k < length ranks ∧ adjacent k j) →
    ∃ p', foldl (λ p j, p ← p; rankMedianPosition cfg cs ranks (f j) j p) (Some p) l = Some p' ∧ swept p p') as Hgen.
  { intros f l. induction l as [|j l IH]; intros q HDq Hl; [exists q; split; [done|by apply swept_refl]|].
    destruct (Hl j) as (k & Ek & Hk & Ha); [left|]. destruct (rankMedianPosition_swept q k j HDq Ha Hk) as (q1 & E & H1).
    cbn [foldl mbind option_bind]. rewrite Ek, E. destruct (IH q1) as (q2 & E2 & H2); [by destruct H1 as (? & ? & ? & ? & ? & ?)|intros; apply Hl; by right|].
    exists q2. split; [done|by eapply swept_trans]. }
  pose proof (pl_length HP) as Hlen. unfold medianPos. case_decide.
  - apply (Hgen (λ j, (j - 1)%Z)); [done|]. intros j Hj%elem_of_reverse%elem_of_seqZ. exists (Z.to_nat (j - 1)).
    split_and!; [lia|lia|left; lia].
  - apply (Hgen (λ j, (j + 1)%Z)); [done|]. intros j Hj%elem_of_seqZ. exists (Z.to_nat (j + 1)). split_and!; [lia|lia|right; lia].
Qed.

(** ** The straight edges of [minPath] *)

(** The positions of all cells are there. *)
Definition positioned (p : place) : Prop := ∀ i c, in_rank i c → is_Some (getX p (Z.of_nat i) c).
Definition ready (p : place) : Prop := defined p ∧ positioned p.

(** What straightening edges does: positions change that are not those of vertices. *)
Definition straightened (m : gmap (nat * Z) Q) (p : place) : Prop :=
  (∀ i c, isVertex (cs !!! c) = true → m !! slot cs i c = xs p !! slot cs i c) ∧ ∀ k, is_Some (xs p !! k) → is_Some (m !! k).
Lemma straightened_refl p : straightened (xs p) p.
Proof. done. Qed.
Lemma straightened_trans m m' p : straightened m p → straightened m' (set_xs m p) → straightened m' p.
Proof. intros [A1 A2] [B1 B2]. split; [|auto]. intros i c Hv. by rewrite B1, <-A1. Qed.
Lemma straightened_ready m p : straightened m p → ready p → ready (set_xs m p).
Proof. intros [A1 A2] [HD HX]. split; [done|]. intros i c Hc. by apply A2, HX. Qed.
Lemma set_xs_same p : set_xs (xs p) p = p.
Proof. by destruct p. Qed.

Section Edge.
Context (p : place) (e : nat) (HR : ready p) (He : e ∈ edge_values).
Abbreviation lo := (minRank (cs !!! e)).
Abbreviation hi := (maxRank (cs !!! e)).

Lemma edge_between i : (lo < i < hi)%Z → ∃ k x t, i = Z.of_nat k ∧ in_rank k e ∧ getX p i e = Some x ∧ getT p i e = Some t.
Proof using All.
  intros Hi. destruct (pl_values HP e He) as (_ & Hin). destruct (Hin i Hi) as [Hlo Hr]. destruct HR as [HD HX].
  destruct (HX _ e Hr) as [x Hx]. destruct (HD _ e Hr) as [t Ht]. rewrite Z2Nat.id in Hx, Ht by lia.
  exists (Z.to_nat i), x, t. split_and!; [lia|done|done|done].
Qed.

Lemma straight_segments_some : (1 <= hi - lo - 1)%Z → is_Some (straight_segments cs p e).
Proof using All.
  intros Hd. unfold straight_segments. destruct (edge_between (lo + 1)) as (_ & _ & t & _ & _ & _ & ->); [lia|]. cbn [mbind option_bind].
  set (f := λ acc i, _).
  assert (∀ l acc, (∀ i, i ∈ l → (lo < i < hi)%Z) → is_Some (foldl f (Some acc) l)) as Hf.
  { induction l as [|i l IH]; intros [[r b] n] Hl; [done|]. cbn [foldl]. unfold f at 2. cbn [mbind option_bind].
    destruct (edge_between i) as (_ & _ & x & _ & _ & _ & ->); [apply Hl; left|]. cbn [mbind option_bind]. apply IH. intros; apply Hl; by right. }
  destruct (Hf (seqZ (lo + 2) (hi - lo - 2)) (t, true, 0)) as [r ->]; [intros i Hi%elem_of_seqZ; lia|]. done.
Qed.

Lemma repositionValid_some i v : (lo < i < hi)%Z → is_Some (repositionValid cfg cs ranks p e i v).
Proof using All.
  intros Hi. destruct (edge_between i Hi) as (k & x & t & -> & (r & Hr & Her) & _ & Ht). unfold repositionValid. rewrite Nat2Z.id, Hr. cbn [mbind option_bind].
  destruct (list_find (.= e) r) as [[j b]|] eqn:Ef; [|done]. apply list_find_Some in Ef as (Hb & -> & _). rewrite Ht. cbn [mbind option_bind].
  assert (∀ a, a ∈ r → is_Some (getT p (Z.of_nat k) a)) as Hall by (intros a Ha; apply HR; by exists r).
  unfold left_limit, right_limit. pose proof (lookup_lt_Some _ _ _ Hb) as Hj. destruct (Qlt_le_dec v t).
  - destruct j as [|l]; [done|]. destruct (lookup_lt_is_Some_2 r l ltac:(lia)) as [a Ha]. rewrite Ha. cbn [mbind option_bind].
    destruct (Hall a) as [u ->]; [by eapply list_elem_of_lookup_2|done].
  - destruct (Qlt_le_dec t v); [|done]. case_decide; [done|]. destruct (lookup_lt_is_Some_2 r (S j) ltac:(lia)) as [a Ha]. rewrite Ha. cbn [mbind option_bind].
    destruct (Hall a) as [u ->]; [by eapply list_elem_of_lookup_2|done].
Qed.

Lemma straighten_fold l : ∀ x m n, (∀ i, i ∈ l → (lo < i < hi)%Z) →
  ∃ x' m' n', foldl (straighten cfg cs ranks p e) (Some (x, m, n)) l = Some (x', m', n') ∧
    (∀ i, is_Some (m !! i) → is_Some (m' !! i)) ∧ ∀ i, i ∈ l → is_Some (m' !! i).
Proof using All.
  induction l as [|i l IH]; intros x m n Hl; [exists x, m, n; split_and!; [done|done|by intros i ?%elem_of_nil]|].
  assert (∃ x1 v n1, straighten cfg cs ranks p e (Some (x, m, n)) i = Some (x1, <[i := v]> m, n1)) as (x1 & v & n1 & E).
  { unfold straighten. cbn [mbind option_bind]. destruct (edge_between i) as (_ & y & _ & _ & _ & -> & _); [apply Hl; left|]. cbn [mbind option_bind].
    destruct (Qeq_bool x y); [by eexists _, _, _|]. destruct (repositionValid_some i x) as [b ->]; [apply Hl; left|]. cbn [mbind option_bind].
    destruct b; by eexists _, _, _. }
  cbn [foldl]. rewrite E. destruct (IH x1 (<[i := v]> m) n1) as (x2 & m2 & n2 & E2 & H1 & H2); [intros; apply Hl; by right|].
  exists x2, m2, n2. split_and!; [done| |].
  - intros j Hj. apply H1, lookup_insert_is_Some'. by right.
  - intros j [->|Hj]%elem_of_cons; [|by apply H2]. apply H1, lookup_insert_is_Some'. by left.
Qed.

Lemma apply_positions_straightened m l : (∀ i, i ∈ l → is_Some (m !! i)) →
  ∃ m', apply_positions cs e m l p = Some (set_xs m' p) ∧ straightened m' p.
Proof using HP He.
  clear HR. revert p. induction l as [|i l IH]; intros q Hl; [exists (xs q); rewrite set_xs_same; done|].
  unfold apply_positions in *. cbn [foldl mbind option_bind]. destruct (Hl i (list_elem_of_here _ _)) as [x ->]. cbn [mbind option_bind].
  destruct (IH (Coordinates.setX cs i e x q)) as (m' & E & Hm'); [intros; apply Hl; by right|]. exists m'. split; [exact E|].
  eapply straightened_trans; [|exact Hm']. destruct (pl_values HP e He) as [Hv _]. split.
  - intros j c Hc. rewrite lookup_insert_ne; [done|]. intros [= -> _]. congruence.
  - intros k Hk. apply lookup_insert_is_Some'. by right.
Qed.

Lemma straighten_edge_straightened : ∃ m, straighten_edge cfg cs ranks (Some p) e = Some (set_xs m p) ∧ straightened m p.
Proof using All.
  assert (∃ m, Some p = Some (set_xs m p) ∧ straightened m p) as Hsame by (exists (xs p); by rewrite set_xs_same).
  unfold straighten_edge. cbn [mbind option_bind]. cbv zeta. case_decide; [done|].
  destruct straight_segments_some as [[[] n] ->]; [lia|done|]. cbn [mbind option_bind].
  destruct (edge_between (lo + 1)) as (_ & _ & t & _ & _ & _ & ->); [lia|]. cbn [mbind option_bind].
  destruct (straighten_fold (seqZ (lo + 2) (hi - lo - 2)) t ∅ 0) as (x1 & m1 & n1 & -> & _ & H1); [intros i Hi%elem_of_seqZ; lia|]. cbn [mbind option_bind].
  destruct (edge_between (hi - 1)) as (_ & x & _ & _ & _ & -> & _); [lia|]. cbn [mbind option_bind].
  destruct (straighten_fold (reverse (seqZ (lo + 1) (hi - lo - 2))) x ∅ 0) as (x2 & m2 & n2 & -> & _ & H2); [intros i Hi%elem_of_reverse%elem_of_seqZ; lia|].
  cbn [mbind option_bind fst snd]. case_decide; [|done]. case_decide; by apply apply_positions_straightened.
Qed.
End Edge.

Lemma minPath_straightened p : ready p → ∃ m, minPath cfg cs ranks edge_values p = Some (set_xs m p) ∧ straightened m p.
Proof.
  intros HR. unfold minPath. assert (∀ l p, ready p → (∀ e, e ∈ l → e ∈ edge_values) →
    ∃ m, foldl (straighten_edge cfg cs ranks) (Some p) l = Some (set_xs m p) ∧ straightened m p) as Hgen.
  { induction l as [|e l IH]; intros q HRq Hl; [exists (xs q); by rewrite set_xs_same|].
    destruct (straighten_edge_straightened q e HRq) as (m & E & Hm); [apply Hl; left|]. cbn [foldl]. rewrite E.
    destruct (IH (set_xs m q)) as (m' & E' & Hm'); [by apply straightened_ready|intros; apply Hl; by right|].
    exists m'. split; [done|by eapply straightened_trans]. }
  by apply Hgen.
Qed.

(** ** Positions stored and restored *)

Abbreviation cells := (concat (imap (λ j rank, pair (Z.of_nat j) <$> rank) ranks)).

Lemma cells_elem jc : jc ∈ cells ↔ ∃ i, jc.1 = Z.of_nat i ∧ in_rank i jc.2.
Proof.
  rewrite elem_of_concat. split.
  - intros (l & Hl & (i & r & -> & Hr)%elem_of_lookup_imap). apply list_elem_of_fmap in Hl as (c & -> & Hc). exists i. split; [done|by exists r].
  - intros (i & Ei & r & Hr & Hc). exists (pair (Z.of_nat i) <$> r). split; [|apply elem_of_lookup_imap; by exists i, r].
    destruct jc as [j c]. simpl in *. subst j. by apply list_elem_of_fmap_2.
Qed.

Definition slot_of (jc : Z * nat) : nat * Z := slot cs jc.1 jc.2.

(** [m'] is [m] with the entries of [src] for the given cells. *)
Definition copied (f : Q → Q) (src m m' : gmap (nat * Z) Q) (l : list (Z * nat)) : Prop :=
  (∀ jc, jc ∈ l → m' !! slot cs jc.1 jc.2 = f <$> src !! slot cs jc.1 jc.2) ∧
  ∀ k, (∀ jc, jc ∈ l → k ≠ slot cs jc.1 jc.2) → m' !! k = m !! k.

Lemma copied_cons f src m m' j c v l : src !! slot cs j c = Some v → copied f src (<[slot cs j c := f v]> m) m' l → copied f src m m' ((j, c) :: l).
Proof.
  intros Hv [C1 C2]. split.
  - intros [j' c'] Hjc. destruct (decide ((j', c') ∈ l)) as [Hin|Hin]; [by apply C1|]. apply elem_of_cons in Hjc as [[= -> ->]|?]; [|done].
    cbn [fst snd]. destruct (decide (slot cs j c ∈ slot_of <$> l)) as [(jc & E & Hjc)%list_elem_of_fmap|Hno].
    + rewrite E. by apply C1.
    + rewrite C2, lookup_insert_eq, Hv; [done|]. intros jc Hjc E. apply Hno. rewrite E. by apply (list_elem_of_fmap_2 slot_of).
  - intros k Hk. rewrite C2 by (intros; apply Hk; by right). rewrite lookup_insert_ne; [done|]. apply not_eq_sym. exact (Hk (j, c) (list_elem_of_here _ _)).
Qed.

Lemma store_fold l : ∀ p, (∀ jc, jc ∈ l → is_Some (getT p jc.1 jc.2)) →
  ∃ m, foldl (λ p jc, p ← p; v ← getT p jc.1 jc.2; Some (setX jc.1 jc.2 v p)) (Some p) l = Some (set_xs m p) ∧ copied id (ts p) (xs p) m l.
Proof.
  induction l as [|[j c] l IH]; intros p Hl; [exists (xs p); rewrite set_xs_same; split; [done|split; [by intros ? ?%elem_of_nil|done]]|].
  destruct (Hl (j, c) (list_elem_of_here _ _)) as [v Hv]. cbn [fst snd] in Hv. cbn [foldl fst snd mbind option_bind]. rewrite Hv. cbn [mbind option_bind].
  destruct (IH (setX j c v p)) as (m & E & Hm); [intros; apply Hl; by right|]. exists m. split; [exact E|by eapply (copied_cons id)].
Qed.
Lemma restore_fold l : ∀ p, (∀ jc, jc ∈ l → is_Some (getX p jc.1 jc.2)) →
  ∃ m, foldl (λ p jc, p ← p; v ← getX p jc.1 jc.2; Some (setT jc.1 jc.2 v p)) (Some p) l = Some (set_ts m p) ∧ copied Qred (xs p) (ts p) m l.
Proof.
  induction l as [|[j c] l IH]; intros p Hl; [exists (ts p); rewrite set_ts_same; split; [done|split; [by intros ? ?%elem_of_nil|done]]|].
  destruct (Hl (j, c) (list_elem_of_here _ _)) as [v Hv]. cbn [fst snd] in Hv. cbn [foldl fst snd mbind option_bind]. rewrite Hv. cbn [mbind option_bind].
  destruct (IH (setT j c v p)) as (m & E & Hm); [intros; apply Hl; by right|]. exists m. split; [exact E|by eapply (copied_cons Qred)].
Qed.

Lemma store_ready p : defined p → ∃ m, store_positions cs ranks p = Some (set_xs m p) ∧ ready (set_xs m p) ∧
  ∀ i c, in_rank i c → m !! slot cs (Z.of_nat i) c = ts p !! slot cs (Z.of_nat i) c.
Proof.
  intros HD. destruct (store_fold cells p) as (m & E & Hm & _); [intros jc (i & -> & Hc)%cells_elem; by apply HD|].
  assert (∀ i c, in_rank i c → m !! slot cs (Z.of_nat i) c = ts p !! slot cs (Z.of_nat i) c) as H.
  { intros i c Hc. pose proof (Hm (Z.of_nat i, c)) as H. cbn [fst snd] in H. rewrite H by (apply cells_elem; by exists i). by destruct (ts p !! _). }
  exists m. split_and!; [exact E|split; [done|]|done]. intros i c Hc. unfold Coordinates.getX. simpl. rewrite (H i c Hc). by apply HD.
Qed.

Lemma restore_ready p : positioned p → ∃ m, restore_positions cs ranks p = Some (set_ts m p) ∧ ready (set_ts m p) ∧ copied Qred (xs p) (ts p) m cells.
Proof.
  intros HX. destruct (restore_fold cells p) as (m & E & Hm); [intros jc (i & -> & Hc)%cells_elem; by apply HX|]. exists m.
  split_and!; [exact E|split; [|done]|done]. intros i c Hc. unfold Coordinates.getT. simpl. destruct Hm as [Hm _].
  specialize (Hm (Z.of_nat i, c)). cbn [fst snd] in Hm. rewrite Hm by (apply cells_elem; by exists i). apply fmap_is_Some, (HX i c Hc).
Qed.

(** Restored positions do not depend on what the temporary ones were. *)
Lemma restore_forgets p m d : positioned p → others m p →
  restore_positions cs ranks (set_delta d (set_ts m p)) = set_delta d <$> restore_positions cs ranks p.
Proof.
  intros HX Ho. destruct (restore_ready p HX) as (m1 & -> & _ & A1 & A2).
  destruct (restore_ready (set_delta d (set_ts m p))) as (m2 & -> & _ & B1 & B2); [exact HX|].
  cbn [fmap option_fmap option_map]. assert (m2 = m1) as ->; [|done]. apply map_eq. intros k.
  destruct (decide (k ∈ slot_of <$> cells)) as [(jc & -> & Hjc)%list_elem_of_fmap|Hno].
  - unfold slot_of. by rewrite A1, B1.
  - rewrite A2, B2 by (intros jc Hjc ->; by apply Hno, (list_elem_of_fmap_2 slot_of)). simpl. apply Ho. intros i c Hc ->. apply Hno.
    apply (list_elem_of_fmap_2 slot_of cells (Z.of_nat i, c)), cells_elem. by exists i.
Qed.

(** [minPath] does not read the offset. *)
Lemma minPath_delta d p : minPath cfg cs ranks edge_values (set_delta d p) = set_delta d <$> minPath cfg cs ranks edge_values p.
Proof.
  assert (∀ e m l p, apply_positions cs e m l (set_delta d p) = set_delta d <$> apply_positions cs e m l p) as Ha.
  { intros e m l. unfold apply_positions. assert (∀ p : option place,
      foldl (λ p i, p ← p; x ← m !! i; Some (Coordinates.setX cs i e x p)) (set_delta d <$> p) l = set_delta d <$> foldl (λ p i, p ← p; x ← m !! i; Some (Coordinates.setX cs i e x p)) p l) as H.
    { induction l as [|i l IH]; intros q; [done|]. cbn [foldl]. rewrite <-IH. f_equal. destruct q; simpl; [|done]. by destruct (m !! i). }
    intros q. apply (H (Some q)). }
  assert (∀ e q, straighten_edge cfg cs ranks (set_delta d <$> q) e = set_delta d <$> straighten_edge cfg cs ranks q e) as He.
  { intros e [q|]; [|done]. unfold straighten_edge. cbn [fmap option_fmap option_map mbind option_bind]. cbv zeta. case_decide; [done|].
    change (straight_segments cs (set_delta d q) e) with (straight_segments cs q e). destruct (straight_segments cs q e) as [[[] n]|]; [done| |done].
    cbn [mbind option_bind].
    change (Coordinates.getT cs (set_delta d q) (minRank (cs !!! e) + 1) e) with (Coordinates.getT cs q (minRank (cs !!! e) + 1) e).
    change (Coordinates.getX cs (set_delta d q) (maxRank (cs !!! e) - 1) e) with (Coordinates.getX cs q (maxRank (cs !!! e) - 1) e).
    change (straighten cfg cs ranks (set_delta d q) e) with (straighten cfg cs ranks q e).
    destruct (Coordinates.getT cs q _ e); [|done]. cbn [mbind option_bind]. destruct (foldl _ _ (seqZ _ _)); [|done]. cbn [mbind option_bind].
    destruct (Coordinates.getX cs q _ e); [|done]. cbn [mbind option_bind]. destruct (foldl _ _ (reverse _)); [|done]. cbn [mbind option_bind].
    case_decide; [|done]. case_decide; apply Ha. }
  unfold minPath. assert (∀ l q, foldl (straighten_edge cfg cs ranks) (set_delta d <$> q) l = set_delta d <$> foldl (straighten_edge cfg cs ranks) q l) as H; [|apply (H _ (Some p))].
  induction l as [|e l IH]; intros q; [done|]. cbn [foldl]. by rewrite He, IH.
Qed.

(** ** All iterations *)

(** An iteration without a sweep. *)
Definition settle (p : place) : option place := p ← restore_positions cs ranks p; minPath cfg cs ranks edge_values p.
Definition initial_positions : option place :=
  p ← initialCoords cfg cs ranks model_maxRank getVertexBounds edge_count (set_delta 0%Q new_place);
  if fineTuning cfg then p ← minNode cfg cs ranks model_maxRank p; p ← store_positions cs ranks p; minPath cfg cs ranks edge_values p else Some p.

(** What all steps after the initial coordinates keep: sizes and vertical positions; [X] is the
    horizontal position of each vertex. *)
Record settled (p0 p : place) : Prop := {
  e_ready : ready p;
  e_delta : currentXDelta p = 0%Q;
  e_widths : widths p = widths p0;
  e_heights : heights p = heights p0;
  e_ys : ys p = ys p0;
  e_xs : ∀ i c, isVertex (cs !!! c) = true → xs p !! slot cs i c = xs p0 !! slot cs i c
}.

Lemma minPath_settled p0 p : settled p0 p → ∃ p', minPath cfg cs ranks edge_values p = Some p' ∧ settled p0 p'.
Proof.
  intros [E1 E2 E3 E4 E5 E6]. destruct (minPath_straightened p E1) as (m & E & Hm). exists (set_xs m p). split; [done|].
  split; try done; [by apply straightened_ready|]. intros i c Hv. simpl. by rewrite (proj1 Hm i c Hv), E6.
Qed.

Lemma settle_settled p0 p : settled p0 p → ∃ p', settle p = Some p' ∧ settled p0 p'.
Proof.
  intros HS. pose proof HS as [E1 E2 E3 E4 E5 E6]. unfold settle. destruct (restore_ready p (proj2 E1)) as (m & -> & Hr & _). cbn [mbind option_bind].
  apply minPath_settled. by split.
Qed.

Lemma set_delta_same p d : currentXDelta p = d → set_delta d p = p.
Proof. intros <-. by destruct p. Qed.

(** The sweep of an iteration after the first is undone. *)
Lemma iteration_settles p0 p i : settled p0 p → 1 ≤ i →
  iteration cfg cs ranks model_maxRank edge_values (Some (p, 0%Q)) i = (p' ← settle p; Some (p', 0%Q)).
Proof.
  intros HS Hi. pose proof HS as [[HD HX] E2 _ _ _ _]. unfold iteration. cbn [mbind option_bind]. rewrite decide_False by lia.
  destruct (medianPos_swept i p HD) as (p1 & -> & (m1 & d & -> & Ho1 & HD1 & Hd)). cbn [mbind option_bind].
  destruct (minNode_moved (set_delta d (set_ts m1 p)) HD1) as (m2 & -> & Hm2). cbn [mbind option_bind].
  change (currentXDelta (set_ts m2 (set_delta d (set_ts m1 p)))) with d. destruct (Qlt_le_dec d 0) as [Hlt|_]; [rewrite E2 in Hd; qlra|].
  change (set_ts m2 (set_delta d (set_ts m1 p))) with (set_delta d (set_ts m2 p)).
  rewrite restore_forgets; [|done|].
  2: { intros k Hk. rewrite (mv_others _ _ Hm2 k Hk). by apply Ho1. }
  unfold settle. destruct (restore_positions cs ranks p) as [q|] eqn:Eq; [|done]. cbn [fmap option_fmap option_map mbind option_bind fst snd].
  rewrite minPath_delta. destruct (settle_settled p0 p HS) as (p' & E' & HS'). unfold settle in E'. rewrite Eq in E'. cbn [mbind option_bind] in E'.
  rewrite E'. cbn [fmap option_fmap option_map mbind option_bind fst snd]. f_equal. f_equal.
  change (set_delta 0%Q (set_delta d p')) with (set_delta 0%Q p'). apply set_delta_same, HS'.
Qed.

Lemma iterations_settle p0 n : ∀ p i, settled p0 p → 1 ≤ i →
  foldl (iteration cfg cs ranks model_maxRank edge_values) (Some (p, 0%Q)) (seq i n) =
    (p' ← Nat.iter n (λ q, q ← q; settle q) (Some p); Some (p', 0%Q)) ∧
  ∃ p', Nat.iter n (λ q, q ← q; settle q) (Some p) = Some p' ∧ settled p0 p'.
Proof.
  induction n as [|n IH]; intros p i HS Hi; [split; [done|by exists p]|]. cbn [seq foldl]. rewrite (iteration_settles p0 p i HS Hi).
  destruct (settle_settled p0 p HS) as (p' & E & HS'). rewrite E. cbn [mbind option_bind]. destruct (IH p' (S i) HS' ltac:(lia)) as [E1 E2].
  rewrite Nat.iter_succ_r. cbn [mbind option_bind]. rewrite E. done.
Qed.

(** ** The result *)

(** [execute] but for the sweeps: only the first positions count. *)
Definition execute_without_sweeps (vertices : list nat) : option (place * list (Q * Q) * Q) :=
  p ← initial_positions;
  p ← (if fineTuning cfg then Nat.iter (maxIterations - 1) (λ q, q ← q; settle q) (Some p) else Some p);
  locations ← mapM (vertex_location cfg p) vertices;
  limitX ← foldl (limit_step p) (Some 0%Q) vertices;
  r ← foldl (edge_limit cfg cs edge_count) (Some (p, limitX)) edge_values;
  Some (r.1, locations, r.2).

(** The positions of the vertices after the stage: apart in a rank, beyond each other between
    ranks. *)
Record vertices_placed (Y M : nat → Q) (p : place) : Prop := {
  vp_there : ∀ i c, in_rank i c → isVertex (cs !!! c) = true → ∃ x, xs p !! (c, 0%Z) = Some x ∧ ys p !! (c, 0%Z) = Some (Y i);
  vp_measured : ∀ i c, in_rank i c → measured p c;
  vp_height : ∀ i c, in_rank i c → isVertex (cs !!! c) = true → (cell_height c <= M i)%Q;
  vp_apart : ∀ i r j l a b u v, ranks !! i = Some r → j < l → r !! j = Some a → r !! l = Some b →
    isVertex (cs !!! a) = true → isVertex (cs !!! b) = true → xs p !! (a, 0%Z) = Some u → xs p !! (b, 0%Z) = Some v →
    (u + half (W a) + intra + half (W b) <= v)%Q;
  vp_beyond : ∀ i j, i < j < length ranks → beyond (Y i) (Y j) (half (M i) + half (M j) + inter)%Q
}.

Lemma spaced_far p i r : spaced p → ranks !! i = Some r → ∀ d j a b, r !! j = Some a → r !! (j + S d) = Some b → apart i a b p.
Proof.
  intros [S1 S2 S3] Hr. induction d as [|d IH]; intros j a b Ha Hb.
  - rewrite Nat.add_1_r in Hb. by apply (S3 i r j).
  - destruct (lookup_lt_is_Some_2 r (j + S d)) as [c Hc]; [apply lookup_lt_Some in Hb; lia|].
    assert (in_rank i c) as Hin by (exists r; split; [done|by eapply list_elem_of_lookup_2]). destruct (S1 i c Hin) as [w Hw].
    intros u v Hu Hv. pose proof (IH j a c Ha Hc u w Hu Hw). replace (j + S (S d)) with (S (j + S d)) in Hb by lia.
    pose proof (S3 i r (j + S d) c b Hr Hc Hb w v Hw Hv). pose proof (cell_width_nonneg i c Hin). destruct (pl_spacing HP) as (Hi & _). qlra.
Qed.

Lemma vertex_slot i c : isVertex (cs !!! c) = true → slot cs i c = (c, 0%Z).
Proof. unfold slot. by intros ->. Qed.

(** Positions that equal temporary ones that are apart. *)
Lemma placed_from Y M p0 p : arranged Y p0 → (∀ i c, in_rank i c → isVertex (cs !!! c) = true → (cell_height c <= M i)%Q) →
  (∀ i j, i < j < length ranks → beyond (Y i) (Y j) (half (M i) + half (M j) + inter)%Q) →
  spaced p → ys p = ys p0 → widths p = widths p0 → heights p = heights p0 →
  (∀ i c, in_rank i c → isVertex (cs !!! c) = true → ∃ t x, getT p (Z.of_nat i) c = Some t ∧ getX p (Z.of_nat i) c = Some x ∧ (t == x)%Q) →
  vertices_placed Y M p.
Proof.
  intros [A1 A2 A3 A4 A5] HM HB HS E1 E2 E3 HX. split; [| |done| |done].
  - intros i c Hc Hv. destruct (HX i c Hc Hv) as (t & x & _ & Hx & _). unfold Coordinates.getX in Hx. rewrite vertex_slot in Hx by done.
    exists x. split; [done|]. destruct (A2 i c Hc) as [_ Hy]. rewrite vertex_slot in Hy by done. by rewrite E1.
  - intros i c Hc. by apply (sp_measured p HS i).
  - intros i r j l a b u v Hr Hjl Ha Hb Hva Hvb Hu Hv.
    destruct (HX i a) as (t & x & Ht & Hx & Et); [exists r; split; [done|by eapply list_elem_of_lookup_2]|done|].
    destruct (HX i b) as (t' & x' & Ht' & Hx' & Et'); [exists r; split; [done|by eapply list_elem_of_lookup_2]|done|].
    unfold Coordinates.getX in Hx, Hx'. rewrite vertex_slot in Hx, Hx' by done. simplify_eq.
    replace l with (j + S (l - j - 1)) in Hb by lia. pose proof (spaced_far p i r HS Hr (l - j - 1) j a b Ha Hb t t' Ht Ht'). qlra.
Qed.

Lemma settled_placed Y M p0 p : vertices_placed Y M p0 → settled p0 p → vertices_placed Y M p.
Proof.
  intros [V1 V2 V3 V4 V5] [E1 E2 E3 E4 E5 E6].
  assert (∀ c, isVertex (cs !!! c) = true → xs p !! (c, 0%Z) = xs p0 !! (c, 0%Z)) as Hx by (intros c Hv; rewrite <-(vertex_slot 0 c Hv); by apply E6).
  split; [| |done| |done].
  - intros i c Hc Hv. rewrite Hx, E5 by done. by apply V1.
  - intros i c Hc. unfold measured, width, height. rewrite E3, E4. by apply (V2 i).
  - intros i r j l a b u v Hr Hjl Ha Hb Hva Hvb. rewrite !Hx by done. by apply (V4 i r j l).
Qed.

(** The whole stage before the locations are set. *)
Lemma positions_placed : ∃ p1 p2 Y M, initial_positions = Some p1 ∧
  (if fineTuning cfg then Nat.iter (maxIterations - 1) (λ q, q ← q; settle q) (Some p1) else Some p1) = Some p2 ∧ vertices_placed Y M p2 ∧
  (p ← initialCoords cfg cs ranks model_maxRank getVertexBounds edge_count (set_delta 0%Q new_place);
   p ← (if fineTuning cfg then minNode cfg cs ranks model_maxRank p else Some p);
   if fineTuning cfg then r ← foldl (iteration cfg cs ranks model_maxRank edge_values) (Some (p, 100000000%Q)) (seq 0 maxIterations); Some r.1 else Some p) = Some p2 ∧ positioned p2.
Proof.
  destruct initialCoords_arranged as (p & Y & M & E & HA & HM & HB). unfold initial_positions. rewrite E. cbn [mbind option_bind].
  pose proof (arranged_spaced Y p HA) as HS. destruct (fineTuning cfg).
  - destruct (minNode_moved p (sp_defined p HS)) as (m & -> & [Ho HD Hm]). specialize (Hm HS). cbn [mbind option_bind].
    destruct (store_ready (set_ts m p) HD) as (x & Ex & Hr & Hx). rewrite Ex. cbn [mbind option_bind].
    set (q := set_xs x (set_ts m p)) in *. assert (settled q q) as Hq by (split; try done; apply (a_delta _ _ HA)).
    assert (vertices_placed Y M q) as Hpl.
    { apply (placed_from Y M p); try done; [by destruct Hm|]. intros i c Hc _. destruct (HD i c Hc) as [t Ht]. exists t, t. split_and!; [done| |done].
      unfold Coordinates.getX, q. simpl. rewrite (Hx i c Hc). exact Ht. }
    destruct (minPath_settled q q Hq) as (p1 & E1 & H1). destruct (iterations_settle q 7 p1 1 H1 ltac:(lia)) as [F1 (p2 & E2 & H2)].
    exists p1, p2, Y, M. split; [done|]. split; [exact E2|]. split; [by eapply settled_placed|].
    change (seq 0 maxIterations) with (0 :: seq 1 7). cbn [foldl].
    assert (iteration cfg cs ranks model_maxRank edge_values (Some (set_ts m p, 100000000%Q)) 0 = Some (p1, 0%Q)) as ->.
    { unfold iteration. cbn [mbind option_bind]. rewrite decide_True by done. cbn [mbind option_bind].
      assert (currentXDelta (set_ts m p) = 0%Q) as -> by apply (a_delta _ _ HA). destruct (Qlt_le_dec 0 100000000) as [_|H]; [|by apply Qle_not_lt in H].
      rewrite Ex. cbn [mbind option_bind fst snd]. fold q. rewrite E1. cbn [mbind option_bind]. by rewrite set_delta_same by apply H1. }
    rewrite F1, E2. split; [done|apply H2].
  - assert (positioned p) as HXp.
    { intros i c (r & Hr & Hc). destruct (a_chain _ _ HA i r Hr) as [x Hx]. by eapply chain_defined. }
    exists p, p, Y, M. split_and!; [done|done| |done|done]. clear HXp. apply (placed_from Y M p); try done. intros i c (r & Hr & Hc) _.
    destruct (a_chain _ _ HA i r Hr) as [x Hx]. clear HS HM HB E. revert x Hx. clear Hr. induction r as [|b r IH]; intros x; [by apply elem_of_nil in Hc|].
    intros [(u & v & Hu & Hv & E1 & E2) Hl]. apply elem_of_cons in Hc as [->|Hc]; [exists u, v; split_and!; [done|done|qlra]|by eapply IH].
Qed.

(** ** Limits and locations *)

Lemma limit_fold p l : ∀ lim, (∀ v, v ∈ l → is_Some (xs p !! (v, 0%Z))) →
  ∃ lim', foldl (limit_step p) (Some lim) l = Some lim' ∧ (lim <= lim')%Q ∧
    ∀ v x, v ∈ l → xs p !! (v, 0%Z) = Some x → (x + half (width p v) <= lim')%Q.
Proof.
  induction l as [|v l IH]; intros lim Hl; [exists lim; split_and!; [done|qlra|by intros ? ? ?%elem_of_nil]|].
  destruct (Hl v (list_elem_of_here _ _)) as [x Hx]. cbn [foldl]. unfold limit_step at 2. cbn [mbind option_bind]. rewrite Hx. cbn [mbind option_bind].
  destruct (IH (Qmax lim (x - half (width p v) + width p v)) ltac:(intros; apply Hl; by right)) as (lim' & E & H1 & H2). exists lim'.
  pose proof (Q.le_max_l lim (x - half (width p v) + width p v)). pose proof (Q.le_max_r lim (x - half (width p v) + width p v)).
  split_and!; [done|qlra|]. intros w y [->|Hw]%elem_of_cons Hy; [|by apply H2]. simplify_eq. qlra.
Qed.

Lemma edge_limit_fold l : ∀ p lim, (∀ e, e ∈ l → e ∈ edge_values) → positioned p →
  ∃ p' lim', foldl (edge_limit cfg cs edge_count) (Some (p, lim)) l = Some (p', lim') ∧ (lim <= lim')%Q ∧ xs p' = xs p ∧ ys p' = ys p.
Proof.
  induction l as [|e l IH]; intros p lim Hl HX; [exists p, lim; split_and!; [done|qlra|done|done]|].
  assert (∃ p1 lim1, edge_limit cfg cs edge_count (Some (p, lim)) e = Some (p1, lim1) ∧ (lim <= lim1)%Q ∧ xs p1 = xs p ∧ ys p1 = ys p) as (p1 & lim1 & E & H1 & H2 & H3).
  { unfold edge_limit. cbn [mbind option_bind]. destruct (match ts p !! _ with Some _ => _ | None => _ end); [exists p, lim; split_and!; [done|qlra|done|done]|].
    destruct (pl_values HP e (Hl e (list_elem_of_here _ _))) as (Hv & Hin).
    destruct (proj2 (mapM_is_Some (λ j, xs p !! (e, j)) (seqZ 0 (maxRank (cs !!! e) - minRank (cs !!! e) - 1)))) as [vs ->].
    { apply Forall_forall. intros j Hj%elem_of_seqZ. assert (minRank (cs !!! e) < minRank (cs !!! e) + 1 + j < maxRank (cs !!! e))%Z as Hr by lia.
      destruct (Hin _ Hr) as [Hlo Hr']. pose proof (HX _ e Hr') as H.
      unfold Coordinates.getX, slot in H. rewrite Hv, Z2Nat.id in H by lia. by replace (minRank (cs !!! e) + 1 + j - minRank (cs !!! e) - 1)%Z with j in H by lia. }
    cbn [mbind option_bind]. eexists _, _. split_and!; [done| |done|done].
    assert (∀ (off : Q) vs lim, (lim <= foldl (λ limitX x, Qmax limitX (x + off)) lim vs)%Q) as Hin'.
    { intros off us. induction us as [|u us IHu]; intros lm; [apply Qle_refl|]. cbn [foldl].
      eapply Qle_trans; [apply (Q.le_max_l lm (u + off))|apply IHu]. }
    generalize lim. generalize (offsets cfg (Z.to_nat (edge_count e)) 0). intros os. induction os as [|o os IHo]; intros lm; [apply Qle_refl|].
    cbn [foldl]. eapply Qle_trans; [apply Hin'|apply IHo]. }
  cbn [foldl]. rewrite E. destruct (IH p1 lim1) as (p2 & lim2 & E2 & G1 & G2 & G3); [intros; apply Hl; by right| |].
  - intros i c Hc. unfold Coordinates.getX. rewrite H2. by apply HX.
  - exists p2, lim2. split_and!; [done|qlra|congruence|congruence].
Qed.

Lemma execute_eq vertices : fineTuning cfg = true →
  execute cfg cs ranks model_maxRank edge_values getVertexBounds edge_count vertices = execute_without_sweeps vertices.
Proof.
  intros Hf. destruct positions_placed as (p1 & p & Y & M & E1 & E2 & _ & E & _). unfold execute, execute_without_sweeps.
  rewrite E1. cbn [mbind option_bind]. rewrite E2.
  destruct (initialCoords _ _ _ _ _ _ _) as [q|]; [|done]. cbn [mbind option_bind] in *. rewrite Hf in *.
  destruct (minNode _ _ _ _ q) as [q'|]; [|done]. cbn [mbind option_bind] in *. by rewrite E.
Qed.

(** The size of a vertex as drawn. *)
Definition size_of (v : nat) : Q * Q := default (0, 0)%Q (getVertexBounds v).

(** Two rectangles, by corner and size, are [dx] apart in the first direction or [dy] in the
    second. *)
Definition clear_of (dx dy : Q) (a b : Q * Q) (sa sb : Q * Q) : Prop :=
  (a.1 + sa.1 + dx <= b.1 ∨ b.1 + sb.1 + dx <= a.1 ∨ a.2 + sa.2 + dy <= b.2 ∨ b.2 + sb.2 + dy <= a.2)%Q.

(** The second rectangle follows the first in the direction of the layout, the distance of the
    ranks apart. *)
Definition flows (a b : Q * Q) (sa sb : Q * Q) : Prop :=
  match orientation cfg with
  | NORTH => (a.2 + sa.2 + inter <= b.2)%Q
  | SOUTH => (b.2 + sb.2 + inter <= a.2)%Q
  | WEST => (a.1 + sa.1 + inter <= b.1)%Q
  | EAST => (b.1 + sb.1 + inter <= a.1)%Q
  end.

Definition gaps : Q * Q := if upright cfg then (intra, inter) else (inter, intra).
Definition across (a : Q * Q) : Q := if upright cfg then a.1 else a.2.

Lemma cell_size v : isVertex (cs !!! v) = true → cell_width v = across (size_of v) ∧ cell_height v = (if upright cfg then (size_of v).2 else (size_of v).1).
Proof. unfold cell_width, cell_height, size_of, across. intros ->. destruct (getVertexBounds v) as [[w h]|]; simpl; by destruct (upright cfg). Qed.

(** Two vertices are apart as drawn when they are as placed. *)
Lemma located_apart Y M p a b la lb : vertices_placed Y M p → (∃ i, in_rank i a) → (∃ i, in_rank i b) → isVertex (cs !!! a) = true → isVertex (cs !!! b) = true →
  a ≠ b → vertex_location cfg p a = Some la → vertex_location cfg p b = Some lb → clear_of gaps.1 gaps.2 la lb (size_of a) (size_of b).
Proof.
  intros [V1 V2 V3 V4 V5] [i Hia] [j Hjb] Ha Hb Hne Hla Hlb.
  destruct (V1 i a Hia Ha) as (xa & Exa & Eya), (V1 j b Hjb Hb) as (xb & Exb & Eyb). destruct (V2 i a Hia) as [Wa Ha'], (V2 j b Hjb) as [Wb Hb'].
  unfold vertex_location in Hla, Hlb. rewrite Exa, Eya in Hla. rewrite Exb, Eyb in Hlb. cbn [mbind option_bind] in Hla, Hlb. rewrite Wa, Ha' in Hla. rewrite Wb, Hb' in Hlb.
  assert ((xa + half (W a) + intra + half (W b) <= xb)%Q ∨ (xb + half (W b) + intra + half (W a) <= xa)%Q ∨
    (Y i + half (cell_height a) + half (cell_height b) + inter <= Y j)%Q ∨ (Y j + half (cell_height a) + half (cell_height b) + inter <= Y i)%Q) as Hapart.
  { pose proof (V3 i a Hia Ha). pose proof (V3 j b Hjb Hb). destruct Hia as (ra & Hra & Hka), Hjb as (rb & Hrb & Hkb).
    destruct (Nat.lt_trichotomy i j) as [Hij|[<-|Hij]].
    - pose proof (V5 i j ltac:(apply lookup_lt_Some in Hrb; lia)) as Hbe. unfold beyond in Hbe. case_decide; qlra.
    - simplify_eq. apply list_elem_of_lookup_1 in Hka as [ka Hka], Hkb as [kb Hkb]. destruct (Nat.lt_trichotomy ka kb) as [Hk|[->|Hk]].
      + left. by apply (V4 i ra ka kb).
      + simplify_eq.
      + right; left. by apply (V4 i ra kb ka).
    - pose proof (V5 j i ltac:(apply lookup_lt_Some in Hra; lia)) as Hbe. unfold beyond in Hbe. case_decide; qlra. }
  destruct (cell_size a Ha) as [Ea Ea'], (cell_size b Hb) as [Eb Eb']. unfold clear_of, gaps, across in *.
  destruct (upright cfg); simplify_eq; cbn [fst snd]; rewrite <-Ea, <-Ea', <-Eb, <-Eb'; destruct Hapart as [?|[?|[?|?]]].
  1: left; qlra. 1: right; left; qlra. 1: right; right; left; qlra. 1: right; right; right; qlra.
  1: right; right; left; qlra. 1: right; right; right; qlra. 1: left; qlra. 1: right; left; qlra.
Qed.

Lemma upright_cases : upright cfg = match orientation cfg with NORTH | SOUTH => true | EAST | WEST => false end.
Proof. unfold upright. by destruct (orientation cfg). Qed.

(** A vertex of a higher rank comes before one of a lower rank. *)
Lemma located_flows Y M p i j a b la lb : vertices_placed Y M p → in_rank i a → in_rank j b → isVertex (cs !!! a) = true → isVertex (cs !!! b) = true →
  i < j → vertex_location cfg p a = Some la → vertex_location cfg p b = Some lb → flows lb la (size_of b) (size_of a).
Proof.
  intros [V1 V2 V3 V4 V5] Hia Hjb Ha Hb Hij Hla Hlb.
  destruct (V1 i a Hia Ha) as (xa & Exa & Eya), (V1 j b Hjb Hb) as (xb & Exb & Eyb). destruct (V2 i a Hia) as [Wa Ha'], (V2 j b Hjb) as [Wb Hb'].
  unfold vertex_location in Hla, Hlb. rewrite Exa, Eya in Hla. rewrite Exb, Eyb in Hlb. cbn [mbind option_bind] in Hla, Hlb. rewrite Wa, Ha' in Hla. rewrite Wb, Hb' in Hlb.
  pose proof (V3 i a Hia Ha). pose proof (V3 j b Hjb Hb). destruct Hjb as (rb & Hrb & Hkb).
  pose proof (V5 i j ltac:(apply lookup_lt_Some in Hrb; lia)) as Hbe. unfold beyond in Hbe.
  destruct (cell_size a Ha) as [_ Ea'], (cell_size b Hb) as [_ Eb']. pose proof upright_cases as Hup. unfold flows.
  destruct (orientation cfg); rewrite Hup in *; simplify_eq; cbn [fst snd]; rewrite <-?Ea', <-?Eb'; case_decide; (qlra || naive_solver).
Qed.

(** What the stage gives for a list of vertices. *)
Record well_placed (vertices : list nat) (locations : list (Q * Q)) (limitX : Q) : Prop := {
  wp_length : length locations = length vertices;
  wp_apart : ∀ n k a b la lb, vertices !! n = Some a → vertices !! k = Some b → a ≠ b → locations !! n = Some la → locations !! k = Some lb →
    clear_of gaps.1 gaps.2 la lb (size_of a) (size_of b);
  wp_flows : ∀ n k a b la lb i j, vertices !! n = Some a → vertices !! k = Some b → in_rank i a → in_rank j b → i < j →
    locations !! n = Some la → locations !! k = Some lb → flows lb la (size_of b) (size_of a);
  wp_limit : (0 <= limitX)%Q ∧ ∀ n a la, vertices !! n = Some a → locations !! n = Some la → (across la + across (size_of a) <= limitX)%Q
}.

Lemma execute_placed vertices : (∀ v, v ∈ vertices → isVertex (cs !!! v) = true ∧ ∃ i, in_rank i v) →
  ∃ p locations limitX, execute cfg cs ranks model_maxRank edge_values getVertexBounds edge_count vertices = Some (p, locations, limitX) ∧
    well_placed vertices locations limitX.
Proof.
  intros Hv. destruct positions_placed as (p1 & p & Y & M & _ & _ & HV & E & HX). pose proof HV as [V1 V2 V3 V4 V5].
  assert (∀ v, v ∈ vertices → ∃ x y, xs p !! (v, 0%Z) = Some x ∧ ys p !! (v, 0%Z) = Some y) as Hxy.
  { intros v Hvv. destruct (Hv v Hvv) as [Hver [i Hi]]. destruct (V1 i v Hi Hver) as (x & Hx & Hy). by exists x, (Y i). }
  destruct (proj2 (mapM_is_Some (vertex_location cfg p) vertices)) as [locs Hlocs].
  { apply Forall_forall. intros v Hvv. destruct (Hxy v Hvv) as (x & y & Hx & Hy). change (is_Some (vertex_location cfg p v)). unfold vertex_location. by rewrite Hx, Hy. }
  destruct (limit_fold p vertices 0) as (lim & El & Hl1 & Hl2); [intros v Hvv; destruct (Hxy v Hvv) as (x & y & Hx & _); by exists x|].
  destruct (edge_limit_fold edge_values p lim) as (p' & lim' & Ee & He & _); [done|exact HX|].
  exists p', locs, lim'. split.
  - unfold execute.
    revert E. destruct (initialCoords _ _ _ _ _ _ _) as [q|]; [|done]. cbn [mbind option_bind].
    destruct (if fineTuning cfg then minNode cfg cs ranks model_maxRank q else Some q) as [q'|]; [|done]. cbn [mbind option_bind]. intros ->.
    cbn [mbind option_bind]. rewrite Hlocs. cbn [mbind option_bind]. rewrite El. cbn [mbind option_bind]. by rewrite Ee.
  - pose proof Hlocs as Hf. apply mapM_Some in Hf.
    assert (∀ n a la, vertices !! n = Some a → locs !! n = Some la → vertex_location cfg p a = Some la) as Hloc.
    { intros n a la Ha Hla. by apply (Forall2_lookup_lr _ _ _ _ _ _ Hf Ha Hla). }
    split; [by apply length_mapM in Hlocs| | |split; [qlra|]].
    + intros n k a b la lb Ha Hb Hne Hla Hlb. destruct (Hv a) as [Hva Hia]; [by eapply list_elem_of_lookup_2|]. destruct (Hv b) as [Hvb Hib]; [by eapply list_elem_of_lookup_2|].
      eapply (located_apart Y M p); [done..|by eapply Hloc|by eapply Hloc].
    + intros n k a b la lb i j Ha Hb Hia Hjb Hij Hla Hlb. destruct (Hv a) as [Hva _]; [by eapply list_elem_of_lookup_2|].
      destruct (Hv b) as [Hvb _]; [by eapply list_elem_of_lookup_2|]. apply (located_flows Y M p i j); [done..|by eapply Hloc|by eapply Hloc].
    + intros n a la Ha Hla. assert (a ∈ vertices) as Hav by by eapply list_elem_of_lookup_2. destruct (Hv a Hav) as [Hva [i Hia]].
      destruct (Hxy a Hav) as (x & y & Hx & Hy). pose proof (Hl2 a x Hav Hx) as Hlim. pose proof (Hloc n a la Ha Hla) as H. unfold vertex_location in H.
      rewrite Hx, Hy in H. cbn [mbind option_bind] in H. destruct (V2 i a Hia) as [Wa Ha']. rewrite Wa in *. destruct (cell_size a Hva) as [Ew _]. unfold across in *.
      destruct (upright cfg); simplify_eq; cbn [fst snd]; rewrite <-Ew; qlra.
Qed.

End Stage.

End CoordinateStage.
