(* ===== verification/Placement.v ===== *)
(** * The placement of all hierarchies

    The loop of mxHierarchicalLayout.js that lays out one hierarchy after the other and gives
    each its place: the stage of the coordinates is executed on the ranks that the stages
    before it leave, from the right border of the hierarchies before. *)

From Stdlib Require Import QArith Lqa.
From stdpp Require Import sorting.
From S2P Require Import Prelude Crossings CrossingStage Hierarchy HierarchyCycles HierarchyRanks HierarchyStages.
From S2P Require Import Layout LayoutBuild LayoutTraverse LayoutRun Coordinates CoordinateStage.
Import Crossings Hierarchy HierarchyCycles HierarchyStages Layout LayoutBuild LayoutTraverse LayoutRun CoordinateStage.
Import Coordinates(settings, Settings, intraCellSpacing, interRankCellSpacing, orientation, parallelEdgeSpacing, fineTuning, upright, direction,
  NORTH, EAST, SOUTH, WEST, place).
#[local] Open Scope nat_scope.

Module Placement.

Section Run.
(** The settings, of which [initialX] is replaced, and the sizes of the vertices. *)
Context (g : lgraph) (cfg : settings) (interHierarchySpacing : Q) (bounds : nat → option (Q * Q)).

Definition with_initialX (x : Q) : settings :=
  Settings (intraCellSpacing cfg) (interRankCellSpacing cfg) (orientation cfg) x (parallelEdgeSpacing cfg) (fineTuning cfg).

(** The size of the vertex of a node. *)
Definition node_bounds (m : hmodel) (n : nat) : option (Q * Q) :=
  p ← list_find (λ p, p.2 = n) (vertexMapper m); bounds p.2.1.

(** [placementStage]: the places of the vertices and where the next hierarchy starts. *)
Definition placementStage (initialX : Q) (b : builder) (m : hmodel) : option (list (nat * (Q * Q)) * Q) :=
  r ← Coordinates.execute (with_initialX initialX) (cells m) (ranks m) (model_maxRank m) (edgeMapper_values b) (node_bounds m) (edge_count b)
        (vertexMapper_values m);
  Some (zip (vertexMapper m).*1 r.1.2, (r.2 + interHierarchySpacing)%Q).

(** One round of the loop over the hierarchies. *)
Definition place_hierarchy (k : nat) (roots : list nat) (acc : option (list (list (nat * (Q * Q))) * Q)) (vertices : list nat) :
    option (list (list (nat * (Q * Q))) * Q) :=
  acc ← acc;
  m ← lay_out g k vertices roots;
  r ← placementStage acc.2 (build_hierarchy g vertices roots) m;
  Some (acc.1 ++ [r.1], r.2).

Definition run_placed (n k : nat) (given : option (list nat)) (descendants : list nat) : option (list (list (nat * (Q * Q)))) :=
  r ← split_hierarchies g n given descendants;
  q ← foldl (place_hierarchy k r.1) (Some ([], 0%Q)) r.2;
  Some q.1.

(** ** What the placement needs *)

Record spacious : Prop := {
  sc_intra : (0 < intraCellSpacing cfg)%Q;
  sc_inter : (0 <= interRankCellSpacing cfg)%Q;
  sc_parallel : (0 <= parallelEdgeSpacing cfg)%Q;
  sc_hierarchies : (0 <= interHierarchySpacing)%Q;
  sc_bounds : ∀ v w h, bounds v = Some (w, h) → (0 <= w)%Q ∧ (0 <= h)%Q
}.
Context (HS : spacious).

(** Edges lead to vertices with smaller numbers. *)
Definition descends (h : list nat) (f : nat → nat) : Prop := ∀ x y, x ∈ h → y ∈ h → joins g x y → f y < f x.

(** A hierarchy as drawn: its vertices in order, each at its place, apart from all others, and
    before those it leads to when there are no cycles. *)
Record drawn (h : list nat) (p : list (nat * (Q * Q))) : Prop := {
  dr_vertices : p.*1 = h;
  dr_apart : ∀ a b la lb, (a, la) ∈ p → (b, lb) ∈ p → a ≠ b →
    clear_of (gaps cfg).1 (gaps cfg).2 la lb (size_of bounds a) (size_of bounds b);
  dr_flows : ∀ f a b la lb, descends h f → joins g a b → (a, la) ∈ p → (b, lb) ∈ p → flows cfg la lb (size_of bounds a) (size_of bounds b)
}.

Lemma filter_shorter (f : nat → nat) l x y : y ∈ l → f y < f x → length (filter (λ v, f v < f y) l) < length (filter (λ v, f v < f x) l).
Proof.
  clear HS. intros Hy Hf. assert (∀ k, length (filter (λ v, f v < f y) k) ≤ length (filter (λ v, f v < f x) k)) as Hle.
  { induction k as [|z k IH]; [done|]. rewrite !filter_cons. case_decide; case_decide; simpl; lia. }
  induction l as [|z l IH]; [by apply elem_of_nil in Hy|]. rewrite !filter_cons. apply elem_of_cons in Hy as [<-|Hy].
  - case_decide; [lia|]. case_decide; [|lia]. simpl. pose proof (Hle l). lia.
  - specialize (IH Hy). case_decide; case_decide; simpl; lia.
Qed.

(** The model of a hierarchy without cycles has none. *)
Lemma constructed_acyclic h roots m f : constructed g h roots m → descends h f → HierarchyCycles.acyclic (vertexMapper_values m) (cells m).
Proof.
  clear HS. intros [Gr Ve Ro Ge Nd Ed Si Fo] Hf.
  set (number := λ n, match list_find (λ p, p.2 = n) (vertexMapper m) with Some (_, p) => length (filter (λ v, f v < f p.1) h) | None => 0 end).
  assert (∀ x n, (x, n) ∈ vertexMapper m → number n = length (filter (λ v, f v < f x) h) ∧ x ∈ h) as Hnum.
  { intros x n Hx. split; [|rewrite <-Ve; exact (list_elem_of_fmap_2 fst _ _ Hx)]. unfold number.
    destruct (list_find _ _) as [[i p]|] eqn:E; [|apply list_find_None in E; rewrite Forall_forall in E; by destruct (E (x, n) Hx)].
    apply list_find_Some in E as (Hi & Hp & _). apply list_elem_of_lookup_1 in Hx as [j Hj].
    assert (i = j) as <-; [|rewrite Hj in Hi; by injection Hi as <-]. apply (NoDup_lookup (vertexMapper_values m) _ _ n Nd);
      unfold vertexMapper_values; rewrite list_lookup_fmap; [rewrite Hi; simpl; by rewrite Hp|by rewrite Hj]. }
  assert (∀ n, n ∈ vertexMapper_values m → ∃ x, (x, n) ∈ vertexMapper m) as Hval by (intros n ([x n'] & -> & Hx)%list_elem_of_fmap; by exists x).
  exists number. split.
  - intros u Hu. destruct (Hval u Hu) as [x Hx]. destruct (Hnum x u Hx) as [-> Hxh].
    assert (length (vertexMapper_values m) = length h) as -> by (unfold vertexMapper_values; by rewrite length_fmap, <-(length_fmap fst), Ve).
    assert (∀ l, x ∈ l → length (filter (λ v, f v < f x) l) < length l) as Hlt; [|by apply Hlt].
    induction l as [|z l IH]; intros Hl; [by apply elem_of_nil in Hl|]. rewrite filter_cons. apply elem_of_cons in Hl as [<-|Hl].
    + case_decide; [lia|]. simpl. pose proof (length_filter (λ v, f v < f x) l). lia.
    + specialize (IH Hl). case_decide; simpl; lia.
  - intros u e Hu He. destruct (Hval u Hu) as [x Hx]. destruct (g_out _ _ Gr u e Hu He) as (_ & _ & _ & Ht & _). destruct (Hval _ Ht) as [y Hy].
    destruct (Hnum x u Hx) as [-> Hxh], (Hnum y _ Hy) as [-> Hyh]. apply filter_shorter; [done|]. apply Hf; [done|done|].
    apply (Ed x u y _ Hx Hy). by exists e.
Qed.

Lemma node_bounds_size m v n : NoDup (vertexMapper_values m) → (v, n) ∈ vertexMapper m → size_of (node_bounds m) n = size_of bounds v.
Proof.
  clear HS. intros Hnd Hv. unfold size_of, node_bounds. destruct (list_find (λ p, p.2 = n) (vertexMapper m)) as [[i [v' n']]|] eqn:E.
  - apply list_find_Some in E as (Hi & <- & _). apply list_elem_of_lookup_1 in Hv as [j Hj].
    assert (i = j) as <-; [|by simplify_eq]. eapply (NoDup_lookup (vertexMapper_values m) _ _ n'); [done|..];
      unfold vertexMapper_values; rewrite list_lookup_fmap; [by rewrite Hi|by rewrite Hj].
  - apply list_find_None in E. rewrite Forall_forall in E. by destruct (E (v, n) Hv).
Qed.

Lemma zip_lookup {A B} (l : list A) (k : list B) i a b : zip l k !! i = Some (a, b) → l !! i = Some a ∧ k !! i = Some b.
Proof. clear HS. intros H. apply lookup_zip_with_Some in H as (x & y & [= -> ->] & ? & ?). done. Qed.

(** *** One hierarchy *)

Section One.
Context (h roots : list nat) (m : hmodel) (HC : constructed g h roots (new_hierarchy g h roots)) (Hst : staged (new_hierarchy g h roots) m).
Context (Hne : h ≠ []) (Hsym : symmetric g h) (Hcl : ∀ x y, x ∈ h → joins g x y → y ∈ h) (Hnd : NoDup h).
Abbreviation m0 := (new_hierarchy g h roots).
Abbreviation b := (build_hierarchy g h roots).

Lemma mapper_same : vertexMapper_values m = vertexMapper_values m0 ∧ (vertexMapper m).*1 = h ∧ NoDup (vertexMapper_values m).
Proof using HC Hst.
  assert (vertexMapper_values m = vertexMapper_values m0) as E by (unfold vertexMapper_values; by rewrite (sg_vertices _ _ Hst)).
  split_and!; [done|rewrite (sg_vertices _ _ Hst); apply HC|rewrite E; apply HC].
Qed.

Lemma node_in_rank u : u ∈ vertexMapper_values m → ∃ l, ranks m !! Z.to_nat (maxRank (cells m !!! u)) = Some l ∧ u ∈ l.
Proof using HC Hst. rewrite (proj1 mapper_same). apply (sg_list _ _ Hst). Qed.

Lemma laid_placeable x : (0 <= x)%Q →
  placeable (with_initialX x) (cells m) (ranks m) (model_maxRank m) (edgeMapper_values b) (node_bounds m) (edge_count b).
Proof using All.
  intros Hx. destruct (build_edges g h Hsym Hcl roots Hnd) as [Hcount Hvalues]. change (model b) with m0 in Hcount, Hvalues.
  destruct mapper_same as (En' & Evm & _). destruct (sg_laid _ _ Hst) as [La Le Ln Lb Lk]. split; try done.
  - assert (length (vertexMapper_values m) = length h) as Elen by (unfold vertexMapper_values; by rewrite length_fmap, <-(length_fmap fst), Evm).
    destruct (vertexMapper_values m) as [|u us] eqn:Eu; [by destruct h|].
    destruct (node_in_rank u) as (l & Hl & Hu); [rewrite Eu; left|]. by eexists _, l, u.
  - split_and!; [apply HS|apply HS|done].
  - apply HS.
  - intros n w hh. unfold node_bounds. destruct (list_find _ _) as [[i p]|]; [|done]. cbn. apply (sc_bounds HS).
  - intros i r c Hr Hc Hv. destruct (sg_same _ _ Hst c) as [Hs Hvc]. apply Hcount; [by apply Hs, (Lk i r)|congruence].
  - intros e He. destruct (Hvalues e He) as (u & Hu & Hue). pose proof (sg_kept _ _ Hst u e Hu Hue) as Hk'. apply (Lb (src m e) e); [|done].
    rewrite En'. destruct (g_out _ _ (o_graph _ _ _ _ HC) u e Hu Hue) as (_ & _ & Hs & Ht & _). destruct (sg_ends _ _ Hst e) as [(-> & _)|(-> & _)]; [by rewrite Hs|done].
Qed.

(** Where the edge of two vertices leads, in ranks, when there are no cycles. *)
Lemma acyclic_ranks f x y nx ny : descends h f → joins g x y → (x, nx) ∈ vertexMapper m → (y, ny) ∈ vertexMapper m →
  (0 ≤ maxRank (cells m !!! ny) < maxRank (cells m !!! nx))%Z.
Proof using HC Hst.
  clear HS. intros Hf Hj Hx Hy. destruct mapper_same as (_ & Evm & _).
  assert (∀ v n, (v, n) ∈ vertexMapper m → v ∈ h ∧ n ∈ vertexMapper_values m0) as Hin.
  { intros v n Hv. destruct (fmap_pair _ _ _ Hv) as [H1 H2]. rewrite Evm in H1. split; [done|]. unfold vertexMapper_values. by rewrite <-(sg_vertices _ _ Hst). }
  destruct (Hin x nx Hx) as [Hxh Hnx], (Hin y ny Hy) as [Hyh Hny]. rewrite (sg_vertices _ _ Hst) in Hx, Hy.
  pose proof (sg_acyclic _ _ Hst (constructed_acyclic h roots _ f HC Hf)) as Ac.
  assert (internal g h x y) as (e & He & Ht)%(o_edge _ _ _ _ HC x nx y ny Hx Hy).
  { split; [done|]. left. intros Hj'. pose proof (Hf x y Hxh Hyh Hj). pose proof (Hf y x Hyh Hxh Hj'). lia. }
  rewrite <-(proj1 (Ac nx)) in He. destruct (sg_rank _ _ Hst nx e Hnx He) as [_ Hlt].
  assert (tgt m e = ny) as Et; [|rewrite Et in Hlt; split; [by apply (sg_nonneg _ _ Hst)|done]].
  destruct (sg_ends _ _ Hst e) as [(_ & -> & _)|(_ & _ & E3)]; [done|]. rewrite (proj2 (Ac e)) in E3. by destruct (isReversed (cells m0 !!! e)).
Qed.

Lemma well_placed_drawn x locs lim : well_placed (with_initialX x) (ranks m) (node_bounds m) (vertexMapper_values m) locs lim →
  drawn h (zip (vertexMapper m).*1 locs).
Proof using HC Hst.
  clear HS. intros [W1 W2 W4 _]. destruct mapper_same as (En' & Evm & Hndv).
  assert (∀ a la, (a, la) ∈ zip (vertexMapper m).*1 locs → ∃ i n, (a, n) ∈ vertexMapper m ∧ vertexMapper_values m !! i = Some n ∧ locs !! i = Some la ∧
    size_of (node_bounds m) n = size_of bounds a) as Hplace.
  { intros a la [i Hi]%list_elem_of_lookup_1. apply zip_lookup in Hi as [Hia Hil]. rewrite list_lookup_fmap in Hia.
    destruct (vertexMapper m !! i) as [[a' n]|] eqn:Ei; [|done]. injection Hia as ->. exists i, n.
    assert ((a, n) ∈ vertexMapper m) as Hm by by eapply list_elem_of_lookup_2.
    split_and!; [done|unfold vertexMapper_values; by rewrite list_lookup_fmap, Ei|done|by apply node_bounds_size]. }
  split.
  - rewrite fst_zip; [done|]. rewrite W1. unfold vertexMapper_values. by rewrite !length_fmap.
  - intros a c la lc Ha Hc Hac. destruct (Hplace a la Ha) as (i & na & Hma & Hna & Hil & <-), (Hplace c lc Hc) as (j & nc & Hmc & Hnc & Hjl & <-).
    apply (W2 i j); [done|done| |done|done]. intros <-. apply Hac. by eapply (NoDup_snd_inj (vertexMapper m)).
  - intros f a c la lc Hf Hj Ha Hc. destruct (Hplace a la Ha) as (i & na & Hma & Hna & Hil & <-), (Hplace c lc Hc) as (j & nc & Hmc & Hnc & Hjl & <-).
    pose proof (acyclic_ranks f a c na nc Hf Hj Hma Hmc) as Hr.
    apply (W4 j i nc na lc la (Z.to_nat (maxRank (cells m !!! nc))) (Z.to_nat (maxRank (cells m !!! na)))); [done|done| | |lia|done|done];
      apply node_in_rank; by eapply list_elem_of_lookup_2.
Qed.
End One.

(** *** All hierarchies *)

Lemma place_ok k roots V hs h x : consistent g V → bounded g V → hierarchies_of g V roots hs → h ∈ hs →
  (length roots + length h) * (length roots + length h) ≤ k → (0 <= x)%Q →
  ∃ p x', (∀ acc, place_hierarchy k roots (Some (acc, x)) h = Some (acc ++ [p], x')) ∧ (0 <= x')%Q ∧ drawn h p.
Proof.
  intros HL HB HH Hh Hk Hx. destruct (lay_out_staged g V HL HB k roots hs h HH Hh Hk) as (Hsym & Hcl & Hnd & m & E & HC & Hst).
  pose proof (laid_placeable h roots m HC Hst (h_filled _ _ _ _ HH h Hh) Hsym Hcl Hnd x Hx) as HP.
  destruct (execute_placed (with_initialX x) (cells m) (ranks m) (model_maxRank m) (edgeMapper_values (build_hierarchy g h roots)) (node_bounds m)
    (edge_count (build_hierarchy g h roots)) HP (vertexMapper_values m)) as (q & locs & lim & Ex & W).
  { intros u Hu. split; [by apply (sg_laid _ _ Hst)|]. destruct (node_in_rank h roots m HC Hst u Hu) as (l & Hl & Hul). by eexists _, l. }
  exists (zip (vertexMapper m).*1 locs), (lim + interHierarchySpacing)%Q. split_and!.
  - intros acc. unfold place_hierarchy, placementStage. cbn [mbind option_bind fst snd]. rewrite E. cbn [mbind option_bind fst snd]. by rewrite Ex.
  - pose proof (sc_hierarchies HS). pose proof (proj1 (wp_limit _ _ _ _ _ _ W)). lra.
  - by eapply well_placed_drawn.
Qed.

Lemma place_all k roots V hs hs0 : consistent g V → bounded g V → hierarchies_of g V roots hs → hs0 ⊆ hs →
  (∀ h, h ∈ hs → (length roots + length h) * (length roots + length h) ≤ k) → ∀ acc x, (0 <= x)%Q →
  ∃ ps x', foldl (place_hierarchy k roots) (Some (acc, x)) hs0 = Some (acc ++ ps, x') ∧ Forall2 drawn hs0 ps.
Proof.
  intros HL HB HH Hsub Hk. induction hs0 as [|h hs0 IH]; intros acc x Hx; [exists [], x; by rewrite app_nil_r|].
  assert (h ∈ hs) as Hh by (apply Hsub; left). destruct (place_ok k roots V hs h x HL HB HH Hh (Hk h Hh) Hx) as (p & x' & E & Hx' & Hp).
  destruct (IH ltac:(intros y Hy; apply Hsub; by right) (acc ++ [p]) x' Hx') as (ps & x2 & E2 & Hps). exists (p :: ps), x2. cbn [foldl].
  rewrite E, E2, <-app_assoc. split; [done|by constructor].
Qed.

Lemma run_placed_drawn V n k : consistent g V → bounded g V → length V < n → 2 * length V * (2 * length V) ≤ k →
  ∃ roots hs ps, run_placed n k None V = Some ps ∧ hierarchies_of g V roots hs ∧ concat hs ≡ₚ V ∧ Forall2 drawn hs ps.
Proof.
  intros HL HB Hn Hk. destruct (split_all g V HL HB n Hn) as (roots & hs & E & HH & HP & Hnd & Hr).
  assert (length roots ≤ length V) as Hlr by by apply submseteq_length, NoDup_submseteq.
  destruct (place_all k roots V hs hs HL HB HH) with (acc := [] : list (list (nat * (Q * Q)))) (x := 0%Q) as (ps & x' & Ep & Hps).
  - done.
  - intros h Hh. pose proof (submseteq_length _ _ (proj2 (hierarchy_inside g V roots hs h HH Hh))). nia.
  - apply Qle_refl.
  - exists roots, hs, ps. split_and!; [|done|done|done]. unfold run_placed. rewrite E. cbn [mbind option_bind fst snd]. by rewrite Ep.
Qed.
End Run.

(** ** The theorems *)

Definition spacious_check (cfg : settings) (interHierarchySpacing : Q) : bool :=
  (if Qlt_le_dec 0 (intraCellSpacing cfg) then true else false) && Qle_bool 0 (interRankCellSpacing cfg) &&
  Qle_bool 0 (parallelEdgeSpacing cfg) && Qle_bool 0 interHierarchySpacing.
Lemma spacious_by_check cfg s bounds : spacious_check cfg s = true → (∀ v w h, bounds v = Some (w, h) → (0 <= w)%Q ∧ (0 <= h)%Q) → spacious cfg s bounds.
Proof.
  unfold spacious_check. destruct (Qlt_le_dec 0 (intraCellSpacing cfg)); [|done]. cbn [andb].
  intros ((H1%Qle_bool_iff & H2%Qle_bool_iff)%andb_prop & H3%Qle_bool_iff)%andb_prop Hb. by split.
Qed.

(** The settings that the layout has by default. *)
Definition default_settings : settings := Settings 30 100 NORTH 0 10 true.
Definition default_spacing : Q := 60.
Definition sizes (wide : nat → Q) (v : nat) : option (Q * Q) := Some (wide v, 40%Q).
Definition spot (v : nat) (x y : Q) : nat * (Q * Q) := (v, (x, y)).
Lemma default_spacious wide : (∀ v, (0 <= wide v)%Q) → spacious default_settings default_spacing (sizes wide).
Proof. intros Hw. apply spacious_by_check; [reflexivity|]. intros v w h [= <- <-]. split; [done|lra]. Qed.

(** C4: The vertices of a hierarchy never overlap: the layout ends without error, draws every
    vertex once, and any two vertices of a hierarchy keep the spacing of the cells of a rank or
    that of the ranks, whatever their sizes and the orientation. *)
Theorem run_places_apart g cfg s bounds V n k : consistent g V → bounded g V → spacious cfg s bounds →
  length V < n → 2 * length V * (2 * length V) ≤ k →
  ∃ ps, run_placed g cfg s bounds n k None V = Some ps ∧ (concat ps).*1 ≡ₚ V ∧
    ∀ p a la b lb, p ∈ ps → (a, la) ∈ p → (b, lb) ∈ p → a ≠ b →
      clear_of (gaps cfg).1 (gaps cfg).2 la lb (size_of bounds a) (size_of bounds b).
Proof.
  intros HL HB HS Hn Hk. destruct (run_placed_drawn g cfg s bounds HS V n k HL HB Hn Hk) as (roots & hs & ps & E & _ & HP & Hd).
  exists ps. split_and!; [done| |].
  - rewrite <-HP. clear -Hd. induction Hd as [|h p hs ps Hp _ IH]; [done|]. simpl. by rewrite fmap_app, IH, (dr_vertices _ _ _ _ _ Hp).
  - intros p a la b lb Hp. apply list_elem_of_lookup_1 in Hp as [i Hi]. destruct (Forall2_lookup_r _ _ _ _ _ Hd Hi) as (h & _ & Hdr). apply Hdr.
Qed.

Lemma run_places_apart_witness :
  consistent islands islanders ∧ bounded islands islanders ∧ spacious default_settings default_spacing (sizes (λ v, 10%Q)) ∧
  (∃ ps, run_placed islands default_settings default_spacing (sizes (λ v, 10%Q)) 20 400 None islanders = Some ps ∧
    ∀ p a la b lb, p ∈ ps → (a, la) ∈ p → (b, lb) ∈ p → a ≠ b → clear_of 30 100 la lb (10, 40)%Q (10, 40)%Q) ∧
  option_map (map (map (λ p, (p.1, (Qred p.2.1, Qred p.2.2)))))
    (run_placed islands default_settings default_spacing (sizes (λ v, 10%Q)) 20 400 None islanders) =
    Some [[spot 8 35 0; spot 6 15 140; spot 7 0 280; spot 3 55 140; spot 1 40 280; spot 2 (115 # 2) 420; spot 4 15 420];
          [spot 5 140 0]; [spot 9 210 0; spot 10 210 140]].
Proof.
  assert (spacious default_settings default_spacing (sizes (λ v, 10%Q))) as HS by (apply default_spacious; intros; lra).
  split; [exact islands_consistent|]. split; [exact islands_bounded|]. split; [exact HS|]. split; [|vm_compute; reflexivity].
  destruct (run_places_apart islands default_settings default_spacing (sizes (λ v, 10%Q)) islanders 20 400 islands_consistent islands_bounded HS)
    as (ps & E & _ & H).
  - vm_compute. lia.
  - apply (bool_decide_unpack _). by vm_compute.
  - exists ps. exact (conj E H).
Defined.

(** C7: In a graph without cycles every edge follows the direction of the layout: the vertex it
    comes from is drawn before the one it leads to, with at least the spacing of the ranks in
    between. *)
Theorem acyclic_edges_flow g cfg s bounds V n k (f : nat → nat) : consistent g V → bounded g V → spacious cfg s bounds →
  length V < n → 2 * length V * (2 * length V) ≤ k → descends g V f →
  ∃ ps, run_placed g cfg s bounds n k None V = Some ps ∧ ∀ x y, x ∈ V → joins g x y →
    ∃ p lx ly, p ∈ ps ∧ (x, lx) ∈ p ∧ (y, ly) ∈ p ∧ flows cfg lx ly (size_of bounds x) (size_of bounds y).
Proof.
  intros HL HB HS Hn Hk Hf. destruct (run_placed_drawn g cfg s bounds HS V n k HL HB Hn Hk) as (roots & hs & ps & E & HH & HP & Hd).
  exists ps. split; [done|]. intros x y Hx Hj. assert (x ∈ concat hs) as (h & Hxh & Hh)%elem_of_concat by by rewrite HP.
  assert (steps g V x y) as Hs by (destruct Hj as (H1 & H2 & H3 & H4); by split_and!).
  pose proof (h_closed _ _ _ _ HH h x y Hh Hxh Hs) as Hyh. apply list_elem_of_lookup_1 in Hh as Hi. destruct Hi as [i Hi].
  destruct (Forall2_lookup_l _ _ _ _ _ Hd Hi) as (p & Hp & [Dv Da Df]). rewrite <-Dv in Hxh, Hyh.
  apply list_elem_of_fmap in Hxh as ([x' lx] & Ex & Hx'), Hyh as ([y' ly] & Ey & Hy'). simpl in Ex, Ey. subst x' y'.
  exists p, lx, ly. split_and!; [by eapply list_elem_of_lookup_2|done|done|]. apply (Df f); [|done|done|done].
  intros u w Hu Hw. apply Hf; by eapply (h_inside _ _ _ _ HH).
Qed.

(** Two hierarchies: 1 above 2; and 3, which is wide, above 11 only, and 4 above 11 to 20. *)
Definition fan : lgraph := graph_of [(100, (1, 2)); (101, (3, 11)); (102, (4, 11)); (103, (4, 12)); (104, (4, 13)); (105, (4, 14)); (106, (4, 15));
  (107, (4, 16)); (108, (4, 17)); (109, (4, 18)); (110, (4, 19)); (111, (4, 20))].
Definition fan_vertices : list nat := [1; 2; 3; 4; 11; 12; 13; 14; 15; 16; 17; 18; 19; 20].
Definition fan_sizes : nat → option (Q * Q) := sizes (λ v, if decide (v = 3) then 300%Q else 10%Q).

Lemma fan_consistent : consistent fan fan_vertices.
Proof. apply graph_of_consistent; vm_compute; reflexivity. Qed.
Lemma fan_bounded : bounded fan fan_vertices.
Proof.
  split; [|by vm_compute|by vm_compute].
  assert (Forall (λ v, (Z.of_nat (length (getEdges fan v)) < 100000)%Z) fan_vertices) as H by (apply (bool_decide_unpack _); by vm_compute).
  by rewrite Forall_forall in H.
Qed.
Lemma fan_spacious : spacious default_settings default_spacing fan_sizes.
Proof. apply default_spacious. intros v. case_decide; lra. Qed.
Definition fan_number (v : nat) : nat := if decide (v ∈ [1; 3; 4]) then 1 else 0.
Lemma fan_descends : descends fan fan_vertices fan_number.
Proof.
  assert (Forall (λ x, Forall (λ y, joins fan x y → fan_number y < fan_number x) fan_vertices) fan_vertices) as H by (apply (bool_decide_unpack _); by vm_compute).
  intros x y Hx Hy. rewrite Forall_forall in H. specialize (H x Hx). rewrite Forall_forall in H. by apply H.
Qed.

Lemma acyclic_edges_flow_witness : consistent fan fan_vertices ∧ bounded fan fan_vertices ∧ spacious default_settings default_spacing fan_sizes ∧
  descends fan fan_vertices fan_number ∧
  ∃ ps, run_placed fan default_settings default_spacing fan_sizes 20 1000 None fan_vertices = Some ps ∧
    ∃ p lx ly, p ∈ ps ∧ (3, lx) ∈ p ∧ (11, ly) ∈ p ∧ (snd lx + 40 + 100 <= snd ly)%Q.
Proof.
  split; [exact fan_consistent|]. split; [exact fan_bounded|]. split; [exact fan_spacious|]. split; [exact fan_descends|].
  destruct (acyclic_edges_flow fan default_settings default_spacing fan_sizes fan_vertices 20 1000 fan_number fan_consistent fan_bounded fan_spacious)
    as (ps & E & H).
  - vm_compute. lia.
  - apply (bool_decide_unpack _). by vm_compute.
  - exact fan_descends.
  - exists ps. split; [exact E|]. apply (H 3 11); apply (bool_decide_unpack _); by vm_compute.
Defined.

(** Vertices of different hierarchies may overlap: a wide vertex is moved above its only
    neighbour, beyond the left border of its hierarchy, over a vertex of the hierarchy before,
    although the spacing of the hierarchies is 60. *)
Theorem hierarchies_overlap : consistent fan fan_vertices ∧ bounded fan fan_vertices ∧ spacious default_settings default_spacing fan_sizes ∧
  ∃ p q l1 l3, run_placed fan default_settings default_spacing fan_sizes 20 1000 None fan_vertices = Some [p; q] ∧
    (1, l1) ∈ p ∧ (3, l3) ∈ q ∧ ¬ clear_of 0 0 l1 l3 (size_of fan_sizes 1) (size_of fan_sizes 3).
Proof.
  split; [exact fan_consistent|]. split; [exact fan_bounded|]. split; [exact fan_spacious|].
  destruct (run_placed fan default_settings default_spacing fan_sizes 20 1000 None fan_vertices) as [ps|] eqn:E;
    [vm_compute in E; injection E as <-|vm_compute in E; discriminate E].
  do 4 eexists. split; [reflexivity|]. split; [left|]. split; [right; left|]. intros H. vm_compute in H. naive_solver.
Qed.

(** C22: Only the first positions count: the offset of the first iteration, in which no median
    was swept, is 0, so that no later iteration has less; every later sweep is undone, and the
    stage gives what it gives without them. *)
Theorem sweeps_undone cfg cs ranks top edge_values bounds count vertices : placeable cfg cs ranks top edge_values bounds count → fineTuning cfg = true →
  Coordinates.execute cfg cs ranks top edge_values bounds count vertices = execute_without_sweeps cfg cs ranks top edge_values bounds count vertices.
Proof. intros HP. apply (execute_eq cfg cs ranks top edge_values bounds count HP). Qed.

(** The second hierarchy of the two. *)
Lemma fan_laid : ∃ h roots m, 3 ∈ h ∧ lay_out fan 1000 h roots = Some m ∧
  placeable (with_initialX default_settings 70) (cells m) (ranks m) (model_maxRank m) (edgeMapper_values (build_hierarchy fan h roots))
    (node_bounds fan_sizes m) (edge_count (build_hierarchy fan h roots)).
Proof.
  destruct (split_all fan fan_vertices fan_consistent fan_bounded 20) as (roots & hs & _ & HH & HP & Hnd & Hr); [vm_compute; lia|].
  assert (3 ∈ concat hs) as (h & H3 & Hh)%elem_of_concat by (rewrite HP; apply (bool_decide_unpack _); by vm_compute).
  assert (length roots ≤ 14) as Hlr by by apply (submseteq_length roots fan_vertices), NoDup_submseteq.
  pose proof (submseteq_length _ _ (proj2 (hierarchy_inside fan fan_vertices roots hs h HH Hh))) as Hlh. change (length fan_vertices) with 14 in Hlh.
  destruct (lay_out_staged fan fan_vertices fan_consistent fan_bounded 1000 roots hs h HH Hh ltac:(nia)) as (Hsym & Hcl & Hnh & m & E & HC & Hst).
  exists h, roots, m. split_and!; [done|done|].
  apply (laid_placeable fan default_settings default_spacing fan_sizes fan_spacious h roots m HC Hst (h_filled _ _ _ _ HH h Hh) Hsym Hcl Hnh). lra.
Qed.

Lemma sweeps_undone_witness : ∃ h roots m, 3 ∈ h ∧ lay_out fan 1000 h roots = Some m ∧ fineTuning (with_initialX default_settings 70) = true ∧
  Coordinates.execute (with_initialX default_settings 70) (cells m) (ranks m) (model_maxRank m) (edgeMapper_values (build_hierarchy fan h roots))
    (node_bounds fan_sizes m) (edge_count (build_hierarchy fan h roots)) (vertexMapper_values m) =
  execute_without_sweeps (with_initialX default_settings 70) (cells m) (ranks m) (model_maxRank m) (edgeMapper_values (build_hierarchy fan h roots))
    (node_bounds fan_sizes m) (edge_count (build_hierarchy fan h roots)) (vertexMapper_values m).
Proof.
  destruct fan_laid as (h & roots & m & H3 & E & HP). exists h, roots, m. split; [exact H3|]. split; [exact E|]. split; [reflexivity|].
  exact (sweeps_undone _ _ _ _ _ _ _ (vertexMapper_values m) HP eq_refl).
Defined.

End Placement.
