(* ===== verification/LogReplay.v ===== *)
(** * Replaying a log of report events

    Models the class LogProcessor of reports_logging.js: a cursor over the lines of a
    log, the tree of reports the lines build and change, and the table of the lines
    shown last. The tree widget (jstree) is an interface. *)

From S2P Require Import Prelude.

Module LogReplay.

(** ** The tree widget *)

(** A node: its id and type, its title, and the [data] object. *)
Record node := Node {
  nid : string;
  ntype : string;
  ntext : string;
  npk : option string;
  nidentifier : option string;
  nstatus : string
}.

Definition with_status (s : string) (n : node) : node :=
  Node (nid n) (ntype n) (ntext n) (npk n) (nidentifier n) s.
Definition with_type (ty : string) (n : node) : node :=
  Node (nid n) ty (ntext n) (npk n) (nidentifier n) (nstatus n).

(** What the code calls: [create_node] and [move_node] answer [None] when the widget
    refuses; [set_status] is the assignment to [node.data['status']]; [auto_id] is the id
    the widget gives to a node that comes without one. *)
Class JsTree (T : Type) := {
  get_node : T → string → option node;
  children_d : T → string → list string;
  create_node : T → option string → node → option T;
  move_node : T → string → option string → option T;
  set_type : T → string → string → T;
  set_status : T → string → string → T;
  refresh_tree : T → node → T;
  auto_id : T → string
}.

(** The documented behaviour the code relies on. *)
Class JsTreeLaws (T : Type) `{JsTree T} : Prop := {
  get_set_type t x ty y :
    get_node (set_type t x ty) y = (if decide (y = x) then with_type ty else λ n, n) <$> get_node t y;
  get_set_status t x s y :
    get_node (set_status t x s) y = (if decide (y = x) then with_status s else λ n, n) <$> get_node t y;
  children_set_type t x ty y : children_d (set_type t x ty) y = children_d t y;
  children_set_status t x s y : children_d (set_status t x s) y = children_d t y;
  children_known t x y : y ∈ children_d t x → is_Some (get_node t y);
  get_node_id t x n : get_node t x = Some n → nid n = x;
  get_create t par n t' y :
    create_node t par n = Some t' → get_node t' y = if decide (y = nid n) then Some n else get_node t y;
  get_move t x par t' y : move_node t x par = Some t' → get_node t' y = get_node t y
}.

(** ** State *)

(** A line of the log: [data-time], [data-type] and the texts. *)
Record line := Line { ltime : string; ltype : string; ltext : list string }.

(** A row of the table: time, report type, action, link to a report, details. *)
Record row := Row {
  rtime : string; rtype : string; raction : string; rreport : option string; rextra : string
}.

(** [current_log_line]: [null], a line of the container, or an empty jQuery set, whose
    neighbours are empty sets too. *)
Inductive cursor := Unset | At (i : nat) | Nowhere.

Section Processor.
Context {T : Type} `{JsTree T}.

Record processor := Processor {
  tree : T;
  sel_node_id : option string;
  content : option (string * option string);
  container : list line;
  name_cache : list (option string * string);
  current_log_line : cursor;
  table_body : list row;
  table_rows_number : nat;
  report_ids : gset (option string)
}.

Definition set_tree (t : T) (p : processor) : processor :=
  Processor t (sel_node_id p) (content p) (container p) (name_cache p) (current_log_line p)
            (table_body p) (table_rows_number p) (report_ids p).
Definition set_selection (n : node) (p : processor) : processor :=
  Processor (tree p) (Some (nid n)) (Some (nstatus n, nidentifier n)) (container p) (name_cache p)
            (current_log_line p) (table_body p) (table_rows_number p) (report_ids p).
Definition set_container (l : list line) (p : processor) : processor :=
  Processor (tree p) (sel_node_id p) (content p) l (name_cache p) (current_log_line p)
            (table_body p) (table_rows_number p) (report_ids p).
Definition set_name_cache (c : list (option string * string)) (p : processor) : processor :=
  Processor (tree p) (sel_node_id p) (content p) (container p) c (current_log_line p)
            (table_body p) (table_rows_number p) (report_ids p).
Definition set_cursor (c : cursor) (p : processor) : processor :=
  Processor (tree p) (sel_node_id p) (content p) (container p) (name_cache p) c
            (table_body p) (table_rows_number p) (report_ids p).
Definition set_table (rows : list row) (n : nat) (p : processor) : processor :=
  Processor (tree p) (sel_node_id p) (content p) (container p) (name_cache p) (current_log_line p)
            rows n (report_ids p).
Definition add_report_id (i : option string) (p : processor) : processor :=
  Processor (tree p) (sel_node_id p) (content p) (container p) (name_cache p) (current_log_line p)
            (table_body p) (table_rows_number p) ({[i]} ∪ report_ids p).

Definition new_LogProcessor (t : T) : processor :=
  Processor t None None [] [] Unset [] 0 ∅.

(** [fill_log_data(data)]: the new lines replace the old ones; returns their number. *)
Definition fill_log_data (data : list line) (p : processor) : processor * nat :=
  (set_container data p, foldl (λ counter _, S counter) 0 data).

(** ** One step of the log *)

(** [data[k]] and its text inside a template or after ['' + ]. *)
Abbreviation arg data k := (data !! k).
Definition show (o : option string) : string := default "undefined" o.

Definition get_tree_node (p : processor) (report_id : option string) : option node :=
  get_node (tree p) (show report_id).

(** The callback [get_next_line] passes at low speed, [None] at high speed: it selects
    the node, and the selection shows its data. *)
Definition callback (slow : bool) (n : option node) (force : bool) (p : processor) : processor :=
  if slow then
    match n with
    | Some n => if force || negb (bool_decide (sel_node_id p = Some (nid n)))
                then set_selection n p else p
    | None => p
    end
  else p.

(** How a [case] of the [switch] ends: a row to show, [return false], or a TypeError. *)
Inductive verdict :=
| Shown (report_type action_detail : string) (report_id : option string) (extra_data : string)
| Refused
| Crashed.

(** [find(`span[data-id="i"]`).text()]: the texts of all spans with the id. *)
Definition cached_name (p : processor) (i : option string) : string :=
  foldr (λ e s, if decide (e.1 = Some (show i)) then e.2 +:+ s else s) "" (name_cache p).

Definition cache_name (data : list string) (p : processor) : processor :=
  set_name_cache (name_cache p ++ [(arg data 1, default "" (arg data 0))]) p.

(** The id of the node for the report [data[0]]. *)
Definition new_id (p : processor) (data : list string) : string := default (auto_id (tree p)) (arg data 0).

(** The lines that only name a report the log has created. *)
Definition mention (slow : bool) (p : processor) (rid : option string) (rt ad ex : string)
    : processor * verdict :=
  if decide (rid ∈ report_ids p)
  then (callback slow (get_tree_node p rid) false p, Shown rt ad rid ex)
  else (p, Refused).

(** The lines that create a report below another one. *)
Definition create (slow : bool) (p : processor) (par : option string) (rid : option string)
    (n : node) (rt ad ex : string) : processor * verdict :=
  let p := add_report_id rid p in
  match create_node (tree p) par n with
  | Some t => (callback slow (Some n) true (set_tree t p), Shown rt ad rid ex)
  | None => (p, Refused)
  end.

(** The lines that finish a report. *)
Definition finish (slow : bool) (p : processor) (rid : option string) (rt ad ex : string)
    : processor * verdict :=
  if decide (rid ∈ report_ids p) then
    match get_tree_node p rid with
    | Some n =>
        let p := set_tree (set_status (tree p) (nid n) "Finished") p in
        (callback slow (get_node (tree p) (nid n)) true p, Shown rt ad rid ex)
    | None => (p, Refused)
    end
  else (p, Refused).

(** [$.each(node.children_d, ...)]: marks the children that are not marked yet. *)
Definition delete_child (t : T) (val : string) : T :=
  match get_node t val with
  | Some child => if decide (nstatus child ≠ "Deleted")
                  then set_type (set_status t val "Deleted") val "deleted" else t
  | None => t
  end.

(** Marks the node of a deleted report and everything below it. *)
Definition delete_node (t : T) (n : node) : T :=
  let t := set_type (set_status t (nid n) "Deleted") (nid n) "deleted" in
  foldl delete_child t (children_d t (nid n)).

(** The lines that delete a report; [missing] is what happens without its node. *)
Definition remove (slow : bool) (p : processor) (rid : option string) (missing : verdict)
    (rt ad ex : string) : processor * verdict :=
  if decide (rid ∈ report_ids p) then
    match get_tree_node p rid with
    | Some n =>
        let p := set_tree (delete_node (tree p) n) p in
        (callback slow (get_node (tree p) (nid n)) true p, Shown rt ad rid ex)
    | None => (p, missing)
    end
  else (p, Refused).

(** The lines that move a report below another one. *)
Definition move (slow : bool) (p : processor) (rid par : option string) (rt ad ex : string)
    : processor * verdict :=
  if decide (rid ∈ report_ids p) then
    match get_tree_node p rid with
    | Some n =>
        (match move_node (tree p) (nid n) par with
         | Some t => callback slow (Some n) true (set_tree t p)
         | None => p
         end, Shown rt ad rid ex)
    | None => (p, Refused)
    end
  else (p, Refused).

Definition start_steps (slow : bool) (ty : string) (data : list string) (p : processor)
    : option (processor * verdict) :=
  let a := λ k, show (arg data k) in
  if decide (ty = "S0") then Some (p, Shown "Start" "Uploading attributes" None ("ID: " +:+ a 0))
  else if decide (ty = "S1") then
    Some (cache_name data p,
          Shown "Start" "Creating report" None
            ("Component: " +:+ a 0 +:+ "; Parent ID: " +:+ a 2 +:+ "; ID: " +:+ a 1))
  else if decide (ty = "S2") then
    Some (create slow p (if decide (arg data 2 = Some "NULL") then Some "#0" else Some (a 2)) (arg data 0)
            (Node (new_id p data) "component" (cached_name p (arg data 1)) (arg data 0) (arg data 1) "In progress")
            "Start" "Report was created" ("Parent PK: " +:+ a 2 +:+ "; ID: " +:+ a 1))
  else if decide (ty = "S3") then Some (mention slow p (arg data 0) "Start" "Cache was updated" "-")
  else None.

Definition verstart_steps (slow : bool) (ty : string) (data : list string) (p : processor)
    : option (processor * verdict) :=
  let a := λ k, show (arg data k) in
  if decide (ty = "SV0") then Some (p, Shown "VerStart" "Preparing data" None ("ID: " +:+ a 0))
  else if decide (ty = "SV1") then
    Some (cache_name data p,
          Shown "VerStart" "Creating report" None
            ("Component: " +:+ a 0 +:+ "; Parent: " +:+ a 2 +:+ "; ID: " +:+ a 1))
  else if decide (ty = "SV2") then
    Some (create slow p (Some (a 2)) (arg data 0)
            (Node (new_id p data) "verification" (cached_name p (arg data 1)) (arg data 0) (arg data 1) "In progress")
            "VerStart" "Report was created" ("Parent PK: " +:+ a 2 +:+ "; ID: " +:+ a 1))
  else if decide (ty = "SV3") then Some (mention slow p (arg data 0) "VerStart" "Cache was updated" "-")
  else None.

Definition coverage_steps (slow : bool) (ty : string) (data : list string) (p : processor)
    : option (processor * verdict) :=
  let a := λ k, show (arg data k) in
  if decide (ty = "C0") then Some (p, Shown "Coverage" "Searching for report" None ("ID: " +:+ a 0))
  else if decide (ty = "C1") then
    Some (mention slow p (arg data 0) "Coverage" "Report was found" ("ID: " +:+ a 1))
  else if decide (ty = "C2") then Some (mention slow p (arg data 0) "Coverage" "Coverage was saved" "-")
  else None.

Definition patch_steps (slow : bool) (ty : string) (data : list string) (p : processor)
    : option (processor * verdict) :=
  let a := λ k, show (arg data k) in
  if decide (ty = "P0") then Some (p, Shown "Patch" "Searching for report" None ("ID: " +:+ a 0))
  else if decide (ty = "P1") then
    Some (mention slow p (arg data 0) "Patch" "Report was found" ("ID: " +:+ a 1))
  else if decide (ty = "P2") then Some (mention slow p (arg data 0) "Patch" "Report was updated" "-")
  else if decide (ty = "P3") then Some (mention slow p (arg data 0) "Patch" "Core sources are updated" "-")
  else None.

Definition finish_steps (slow : bool) (ty : string) (data : list string) (p : processor)
    : option (processor * verdict) :=
  let a := λ k, show (arg data k) in
  if decide (ty = "F0") then Some (p, Shown "Finish" "Searching for report" None ("ID: " +:+ a 0))
  else if decide (ty = "F1") then
    Some (mention slow p (arg data 0) "Finish" "Report was found" ("ID: " +:+ a 1))
  else if decide (ty = "F2") then Some (finish slow p (arg data 0) "Finish" "Report was updated" "-")
  else if decide (ty = "F3") then Some (mention slow p (arg data 0) "Finish" "Cache was updated" "-")
  else if decide (ty = "F4") then Some (remove slow p (arg data 0) Refused "Finish" "Deleting report" "-")
  else None.

(** [FV2] writes the status before it tests that the node exists. *)
Definition verfinish_steps (slow : bool) (ty : string) (data : list string) (p : processor)
    : option (processor * verdict) :=
  let a := λ k, show (arg data k) in
  if decide (ty = "FV0") then Some (p, Shown "VerFinish" "Searching for report" None ("ID: " +:+ a 0))
  else if decide (ty = "FV1") then
    Some (mention slow p (arg data 0) "VerFinish" "Report was found" ("ID: " +:+ a 1))
  else if decide (ty = "FV2") then
    Some (remove slow p (arg data 0) Crashed "VerFinish" "Deleting report" "-")
  else if decide (ty = "FV3") then
    Some (move slow p (arg data 0) (arg data 1) "VerFinish" "Report parent was changed"
            ("New parent PK: " +:+ a 1))
  else if decide (ty = "FV4") then Some (finish slow p (arg data 0) "VerFinish" "Report was updated" "-")
  else if decide (ty = "FV5") then Some (mention slow p (arg data 0) "VerFinish" "Cache was updated" "-")
  else None.

Definition leaf_node (p : processor) (ty text : string) (data : list string) : node :=
  Node (new_id p data) ty text (arg data 0) (Some "-") "Created".

Definition unknown_steps (slow : bool) (ty : string) (data : list string) (p : processor)
    : option (processor * verdict) :=
  let a := λ k, show (arg data k) in
  if decide (ty = "UN0") then Some (p, Shown "Unknown" "Creating report" None ("Parent ID: " +:+ a 0))
  else if decide (ty = "UN1") then
    Some (create slow p (arg data 1) (arg data 0) (leaf_node p "unknown" "Unknown" data)
            "Unknown" "Report was created" ("Parent PK: " +:+ a 1))
  else if decide (ty = "UN2") then
    Some (move slow p (arg data 0) (arg data 1) "Unknown" "Parent was changed" ("New parent PK: " +:+ a 1))
  else if decide (ty = "UN3") then Some (mention slow p (arg data 0) "Unknown" "Cache was updated" "-")
  else None.

Definition safe_steps (slow : bool) (ty : string) (data : list string) (p : processor)
    : option (processor * verdict) :=
  let a := λ k, show (arg data k) in
  if decide (ty = "SF0") then Some (p, Shown "Safe" "Creating report" None ("Parent ID: " +:+ a 0))
  else if decide (ty = "SF1") then
    Some (create slow p (arg data 1) (arg data 0) (leaf_node p "safe" "Safe" data)
            "Safe" "Report was created" ("Parent PK: " +:+ a 1))
  else if decide (ty = "SF2") then Some (mention slow p (arg data 0) "Safe" "Cache was updated" "-")
  else None.

Definition unsafe_steps (slow : bool) (ty : string) (data : list string) (p : processor)
    : option (processor * verdict) :=
  let a := λ k, show (arg data k) in
  if decide (ty = "UF0") then Some (p, Shown "Unsafe" "Creating report" None ("Parent ID: " +:+ a 0))
  else if decide (ty = "UF1") then
    Some (create slow p (arg data 1) (arg data 0) (leaf_node p "unsafe" "Unsafe" data)
            "Unsafe" "Report was created" ("Parent PK: " +:+ a 1))
  else if decide (ty = "UF2") then Some (mention slow p (arg data 0) "Unsafe" "Cache was updated" "-")
  else None.

(** The [switch]; an unknown type is refused. *)
Definition steps_of (slow : bool) (ty : string) (data : list string) (p : processor)
    : processor * verdict :=
  default (p, Refused)
    (foldr (λ f r, match f slow ty data p with Some x => Some x | None => r end) None
       [start_steps; verstart_steps; coverage_steps; patch_steps; finish_steps; verfinish_steps;
        unknown_steps; safe_steps; unsafe_steps]).

(** [process_log_step]: the row of the step is put in front of the table. *)
Definition make_row (time rt ad : string) (rid : option string) (ex : string) : row :=
  Row time rt ad (if truthy rid then rid else None) ex.

Inductive result := Returned (b : bool) | TypeError.

Definition process_log_step (slow : bool) (l : line) (p : processor) : processor * result :=
  match steps_of slow (ltype l) (ltext l) p with
  | (p, Shown rt ad rid ex) =>
      (set_table (make_row (ltime l) rt ad rid ex :: table_body p) (table_rows_number p) p, Returned true)
  | (p, Refused) => (p, Returned false)
  | (p, Crashed) => (p, TypeError)
  end.

(** [refresh()]; a tree without its root node is a TypeError, after the table, the cursor
    and the ids have been cleared. *)
Definition refresh (p : processor) : processor * result :=
  match get_node (tree p) "#0" with
  | None =>
      (Processor (tree p) (sel_node_id p) (content p) (container p) (name_cache p) Unset [] 0 ∅, TypeError)
  | Some r =>
      (Processor (refresh_tree (tree p) (Node "#0" "root" (ntext r) None None ""))
         None (content p) (container p) [] Unset [] 0 ∅, Returned true)
  end.

(** ** Stepping through the log *)

(** [.next()] and [.prev()] of the current line, [.first()] of the container. *)
Definition at_index (log : list line) (i : nat) : cursor :=
  if decide (i < length log) then At i else Nowhere.
Definition cursor_next (log : list line) (c : cursor) : cursor :=
  match c with Unset => at_index log 0 | At i => at_index log (S i) | Nowhere => Nowhere end.
Definition cursor_prev (c : cursor) : cursor :=
  match c with At (S i) => At i | _ => Nowhere end.

Definition get_next_line (speed : Z) (p : processor) : processor * result :=
  let p := set_cursor (cursor_next (container p) (current_log_line p)) p in
  match current_log_line p with
  | At i =>
      match container p !! i with
      | Some l =>
          match process_log_step (bool_decide (speed ≤ 2)%Z) l p with
          | (p, Returned true) =>
              (if decide (20 < table_rows_number p)
               then set_table (take (pred (length (table_body p))) (table_body p)) (table_rows_number p) p
               else set_table (table_body p) (S (table_rows_number p)) p, Returned true)
          | (p, Returned false) => (set_cursor (cursor_prev (current_log_line p)) p, Returned false)
          | (p, TypeError) => (p, TypeError)
          end
      | None => (p, Returned false)
      end
  | _ => (p, Returned false)
  end.

(** ** Kinds of lines *)

(** What a line does to the reports, by its type. *)
Inductive kind := Note | Naming | Creating | Mentioning | Finishing | Deleting | Moving.

#[global] Instance kind_eq_dec : EqDecision kind.
Proof. solve_decision. Defined.

Definition kinds : list (kind * list string) :=
  [(Note, ["S0"; "SV0"; "C0"; "P0"; "F0"; "FV0"; "UN0"; "SF0"; "UF0"]);
   (Naming, ["S1"; "SV1"]);
   (Creating, ["S2"; "SV2"; "UN1"; "SF1"; "UF1"]);
   (Mentioning, ["S3"; "SV3"; "C1"; "C2"; "P1"; "P2"; "P3"; "F1"; "F3"; "FV1"; "FV5"; "UN3"; "SF2"; "UF2"]);
   (Finishing, ["F2"; "FV4"]);
   (Deleting, ["F4"; "FV2"]);
   (Moving, ["FV3"; "UN2"])].

Definition kind_of (ty : string) : option kind :=
  fst <$> find (λ e, js_includes ty e.2) kinds.

(** The report a line links to: the one it names by its first text. *)
Definition linked (ty : string) (data : list string) : option string :=
  match kind_of ty with
  | Some Note | Some Naming | None => None
  | _ => arg data 0
  end.

(** A step neither moves the cursor nor touches the table or the log. *)
Record quiet (p p' : processor) : Prop := {
  quiet_table : table_body p' = table_body p;
  quiet_number : table_rows_number p' = table_rows_number p;
  quiet_container : container p' = container p;
  quiet_cursor : current_log_line p' = current_log_line p
}.

Lemma quiet_refl p : quiet p p.
Proof. done. Qed.
Lemma quiet_callback slow n force p q : quiet p q → quiet p (callback slow n force q).
Proof. intros [? ? ? ?]. unfold callback. by repeat case_match; split. Qed.
Lemma quiet_set_tree t p : quiet p (set_tree t p).
Proof. done. Qed.
Lemma quiet_add i t p : quiet p (set_tree t (add_report_id i p)).
Proof. done. Qed.
#[local] Hint Resolve quiet_refl quiet_callback quiet_set_tree quiet_add : js.

(** The outcome of a step of each kind. *)
Inductive outcome (ids : gset (option string)) (rid : option string) : option kind → processor → verdict → Prop :=
| o_note k p rt ad ex : k = Note ∨ k = Naming → report_ids p = ids → outcome ids rid (Some k) p (Shown rt ad None ex)
| o_created p rt ad ex : report_ids p = {[rid]} ∪ ids → outcome ids rid (Some Creating) p (Shown rt ad rid ex)
| o_not_created p : report_ids p = {[rid]} ∪ ids → outcome ids rid (Some Creating) p Refused
| o_shown k p rt ad ex :
    k ∈ [Mentioning; Finishing; Deleting; Moving] → rid ∈ ids → report_ids p = ids →
    outcome ids rid (Some k) p (Shown rt ad rid ex)
| o_new k p :
    k ∈ [Mentioning; Finishing; Deleting; Moving] → rid ∉ ids → report_ids p = ids →
    outcome ids rid (Some k) p Refused
| o_missing k p v :
    k ∈ [Finishing; Deleting; Moving] → rid ∈ ids → v = Refused ∨ v = Crashed → report_ids p = ids →
    outcome ids rid (Some k) p v
| o_unknown p : report_ids p = ids → outcome ids rid None p Refused.

Lemma callback_ids slow n force p : report_ids (callback slow n force p) = report_ids p.
Proof. unfold callback. by repeat case_match. Qed.

Lemma mention_ok slow p rid rt ad ex :
  quiet p (mention slow p rid rt ad ex).1 ∧
  outcome (report_ids p) rid (Some Mentioning) (mention slow p rid rt ad ex).1 (mention slow p rid rt ad ex).2.
Proof.
  unfold mention. case_decide; simpl; (split; [auto with js|]).
  - apply o_shown; [set_solver|done|apply callback_ids].
  - by apply o_new; [set_solver|..].
Qed.

Lemma create_ok slow p par rid n rt ad ex :
  quiet p (create slow p par rid n rt ad ex).1 ∧
  outcome (report_ids p) rid (Some Creating) (create slow p par rid n rt ad ex).1
    (create slow p par rid n rt ad ex).2.
Proof.
  unfold create. cbv zeta. destruct (create_node _ _ _); simpl; (split; [auto with js|]).
  - apply o_created. by rewrite callback_ids.
  - done.
  - by apply o_not_created.
Qed.

Lemma finish_ok slow p rid rt ad ex :
  quiet p (finish slow p rid rt ad ex).1 ∧
  outcome (report_ids p) rid (Some Finishing) (finish slow p rid rt ad ex).1 (finish slow p rid rt ad ex).2.
Proof.
  unfold finish. case_decide; [|by split; [|apply o_new; [set_solver|..]]].
  destruct (get_tree_node p rid); simpl; (split; [auto with js|]).
  - apply o_shown; [set_solver|done|]. by rewrite callback_ids.
  - by apply o_missing; [set_solver|done|left|].
Qed.

Lemma remove_ok slow p rid v rt ad ex :
  v = Refused ∨ v = Crashed →
  quiet p (remove slow p rid v rt ad ex).1 ∧
  outcome (report_ids p) rid (Some Deleting) (remove slow p rid v rt ad ex).1 (remove slow p rid v rt ad ex).2.
Proof.
  intros Hv. unfold remove. case_decide; [|by split; [|apply o_new; [set_solver|..]]].
  destruct (get_tree_node p rid); simpl; (split; [auto with js|]).
  - apply o_shown; [set_solver|done|]. by rewrite callback_ids.
  - by apply o_missing; [set_solver|..].
Qed.

Lemma move_ok slow p rid par rt ad ex :
  quiet p (move slow p rid par rt ad ex).1 ∧
  outcome (report_ids p) rid (Some Moving) (move slow p rid par rt ad ex).1 (move slow p rid par rt ad ex).2.
Proof.
  unfold move. case_decide; [|by split; [|apply o_new; [set_solver|..]]].
  destruct (get_tree_node p rid); simpl; [|split; [done|by apply o_missing; [set_solver|done|left|]]].
  destruct (move_node _ _ _); simpl; (split; [auto with js|]); apply o_shown;
    rewrite ?callback_ids; set_solver || done.
Qed.

#[local] Hint Resolve mention_ok create_ok finish_ok remove_ok move_ok : js.

Lemma note_ok p p' rid rt ad ex k :
  quiet p p' → report_ids p' = report_ids p → k = Note ∨ k = Naming →
  quiet p p' ∧ outcome (report_ids p) rid (Some k) p' (Shown rt ad None ex).
Proof. intros. split; [done|]. by apply o_note. Qed.

(** Every line ends in the outcome of its kind. *)
Lemma steps_of_ok slow ty data p :
  quiet p (steps_of slow ty data p).1 ∧
  outcome (report_ids p) (arg data 0) (kind_of ty) (steps_of slow ty data p).1 (steps_of slow ty data p).2.
Proof.
  unfold steps_of, start_steps, verstart_steps, coverage_steps, patch_steps, finish_steps,
    verfinish_steps, unknown_steps, safe_steps, unsafe_steps. cbn [foldr].
  repeat match goal with
  | |- context [decide (ty = ?s)] =>
      destruct (decide (ty = s)) as [->|]; [
        change (kind_of s) with (ltac:(let k := eval vm_compute in (kind_of s) in exact k));
        cbn [default fst snd];
        first [apply mention_ok|apply create_ok|apply finish_ok|apply remove_ok; tauto|apply move_ok
              |apply note_ok; [by split|done|tauto]] |]
  end.
  simpl. split; [done|]. replace (kind_of ty) with (@None kind); [by constructor|].
  unfold kind_of. symmetry. apply fmap_None. unfold kinds.
  repeat (cbn [find fst snd]; rewrite (proj2 (js_includes_false _ _))
    by (repeat (rewrite not_elem_of_cons; split; [done|]); apply not_elem_of_nil)). done.
Qed.

(** ** Replaying a log *)

(** The row shows the time of the line and links to its report. *)
Definition row_ok (l : line) (r : row) : Prop :=
  rtime r = ltime l ∧
  rreport r = if truthy (linked (ltype l) (ltext l)) then linked (ltype l) (ltext l) else None.

(** The report ids a line introduces. *)
Definition introduces (l : line) : gset (option string) :=
  if decide (kind_of (ltype l) = Some Creating) then {[arg (ltext l) 0]} else ∅.
Definition introduced (ls : list line) : gset (option string) := ⋃ (introduces <$> ls).

(** The lines that need a report created before. *)
Definition needs_report (l : line) : Prop :=
  ∃ k, kind_of (ltype l) = Some k ∧ k ∈ [Mentioning; Finishing; Deleting; Moving].

Lemma process_true slow l p p' :
  process_log_step slow l p = (p', Returned true) →
  ∃ r, row_ok l r ∧ table_body p' = r :: table_body p ∧ table_rows_number p' = table_rows_number p ∧
    container p' = container p ∧ current_log_line p' = current_log_line p ∧
    report_ids p' = introduces l ∪ report_ids p ∧
    (needs_report l → arg (ltext l) 0 ∈ report_ids p).
Proof.
  unfold process_log_step. destruct (steps_of_ok slow (ltype l) (ltext l) p) as [Hq Ho].
  destruct (steps_of slow (ltype l) (ltext l) p) as [q v]. simpl in *.
  destruct v as [rt ad rid ex| |]; intros [= <-]. destruct Hq as [H1 H2 H3 H4].
  exists (make_row (ltime l) rt ad rid ex). simpl.
  assert (rid = linked (ltype l) (ltext l) ∧ report_ids q = introduces l ∪ report_ids p ∧
          (needs_report l → arg (ltext l) 0 ∈ report_ids p)) as (-> & Hids & Hneed).
  { unfold linked, introduces, needs_report. inversion Ho as [k ? ? ? ? Hk Hi Hk'|? ? ? ? Hi Hk'| |k ? ? ? ? Hk Hr Hi Hk'| |k ? ? Hk Hr Hv Hi Hk'|];
      subst; rewrite <-?Hk'.
    - destruct Hk as [-> | ->]; rewrite decide_False by done;
        (split_and!; [done|set_solver|]); intros (k & [= <-] & ?); set_solver.
    - rewrite decide_True by done. split_and!; [done..|]. intros (k & [= <-] & ?). set_solver.
    - assert (k ≠ Creating ∧ k ≠ Note ∧ k ≠ Naming) as (? & ? & ?) by set_solver.
      rewrite decide_False by congruence. split_and!; [by destruct k|set_solver|done].
    - by destruct Hv. }
  split_and!; [by split|by rewrite H1|done..].
Qed.

Lemma process_false slow l p p' r :
  process_log_step slow l p = (p', r) → r ≠ Returned true → quiet p p'.
Proof.
  unfold process_log_step. destruct (steps_of_ok slow (ltype l) (ltext l) p) as [Hq _].
  destruct (steps_of slow (ltype l) (ltext l) p) as [q v]. simpl in *.
  by destruct v; intros [= <- <-].
Qed.

(** A processor that has shown the first [n] lines of its log. *)
Record shows (n : nat) (p : processor) : Prop := {
  shows_cursor : current_log_line p = match n with 0 => Unset | S i => At i end;
  shows_bound : n ≤ length (container p);
  shows_number : table_rows_number p = length (table_body p);
  shows_rows : Forall2 row_ok (take 21 (reverse (take n (container p)))) (table_body p);
  shows_ids : report_ids p = introduced (take n (container p));
  shows_needs : ∀ i l, i < n → container p !! i = Some l → needs_report l →
    arg (ltext l) 0 ∈ introduced (take i (container p))
}.

Lemma next_of_shown n p :
  shows n p → cursor_next (container p) (current_log_line p) = at_index (container p) n.
Proof. intros Hs. rewrite (shows_cursor _ _ Hs). by destruct n. Qed.

Lemma introduced_snoc ls l : introduced (ls ++ [l]) = introduces l ∪ introduced ls.
Proof. unfold introduced. rewrite fmap_app, union_list_app_L. simpl. set_solver. Qed.

Lemma shows_step n p p' l r :
  shows n p → container p !! n = Some l → row_ok l r →
  current_log_line p' = At n → container p' = container p →
  table_rows_number p' = length (table_body p') → table_body p' = take 21 (r :: table_body p) →
  report_ids p' = introduces l ∪ report_ids p →
  (needs_report l → arg (ltext l) 0 ∈ report_ids p) → shows (S n) p'.
Proof.
  intros [C1 B1 N1 R1 I1 M1] Hl Hr Hc Hcont Hn Hb Hi Hneed. split; rewrite ?Hcont; try done.
  - apply lookup_lt_Some in Hl. lia.
  - rewrite Hb, (take_S_r _ _ _ Hl), reverse_app. simpl.
    apply Forall2_cons. split; [done|].
    replace 20 with (20 `min` 21) by done. rewrite <-take_take. by apply Forall2_take.
  - by rewrite Hi, I1, (take_S_r _ _ _ Hl), introduced_snoc.
  - intros i l' Hlt Hl' Hn'. destruct (decide (i = n)) as [->|Hne].
    + simplify_eq. rewrite <-I1. auto.
    + apply (M1 i l'); auto. lia.
Qed.

Lemma shows_table_bound n p : shows n p → length (table_body p) ≤ 21.
Proof.
  intros Hs. rewrite <-(Forall2_length _ _ _ (shows_rows _ _ Hs)), length_take. lia.
Qed.

(** One successful step shows one more line. *)
Lemma next_line_true speed n p p' :
  shows n p → get_next_line speed p = (p', Returned true) → shows (S n) p'.
Proof.
  intros Hs. unfold get_next_line. cbv zeta. cbn [current_log_line set_cursor container].
  rewrite (next_of_shown n p Hs). unfold at_index. case_decide as Hlt; [|by intros [=]].
  destruct (lookup_lt_is_Some_2 _ _ Hlt) as [l Hl]. rewrite Hl.
  destruct (process_log_step _ l _) as [q r] eqn:Hq. destruct r as [[]|]; [|by intros [=]..].
  destruct (process_true _ _ _ _ Hq) as (r & Hr & T1 & N1 & C1 & L1 & I1 & M1). simpl in *.
  pose proof (shows_table_bound n p Hs) as Hb. pose proof (shows_number n p Hs) as Hn.
  intros [= <-]. rewrite N1. destruct (decide (20 < table_rows_number p)) as [Hd|Hd].
  - assert (length (table_body p) = 21) as H21 by lia.
    apply (shows_step n p _ l r); simpl; try done; rewrite ?N1, ?T1; simpl; rewrite H21; simpl.
    + rewrite length_take. lia.
    + done.
  - apply (shows_step n p _ l r); simpl; try done; rewrite ?N1, ?T1; [simpl; lia|].
    rewrite take_ge; [done|]. simpl. lia.
Qed.

(** A refused line leaves the table as it is and is tried again by the next call. *)
Lemma next_line_false speed n p p' :
  shows (S n) p → get_next_line speed p = (p', Returned false) →
  table_body p' = table_body p ∧ table_rows_number p' = table_rows_number p ∧
  container p' = container p ∧
  (current_log_line p' = current_log_line p ∨ (S n = length (container p) ∧ current_log_line p' = Nowhere)).
Proof.
  intros Hs. unfold get_next_line. cbv zeta. cbn [current_log_line set_cursor container].
  rewrite (next_of_shown _ p Hs). pose proof (shows_bound _ _ Hs) as Hb.
  unfold at_index. case_decide as Hlt; [|intros [= <-]; simpl; split_and!; try done; right; split; [lia|done]].
  destruct (lookup_lt_is_Some_2 _ _ Hlt) as [l Hl]. rewrite Hl.
  destruct (process_log_step _ l _) as [q r] eqn:Hq. destruct r as [[]|]; [by intros [=]| |by intros [=]].
  apply process_false in Hq; [|done]. destruct Hq as [H1 H2 H3 H4]. simpl in *.
  intros [= <-]. simpl. rewrite H4. split_and!; try done. left. by rewrite (shows_cursor _ _ Hs).
Qed.

(** Pressing the button (or the timer firing) once for each speed, until a step fails. *)
Fixpoint play (speeds : list Z) (p : processor) : processor * bool :=
  match speeds with
  | [] => (p, true)
  | sp :: speeds =>
      match get_next_line sp p with
      | (p, Returned true) => play speeds p
      | (p, _) => (p, false)
      end
  end.

Lemma play_shows speeds n p p' :
  shows n p → play speeds p = (p', true) → shows (n + length speeds) p'.
Proof.
  revert n p. induction speeds as [|sp speeds IH]; intros n p Hs; simpl.
  - intros [= <-]. by rewrite Nat.add_0_r.
  - destruct (get_next_line sp p) as [q r] eqn:Hq. destruct r as [[]|]; try by intros [=].
    intros Hp. rewrite Nat.add_succ_r, <-Nat.add_succ_l. eapply IH; [|exact Hp]. by eapply next_line_true.
Qed.

(** A processor whose log was just filled in. *)
Definition loaded (t : T) (log : list line) : processor := (fill_log_data log (new_LogProcessor t)).1.

Lemma loaded_shows t log : shows 0 (loaded t log).
Proof.
  split; try done; [simpl; lia|intros i l Hi; lia].
Qed.

Lemma play_container speeds n p p' :
  shows n p → play speeds p = (p', true) → container p' = container p.
Proof.
  revert n p. induction speeds as [|sp speeds IH]; intros n p Hs; simpl; [by intros [= <-]|].
  destruct (get_next_line sp p) as [q r] eqn:Hq. destruct r as [[]|]; try by intros [=].
  intros Hp. rewrite (IH (S n) q) by (done || by eapply next_line_true).
  revert Hq. unfold get_next_line. cbv zeta. cbn [current_log_line set_cursor container].
  rewrite (next_of_shown n p Hs). unfold at_index. case_decide as Hlt; [|by intros [=]].
  destruct (lookup_lt_is_Some_2 _ _ Hlt) as [l Hl]. rewrite Hl.
  destruct (process_log_step _ l _) as [q' r] eqn:Hq. destruct r as [[]|]; [|by intros [=]..].
  destruct (process_true _ _ _ _ Hq) as (r & _ & _ & _ & C1 & _). intros [= <-]. simpl in *.
  by destruct (decide (20 < table_rows_number q')).
Qed.

(** C25: After the first [n] lines of a log were replayed, at whatever speeds, the cursor
    is at the last of them, the table has one row for each of the last 21 of them (the
    latest on top) with its time and its report, and the counter is the number of rows. *)
Theorem replay_table t log speeds p :
  play speeds (loaded t log) = (p, true) →
  let n := length speeds in
  n ≤ length log ∧
  current_log_line p = match n with 0 => Unset | S i => At i end ∧
  Forall2 row_ok (take 21 (reverse (take n log))) (table_body p) ∧
  table_rows_number p = length (table_body p).
Proof.
  intros Hp. pose proof (play_shows _ _ _ _ (loaded_shows t log) Hp) as [H1 H2 H3 H4 _ _].
  rewrite (play_container _ _ _ _ (loaded_shows t log) Hp) in *. by split_and!.
Qed.

(** The replay knows exactly the reports the lines so far have introduced, and a line
    that finishes, deletes, moves or mentions a report is only accepted when an earlier
    line introduced it. *)
Theorem replay_reports t log speeds p :
  play speeds (loaded t log) = (p, true) →
  report_ids p = introduced (take (length speeds) log) ∧
  ∀ i l, i < length speeds → log !! i = Some l → needs_report l →
    arg (ltext l) 0 ∈ introduced (take i log).
Proof.
  intros Hp. pose proof (play_shows _ _ _ _ (loaded_shows t log) Hp) as [_ _ _ _ H5 H6].
  rewrite (play_container _ _ _ _ (loaded_shows t log) Hp) in *. by split.
Qed.

(** A line the replay refuses after at least one accepted line leaves the table and
    the cursor as they were, so that the next step tries it again; the only other way to
    stop there is the end of the log. *)
Theorem refused_line_retried t log speeds speed p p' :
  0 < length speeds → play speeds (loaded t log) = (p, true) →
  get_next_line speed p = (p', Returned false) →
  table_body p' = table_body p ∧ table_rows_number p' = table_rows_number p ∧
  (current_log_line p' = current_log_line p ∨
   (length speeds = length log ∧ current_log_line p' = Nowhere)).
Proof.
  intros Hlen Hp Hf. pose proof (play_shows _ _ _ _ (loaded_shows t log) Hp) as Hs.
  pose proof (play_container _ _ _ _ (loaded_shows t log) Hp) as Hc. simpl in Hs.
  destruct (length speeds) as [|n]; [lia|].
  destruct (next_line_false speed n p p' Hs Hf) as (H1 & H2 & _ & H3). rewrite Hc in H3. by split_and!.
Qed.

(** ** Deleting reports *)

Section Laws.
Context `{!JsTreeLaws T}.

(** What [delete_child] makes of a node. *)
Definition del (n : node) : node :=
  if decide (nstatus n = "Deleted") then n else with_type "deleted" (with_status "Deleted" n).

Lemma del_status n : nstatus (del n) = "Deleted".
Proof. unfold del. by case_decide. Qed.
Lemma del_idemp n : del (del n) = del n.
Proof. unfold del at 1. by rewrite decide_True by apply del_status. Qed.

Lemma get_delete_child t x y :
  get_node (delete_child t x) y = if decide (y = x) then del <$> get_node t y else get_node t y.
Proof.
  unfold delete_child, del. destruct (get_node t x) as [c|] eqn:Hc.
  - case_decide as Hs.
    + rewrite get_set_type, get_set_status. case_decide; subst.
      * rewrite Hc. simpl. rewrite decide_False by done. done.
      * by destruct (get_node t y).
    + case_decide; subst; [|done]. rewrite Hc. simpl. rewrite decide_True; [done|].
      by destruct (decide (nstatus c = "Deleted")).
  - case_decide; subst; [by rewrite Hc|done].
Qed.

Lemma get_delete_children l t y :
  get_node (foldl delete_child t l) y = if decide (y ∈ l) then del <$> get_node t y else get_node t y.
Proof.
  revert t. induction l as [|x l IH]; intros t; simpl; [done|].
  rewrite IH, get_delete_child.
  destruct (decide (y = x)) as [->|Hne], (decide (_ ∈ l)).
  - rewrite decide_True by by left. destruct (get_node t x); simpl; [by rewrite del_idemp|done].
  - by rewrite decide_True by by left.
  - by rewrite decide_True by by right.
  - by rewrite decide_False by by intros [?|?]%elem_of_cons.
Qed.

Lemma get_delete_node t n y :
  get_node t (nid n) = Some n →
  get_node (delete_node t n) y =
  if decide (y = nid n) then Some (with_type "deleted" (with_status "Deleted" n))
  else if decide (y ∈ children_d t (nid n)) then del <$> get_node t y else get_node t y.
Proof.
  intros Hn. unfold delete_node. cbv zeta. rewrite get_delete_children, children_set_type, children_set_status.
  rewrite get_set_type, get_set_status. destruct (decide (y = nid n)) as [->|Hne].
  - rewrite Hn. simpl. by destruct (decide (nid n ∈ _)).
  - by destruct (decide (y ∈ _)), (get_node t y).
Qed.

(** The lines that delete a report of either kind. *)
Definition deletes (l : line) : Prop := ltype l = "F4" ∨ ltype l = "FV2".

Lemma process_delete slow l p :
  deletes l →
  process_log_step slow l p =
  match remove slow p (arg (ltext l) 0) (if decide (ltype l = "F4") then Refused else Crashed)
          (if decide (ltype l = "F4") then "Finish" else "VerFinish") "Deleting report" "-" with
  | (p, Shown rt ad rid ex) =>
      (set_table (make_row (ltime l) rt ad rid ex :: table_body p) (table_rows_number p) p, Returned true)
  | (p, Refused) => (p, Returned false)
  | (p, Crashed) => (p, TypeError)
  end.
Proof. intros [E|E]; unfold process_log_step; rewrite E; reflexivity. Qed.

Lemma callback_tree slow n force p : tree (callback slow n force p) = tree p.
Proof. unfold callback. by repeat case_match. Qed.

(** A line that deletes a report, when it is accepted, marks the node of the report
    and every node below it as deleted and changes no other node. *)
Theorem delete_marks_subtree slow l p p' :
  deletes l → process_log_step slow l p = (p', Returned true) →
  let x := show (arg (ltext l) 0) in
  is_Some (get_node (tree p) x) ∧
  (∀ y, y = x ∨ y ∈ children_d (tree p) x →
     ∃ n, get_node (tree p') y = Some n ∧ nstatus n = "Deleted") ∧
  (∀ y, y ≠ x → y ∉ children_d (tree p) x → get_node (tree p') y = get_node (tree p) y).
Proof.
  intros Hd. rewrite process_delete by done. unfold remove, get_tree_node.
  set (rid := arg (ltext l) 0). case_decide; [|by intros [=]].
  destruct (get_node (tree p) (show rid)) as [n|] eqn:Hn; [|by destruct (decide (ltype l = "F4")); intros [=]].
  pose proof (get_node_id _ _ _ Hn) as Hid. intros [= <-]. simpl. rewrite callback_tree. simpl.
  rewrite <-Hid in *. split_and!; [done|..].
  - intros y Hy. rewrite get_delete_node by done. destruct (decide (y = nid n)) as [->|Hne].
    + eexists. by split.
    + destruct Hy as [|Hy]; [done|]. rewrite decide_True by done.
      destruct (children_known _ _ _ Hy) as [c Hc]. rewrite Hc. exists (del c).
      split; [done|apply del_status].
  - intros y Hne Hy. rewrite get_delete_node by done. by rewrite !decide_False.
Qed.

(** When a report id is known but its node is not in the tree, the line that deletes
    a report is refused, while the line that deletes a verification report raises a
    TypeError: it writes to the node before it tests that there is one. *)
Theorem delete_missing_node slow l p :
  deletes l → arg (ltext l) 0 ∈ report_ids p → get_node (tree p) (show (arg (ltext l) 0)) = None →
  process_log_step slow l p =
    (p, if decide (ltype l = "F4") then Returned false else TypeError).
Proof.
  intros Hd Hin Hn. rewrite process_delete by done. unfold remove, get_tree_node.
  rewrite decide_True, Hn by done. by destruct (decide (ltype l = "F4")).
Qed.

End Laws.

(** ** The first line and the end of the log *)

Lemma nowhere_stays speed p :
  current_log_line p = Nowhere →
  (get_next_line speed p).2 = Returned false ∧ current_log_line (get_next_line speed p).1 = Nowhere ∧
  container (get_next_line speed p).1 = container p.
Proof. intros Hc. unfold get_next_line. cbv zeta. simpl. by rewrite Hc. Qed.

(** When the first line of a log is refused, the cursor becomes an empty set: from then
    on every step reports the end of the log, and the line is never tried again, although
    a refused line further down is. *)
Theorem first_line_refused_is_final t log speed p speeds :
  0 < length log → get_next_line speed (loaded t log) = (p, Returned false) →
  current_log_line p = Nowhere ∧
  ∀ sp, (get_next_line sp (foldl (λ q s, (get_next_line s q).1) p speeds)).2 = Returned false.
Proof.
  intros Hlen Hf. assert (current_log_line p = Nowhere) as Hc.
  { revert Hf. unfold get_next_line. cbv zeta. simpl. unfold at_index. rewrite decide_True by done.
    simpl. destruct log as [|l log]; [simpl in *; lia|]. simpl.
    destruct (process_log_step _ l _) as [q r] eqn:Hq. destruct r as [[]|]; [by intros [=]| |by intros [=]].
    apply process_false in Hq; [|done]. destruct Hq as [_ _ _ Hcur]. intros [= <-]. simpl. by rewrite Hcur. }
  split; [done|]. clear Hf Hlen. revert p Hc. induction speeds as [|s speeds IH]; intros p Hc sp; simpl.
  - by apply nowhere_stays.
  - apply IH. by apply nowhere_stays.
Qed.

(** C0: Refreshing after any replay gives the processor a fresh log position, table and
    set of reports, keeping the log. *)
Theorem refresh_restarts p p' :
  refresh p = (p', Returned true) →
  current_log_line p' = Unset ∧ table_body p' = [] ∧ table_rows_number p' = 0 ∧ report_ids p' = ∅ ∧
  name_cache p' = [] ∧ sel_node_id p' = None ∧ container p' = container p ∧
  shows 0 p'.
Proof.
  unfold refresh. destruct (get_node (tree p) "#0"); [|by intros [=]]. intros [= <-]. simpl.
  split_and!; [done..|]. split; simpl; try done; [lia|intros; lia].
Qed.

End Processor.
#[global] Arguments processor : clear implicits.

(** ** A tree widget *)

(** A concrete widget that satisfies the laws: nodes by id, each with its parent. Nodes of
    leaf types have no children. *)
Module SimpleTree.

Abbreviation store := (gmap string (node * string)).

Definition with_id (x : string) (n : node) : node :=
  Node x (ntype n) (ntext n) (npk n) (nidentifier n) (nstatus n).

Fixpoint below (n : nat) (parents : gmap string string) (x y : string) : bool :=
  match n, parents !! y with
  | S n, Some p => bool_decide (p = x) || below n parents x p
  | _, _ => false
  end.

Definition leaf (n : node) : bool := js_includes (ntype n) ["safe"; "unsafe"; "unknown"].

#[export] Instance simple : JsTree store := {
  get_node t x := with_id x ∘ fst <$> t !! x;
  children_d t x := filter (λ y, below (size (dom t)) (snd <$> t) x y = true) (elements (dom t));
  create_node t par n :=
    match par ≫= λ p, t !! p with
    | Some (q, _) => if leaf q || bool_decide (is_Some (t !! nid n)) then None
                     else Some (<[nid n := (n, default "#" par)]> t)
    | None => None
    end;
  move_node t x par :=
    match par ≫= λ p, t !! p with
    | Some (q, _) => if leaf q || bool_decide (par = Some x) || below (size (dom t)) (snd <$> t) x (default "#" par)
                     then None else Some (alter (λ e, (e.1, default "#" par)) x t)
    | None => None
    end;
  set_type t x ty := alter (λ e, (with_type ty e.1, e.2)) x t;
  set_status t x s := alter (λ e, (with_status s e.1, e.2)) x t;
  refresh_tree t r := {[nid r := (r, "#")]};
  auto_id t := "j1_" +:+ String.concat "_" (elements (dom t))
}.

Lemma alter_get (t : store) f x :
  (∀ e, (f e).2 = e.2) →
  (snd <$> alter f x t : gmap string string) = snd <$> t ∧ dom (alter f x t) = dom t.
Proof.
  intros Hf. split; [|by apply dom_alter_L]. apply map_eq. intros i. rewrite !lookup_fmap.
  destruct (decide (i = x)) as [->|Hne]; [rewrite lookup_alter_eq|by rewrite lookup_alter_ne].
  destruct (t !! x) as [e|]; simpl; [by rewrite Hf|done].
Qed.

#[export] Instance simple_laws : JsTreeLaws store.
Proof.
  split; simpl.
  - intros t x ty y. case_decide; subst; [rewrite lookup_alter_eq|rewrite lookup_alter_ne by done];
      by destruct (t !! _).
  - intros t x s y. case_decide; subst; [rewrite lookup_alter_eq|rewrite lookup_alter_ne by done];
      by destruct (t !! _).
  - intros t x ty y. destruct (alter_get t (λ e, (with_type ty e.1, e.2)) x) as [-> ->]; done.
  - intros t x s y. destruct (alter_get t (λ e, (with_status s e.1, e.2)) x) as [-> ->]; done.
  - intros t x y [_ [e He]%elem_of_elements%elem_of_dom]%list_elem_of_filter. rewrite He. by eexists.
  - intros t x n. destruct (t !! x); intros [= <-]. done.
  - intros t par n t' y. destruct (par ≫= _) as [[q ?]|]; [|done]. case_match; [done|].
    intros [= <-]. case_decide; subst; [|by rewrite lookup_insert_ne].
    rewrite lookup_insert_eq. simpl. by destruct n.
  - intros t x par t' y. destruct (par ≫= _) as [[q ?]|]; [|done]. case_match; [done|].
    intros [= <-]. destruct (decide (y = x)) as [->|]; [rewrite lookup_alter_eq|by rewrite lookup_alter_ne].
    by destruct (t !! x).
Qed.

Definition fresh : store := {["#0" := (Node "#0" "root" "Decision 1" None None "", "#")]}.

(** A core report, a verification report below it with an unsafe, and the deletion of
    the verification report. *)
Definition sample_log : list line :=
  [Line "1" "S1" ["Core"; "/"; "-"]; Line "2" "S2" ["1"; "/"; "NULL"]; Line "3" "S3" ["1"];
   Line "4" "SV1" ["VTG"; "/v"; "/"]; Line "5" "SV2" ["2"; "/v"; "1"];
   Line "6" "UF1" ["3"; "2"]; Line "7" "FV2" ["2"]].

End SimpleTree.
Import SimpleTree.

Lemma replay_table_witness :
  let p := (play (repeat 5%Z 7) (loaded SimpleTree.fresh sample_log)).1 in
  rtime <$> table_body p = ["7"; "6"; "5"; "4"; "3"; "2"; "1"] ∧
  current_log_line p = At 6.
Proof.
  destruct (replay_table SimpleTree.fresh sample_log (repeat 5%Z 7)
    (play (repeat 5%Z 7) (loaded SimpleTree.fresh sample_log)).1 (pair_of _ _ ltac:(vm_compute; reflexivity))) as (_ & H & _).
  split; [vm_compute; reflexivity|exact H].
Defined.

Lemma replay_reports_witness :
  report_ids (play (repeat 5%Z 7) (loaded SimpleTree.fresh sample_log)).1 =
  {[Some "1"; Some "2"; Some "3"]}.
Proof.
  destruct (replay_reports SimpleTree.fresh sample_log (repeat 5%Z 7)
    (play (repeat 5%Z 7) (loaded SimpleTree.fresh sample_log)).1 (pair_of _ _ ltac:(vm_compute; reflexivity))) as (H & _).
  etransitivity; [exact H|vm_compute; reflexivity].
Defined.

(** The second line names a report nobody has created. *)
Definition bad_log : list line := [Line "1" "S0" ["/"]; Line "2" "S3" ["9"]].

Lemma refused_line_retried_witness :
  let p := (play [5%Z] (loaded SimpleTree.fresh bad_log)).1 in
  let p' := (get_next_line 5 p).1 in
  current_log_line p' = current_log_line p ∧ table_body p' = table_body p.
Proof.
  destruct (refused_line_retried SimpleTree.fresh bad_log [5%Z] 5
    (play [5%Z] (loaded SimpleTree.fresh bad_log)).1
    (get_next_line 5 (play [5%Z] (loaded SimpleTree.fresh bad_log)).1).1
    ltac:(simpl; lia) (pair_of _ _ ltac:(vm_compute; reflexivity)) (pair_of _ _ ltac:(vm_compute; reflexivity))) as (H1 & _ & [H3|[H3 _]]).
  - split; [exact H3|exact H1].
  - discriminate H3.
Defined.

Lemma delete_marks_subtree_witness :
  let p := (play (repeat 5%Z 6) (loaded SimpleTree.fresh sample_log)).1 in
  let p' := (process_log_step false (Line "7" "FV2" ["2"]) p).1 in
  ∃ n, get_node (tree p') "3" = Some n ∧ nstatus n = "Deleted".
Proof.
  destruct (delete_marks_subtree false (Line "7" "FV2" ["2"])
    (play (repeat 5%Z 6) (loaded SimpleTree.fresh sample_log)).1
    (process_log_step false (Line "7" "FV2" ["2"]) (play (repeat 5%Z 6) (loaded SimpleTree.fresh sample_log)).1).1
    ltac:(right; reflexivity) (pair_of _ _ ltac:(vm_compute; reflexivity))) as (_ & H & _).
  apply H. right. vm_compute. left.
Defined.

Lemma delete_missing_node_witness :
  let p := (play [5%Z; 5%Z] (loaded SimpleTree.fresh [Line "1" "S0" ["/"]; Line "2" "SV2" ["7"; "/v"; "6"]])).1 in
  (process_log_step false (Line "3" "FV2" ["7"]) p).2 = TypeError.
Proof.
  cbv zeta. rewrite (delete_missing_node false (Line "3" "FV2" ["7"])
    (play [5%Z; 5%Z] (loaded SimpleTree.fresh [Line "1" "S0" ["/"]; Line "2" "SV2" ["7"; "/v"; "6"]])).1).
  - reflexivity.
  - right. reflexivity.
  - apply (bool_decide_unpack _). vm_compute. exact I.
  - vm_compute. reflexivity.
Defined.

Lemma first_line_refused_is_final_witness :
  let p := (get_next_line 1 (loaded SimpleTree.fresh [Line "2" "S3" ["9"]])).1 in
  current_log_line p = Nowhere ∧ (get_next_line 1 p).2 = Returned false.
Proof.
  destruct (first_line_refused_is_final SimpleTree.fresh [Line "2" "S3" ["9"]] 1
    (get_next_line 1 (loaded SimpleTree.fresh [Line "2" "S3" ["9"]])).1 []
    ltac:(simpl; lia) (pair_of _ _ ltac:(vm_compute; reflexivity))) as [H1 H2].
  split; [exact H1|apply (H2 1%Z)].
Defined.

Lemma refresh_restarts_witness :
  shows 0 (refresh (play (repeat 5%Z 7) (loaded SimpleTree.fresh sample_log)).1).1.
Proof.
  destruct (refresh_restarts (play (repeat 5%Z 7) (loaded SimpleTree.fresh sample_log)).1
    (refresh (play (repeat 5%Z 7) (loaded SimpleTree.fresh sample_log)).1).1 (pair_of _ _ ltac:(vm_compute; reflexivity)))
    as (_ & _ & _ & _ & _ & _ & _ & H).
  exact H.
Defined.

End LogReplay.
