(* ===== verification/Views.v ===== *)
(** * Messages of the API and the form of a view

    The parts of bridge.js that work on data structures: the messages in an error
    response, the data a view form sends, and the list of columns of a view. *)

From stdpp Require Import pretty.
From S2P Require Import Prelude Url.
Import Url.

Module Views.

(** ** Error responses *)

Inductive json :=
| JNull
| JBool (b : bool)
| JNum (z : Z)
| JStr (s : jstr)
| JArr (l : list json)
| JObj (l : list (jstr * json)).

(** [obj + ''] of a value that is no object. *)
Definition to_text (v : json) : jstr :=
  match v with
  | JBool true => str "true"
  | JBool false => str "false"
  | JNum z => str (pretty z)
  | JStr s => s
  | _ => []
  end.

Section Errors.
(** [labels[key]]; a missing table of labels gives no label. *)
Context (labels : jstr → option jstr).

Definition get_label (key : option jstr) : option jstr :=
  match key with
  | None | Some [] => None
  | Some k => match labels k with None | Some [] => None | l => l end
  end.

Definition error_text (key : option jstr) (v : json) : jstr :=
  match get_label key with
  | Some label => format (str "{0}: {1}") [label; to_text v]
  | None => to_text v
  end.

Definition push_error (errors_arr : list jstr) (t : jstr) : list jstr :=
  if decide (t ∈ errors_arr) then errors_arr else errors_arr ++ [t].

Fixpoint get_children_messages (errors_arr : list jstr) (err_key : option jstr) (obj : json) : list jstr :=
  match obj with
  | JArr l => foldl (λ errs v, get_children_messages errs err_key v) errors_arr l
  | JObj l => foldl (λ errs kv, get_children_messages errs (Some kv.1) kv.2) errors_arr l
  | JNull => errors_arr
  | _ => push_error errors_arr (error_text err_key obj)
  end.

Definition flatten_api_errors (data : json) : list jstr := get_children_messages [] None data.

(** The texts of a response in document order, each with the nearest key above it. *)
Fixpoint leaves (key : option jstr) (obj : json) : list (option jstr * json) :=
  match obj with
  | JArr l => concat (map (leaves key) l)
  | JObj l => concat (map (λ kv, leaves (Some kv.1) kv.2) l)
  | JNull => []
  | _ => [(key, obj)]
  end.

Definition json_ind' (P : json → Prop)
    (Hn : P JNull) (Hb : ∀ b, P (JBool b)) (Hz : ∀ z, P (JNum z)) (Hs : ∀ s, P (JStr s))
    (Ha : ∀ l, Forall P l → P (JArr l)) (Ho : ∀ l, Forall (λ kv, P kv.2) l → P (JObj l)) : ∀ v, P v :=
  fix go v := match v with
  | JNull => Hn
  | JBool b => Hb b
  | JNum z => Hz z
  | JStr s => Hs s
  | JArr l => Ha l ((fix gol l : Forall P l := match l with [] => Forall_nil_2 _ | v :: l => Forall_cons_2 _ _ _ (go v) (gol l) end) l)
  | JObj l => Ho l ((fix gol l : Forall (λ kv, P kv.2) l :=
      match l with [] => Forall_nil_2 _ | kv :: l => Forall_cons_2 _ _ _ (go kv.2) (gol l) end) l)
  end.

Lemma messages_fold obj key errs :
  get_children_messages errs key obj =
  foldl push_error errs (map (λ kv, error_text kv.1 kv.2) (leaves key obj)).
Proof.
  revert key errs. induction obj as [|b|z|s|l IH|l IH] using json_ind'; intros key errs; try done; simpl.
  - revert errs. induction IH as [|v l Hv _ IHl]; intros errs; simpl; [done|].
    rewrite map_app, foldl_app, Hv. apply IHl.
  - revert errs. induction IH as [|v l Hv _ IHl]; intros errs; simpl; [done|].
    rewrite map_app, foldl_app, Hv. apply IHl.
Qed.

Lemma push_errors ts errs :
  NoDup errs →
  NoDup (foldl push_error errs ts) ∧ (∀ t, t ∈ foldl push_error errs ts ↔ t ∈ errs ∨ t ∈ ts) ∧
  ∃ ts', foldl push_error errs ts = errs ++ ts' ∧ ts' `sublist_of` ts.
Proof.
  revert errs. induction ts as [|t ts IH]; intros errs Hnd; simpl.
  { split_and!; [done| |exists []; split; [by rewrite app_nil_r|constructor]].
    intros t. split; [by left|by intros [?|?%not_elem_of_nil]]. }
  unfold push_error at 2 4 6. case_decide as Hin.
  - destruct (IH errs Hnd) as (H1 & H2 & ts' & H3 & H4). split_and!; [done| |exists ts'; split; [done|by constructor]].
    intros u. rewrite H2, elem_of_cons. naive_solver.
  - destruct (IH (errs ++ [t])) as (H1 & H2 & ts' & H3 & H4).
    { apply NoDup_app. split; [done|]. split; [|apply NoDup_singleton].
      by intros x Hx ->%list_elem_of_singleton. }
    split_and!; [done| |].
    + intros u. rewrite H2, elem_of_app, list_elem_of_singleton, elem_of_cons. tauto.
    + exists (t :: ts'). split; [by rewrite H3, <-app_assoc|by constructor].
Qed.

(** Flattening an error response gives every message of the response exactly once,
    labelled by the nearest key, in the order in which it first occurs. *)
Theorem flatten_api_errors_spec data :
  let ms := map (λ kv, error_text kv.1 kv.2) (leaves None data) in
  NoDup (flatten_api_errors data) ∧
  (∀ m, m ∈ flatten_api_errors data ↔ m ∈ ms) ∧
  flatten_api_errors data `sublist_of` ms.
Proof.
  unfold flatten_api_errors. rewrite messages_fold.
  destruct (push_errors (map (λ kv, error_text kv.1 kv.2) (leaves None data)) [] (NoDup_nil_2)) as (H1 & H2 & ts & H3 & H4).
  split_and!; [done| |by rewrite H3].
  intros m. rewrite H2. split; [by intros [?%not_elem_of_nil|?]|by right].
Qed.

(** A labelled message is the label, a colon and the text, unless the text is empty:
    then the placeholder of the template is shown. *)
Theorem labelled_message key label v :
  get_label key = Some label →
  error_text key v = label ++ str ": " ++ (if decide (to_text v = []) then str "{1}" else to_text v).
Proof.
  intros Hl. unfold error_text. rewrite Hl.
  assert (label ≠ []) as Hne.
  { unfold get_label in Hl. destruct key as [[|a k]|]; [done| |done].
    destruct (labels (a :: k)) as [[|]|]; by simplify_eq. }
  pose proof (format_render [Hole 0; Text (str ": "); Hole 1] [label; to_text v]) as Hf.
  change (template [Hole 0; Text (str ": "); Hole 1]) with (str "{0}: {1}") in Hf.
  rewrite Hf. 2: { repeat constructor. apply (bool_decide_unpack _). by vm_compute. }
  unfold render. cbn [map concat]. rewrite app_nil_r.
  change ([label; to_text v] !! 0) with (Some label). change ([label; to_text v] !! 1) with (Some (to_text v)).
  destruct label as [|a label]; [done|]. by destruct (to_text v).
Qed.

End Errors.

Definition sample_labels (k : jstr) : option jstr := if decide (k = str "name") then Some (str "Job name") else None.

Lemma labelled_message_witness :
  error_text sample_labels (Some (str "name")) (JStr [])
  = str "Job name: {1}".
Proof.
  exact (labelled_message sample_labels (Some (str "name")) (str "Job name") (JStr []) ltac:(vm_compute; reflexivity)).
Defined.

(** ** The data of a view form *)

(** A hidden input [view_data_<type>__<name>] with its value and [data-list]. *)
Record view_input := ViewInput { vname : string; vtype : string; vlist : list string }.

(** What the other elements of the form hold: the checkboxes of a name, the value of the
    element of a name, the checked radio button of a group, the condition boxes, and the
    options of a list. *)
Record view_form := ViewForm {
  inputs : list view_input;
  checkboxes : string → list (string * bool);
  element_value : string → option string;
  radio_value : string → option string;
  condition : string → bool;
  options : string → list string
}.

#[local] Arguments strip_prefix : simpl never.

Section Form.
Context (f : view_form).

Definition checked (name : string) : list (option string) :=
  map (Some ∘ fst) (filter (λ b, b.2 = true) (checkboxes f name)).

(** The loop of a list: an empty element deletes the entry and ends the loop. The outer
    [None] is the TypeError of a missing element. *)
Fixpoint list_loop (vals : list string) (acc : list (option string)) : option (option (list (option string))) :=
  match vals with
  | [] => Some (Some acc)
  | val :: vals =>
      match strip_prefix "radio_" val with
      | Some _ => list_loop vals (acc ++ [radio_value f val])
      | None =>
          match element_value f val with
          | None => None
          | Some v => if decide (v = "") then Some None else list_loop vals (acc ++ [Some v])
          end
      end
  end.

Definition list_null (vals : list string) : list (option string) :=
  map (λ val, match strip_prefix "radio_" val with
              | Some _ => radio_value f val
              | None => element_value f val
              end) vals.

(** The entry of one input: [None] is a TypeError, [Some None] no entry. *)
Definition view_item (i : view_input) : option (option (list (option string))) :=
  if decide (vtype i = "checkboxes") then Some (Some (checked (vname i)))
  else if decide (vtype i = "list") then list_loop (vlist i) []
  else if decide (vtype i = "list_null") then Some (Some (list_null (vlist i)))
  else match strip_prefix "checkboxes_if_" (vtype i) with
       | Some c => Some (if condition f c then Some (checked (vname i)) else None)
       | None =>
           match strip_prefix "list_if_" (vtype i) with
           | Some c => if condition f c then list_loop (vlist i) [] else Some None
           | None => if decide (vtype i = "multiselect") then Some (Some (map Some (options f (vname i))))
                     else Some None
           end
       end.

(** Inputs that reset the entry of their name before they fill it; the others leave an
    entry made by an earlier input of the same name. *)
Definition writes (i : view_input) : bool :=
  js_includes (vtype i) ["checkboxes"; "list"; "list_null"; "multiselect"]
  || match strip_prefix "checkboxes_if_" (vtype i) with Some c => condition f c | None => false end
  || match strip_prefix "list_if_" (vtype i) with Some c => condition f c | None => false end.

Fixpoint collect_from (ins : list view_input) (data : gmap string (list (option string)))
    : option (gmap string (list (option string))) :=
  match ins with
  | [] => Some data
  | i :: ins =>
      match view_item i with
      | None => None
      | Some (Some l) => collect_from ins (<[vname i := l]> data)
      | Some None => collect_from ins (if writes i then delete (vname i) data else data)
      end
  end.

(** [collect_view_data(view_type)], before it is made a JSON text. *)
Definition collect_view_data : option (gmap string (list (option string))) := collect_from (inputs f) ∅.

Definition is_radio (val : string) : Prop := is_Some (strip_prefix "radio_" val).
#[global] Instance is_radio_dec val : Decision (is_radio val).
Proof. unfold is_radio. apply _. Defined.

(** A field of a list that has been filled in. *)
Definition filled (val : string) : Prop := is_radio val ∨ ∃ v, element_value f val = Some v ∧ v ≠ "".

Lemma list_loop_spec vals acc :
  (∀ val, val ∈ vals → is_radio val ∨ is_Some (element_value f val)) →
  (Forall filled vals ∧ list_loop vals acc = Some (Some (acc ++ list_null vals))) ∨
  (¬ Forall filled vals ∧ list_loop vals acc = Some None).
Proof.
  revert acc. induction vals as [|val vals IH]; intros acc Hv.
  { left. split; [constructor|]. simpl. by rewrite app_nil_r. }
  assert (∀ x, x ∈ vals → is_radio x ∨ is_Some (element_value f x)) as Hv'
    by (intros x Hx; apply Hv; by right).
  simpl. destruct (strip_prefix "radio_" val) as [r|] eqn:Hr.
  - destruct (IH (acc ++ [radio_value f val]) Hv') as [[H1 H2]|[H1 H2]]; rewrite H2.
    + left. split; [constructor; [by left; eexists|done]|]. rewrite <-app_assoc. unfold list_null. cbn [map]. by rewrite ?Hr.
    + right. split; [|done]. intros Hf. by inversion Hf.
  - destruct (Hv val) as [[? ?]|[v Hval]]; [by left|congruence|]. rewrite Hval. case_decide as Hne.
    + right. split; [|done]. intros Hf. inversion Hf as [|? ? [[? ?]|(w & ? & ?)] _]; congruence.
    + destruct (IH (acc ++ [Some v]) Hv') as [[H1 H2]|[H1 H2]]; rewrite H2.
      * left. split; [constructor; [right; eauto|done]|]. rewrite <-app_assoc. unfold list_null. cbn [map]. by rewrite ?Hr, ?Hval.
      * right. split; [|done]. intros Hf. by inversion Hf.
Qed.

Lemma collect_other ins data data' x :
  (∀ i, i ∈ ins → vname i ≠ x) → collect_from ins data = Some data' → data' !! x = data !! x.
Proof.
  revert data. induction ins as [|i ins IH]; intros data Hx; simpl; [by intros [= ->]|].
  assert (vname i ≠ x) by (apply Hx; by left).
  assert (∀ j, j ∈ ins → vname j ≠ x) as Hx' by (intros j Hj; apply Hx; by right).
  destruct (view_item i) as [[l|]|]; [| |done]; intros Hc.
  - rewrite (IH _ Hx' Hc). by rewrite lookup_insert_ne.
  - rewrite (IH _ Hx' Hc). destruct (writes i); [by rewrite lookup_delete_ne|done].
Qed.

Lemma collect_entry ins data data' i :
  NoDup (map vname ins) → (∀ j, j ∈ ins → data !! vname j = None) → i ∈ ins →
  collect_from ins data = Some data' → view_item i = Some (data' !! vname i).
Proof.
  revert data. induction ins as [|j ins IH]; intros data Hnd Hd Hi; [by apply not_elem_of_nil in Hi|].
  apply NoDup_cons in Hnd as [Hj Hnd]. simpl.
  assert (∀ k, k ∈ ins → vname k ≠ vname j) as Hne.
  { intros k Hk E. apply Hj. rewrite <-E. by apply list_elem_of_fmap_2. }
  assert (∀ (d : gmap string (list (option string))) k, k ∈ ins → (∀ x, x ≠ vname j → d !! x = data !! x) → d !! vname k = None) as Hd'.
  { intros d k Hk Hx. rewrite Hx by by apply Hne. apply Hd. by right. }
  apply elem_of_cons in Hi as [->|Hi].
  - destruct (view_item j) as [[l|]|]; [| |done]; intros Hc; f_equal; symmetry.
    + rewrite (collect_other _ _ _ _ Hne Hc). by rewrite lookup_insert_eq.
    + rewrite (collect_other _ _ _ _ Hne Hc). destruct (writes j); [by rewrite lookup_delete_eq|].
      apply Hd. by left.
  - destruct (view_item j) as [[l|]|]; [| |done]; intros Hc.
    + eapply IH; [done| |done|exact Hc]. intros k Hk. apply Hd'; [done|].
      intros x Hx. by rewrite lookup_insert_ne.
    + eapply IH; [done| |done|exact Hc]. intros k Hk. apply Hd'; [done|].
      intros x Hx. destruct (writes j); [by rewrite lookup_delete_ne|done].
Qed.

(** In a form whose inputs have distinct names, a list is sent exactly when all its
    fields are filled in, and then with the values of all its fields in order. *)
Theorem list_sent_when_filled data i :
  NoDup (map vname (inputs f)) → i ∈ inputs f → vtype i = "list" →
  (∀ val, val ∈ vlist i → is_radio val ∨ is_Some (element_value f val)) →
  collect_view_data = Some data →
  (Forall filled (vlist i) → data !! vname i = Some (list_null (vlist i))) ∧
  (¬ Forall filled (vlist i) → data !! vname i = None).
Proof.
  intros Hnd Hi Ht Hv Hc.
  assert (view_item i = Some (data !! vname i)) as He by (eapply (collect_entry (inputs f) ∅); [exact Hnd|intros; apply lookup_empty|exact Hi|exact Hc]).
  unfold view_item in He. rewrite Ht in He. simpl in He.
  destruct (list_loop_spec (vlist i) [] Hv) as [[H1 H2]|[H1 H2]]; rewrite H2 in He; injection He as He; split; intros; (by rewrite <-He) || done.
Qed.

End Form.

(** A form with two lists, one of which has an empty field. *)
Definition sample_form : view_form :=
  ViewForm [ViewInput "size" "list" ["radio_op"; "limit"]; ViewInput "name" "list" ["kind"; "text"]]
    (λ _, []) (λ n, if decide (n = "limit") then Some "10" else if decide (n = "kind") then Some "is" else Some "")
    (λ _, Some "more") (λ _, false) (λ _, []).

Lemma list_sent_when_filled_witness :
  ∃ data, collect_view_data sample_form = Some data ∧
    data !! "size" = Some [Some "more"; Some "10"] ∧ data !! "name" = None.
Proof.
  destruct (collect_view_data sample_form) as [data|] eqn:E; [|vm_compute in E; discriminate E].
  exists data. split; [reflexivity|split].
  - apply (list_sent_when_filled sample_form data (ViewInput "size" "list" ["radio_op"; "limit"])); [js_decide|left|done| |exact E|].
    + intros val Hv. destruct (decide (is_radio val)); [by left|right].
      simpl. repeat case_decide; eauto.
    + apply Forall_cons; split; [left; vm_compute; eauto|].
      apply Forall_cons; split; [|constructor]. right. exists "10". by vm_compute.
  - apply (list_sent_when_filled sample_form data (ViewInput "name" "list" ["kind"; "text"])); [js_decide|right; left|done| |exact E|].
    + intros val Hv. right. simpl. repeat case_decide; eauto.
    + intros Hf. apply Forall_cons in Hf as [_ Hf]. apply Forall_cons in Hf as [[[r Hr]|(v & Hv & Hne)] _].
      * vm_compute in Hr. discriminate.
      * vm_compute in Hv. injection Hv as <-. done.
Defined.

(** ** The columns of a view *)

Section Columns.
Context {A : Type}.
Implicit Types l : list (A * bool).

(** An option with its [selected] state. *)
Abbreviation selected := (λ o : A * bool, o.2 = true).
Abbreviation unselected := (λ o : A * bool, o.2 = false).

Definition add_column (x : A) (l : list (A * bool)) : list (A * bool) := l ++ [(x, false)].
Definition remove_columns (l : list (A * bool)) : list (A * bool) := filter unselected l.

Definition first_selected (l : list (A * bool)) : option nat := fst <$> list_find selected l.
Definition last_selected (l : list (A * bool)) : option nat :=
  (λ i, length l - S i) <$> first_selected (reverse l).

(** [$op.first().prev().before($op)] *)
Definition move_columns_up (l : list (A * bool)) : list (A * bool) :=
  match first_selected l with
  | Some (S i) =>
      match l !! i with
      | Some prev => take i l ++ filter selected l ++ [prev] ++ filter unselected (drop (S i) l)
      | None => l
      end
  | _ => l
  end.

(** [$op.last().next().after($op)] *)
Definition move_columns_down (l : list (A * bool)) : list (A * bool) :=
  match last_selected l with
  | Some j =>
      match l !! S j with
      | Some next => filter unselected (take (S j) l) ++ [next] ++ filter selected l ++ drop (S (S j)) l
      | None => l
      end
  | None => l
  end.

Lemma filter_all_sel l : Forall selected l → filter selected l = l ∧ filter unselected l = [].
Proof.
  induction 1 as [|[x b] l Hb _ [IH1 IH2]]; [done|]. simpl in Hb. subst b.
  split; [rewrite filter_cons_True by done; by f_equal|by rewrite filter_cons_False].
Qed.
Lemma filter_none_sel l : Forall unselected l → filter selected l = [] ∧ filter unselected l = l.
Proof.
  induction 1 as [|[x b] l Hb _ [IH1 IH2]]; [done|]. simpl in Hb. subst b.
  split; [by rewrite filter_cons_False|rewrite filter_cons_True by done; by f_equal].
Qed.

Lemma first_selected_app a o l :
  Forall unselected a → selected o → first_selected (a ++ o :: l) = Some (length a).
Proof.
  intros Ha Ho. unfold first_selected.
  assert (list_find selected (a ++ o :: l) = Some (length a, o)) as ->; [|done].
  apply list_find_Some. split_and!.
  - by rewrite lookup_app_r, Nat.sub_diag by done.
  - done.
  - intros j y Hj Hlt. rewrite lookup_app_l in Hj by done.
    eapply Forall_lookup in Hj; [|exact Ha]. simpl in *. congruence.
Qed.

Lemma last_selected_app a o b :
  selected o → Forall unselected b → last_selected (a ++ o :: b) = Some (length a).
Proof.
  intros Ho Hb. unfold last_selected. rewrite reverse_app, reverse_cons, <-app_assoc. cbn [app].
  rewrite (first_selected_app (reverse b) o) by (done || by apply Forall_reverse).
  simpl. f_equal. rewrite length_app, length_reverse. simpl. lia.
Qed.

(** Moving a block of selected columns up exchanges it with the column before it, and
    moving it down again restores the list; at the ends of the list nothing moves. *)
Theorem move_block a x s b :
  Forall unselected a → unselected x → Forall selected s → s ≠ [] → Forall unselected b →
  let l := a ++ [x] ++ s ++ b in
  move_columns_up l = a ++ s ++ [x] ++ b ∧
  move_columns_down (move_columns_up l) = l ∧
  move_columns_up (s ++ b) = s ++ b ∧ move_columns_down (a ++ s) = a ++ s.
Proof.
  intros Ha Hx Hs Hne Hb. cbv zeta.
  destruct (filter_all_sel _ Hs) as [Fs1 Fs2], (filter_none_sel _ Ha) as [Fa1 Fa2],
    (filter_none_sel _ Hb) as [Fb1 Fb2].
  destruct x as [x bx]. simpl in Hx. subst bx.
  assert (move_columns_up (a ++ [(x, false)] ++ s ++ b) = a ++ s ++ [(x, false)] ++ b) as Hup.
  { destruct s as [|o s']; [done|]. inversion Hs; subst. unfold move_columns_up.
    rewrite app_assoc, <-app_comm_cons, first_selected_app, length_app, Nat.add_1_r
      by (done || (apply Forall_app; split; [done|by repeat constructor])).
    rewrite <-!app_assoc, lookup_app_r, Nat.sub_diag by done. cbn [lookup list_lookup app].
    rewrite take_app_length. f_equal. rewrite !filter_app, Fa1. cbn [app].
    rewrite filter_cons_False by done. rewrite app_comm_cons, filter_app, Fs1, Fb1, app_nil_r. f_equal. simpl. f_equal.
    rewrite drop_app, drop_ge by lia. replace (S (length a) - length a) with 1 by lia. simpl.
    by rewrite app_comm_cons, filter_app, Fs2, Fb2. }
  split_and!; [done| | |].
  - rewrite Hup. unfold move_columns_down. destruct s as [|o s' _] using rev_ind; [done|].
    apply Forall_app in Hs as [Hs' Ho]. inversion Ho; subst.
    rewrite <-(app_assoc s'), (app_assoc a). simpl app.
    rewrite last_selected_app by (done || by constructor).
    rewrite lookup_app_r by (rewrite length_app; lia).
    replace (S (length (a ++ s')) - length (a ++ s')) with 1 by lia. cbn [lookup list_lookup].
    rewrite <-(app_nil_l ((x, false) :: b)) at 1 2 3.
    replace ((a ++ s') ++ o :: [] ++ (x, false) :: b) with ((a ++ s' ++ [o]) ++ (x, false) :: b)
      by (by rewrite <-!app_assoc).
    assert (S (length (a ++ s')) = length (a ++ s' ++ [o])) as ->
      by (rewrite !length_app; simpl; lia).
    rewrite take_app_length, !filter_app, Fa1, Fa2, <-!filter_app, Fs1, Fs2.
    rewrite filter_cons_False by done. rewrite Fb1, !app_nil_r. simpl.
    rewrite drop_app, drop_ge by lia. replace (S (length (a ++ s' ++ [o])) - length (a ++ s' ++ [o])) with 1 by lia.
    simpl. done.
  - destruct s as [|o s']; [done|]. inversion Hs; subst. unfold move_columns_up.
    assert (first_selected ((o :: s') ++ b) = Some 0) as ->; [|done].
    by apply (first_selected_app [] o (s' ++ b)).
  - destruct s as [|o s' _] using rev_ind; [done|]. apply Forall_app in Hs as [Hs' Ho]. inversion Ho; subst.
    unfold move_columns_down. rewrite app_assoc, (last_selected_app _ o []) by (done || constructor).
    rewrite lookup_ge_None_2; [done|]. rewrite !length_app. simpl. lia.
Qed.

End Columns.

Lemma move_block_witness :
  move_columns_up [("a", false); ("x", false); ("s", true); ("t", true); ("b", false)] =
    [("a", false); ("s", true); ("t", true); ("x", false); ("b", false)].
Proof.
  exact (proj1 (move_block [("a", false)] ("x", false) [("s", true); ("t", true)] [("b", false)]
    ltac:(repeat constructor) eq_refl ltac:(repeat constructor) ltac:(discriminate) ltac:(repeat constructor))).
Defined.

(** ** Buttons *)

(** [update_action_button(btn, disable)]: the class list afterwards. *)
Definition update_action_button (classes : gset string) (disable : bool) : gset string :=
  if disable then (if decide ("disabled" ∈ classes) then classes else {[ "disabled" ]} ∪ classes)
  else (if decide ("disabled" ∈ classes) then classes ∖ {[ "disabled" ]} else classes).

End Views.
