(* ===== verification/FileTree.v ===== *)
(** * The tree of files of a decision

    The part of jsTree that the form of a new decision uses (jstree.min.js, with the
    plugins types and unique): nodes with their children, all their descendants and all
    their ancestors, the nodes that are selected, and the methods that create, rename,
    delete and select nodes. A node that is deleted stays an object that the handlers of
    the page may still hold. *)

From Stdlib Require Import Ascii.
From stdpp Require Import pretty.
From S2P Require Import Prelude Url.
Import Url.

Module FileTree.

(** ** Data *)

(** The types of nodes: [Thash] is the node ['#'] above the root, the others are those of
    the option [types]. *)
Inductive ntype := Thash | Troot | Tfolder | Tfile.

#[export] Instance ntype_eq_dec : EqDecision ntype.
Proof. solve_decision. Defined.

(** A node; [data] is its [data.hashsum], ancestors come nearest first. *)
Record node := Node {
  text : jstr;
  type : ntype;
  data : option jstr;
  parents : list nat;
  children : list nat;
  children_d : list nat;
}.

(** [_model.data], [_data.core.selected], the counter [_cnt], and the nodes that were
    deleted. *)
Record tree := Tree {
  nodes : gmap nat node;
  selected : list nat;
  cnt : nat;
  removed : gmap nat node;
}.

Definition hash_id : nat := 0.

Definition set_text (s : jstr) (n : node) : node :=
  Node s (type n) (data n) (parents n) (children n) (children_d n).
Definition set_data (d : option jstr) (n : node) : node :=
  Node (text n) (type n) d (parents n) (children n) (children_d n).
Definition set_children (cs : list nat) (n : node) : node :=
  Node (text n) (type n) (data n) (parents n) cs (children_d n).
Definition set_children_d (cs : list nat) (n : node) : node :=
  Node (text n) (type n) (data n) (parents n) (children n) cs.
Definition with_nodes (m : gmap nat node) (t : tree) : tree :=
  Tree m (selected t) (cnt t) (removed t).
Definition with_selected (l : list nat) (t : tree) : tree :=
  Tree (nodes t) l (cnt t) (removed t).

(** The object a handler holds, in the tree or deleted. *)
Definition object (t : tree) (i : nat) : option node :=
  match nodes t !! i with Some n => Some n | None => removed t !! i end.

(** What the page reads of a node. *)
Definition label (n : node) : jstr * ntype * option jstr := (text n, type n, data n).

(** [node.data = d] on an object. *)
Definition assign_data (i : nat) (d : option jstr) (t : tree) : tree :=
  Tree (alter (set_data d) i (nodes t)) (selected t) (cnt t) (alter (set_data d) i (removed t)).

(** [get_type(node)] and [get_selected()]. *)
Definition get_type (t : tree) (i : nat) : option ntype := type <$> nodes t !! i.
Definition get_selected (t : tree) : list nat := selected t.

Definition parent (n : node) : option nat := head (parents n).

(** [f] on every node of [l]. *)
Definition update_each (f : node → node) (l : list nat) (m : gmap nat node) : gmap nat node :=
  foldl (λ m a, alter f a m) m l.
#[global] Arguments update_each : simpl never.

(** ** Selection *)

Definition is_selected (t : tree) (i : nat) : bool := bool_decide (i ∈ selected t).

(** [select_node(i)]: the tree, and whether the event [select_node] is triggered. *)
Definition select_node (i : nat) (t : tree) : tree * bool :=
  if bool_decide (is_Some (nodes t !! i)) && negb (bool_decide (i = hash_id)) && negb (is_selected t i)
  then (with_selected (selected t ++ [i]) t, true) else (t, false).

(** [deselect_node(i)] *)
Definition deselect_node (i : nat) (t : tree) : tree :=
  if bool_decide (is_Some (nodes t !! i)) && negb (bool_decide (i = hash_id))
  then with_selected (filter (.≠ i) (selected t)) t else t.

Definition deselect_all (t : tree) : tree := with_selected [] t.

(** [activate_node(i)], a click on a node when [multiple] is off; [modifier] is a click
    with a control, shift or meta key. *)
Definition activate_node (i : nat) (modifier : bool) (t : tree) : tree * bool :=
  if modifier && is_selected t i then (deselect_node i t, false)
  else select_node i (deselect_all t).

Section methods.
(** [toLowerCase], which the plugin unique applies to names. *)
Context (lower : jstr → jstr).

Definition texts (t : tree) (cs : list nat) : list jstr :=
  omap (λ c, (λ n, lower (text n)) <$> nodes t !! c) cs.

(** *** Creation *)

(** The names that [create_node] of unique tries: [name], [name (2)], [name (3)], ... *)
Definition new_name (k : nat) : jstr :=
  if decide (k = 1) then str "name" else str "name" ++ str " (" ++ str (pretty k) ++ str ")".

Fixpoint unique_name (fuel k : nat) (taken : list jstr) : option jstr :=
  match fuel with
  | 0 => None
  | S fuel => if js_includes (lower (new_name k)) taken then unique_name fuel (S k) taken
              else Some (new_name k)
  end.

(** [valid_children] of the option [types]. *)
Definition valid_children (ty : ntype) : bool :=
  match ty with Tfile => false | _ => true end.

(** [create_node(p, {'type': ty}, pos)] with [pos] first or last: the tree and the new
    node, [None] when the node is not created. *)
Definition create_node (p : option nat) (ty : ntype) (first : bool) (t : tree) : tree * option nat :=
  match p ≫= λ p, (p,.) <$> nodes t !! p with
  | None => (t, None)
  | Some (p, n) =>
      match unique_name (S (length (children n))) 1 (texts t (children n)) with
      | None => (t, None)
      | Some name =>
          if valid_children (type n) then
            let i := cnt t in
            let ps := p :: parents n in
            let m := <[i := Node name ty None ps [] []]> (nodes t) in
            let m := update_each (λ x, set_children_d (children_d x ++ [i]) x) ps m in
            let m := alter (set_children (if first then i :: children n else children n ++ [i])) p m in
            (Tree m (selected t) (S i) (removed t), Some i)
          else (t, None)
      end
  end.

(** *** Renaming *)

(** The check of unique before a node gets the name [s]: no node below the same parent
    has it, or the node has it already. *)
Definition check_rename (t : tree) (n : node) (s : jstr) : bool :=
  match parent n ≫= λ p, nodes t !! p with
  | None => true
  | Some p =>
      negb (js_includes (lower s) (texts t (children p)))
      || (bool_decide (text n ≠ []) && bool_decide (lower (text n) = lower s))
  end.

(** [rename_node(i, s)]: [check_callback] refuses the root. *)
Definition rename_node (i : nat) (s : jstr) (t : tree) : tree :=
  match nodes t !! i with
  | None => t
  | Some n =>
      if bool_decide (i = hash_id) || bool_decide (type n = Troot) then t
      else if check_rename t n s then with_nodes (alter (set_text s) i (nodes t)) t else t
  end.
End methods.

(** ** Deletion *)

(** [delete_node(i)]: the tree, and whether the event [delete_node] is triggered. *)
Definition delete_node (i : nat) (t : tree) : tree * bool :=
  match nodes t !! i with
  | None => (t, false)
  | Some n =>
      match parent n with
      | None => (t, false)
      | Some e =>
          if bool_decide (type n = Troot) then (t, false)
          else
            let g := children_d n ++ [i] in
            let m := alter (λ x, set_children (filter (.≠ i) (children x)) x) e (nodes t) in
            let m := update_each (λ x, set_children_d (filter (.∉ g) (children_d x)) x) (parents n) m in
            (Tree (filter (λ kv, kv.1 ∉ g) m) (filter (.∉ g) (selected t)) (cnt t)
                  (removed t ∪ filter (λ kv, kv.1 ∈ g) m), true)
      end
  end.

(** [delete_node] of an array of nodes. *)
Definition delete_nodes (l : list nat) (t : tree) : tree * bool :=
  foldl (λ r i, let r' := delete_node i r.1 in (r'.1, r.2 || r'.2)) (t, false) l.

(** ** The tree as JSON *)

Inductive json_node := JNode (id : nat) (text : jstr) (type : ntype) (hashsum : option jstr)
                             (children : list json_node).

(** [get_json(i)] to the depth [fuel]. *)
Fixpoint get_json (fuel : nat) (t : tree) (i : nat) : option json_node :=
  match fuel, nodes t !! i with
  | S fuel, Some n => JNode i (text n) (type n) (data n) <$> mapM (get_json fuel t) (children n)
  | _, _ => None
  end.

(** [get_json('#')]: what is below ['#']. *)
Definition get_json_all (t : tree) : option (list json_node) :=
  n ← nodes t !! hash_id; mapM (get_json (size (nodes t)) t) (children n).

(** ** Well-formed trees *)

(** Children, ancestors and descendants agree. *)
Record links_ok (m : gmap nat node) : Prop := {
  ok_hash : is_Some (m !! hash_id);
  ok_top i n : m !! i = Some n → (parents n = [] ↔ i = hash_id);
  ok_down p n c : m !! p = Some n → c ∈ children n →
    ∃ x, m !! c = Some x ∧ parents x = p :: parents n;
  ok_up c x p ps : m !! c = Some x → parents x = p :: ps →
    ∃ n, m !! p = Some n ∧ ps = parents n ∧ c ∈ children n;
  ok_desc a n c : m !! a = Some n →
    (c ∈ children_d n ↔ ∃ x, m !! c = Some x ∧ a ∈ parents x);
  ok_nodup i n : m !! i = Some n → NoDup (children n) ∧ NoDup (i :: parents n);
}.

(** Only ['#'] is above the root, and nothing is below a file. *)
Record kinds_ok (m : gmap nat node) : Prop := {
  ok_type i n : m !! i = Some n → (type n = Thash ↔ i = hash_id);
  ok_leaf i n : m !! i = Some n → type n = Tfile → children n = [];
  ok_root i n : m !! i = Some n → type n = Troot → parents n = [hash_id];
}.

(** Nodes below the same parent have different names. *)
Definition names_ok (lower : jstr → jstr) (m : gmap nat node) : Prop :=
  ∀ p n c d x y, m !! p = Some n → c ∈ children n → d ∈ children n →
    m !! c = Some x → m !! d = Some y → lower (text x) = lower (text y) → c = d.

(** Nodes that are selected are in the tree, and the counter is past all nodes. *)
Record ids_ok (t : tree) : Prop := {
  ok_selected i : i ∈ selected t → is_Some (nodes t !! i) ∧ i ≠ hash_id;
  ok_selected_nodup : NoDup (selected t);
  ok_cnt i : is_Some (nodes t !! i) ∨ is_Some (removed t !! i) → i < cnt t;
  ok_removed i : is_Some (nodes t !! i) → removed t !! i = None;
}.

Record tree_ok (lower : jstr → jstr) (t : tree) : Prop := {
  ok_links : links_ok (nodes t);
  ok_kinds : kinds_ok (nodes t);
  ok_names : names_ok lower (nodes t);
  ok_ids : ids_ok t;
}.
#[export] Hint Resolve ok_links ok_kinds ok_names ok_ids : js.

(** ** Lookups after the updates of a walk over nodes *)

Lemma lookup_update_each (f : node → node) (l : list nat) (m : gmap nat node) i :
  NoDup l →
  update_each f l m !! i = (if decide (i ∈ l) then f <$> m !! i else m !! i).
Proof.
  revert m. induction l as [|a l IH]; intros m Hl; [done|].
  apply NoDup_cons in Hl as [Ha Hl]. unfold update_each in *. cbn. rewrite IH by done.
  destruct (decide (i = a)) as [->|Hi].
  - rewrite decide_False, lookup_alter_eq by done. by rewrite decide_True by (by left).
  - rewrite lookup_alter_ne by done.
    destruct (decide (i ∈ l)); [rewrite decide_True by (by right)|rewrite decide_False by set_solver]; done.
Qed.

(** The ancestors of a node are nodes, and those of an ancestor end its list. *)
Lemma ancestor_node (m : gmap nat node) i n a :
  links_ok m → m !! i = Some n → a ∈ parents n →
  ∃ x l, m !! a = Some x ∧ parents n = l ++ a :: parents x.
Proof.
  intros Ht. remember (parents n) as ps eqn:Hps. revert i n Hps.
  induction ps as [|p ps IH]; intros i n Hps Hi Ha; [by apply elem_of_nil in Ha|].
  destruct (ok_up _ Ht i n p ps Hi (eq_sym Hps)) as (q & Hq & -> & _).
  apply elem_of_cons in Ha as [->|Ha]; [by exists q, []|].
  destruct (IH p q eq_refl Hq Ha) as (x & l & Hm & ->). by exists x, (p :: l).
Qed.

Lemma ancestor_is_node (m : gmap nat node) i n a :
  links_ok m → m !! i = Some n → a ∈ parents n → is_Some (m !! a).
Proof. intros Ht Hi Ha. destruct (ancestor_node m i n a Ht Hi Ha) as (x & l & Hm & _). eauto. Qed.

Lemma fresh_node t : ids_ok t → nodes t !! cnt t = None.
Proof.
  intros Ht. apply eq_None_not_Some. intros H. pose proof (ok_cnt _ Ht (cnt t) (or_introl H)). lia.
Qed.

Lemma elem_of_texts lower t cs c n :
  c ∈ cs → nodes t !! c = Some n → lower (text n) ∈ texts lower t cs.
Proof.
  intros Hc Hn. unfold texts. apply list_elem_of_omap. exists c. split; [done|]. by rewrite Hn.
Qed.

(** ** Creation *)

(** A node after [i] was added below [p], whose ancestors with itself are [ps]. *)
Definition grown (p i : nat) (ps : list nat) (first : bool) (j : nat) (x : node) : node :=
  Node (text x) (type x) (data x) (parents x)
       (if decide (j = p) then if first then i :: children x else children x ++ [i] else children x)
       (if decide (j ∈ ps) then children_d x ++ [i] else children_d x).

(** What [create_node] does when it creates a node. *)
Lemma create_node_Some lower p ty first t t' i :
  tree_ok lower t → create_node lower p ty first t = (t', Some i) →
  ∃ a n name, p = Some a ∧ nodes t !! a = Some n ∧ type n ≠ Tfile ∧ i = cnt t ∧
    lower name ∉ texts lower t (children n) ∧
    selected t' = selected t ∧ cnt t' = S i ∧ removed t' = removed t ∧
    nodes t' !! i = Some (Node name ty None (a :: parents n) [] []) ∧
    ∀ j, j ≠ i → nodes t' !! j = grown a i (a :: parents n) first j <$> nodes t !! j.
Proof.
  intros Ht. unfold create_node. destruct p as [a|]; cbn -[unique_name]; [|done].
  destruct (nodes t !! a) as [n|] eqn:Ha; cbn -[unique_name]; [|done].
  destruct (unique_name _ _ _ _) as [name|] eqn:Hname; [|done].
  destruct (valid_children (type n)) eqn:Hv; [|done]. intros [= <- <-].
  pose proof (fresh_node t (ok_ids _ _ Ht)) as Hfresh.
  assert (NoDup (a :: parents n)) as Hnd by apply (ok_nodup _ (ok_links _ _ Ht) a n Ha).
  assert (∀ b, b ∈ a :: parents n → b ≠ cnt t) as Hne.
  { intros b Hb ->. apply elem_of_cons in Hb as [Hb|Hb]; [congruence|].
    destruct (ancestor_is_node _ a n _ (ok_links _ _ Ht) Ha Hb) as [? ?]. congruence. }
  exists a, n, name. split_and!; try done.
  - by intros Hn; rewrite Hn in Hv.
  - revert Hname. generalize 1. induction (S (length (children n))) as [|f IH]; intros k; cbn; [done|].
    destruct (js_includes _ _) eqn:Hj; [by apply IH|]. intros [= <-]. by apply js_includes_false in Hj.
  - cbn. rewrite lookup_alter_ne by (apply Hne; by left). rewrite (lookup_update_each _ _ _ _ Hnd).
    rewrite decide_False, lookup_insert_eq; [done|]. intros Hb. by apply (Hne (cnt t)).
  - intros j Hj. cbn. destruct (decide (j = a)) as [->|Hja].
    + rewrite lookup_alter_eq, (lookup_update_each _ _ _ _ Hnd), lookup_insert_ne, Ha by done.
      rewrite decide_True by (by left). cbn. unfold grown.
      rewrite decide_True, decide_True by (done || by left). done.
    + rewrite lookup_alter_ne, (lookup_update_each _ _ _ _ Hnd), lookup_insert_ne by done.
      destruct (nodes t !! j) as [x|]; [|by destruct (decide _)].
      cbn. unfold grown. rewrite (decide_False (P := j = a)) by done.
      destruct (decide (j ∈ a :: parents n)); cbn; [done|]. by destruct x.
Qed.

(** A node created below [a]. *)
Section created.
Context (lower : jstr → jstr) (t t' : tree) (a : nat) (n : node) (name : jstr) (ty : ntype) (first : bool).
Let i := cnt t.
Let ps := a :: parents n.
Let new := Node name ty None ps [] [].
Context (Ht : tree_ok lower t) (Ha : nodes t !! a = Some n) (Hi : nodes t' !! i = Some new)
        (Hj : ∀ j, j ≠ i → nodes t' !! j = grown a i ps first j <$> nodes t !! j).

Lemma created_old j x : nodes t !! j = Some x → j ≠ i.
Proof. intros Hx ->. unfold i in Hx. rewrite fresh_node in Hx; eauto with js. done. Qed.

Lemma created_inv j y :
  nodes t' !! j = Some y →
  (j = i ∧ y = new) ∨ (j ≠ i ∧ ∃ x, nodes t !! j = Some x ∧ y = grown a i ps first j x).
Proof.
  intros Hy. destruct (decide (j = i)) as [->|Hne]; [left; split; congruence|right]. split; [done|].
  rewrite Hj in Hy by done. destruct (nodes t !! j) as [x|]; [|done]. exists x. by simplify_eq/=.
Qed.

Lemma created_get j x : nodes t !! j = Some x → nodes t' !! j = Some (grown a i ps first j x).
Proof. intros Hx. by rewrite (Hj j (created_old _ _ Hx)), Hx. Qed.

Lemma created_ancestor b : b ∈ ps → is_Some (nodes t !! b).
Proof.
  intros Hb. apply elem_of_cons in Hb as [->|Hb]; [eauto|]. eapply ancestor_is_node; eauto with js.
Qed.

Lemma created_children j c x :
  c ∈ children (grown a i ps first j x) ↔ (j = a ∧ c = i) ∨ c ∈ children x.
Proof.
  cbn. destruct (decide (j = a)) as [->|]; [|naive_solver].
  destruct first; [rewrite elem_of_cons|rewrite elem_of_app, list_elem_of_singleton]; naive_solver.
Qed.

Lemma created_child q x c : nodes t !! q = Some x → c ∈ children x → c ≠ i.
Proof.
  intros Hq Hx. destruct (ok_down _ (ok_links _ _ Ht) q x c Hq Hx) as (m & Hm & _). by eapply created_old.
Qed.

Ltac created j Hy := destruct (created_inv j _ Hy) as [[-> ->]|(? & ? & ? & ->)]; cbn.

Lemma created_links : links_ok (nodes t').
Proof.
  pose proof (ok_links _ _ Ht) as Hl.
  split.
  - destruct (ok_hash _ Hl) as [h Hh]. eexists. by apply created_get.
  - intros j y Hy. created j Hy; [|by apply (ok_top _ Hl)]. split; [done|].
    intros He. destruct (ok_hash _ Hl) as [h Hh]. by destruct (created_old _ _ Hh).
  - intros q y c Hy Hcy. destruct (created_inv q y Hy) as [[-> ->]|(Hne & x & Hx & ->)]; [by apply elem_of_nil in Hcy|].
    apply created_children in Hcy as [[-> ->]|Hcx]; [exists new; split; [done|]; by simplify_eq|].
    destruct (ok_down _ Hl q x c Hx Hcx) as (m & Hm & Hpm). eexists. by split; [apply created_get|].
  - intros c y q qs Hy Hps. destruct (created_inv c y Hy) as [[-> ->]|(Hne & x & Hx & ->)]; cbn in Hps.
    + injection Hps as <- <-. eexists. split_and!; [by apply created_get|done|]. apply created_children. by left.
    + destruct (ok_up _ Hl c x q qs Hx Hps) as (m & Hm & -> & Hcm). eexists.
      split_and!; [by apply created_get|done|]. apply created_children. by right.
  - intros b y c Hy. destruct (created_inv b y Hy) as [[-> ->]|(Hne & x & Hx & ->)]; cbn.
    + split; [by intros []%elem_of_nil|]. intros (m & Hm & Him). exfalso.
      assert (is_Some (nodes t !! i)) as [z Hz]; [|by destruct (created_old _ _ Hz)].
      created c Hm; cbn in Him; [by apply created_ancestor|by eapply ancestor_is_node].
    + assert ((∃ m, nodes t' !! c = Some m ∧ b ∈ parents m) ↔ (c = i ∧ b ∈ ps) ∨ c ∈ children_d x) as ->.
      { rewrite (ok_desc _ Hl b x c Hx). split.
        - intros (m & Hm & Hb). destruct (created_inv c m Hm) as [[-> ->]|(_ & z & Hz & ->)]; [by left|right; eauto].
        - intros [[-> Hb]|(m & Hm & Hb)]; [eauto|]. eexists. by split; [apply created_get|]. }
      destruct (decide (b ∈ ps)); [|naive_solver].
      rewrite elem_of_app, list_elem_of_singleton. naive_solver.
  - intros j y Hy. destruct (created_inv j y Hy) as [[-> ->]|(Hne & x & Hx & ->)]; cbn.
    + split; [constructor|]. constructor; [|by apply (ok_nodup _ Hl a n Ha)].
      intros [z Hz]%created_ancestor. by destruct (created_old _ _ Hz).
    + destruct (ok_nodup _ Hl j x Hx) as [Hd1 Hd2]. split; [|done].
      destruct (decide (j = a)) as [->|]; [|done].
      assert (i ∉ children x) by (intros Hix; by apply (created_child _ _ _ Hx Hix)).
      destruct first; [by constructor|]. apply NoDup_app. split_and!; [done| |apply NoDup_singleton].
      intros z Hz ->%list_elem_of_singleton. done.
Qed.

Lemma created_kinds : type n ≠ Tfile → ty = Tfolder ∨ ty = Tfile → kinds_ok (nodes t').
Proof.
  intros Hn Hty. pose proof (ok_kinds _ _ Ht) as Hk. split; intros j y Hy.
  - created j Hy; [|by apply (ok_type _ Hk)]. split; [destruct Hty; congruence|].
    intros He. destruct (ok_hash _ (ok_links _ _ Ht)) as [h Hh]. by destruct (created_old _ _ Hh).
  - created j Hy; [done|]. intros Hf. destruct (decide (j = a)) as [->|]; [congruence|by apply (ok_leaf _ Hk j)].
  - created j Hy; [destruct Hty; congruence|]. by apply (ok_root _ Hk j).
Qed.

Lemma created_names : lower name ∉ texts lower t (children n) → names_ok lower (nodes t').
Proof.
  intros Hname.
  assert (∀ q x d y, q = a → nodes t !! q = Some x → d ∈ children x → nodes t !! d = Some y →
            lower (text y) ≠ lower name) as Hfree.
  { intros q x d y -> Hx Hd Hy He. apply Hname. rewrite <- He. rewrite Ha in Hx. simplify_eq.
    by eapply elem_of_texts. }
  intros q y c d u v Hy Hcy Hdy Hu Hv Huv.
  destruct (created_inv q y Hy) as [[-> ->]|(Hne & x & Hx & ->)]; [by apply elem_of_nil in Hcy|].
  apply created_children in Hcy as [[Hqa ->]|Hcx]; apply created_children in Hdy as [[Hqb ->]|Hdx]; [done| | |].
  - rewrite Hi in Hu. destruct (created_inv d v Hv) as [[-> ->]|(_ & z & Hz & ->)]; [done|].
    simplify_eq/=. by destruct (Hfree a n d z).
  - rewrite Hi in Hv. destruct (created_inv c u Hu) as [[-> ->]|(_ & z & Hz & ->)]; [done|].
    simplify_eq/=. by destruct (Hfree a n c z).
  - destruct (created_inv c u Hu) as [[-> ->]|(_ & z & Hz & ->)]; [by destruct (created_child _ _ _ Hx Hcx)|].
    destruct (created_inv d v Hv) as [[-> ->]|(_ & w & Hw & ->)]; [by destruct (created_child _ _ _ Hx Hdx)|].
    exact (ok_names _ _ Ht q x c d z w Hx Hcx Hdx Hz Hw Huv).
Qed.

Lemma created_ids :
  selected t' = selected t → cnt t' = S i → removed t' = removed t → ids_ok t'.
Proof.
  intros Hsel Hcnt Hrem. pose proof (ok_ids _ _ Ht) as Hd. split.
  - rewrite Hsel. intros j Hjs. destruct (ok_selected _ Hd j Hjs) as [[x Hx] ?]. split; [|done].
    eexists. by apply created_get.
  - rewrite Hsel. apply (ok_selected_nodup _ Hd).
  - rewrite Hcnt, Hrem. intros j Hjs. destruct (decide (j = i)) as [->|]; [lia|]. transitivity i; [|lia].
    apply (ok_cnt _ Hd). destruct Hjs as [[y Hy]|]; [left|by right]. created j Hy; [done|eauto].
  - rewrite Hrem. intros j [y Hy]. created j Hy; [|apply (ok_removed _ Hd); eauto].
    apply eq_None_not_Some. intros Hr. pose proof (ok_cnt _ Hd i (or_intror Hr)). unfold i in *. lia.
Qed.
End created.

Lemma create_node_ok lower p ty first t :
  tree_ok lower t → ty = Tfolder ∨ ty = Tfile → tree_ok lower (create_node lower p ty first t).1.
Proof.
  intros Ht Hty. destruct (create_node lower p ty first t) as [t' [i|]] eqn:Hc.
  - destruct (create_node_Some _ _ _ _ _ _ _ Ht Hc)
      as (a & n & name & -> & Ha & Hfile & -> & Hname & Hsel & Hcnt & Hrem & Hi & Hj). cbn.
    split; [eapply created_links|eapply created_kinds|eapply created_names|eapply created_ids]; eauto.
  - revert Hc. unfold create_node. by repeat case_match; intros; simplify_eq.
Qed.

(** ** Changes that keep the shape of the tree *)

Definition same_shape (x y : node) : Prop :=
  type x = type y ∧ parents x = parents y ∧ children x = children y ∧ children_d x = children_d y.

Definition shape_le (m m' : gmap nat node) : Prop :=
  ∀ j x, m !! j = Some x → ∃ y, m' !! j = Some y ∧ same_shape x y.

Lemma shape_le_alter f i m :
  (∀ x, same_shape x (f x)) → shape_le m (alter f i m) ∧ shape_le (alter f i m) m.
Proof.
  intros Hf. split; intros j x; (destruct (decide (j = i)) as [->|];
    [rewrite lookup_alter_eq|rewrite lookup_alter_ne by done]); intros Hx.
  - rewrite Hx. eexists. by split; [|apply Hf].
  - by exists x.
  - destruct (m !! i) as [z|]; simplify_eq/=. exists z. split; [done|]. destruct (Hf z) as (? & ? & ? & ?).
    by split_and!.
  - by exists x.
Qed.

Lemma links_ok_shape m m' : shape_le m m' → shape_le m' m → links_ok m → links_ok m'.
Proof.
  intros H1 H2 Hm. split.
  - destruct (ok_hash _ Hm) as [h Hh]. destruct (H1 _ _ Hh) as (y & Hy & _). eauto.
  - intros i y Hy. destruct (H2 _ _ Hy) as (x & Hx & _ & -> & _). by apply (ok_top _ Hm).
  - intros p y c Hy Hc. destruct (H2 _ _ Hy) as (x & Hx & _ & -> & Hcs & _). rewrite Hcs in Hc.
    destruct (ok_down _ Hm p x c Hx Hc) as (z & Hz & Hp). destruct (H1 _ _ Hz) as (w & Hw & _ & Hpw & _). exists w. split; [done|congruence].
  - intros c y p ps Hy Hp. destruct (H2 _ _ Hy) as (x & Hx & _ & Hpx & _). rewrite Hpx in Hp.
    destruct (ok_up _ Hm c x p ps Hx Hp) as (z & Hz & -> & Hc). destruct (H1 _ _ Hz) as (w & Hw & _ & Hpw & Hcw & _).
    exists w. split_and!; [done|congruence|by rewrite <- Hcw].
  - intros a y c Hy. destruct (H2 _ _ Hy) as (x & Hx & _ & _ & _ & ->). rewrite (ok_desc _ Hm a x c Hx). split.
    + intros (z & Hz & Ha). destruct (H1 _ _ Hz) as (w & Hw & _ & Hp & _). exists w. split; [done|congruence].
    + intros (z & Hz & Ha). destruct (H2 _ _ Hz) as (w & Hw & _ & Hp & _). exists w. split; [done|congruence].
  - intros i y Hy. destruct (H2 _ _ Hy) as (x & Hx & _ & -> & -> & _). by apply (ok_nodup _ Hm).
Qed.

Lemma kinds_ok_shape m m' : shape_le m' m → kinds_ok m → kinds_ok m'.
Proof.
  intros H2 Hm. split; intros i y Hy; destruct (H2 _ _ Hy) as (x & Hx & Ht & Hp & Hc & _);
    rewrite ?Ht, ?Hp, ?Hc.
  - by apply (ok_type _ Hm).
  - by apply (ok_leaf _ Hm i).
  - by apply (ok_root _ Hm i).
Qed.

Lemma alter_node_is_Some (f : node → node) i j (m : gmap nat node) : is_Some (alter f i m !! j) ↔ is_Some (m !! j).
Proof.
  destruct (decide (j = i)) as [->|]; [rewrite lookup_alter_eq, fmap_is_Some|rewrite lookup_alter_ne]; done.
Qed.

Lemma ids_ok_alter f i t : ids_ok t → ids_ok (with_nodes (alter f i (nodes t)) t).
Proof.
  intros Ht. split; cbn.
  - intros j Hj. rewrite alter_node_is_Some. by apply (ok_selected _ Ht).
  - apply (ok_selected_nodup _ Ht).
  - intros j. rewrite alter_node_is_Some. apply (ok_cnt _ Ht).
  - intros j. rewrite alter_node_is_Some. apply (ok_removed _ Ht).
Qed.

(** ** Renaming and data *)

Lemma text_alter f i (m : gmap nat node) j y :
  alter f i m !! j = Some y → ∃ x, m !! j = Some x ∧ y = (if decide (j = i) then f x else x).
Proof.
  destruct (decide (j = i)) as [->|]; [rewrite lookup_alter_eq|rewrite lookup_alter_ne by done; eauto].
  destruct (m !! i) as [x|]; [|done]. intros [= <-]. eauto.
Qed.

Lemma rename_node_ok lower i s t : tree_ok lower t → tree_ok lower (rename_node lower i s t).
Proof.
  intros Ht. unfold rename_node. destruct (nodes t !! i) as [n|] eqn:Hi; [|done].
  destruct (_ || _) eqn:Hroot; [done|]. destruct (check_rename lower t n s) eqn:Hcheck; [|done].
  apply orb_false_iff in Hroot as [Hi0 _]. apply bool_decide_eq_false in Hi0.
  destruct (shape_le_alter (set_text s) i (nodes t)) as [H1 H2]; [done|].
  split; cbn; [eapply links_ok_shape|eapply kinds_ok_shape| |apply ids_ok_alter]; eauto with js.
  assert (∀ p q c d x, nodes t !! p = Some q → c ∈ children q → d ∈ children q → c = i → d ≠ i →
            nodes t !! d = Some x → lower s ≠ lower (text x)) as Hfree.
  { intros p q c d x Hp Hc Hd -> Hne Hx Hs.
    destruct (ok_down _ (ok_links _ _ Ht) p q i Hp Hc) as (n' & Hn' & Hpar). simplify_eq.
    unfold check_rename, parent in Hcheck. rewrite Hpar in Hcheck. cbn in Hcheck. rewrite Hp in Hcheck.
    apply orb_true_iff in Hcheck as [Hno|Hsame].
    - apply negb_true_iff, js_includes_false in Hno. apply Hno. rewrite Hs. by eapply elem_of_texts.
    - apply andb_true_iff in Hsame as [_ Hsame]. apply bool_decide_eq_true in Hsame.
      apply Hne. eapply (ok_names _ _ Ht p q d i x); eauto. congruence. }
  intros p q c d x y Hp Hc Hd Hx Hy Hxy.
  apply text_alter in Hp as (q' & Hp & Hq). assert (children q = children q') as Hcs by (by subst q; case_decide).
  rewrite Hcs in Hc, Hd. apply text_alter in Hx as (x' & Hx & ->). apply text_alter in Hy as (y' & Hy & ->).
  destruct (decide (c = i)) as [Hci|], (decide (d = i)) as [Hdi|]; [congruence| | |].
  - by destruct (Hfree p q' c d y').
  - by destruct (Hfree p q' d c x').
  - by eapply (ok_names _ _ Ht p q').
Qed.

Lemma assign_data_ok lower i d t : tree_ok lower t → tree_ok lower (assign_data i d t).
Proof.
  intros Ht. destruct (shape_le_alter (set_data d) i (nodes t)) as [H1 H2]; [done|].
  split; cbn; [eapply links_ok_shape|eapply kinds_ok_shape| |]; eauto with js.
  - intros p q c e x y Hp Hc He Hx Hy. apply text_alter in Hp as (q' & Hp & Hq).
    assert (children q = children q') as Hcs by (by subst q; case_decide). rewrite Hcs in Hc, He.
    apply text_alter in Hx as (x' & Hx & ->). apply text_alter in Hy as (y' & Hy & ->). intros Hxy.
    eapply (ok_names _ _ Ht p q'); eauto. by repeat case_decide.
  - pose proof (ok_ids _ _ Ht) as Hids. split; cbn.
    + intros j Hj. rewrite alter_node_is_Some. by apply (ok_selected _ Hids).
    + apply (ok_selected_nodup _ Hids).
    + intros j. rewrite !alter_node_is_Some. apply (ok_cnt _ Hids).
    + intros j. rewrite alter_node_is_Some. intros Hj. apply eq_None_not_Some. rewrite alter_node_is_Some.
      apply (ok_removed _ Hids) in Hj. rewrite Hj. by intros [? ?].
Qed.

(** ** Selection *)

Lemma with_selected_ok lower l t :
  tree_ok lower t → NoDup l → (∀ i, i ∈ l → is_Some (nodes t !! i) ∧ i ≠ hash_id) →
  tree_ok lower (with_selected l t).
Proof.
  intros Ht Hl Hin. split; cbn; eauto with js. pose proof (ok_ids _ _ Ht) as Hids.
  split; cbn; [done|done|apply (ok_cnt _ Hids)|apply (ok_removed _ Hids)].
Qed.

Lemma select_node_ok lower i t : tree_ok lower t → tree_ok lower (select_node i t).1.
Proof.
  intros Ht. pose proof (ok_ids _ _ Ht) as Hids. unfold select_node. case_match eqn:Hc; [|done]. cbn.
  apply andb_true_iff in Hc as [[Hi H0]%andb_true_iff Hs]. apply bool_decide_eq_true in Hi.
  apply negb_true_iff, bool_decide_eq_false in H0. apply negb_true_iff, bool_decide_eq_false in Hs.
  apply with_selected_ok; [done| |].
  - apply NoDup_app. split_and!; [apply (ok_selected_nodup _ Hids)| |apply NoDup_singleton].
    intros x Hx ->%list_elem_of_singleton. done.
  - intros j. rewrite elem_of_app, list_elem_of_singleton. intros [Hj| ->]; [by apply (ok_selected _ Hids)|done].
Qed.

Lemma deselect_node_ok lower i t : tree_ok lower t → tree_ok lower (deselect_node i t).
Proof.
  intros Ht. pose proof (ok_ids _ _ Ht) as Hids. unfold deselect_node. case_match; [|done].
  apply with_selected_ok; [done|by apply NoDup_filter, (ok_selected_nodup _ Hids)|].
  intros j [_ Hj]%list_elem_of_filter. by apply (ok_selected _ Hids).
Qed.

Lemma deselect_all_ok lower t : tree_ok lower t → tree_ok lower (deselect_all t).
Proof. intros Ht. apply with_selected_ok; [done|constructor|]. by intros i Hi%elem_of_nil. Qed.

Lemma activate_node_ok lower i b t : tree_ok lower t → tree_ok lower (activate_node i b t).1.
Proof.
  intros Ht. unfold activate_node. case_match; cbn; [by apply deselect_node_ok|].
  by apply select_node_ok, deselect_all_ok.
Qed.

(** ** Deletion *)

Lemma app_cons_inv {A} (l1 l2 r1 r2 : list A) x y :
  l1 ++ x :: r1 = l2 ++ y :: r2 → x = y ∨ y ∈ r1 ∨ x ∈ r2.
Proof.
  revert l2. induction l1 as [|a l1 IH]; intros [|b l2]; cbn; intros [= ? He]; subst; try by left.
  - right. left. rewrite elem_of_app. right. by left.
  - right. right. rewrite elem_of_app. right. by left.
  - by apply (IH l2).
Qed.

(** Of two ancestors of a node one is above the other. *)
Lemma ancestors_linear m c x i j ni nj :
  links_ok m → m !! c = Some x → i ∈ parents x → j ∈ parents x →
  m !! i = Some ni → m !! j = Some nj → i = j ∨ j ∈ parents ni ∨ i ∈ parents nj.
Proof.
  intros Hm Hc Hi Hj Hni Hnj.
  destruct (ancestor_node m c x i Hm Hc Hi) as (x' & l & Hx' & Hl).
  destruct (ancestor_node m c x j Hm Hc Hj) as (y' & r & Hy' & Hr). simplify_eq.
  rewrite Hl in Hr. by apply app_cons_inv in Hr.
Qed.

(** A node [j] that stays when [i] below [e] is deleted with the nodes [g]. *)
Definition trimmed (e i : nat) (g ps : list nat) (j : nat) (x : node) : node :=
  Node (text x) (type x) (data x) (parents x)
       (if decide (j = e) then filter (.≠ i) (children x) else children x)
       (if decide (j ∈ ps) then filter (.∉ g) (children_d x) else children_d x).

Lemma delete_node_Some lower i t t' :
  tree_ok lower t → delete_node i t = (t', true) →
  ∃ n e ps, nodes t !! i = Some n ∧ parents n = e :: ps ∧
    (∀ j, nodes t' !! j = if decide (j ∈ children_d n ++ [i]) then None
                          else trimmed e i (children_d n ++ [i]) (parents n) j <$> nodes t !! j) ∧
    selected t' = filter (.∉ children_d n ++ [i]) (selected t) ∧ cnt t' = cnt t ∧
    (∀ j, is_Some (removed t' !! j) ↔
          is_Some (removed t !! j) ∨ (j ∈ children_d n ++ [i] ∧ is_Some (nodes t !! j))) ∧
    (∀ j, label <$> object t' j = label <$> object t j).
Proof.
  intros Ht. unfold delete_node. destruct (nodes t !! i) as [n|] eqn:Hi; [|done].
  unfold parent. destruct (parents n) as [|e ps] eqn:Hps; cbn -[filter]; [done|].
  destruct (bool_decide _); [done|]. intros [= <-]. exists n, e, ps. cbn -[filter].
  set (g := children_d n ++ [i]). rewrite <- Hps.
  assert (NoDup (parents n)) as Hnd by (by apply NoDup_cons_1_2 with i, (ok_nodup _ (ok_links _ _ Ht) i n Hi)).
  set (m := update_each _ _ _).
  assert (∀ j, m !! j = trimmed e i g (parents n) j <$> nodes t !! j) as Hm.
  { intros j. unfold m. rewrite (lookup_update_each _ _ _ _ Hnd). unfold trimmed.
    destruct (decide (j = e)) as [->|Hj]; [rewrite lookup_alter_eq|rewrite lookup_alter_ne by done].
    - case_decide; by destruct (nodes t !! e) as [[]|].
    - case_decide; by destruct (nodes t !! j) as [[]|]. }
  split_and!; try done.
  - intros j. case_decide as Hj.
    + apply map_lookup_filter_None_2. right. intros y _ Hg. by apply Hg.
    + rewrite <- Hm. destruct (m !! j) as [y|] eqn:Hy.
      * by apply map_lookup_filter_Some_2.
      * apply map_lookup_filter_None_2. by left.
  - intros j. rewrite lookup_union_is_Some. apply or_iff_compat_l. split.
    + intros [y [Hy Hg]%map_lookup_filter_Some]. split; [done|]. rewrite Hm in Hy.
      destruct (nodes t !! j); [eauto|done].
    + intros [Hg [x Hx]]. exists (trimmed e i g (parents n) j x). apply map_lookup_filter_Some_2; [|done].
      by rewrite Hm, Hx.
  - intros j. unfold object. cbn -[filter]. destruct (decide (j ∈ g)) as [Hg|Hg].
    + rewrite map_lookup_filter_None_2 by (right; intros ? _ H; by apply H).
      rewrite lookup_union. destruct (nodes t !! j) as [x|] eqn:Hx.
      * rewrite (ok_removed _ (ok_ids _ _ Ht) j) by eauto.
        rewrite (map_lookup_filter_Some_2 _ _ _ (trimmed e i g (parents n) j x)) by (try done; by rewrite Hm, Hx).
        done.
      * rewrite (map_lookup_filter_None_2 _ m) by (left; by rewrite Hm, Hx).
        by destruct (removed t !! j).
    + destruct (nodes t !! j) as [x|] eqn:Hx.
      * by rewrite (map_lookup_filter_Some_2 _ _ _ (trimmed e i g (parents n) j x)) by (try done; by rewrite Hm, Hx).
      * rewrite map_lookup_filter_None_2 by (left; by rewrite Hm, Hx). rewrite lookup_union.
        rewrite (map_lookup_filter_None_2 _ m) by (left; by rewrite Hm, Hx). by destruct (removed t !! j).
Qed.

Section deleted.
Context (lower : jstr → jstr) (t t' : tree) (i : nat) (n : node) (e : nat) (ps : list nat).
Let g := children_d n ++ [i].
Context (Ht : tree_ok lower t) (Hi : nodes t !! i = Some n) (Hps : parents n = e :: ps)
        (Hj : ∀ j, nodes t' !! j = if decide (j ∈ g) then None
                                   else trimmed e i g (parents n) j <$> nodes t !! j).

(** The nodes that go are [i] and those below it. *)
Lemma gone j x : nodes t !! j = Some x → (j ∈ g ↔ j = i ∨ i ∈ parents x).
Proof.
  intros Hx. unfold g. rewrite elem_of_app, list_elem_of_singleton, (ok_desc _ (ok_links _ _ Ht) i n j Hi).
  rewrite Hx. naive_solver.
Qed.

Lemma gone_node j : j ∈ g → is_Some (nodes t !! j).
Proof.
  unfold g. rewrite elem_of_app, list_elem_of_singleton, (ok_desc _ (ok_links _ _ Ht) i n j Hi).
  intros [(x & Hx & _)| ->]; eauto.
Qed.

Lemma deleted_inv j y :
  nodes t' !! j = Some y → ∃ x, nodes t !! j = Some x ∧ y = trimmed e i g (parents n) j x ∧ j ∉ g.
Proof.
  rewrite Hj. case_decide; [done|]. destruct (nodes t !! j) as [x|]; [|done]. intros [= <-]. eauto.
Qed.

Lemma deleted_get j x :
  nodes t !! j = Some x → j ∉ g → nodes t' !! j = Some (trimmed e i g (parents n) j x).
Proof. intros Hx Hg. by rewrite Hj, decide_False, Hx by done. Qed.

(** What is below a node that stays. *)
Lemma deleted_children j x c :
  nodes t !! j = Some x → j ∉ g →
  (c ∈ children (trimmed e i g (parents n) j x) ↔ c ∈ children x ∧ c ∉ g).
Proof.
  intros Hx Hg. assert (c ∈ children x → c ∈ g → c = i ∧ j = e) as Hc.
  { intros Hc. destruct (ok_down _ (ok_links _ _ Ht) j x c Hx Hc) as (z & Hz & Hpz).
    rewrite (gone c z Hz), Hpz, elem_of_cons. intros [Hci|[Hij|Ha]].
    - split; [done|]. congruence.
    - exfalso. apply Hg. rewrite (gone j x Hx). by left.
    - exfalso. apply Hg. rewrite (gone j x Hx). by right. }
  assert (i ∈ g) as Hig by (rewrite (gone i n Hi); by left).
  cbn -[filter]. destruct (decide (j = e)) as [Hje|Hne]; [rewrite list_elem_of_filter|]; naive_solver.
Qed.

Lemma deleted_children_d j x c :
  nodes t !! j = Some x → j ∉ g →
  (c ∈ children_d (trimmed e i g (parents n) j x) ↔ c ∈ children_d x ∧ c ∉ g).
Proof.
  intros Hx Hg. cbn -[filter]. destruct (decide (j ∈ parents n)) as [Ha|Ha].
  - rewrite list_elem_of_filter. naive_solver.
  - split; [|by intros [? _]]. intros Hc. split; [done|]. intros Hcg.
    apply (ok_desc _ (ok_links _ _ Ht) j x c Hx) in Hc as (z & Hz & Hjz).
    apply (gone c z Hz) in Hcg as [Hci|Hiz]; [congruence|].
    destruct (ancestors_linear _ c z i j n x (ok_links _ _ Ht) Hz Hiz Hjz Hi Hx) as [Hij|[?|Hix]]; [|done|].
    + apply Hg. by rewrite (gone j x Hx); left.
    + apply Hg. by rewrite (gone j x Hx); right.
Qed.

Lemma deleted_links : links_ok (nodes t').
Proof.
  pose proof (ok_links _ _ Ht) as Hl. split.
  - destruct (ok_hash _ Hl) as [h Hh]. eexists. apply deleted_get; [done|].
    rewrite (gone _ h Hh). apply (ok_top _ Hl) in Hh as Htop. rewrite (proj2 Htop eq_refl).
    intros [H0|[]%elem_of_nil]. apply (ok_top _ Hl) in Hi as Hti.
    rewrite (proj2 Hti (eq_sym H0)) in Hps. done.
  - intros j y Hy. destruct (deleted_inv j y Hy) as (x & Hx & -> & _).
    exact (ok_top _ Hl j x Hx).
  - intros p y c Hy Hc. destruct (deleted_inv p y Hy) as (x & Hx & -> & Hg).
    apply deleted_children in Hc as [Hc Hcg]; [|done..].
    destruct (ok_down _ Hl p x c Hx Hc) as (z & Hz & Hpz). eexists. by split; [apply deleted_get|].
  - intros c y p qs Hy Hp. destruct (deleted_inv c y Hy) as (x & Hx & -> & Hg).
    destruct (ok_up _ Hl c x p qs Hx Hp) as (z & Hz & -> & Hc).
    assert (p ∉ g) as Hpg.
    { rewrite (gone p z Hz). intros Hpi. apply Hg. rewrite (gone c x Hx). right. cbn in Hp. rewrite Hp, elem_of_cons.
      destruct Hpi as [Hpi|]; [left; congruence|by right]. }
    eexists. split_and!; [by apply deleted_get|done|]. by apply deleted_children.
  - intros a y c Hy. destruct (deleted_inv a y Hy) as (x & Hx & -> & Hg).
    rewrite deleted_children_d, (ok_desc _ Hl a x c Hx) by done. split.
    + intros [(z & Hz & Haz) Hcg]. eexists. by split; [apply deleted_get|].
    + intros (z' & Hz' & Haz). destruct (deleted_inv c z' Hz') as (z & Hz & -> & Hcg). eauto.
  - intros j y Hy. destruct (deleted_inv j y Hy) as (x & Hx & -> & _).
    destruct (ok_nodup _ Hl j x Hx) as [Hd1 Hd2]. cbn -[filter]. split; [|done].
    case_decide; [by apply NoDup_filter|done].
Qed.

Lemma deleted_ok :
  selected t' = filter (.∉ g) (selected t) → cnt t' = cnt t →
  (∀ j, is_Some (removed t' !! j) ↔ is_Some (removed t !! j) ∨ (j ∈ g ∧ is_Some (nodes t !! j))) →
  tree_ok lower t'.
Proof.
  intros Hsel Hcnt Hrem. pose proof (ok_kinds _ _ Ht) as Hk. pose proof (ok_ids _ _ Ht) as Hd.
  split; [apply deleted_links| | |].
  - split; intros j y Hy; destruct (deleted_inv j y Hy) as (x & Hx & -> & _); cbn -[filter].
    + exact (ok_type _ Hk j x Hx).
    + intros Hf. rewrite (ok_leaf _ Hk j x Hx Hf). by case_decide.
    + by apply (ok_root _ Hk j).
  - intros p y c d u v Hy Hc Hd' Hu Hv Huv. destruct (deleted_inv p y Hy) as (x & Hx & -> & Hg).
    apply deleted_children in Hc as [Hc _]; [|done..]. apply deleted_children in Hd' as [Hd' _]; [|done..].
    destruct (deleted_inv c u Hu) as (z & Hz & -> & _). destruct (deleted_inv d v Hv) as (w & Hw & -> & _).
    by eapply (ok_names _ _ Ht p x).
  - split.
    + rewrite Hsel. intros j [Hg Hjs]%list_elem_of_filter. apply (ok_selected _ Hd) in Hjs as [[x Hx] ?].
      split; [|done]. eexists. by apply deleted_get.
    + rewrite Hsel. apply NoDup_filter, (ok_selected_nodup _ Hd).
    + intros j. rewrite Hcnt, Hrem. intros H. apply (ok_cnt _ Hd). destruct H as [[y Hy]|[?|[_ ?]]]; [|by right|by left].
      destruct (deleted_inv j y Hy) as (x & Hx & _). left. eauto.
    + intros j [y Hy]. destruct (deleted_inv j y Hy) as (x & Hx & _ & Hg). apply eq_None_not_Some.
      rewrite Hrem. intros [Hr|[? _]]; [|done]. rewrite (ok_removed _ Hd j) in Hr by eauto. by destruct Hr.
Qed.
End deleted.

Lemma delete_node_ok lower i t : tree_ok lower t → tree_ok lower (delete_node i t).1.
Proof.
  intros Ht. destruct (delete_node i t) as [t' []] eqn:Hd.
  - destruct (delete_node_Some _ _ _ _ Ht Hd) as (n & e & ps & Hi & Hps & Hj & Hsel & Hcnt & Hrem & _).
    by eapply deleted_ok.
  - revert Hd. unfold delete_node. by repeat case_match; intros; simplify_eq.
Qed.

Lemma delete_nodes_ok lower l t : tree_ok lower t → tree_ok lower (delete_nodes l t).1.
Proof.
  unfold delete_nodes. change t with (t, false).1 at 1. generalize (t, false).
  induction l as [|i l IH]; intros [u b] Hu; cbn in *; [done|]. apply IH. cbn. by apply delete_node_ok.
Qed.

(** ** Names of new nodes *)

(** Bytes that [toLowerCase] leaves as they are. *)
Definition plain (a : ascii) : bool :=
  bool_decide (nat_of_ascii a ≤ 127) && negb (bool_decide (65 ≤ nat_of_ascii a ≤ 90)).

Definition lower_plain (lower : jstr → jstr) : Prop := ∀ s, forallb plain s = true → lower s = s.

Lemma plain_pretty_N x s : forallb plain (str s) = true → forallb plain (str (pretty_N_go x s)) = true.
Proof.
  revert s. induction (N.lt_wf_0 x) as [x _ IH]; intros s Hs.
  destruct (decide (0 < x)%N) as [Hx|Hx]; [|by replace x with 0%N by lia].
  rewrite pretty_N_go_step by done. apply IH; [by apply N.div_lt; lia|].
  change (str (String (pretty_N_char (x `mod` 10)) s)) with (pretty_N_char (x `mod` 10) :: str s).
  cbn. rewrite Hs, andb_true_r.
  assert (x `mod` 10 < 10)%N as Hc by (apply N.mod_lt; lia). generalize dependent (x `mod` 10)%N.
  intros k Hk. assert (k = 0 ∨ k = 1 ∨ k = 2 ∨ k = 3 ∨ k = 4 ∨ k = 5 ∨ k = 6 ∨ k = 7 ∨ k = 8 ∨ k = 9)%N by lia.
  by destruct_or!; subst.
Qed.

Lemma plain_pretty (k : nat) : forallb plain (str (pretty k)) = true.
Proof. unfold pretty, pretty_nat, pretty, pretty_N. case_decide; [done|]. by apply plain_pretty_N. Qed.

Lemma new_name_plain k : forallb plain (new_name k) = true.
Proof.
  unfold new_name. case_decide; [done|]. rewrite !forallb_app, plain_pretty. done.
Qed.

Lemma jstr_inj s1 s2 : str s1 = str s2 → s1 = s2.
Proof.
  intros H. unfold str in H. rewrite <- (String.string_of_list_ascii_of_string s1), H.
  apply String.string_of_list_ascii_of_string.
Qed.

Lemma new_name_inj j k : new_name j = new_name k → j = k.
Proof.
  unfold new_name. do 2 case_decide; subst; try done.
  intros H1. by apply app_inv_head, app_inv_head, app_inv_tail, jstr_inj, (inj pretty) in H1.
Qed.

Lemma unique_name_None lower fuel k taken :
  unique_name lower fuel k taken = None → ∀ j, k ≤ j < k + fuel → lower (new_name j) ∈ taken.
Proof.
  revert k. induction fuel as [|fuel IH]; cbn; intros k Hn j Hj; [lia|].
  destruct (js_includes _ _) eqn:Hk; [|done]. destruct (decide (j = k)) as [->|].
  - by apply js_includes_true in Hk.
  - apply (IH (S k)); [done|lia].
Qed.

(** The loop over the names ends with a free name. *)
Lemma unique_name_total lower taken :
  lower_plain lower → is_Some (unique_name lower (S (length taken)) 1 taken).
Proof.
  intros Hl. destruct (unique_name _ _ _ _) as [s|] eqn:Hn; [by exists s|].
  pose proof (unique_name_None _ _ _ _ Hn) as Hin.
  assert (NoDup (map new_name (seq 1 (S (length taken))))) as Hnd.
  { apply NoDup_fmap_2_strong; [|apply NoDup_seq]. intros ? ? _ _. apply new_name_inj. }
  apply NoDup_submseteq with (k := taken) in Hnd; [apply submseteq_length in Hnd|].
  - rewrite length_map, length_seq in Hnd. lia.
  - intros x (j & -> & Hj%elem_of_seq)%list_elem_of_fmap. rewrite <- (Hl _ (new_name_plain j)). apply Hin. lia.
Qed.

Lemma length_texts lower m t cs :
  nodes t = m → (∀ c, c ∈ cs → is_Some (m !! c)) → length (texts lower t cs) = length cs.
Proof.
  intros <-. induction cs as [|c cs IH]; cbn; intros H; [done|].
  destruct (H c) as [x ->]; [by left|]. cbn. f_equal. apply IH. intros d Hd. apply H. by right.
Qed.

Lemma create_node_total lower p n ty first t :
  lower_plain lower → tree_ok lower t → nodes t !! p = Some n → type n ≠ Tfile →
  (create_node lower (Some p) ty first t).2 = Some (cnt t).
Proof.
  intros Hl Ht Hp Hn. unfold create_node. cbn -[unique_name]. rewrite Hp. cbn -[unique_name].
  assert (length (texts lower t (children n)) = length (children n)) as <-.
  { eapply length_texts; [done|]. intros c Hc.
    destruct (ok_down _ (ok_links _ _ Ht) p n c Hp Hc) as (x & Hx & _). eauto. }
  destruct (unique_name_total lower (texts lower t (children n)) Hl) as [s ->].
  by destruct (type n).
Qed.

(** ** The tree as JSON *)

Fixpoint json_nodes (j : json_node) : list (nat * jstr * ntype * option jstr) :=
  match j with JNode i s ty d cs => (i, s, ty, d) :: concat (map json_nodes cs) end.

Definition entry (i : nat) (n : node) : nat * jstr * ntype * option jstr := (i, text n, type n, data n).

Lemma ancestor_tail m c n l a r :
  links_ok m → m !! c = Some n → parents n = l ++ a :: r → ∃ x, m !! a = Some x ∧ parents x = r.
Proof.
  intros Hm. revert c n. induction l as [|b l IH]; intros c n Hc Hp.
  - destruct (ok_up _ Hm c n a r Hc Hp) as (x & Hx & -> & _). eauto.
  - destruct (ok_up _ Hm c n b _ Hc Hp) as (x & Hx & Hpx & _). by apply (IH b x).
Qed.

(** A node below [i] is below a child of [i], or is one. *)
Lemma below_child m i n k x :
  links_ok m → m !! i = Some n → m !! k = Some x → i ∈ parents x →
  ∃ c, c ∈ children n ∧ (k = c ∨ c ∈ parents x).
Proof.
  intros Hm Hi Hk Hik. apply list_elem_of_split in Hik as (l & r & Hp).
  destruct l as [|c l] using rev_ind.
  - destruct (ok_up _ Hm k x i r Hk Hp) as (y & Hy & _ & Hc). simplify_eq. eauto.
  - rewrite <- app_assoc in Hp. cbn in Hp. destruct (ancestor_tail m k x l c (i :: r) Hm Hk Hp) as (y & Hy & Hpy).
    destruct (ok_up _ Hm c y i r Hy Hpy) as (z & Hz & _ & Hc). simplify_eq. exists c. split; [done|]. right.
    rewrite Hp, elem_of_app. right. by left.
Qed.

Lemma parents_bound m i n : links_ok m → m !! i = Some n → S (length (parents n)) ≤ size m.
Proof.
  intros Hm Hi. change (S (length (parents n))) with (length (i :: parents n)).
  rewrite <- size_dom. rewrite <- (size_list_to_set (C := gset nat) (i :: parents n)) by apply (ok_nodup _ Hm i n Hi).
  apply subseteq_size. intros j. rewrite elem_of_list_to_set, elem_of_cons, elem_of_dom.
  intros [->|Hj]; [eauto|]. by eapply ancestor_is_node.
Qed.

Lemma top_ancestor m k x : links_ok m → m !! k = Some x → k ≠ hash_id → hash_id ∈ parents x.
Proof.
  intros Hm. remember (parents x) as ps eqn:Hps. revert k x Hps.
  induction ps as [|p ps IH]; intros k x Hps Hk Hne; [by apply eq_sym, (ok_top _ Hm _ _ Hk) in Hps|].
  destruct (ok_up _ Hm k x p ps Hk (eq_sym Hps)) as (y & Hy & Hpy & _).
  destruct (decide (p = hash_id)) as [->|]; [by left|right]. by eapply IH.
Qed.

Definition json_below (t : tree) (i : nat) (js : list json_node) : Prop :=
  ∀ r, r ∈ concat (map json_nodes js) ↔ ∃ k x, nodes t !! k = Some x ∧ r = entry k x ∧ i ∈ parents x.

Lemma get_json_below t fuel i n :
  links_ok (nodes t) → nodes t !! i = Some n → size (nodes t) ≤ fuel + S (length (parents n)) →
  ∃ js, mapM (get_json fuel t) (children n) = Some js ∧ json_below t i js.
Proof.
  intros Ht. revert i n. induction fuel as [|fuel IH]; intros i n Hi Hs.
  - exists []. assert (children n = []) as ->.
    { destruct (children n) as [|c cs] eqn:Hc; [done|].
      destruct (ok_down _ Ht i n c Hi) as (x & Hx & Hpx); [rewrite Hc; by left|].
      pose proof (parents_bound _ c x Ht Hx) as Hb. rewrite Hpx in Hb. cbn in Hb. lia. }
    split; [done|]. intros r. cbn. split; [by intros []%elem_of_nil|]. intros (k & x & Hk & -> & Hik).
    pose proof (parents_bound _ k x Ht Hk) as Hb.
    destruct (ancestor_node _ k x i Ht Hk Hik) as (n' & l & Hn' & Hl). simplify_eq.
    rewrite Hl, length_app in Hb. cbn in Hb. lia.
  - assert (∀ cs, (∀ c, c ∈ cs → c ∈ children n) →
      ∃ js, mapM (get_json (S fuel) t) cs = Some js ∧
        ∀ r, r ∈ concat (map json_nodes js) ↔
             ∃ c k x, c ∈ cs ∧ nodes t !! k = Some x ∧ r = entry k x ∧ (k = c ∨ c ∈ parents x)) as Hcs.
    { induction cs as [|c cs IHcs]; intros Hin.
      - exists []. split; [done|]. intros r. cbn. split; [by intros []%elem_of_nil|].
        by intros (c & ? & ? & []%elem_of_nil & _).
      - destruct (ok_down _ Ht i n c Hi (Hin c (proj2 (elem_of_cons _ _ _) (or_introl eq_refl)))) as (x & Hx & Hpx).
        destruct (IH c x Hx) as (j & Hj & Hr); [rewrite Hpx; cbn; lia|].
        destruct IHcs as (js & Hjs & Hrs); [intros d Hd; apply Hin; by right|].
        exists (JNode c (text x) (type x) (data x) j :: js).
        change (mapM (get_json (S fuel) t) (c :: cs)) with
          (y ← get_json (S fuel) t c; k ← mapM (get_json (S fuel) t) cs; Some (y :: k)).
        rewrite Hjs. cbn. rewrite Hx, Hj. split; [done|]. intros r.
        rewrite elem_of_cons, elem_of_app, Hrs, (Hr r). setoid_rewrite elem_of_cons. split.
        + intros [->|[(k & y & ? & ? & ?)|(d & k & y & ? & Hy)]];
            [exists c, c, x|exists c, k, y|exists d, k, y]; eauto 10.
        + intros (d & k & y & [->|Hd] & Hk & -> & Hor); [|right; right; by exists d, k, y].
          destruct Hor as [->|]; [left; by simplify_eq|right; left; eauto]. }
    destruct (Hcs (children n) (λ c Hc, Hc)) as (js & -> & Hjs). eexists. split; [done|].
    intros r. rewrite Hjs. split.
    + intros (c & k & x & Hc & Hk & -> & Hor). exists k, x. split_and!; [done..|].
      destruct (ok_down _ Ht i n c Hi Hc) as (y & Hy & Hpy). destruct Hor as [->|Hcx].
      * simplify_eq. rewrite Hpy. by left.
      * destruct (ancestor_node _ k x c Ht Hk Hcx) as (y' & l & Hy' & Hl). simplify_eq.
        rewrite Hl, Hpy, elem_of_app. right. right. by left.
    + intros (k & x & Hk & -> & Hix).
      destruct (below_child _ i n k x Ht Hi Hk Hix) as (c & Hc & Hor). by exists c, k, x.
Qed.

(** What is sent to the server has every node with its name, its type and its content's
    sum. *)
Lemma get_json_all_nodes t :
  links_ok (nodes t) →
  ∃ js, get_json_all t = Some js ∧
    ∀ r, r ∈ concat (map json_nodes js) ↔ ∃ k x, nodes t !! k = Some x ∧ k ≠ hash_id ∧ r = entry k x.
Proof.
  intros Ht. destruct (ok_hash _ Ht) as [h Hh].
  destruct (get_json_below t (size (nodes t)) hash_id h Ht Hh) as (js & Hjs & Hr); [lia|].
  exists js. unfold get_json_all. rewrite Hh. split; [done|]. intros r. rewrite (Hr r). split.
  - intros (k & x & Hk & -> & Hx). exists k, x. split_and!; [done| |done]. intros ->.
    rewrite (proj2 (ok_top _ Ht _ _ Hk) eq_refl) in Hx. by apply elem_of_nil in Hx.
  - intros (k & x & Hk & Hne & ->). exists k, x. split_and!; [done..|]. by eapply top_ancestor.
Qed.

(** ** What the methods leave as it is *)

(** Type and sum of a node. *)
Definition info (n : node) : ntype * option jstr := (type n, data n).

Lemma info_label (o o' : option node) : label <$> o = label <$> o' → info <$> o = info <$> o'.
Proof. destruct o as [x|], o' as [y|]; cbn; try done. intros [= _ H1 H2]. unfold info. by rewrite H1, H2. Qed.

Lemma create_node_nodes lower p ty first t :
  tree_ok lower t →
  let (t', o) := create_node lower p ty first t in
  selected t' = selected t ∧ removed t' = removed t ∧
  (∀ j, j ≠ cnt t → label <$> nodes t' !! j = label <$> nodes t !! j) ∧
  match o with
  | Some i => i = cnt t ∧ info <$> nodes t' !! i = Some (ty, None) ∧ (∀ a n, p = Some a → nodes t !! a = Some n → type n ≠ Tfile)
  | None => t' = t
  end.
Proof.
  intros Ht. destruct (create_node lower p ty first t) as [t' [i|]] eqn:Hc.
  - destruct (create_node_Some _ _ _ _ _ _ _ Ht Hc)
      as (a & n & name & -> & Ha & Hfile & -> & Hname & Hsel & Hcnt & Hrem & Hi & Hj).
    split_and!; try done.
    + intros j Hne. rewrite Hj by done. by destruct (nodes t !! j).
    + by rewrite Hi.
    + intros a' n' [= <-] Hn'. congruence.
  - assert (t' = t) as ->; [|done]. revert Hc. unfold create_node. by repeat case_match; intros; simplify_eq.
Qed.

Lemma rename_node_nodes lower i s t :
  selected (rename_node lower i s t) = selected t ∧ removed (rename_node lower i s t) = removed t ∧
  cnt (rename_node lower i s t) = cnt t ∧
  ∀ j, info <$> nodes (rename_node lower i s t) !! j = info <$> nodes t !! j.
Proof.
  unfold rename_node. repeat case_match; try done. split_and!; try done. intros j. cbn.
  destruct (decide (j = i)) as [->|]; [rewrite lookup_alter_eq|by rewrite lookup_alter_ne].
  by destruct (nodes t !! i).
Qed.

Lemma object_assign_data i d t j :
  object (assign_data i d t) j = (if decide (j = i) then set_data d else id) <$> object t j.
Proof.
  unfold object. cbn. destruct (decide (j = i)) as [->|].
  - rewrite !lookup_alter_eq. by destruct (nodes t !! i), (removed t !! i).
  - rewrite !lookup_alter_ne by done. by destruct (nodes t !! j), (removed t !! j).
Qed.

(** Objects keep type and sum. *)
Definition keeps_info (t t' : tree) : Prop :=
  ∀ j n, object t' j = Some n → data n = None ∨ info <$> object t j = Some (info n).

Lemma create_node_keeps lower p ty first t :
  tree_ok lower t → keeps_info t (create_node lower p ty first t).1 ∧
  ∀ j, is_Some (object t j) → is_Some (object (create_node lower p ty first t).1 j).
Proof.
  intros Ht. pose proof (create_node_nodes lower p ty first t Ht) as H.
  destruct (create_node lower p ty first t) as [t' o]. cbn. destruct H as (_ & Hr & Hj & Ho).
  assert (∀ j, j ≠ cnt t → label <$> object t' j = label <$> object t j) as Hobj.
  { intros j Hne. unfold object. rewrite Hr. specialize (Hj j Hne).
    destruct (nodes t' !! j), (nodes t !! j); try done. }
  assert (object t (cnt t) = None) as Hnew.
  { unfold object. rewrite fresh_node by eauto with js. apply eq_None_not_Some. intros H.
    pose proof (ok_cnt _ (ok_ids _ _ Ht) (cnt t) (or_intror H)). lia. }
  split.
  - intros j n Hn. destruct (decide (j = cnt t)) as [->|Hne].
    + left. destruct o as [i|]; [destruct Ho as (-> & Hi & _)|subst; congruence].
      unfold object in Hn. destruct (nodes t' !! cnt t) as [x|]; [|done]. simplify_eq/=.
      by injection Hi as _ ->.
    + right. rewrite <- (info_label _ _ (Hobj j Hne)), Hn. done.
  - intros j [x Hx]. destruct (decide (j = cnt t)) as [->|Hne]; [congruence|].
    rewrite <- (fmap_is_Some label), (Hobj j Hne), Hx. by eexists.
Qed.

Lemma rename_node_keeps lower i s t :
  keeps_info t (rename_node lower i s t) ∧
  ∀ j, is_Some (object t j) → is_Some (object (rename_node lower i s t) j).
Proof.
  destruct (rename_node_nodes lower i s t) as (_ & Hr & _ & Hj).
  assert (∀ j, info <$> object (rename_node lower i s t) j = info <$> object t j) as Hobj.
  { intros j. unfold object. rewrite Hr. specialize (Hj j).
    destruct (nodes (rename_node lower i s t) !! j), (nodes t !! j); try done. }
  split.
  - intros j n Hn. right. rewrite <- Hobj, Hn. done.
  - intros j Hx. by rewrite <- (fmap_is_Some info), Hobj, fmap_is_Some.
Qed.

Lemma delete_node_keeps lower i t :
  tree_ok lower t → ∀ j, label <$> object (delete_node i t).1 j = label <$> object t j.
Proof.
  intros Ht j. destruct (delete_node i t) as [t' []] eqn:Hd.
  - by destruct (delete_node_Some _ _ _ _ Ht Hd) as (n & e & ps & _ & _ & _ & _ & _ & _ & Hl).
  - assert (t' = t) as ->; [|done]. revert Hd. unfold delete_node. by repeat case_match; intros; simplify_eq.
Qed.

Lemma delete_nodes_keeps lower l t :
  tree_ok lower t → ∀ j, label <$> object (delete_nodes l t).1 j = label <$> object t j.
Proof.
  intros Ht j. unfold delete_nodes. change t with (t, false).1 at 2.
  assert (tree_ok lower (t, false).1) as Hu by done. clear Ht. revert Hu. generalize (t, false).
  induction l as [|i l IH]; intros [u b] Hu; cbn in *; [done|]. rewrite IH; cbn; [|by apply delete_node_ok].
  by apply (delete_node_keeps lower).
Qed.

Lemma select_node_nodes i t :
  nodes (select_node i t).1 = nodes t ∧ removed (select_node i t).1 = removed t.
Proof. unfold select_node. by case_match. Qed.

Lemma deselect_node_nodes i t : nodes (deselect_node i t) = nodes t ∧ removed (deselect_node i t) = removed t.
Proof. unfold deselect_node. by case_match. Qed.

Lemma activate_node_nodes i b t :
  nodes (activate_node i b t).1 = nodes t ∧ removed (activate_node i b t).1 = removed t.
Proof. unfold activate_node. case_match; cbn; [apply deselect_node_nodes|apply (select_node_nodes i (deselect_all t))]. Qed.

End FileTree.
