(* ===== verification/Md5.v ===== *)
(** * The sum of a file

    The sum under which the server keeps a file: [file_checksum] of bridge/utils.py feeds
    the bytes of the file, chunk by chunk, to the MD5 of Python's hashlib and takes the
    hexadecimal digest. MD5 is written out after RFC 1321 on 32-bit words. *)

From Stdlib Require Import Ascii ZArith.
From S2P Require Import Prelude Url.
Import Url.

Module Md5.

Local Open Scope Z_scope.

(** ** Words of 32 bits *)

Definition mask : Z := Z.ones 32.
Definition word_add (a b : Z) : Z := Z.land (a + b) mask.
Definition word_not (a : Z) : Z := Z.lxor a mask.
Definition rotate_left (a c : Z) : Z := Z.lor (Z.land (Z.shiftl a c) mask) (Z.shiftr a (32 - c)).

(** The [n] low bytes of [w], the lowest first, and the word of some bytes. *)
Fixpoint le_bytes (n : nat) (w : Z) : list Z :=
  match n with O => [] | S n => Z.land w 255 :: le_bytes n (Z.shiftr w 8) end.
Fixpoint le_word (bs : list Z) : Z :=
  match bs with [] => 0 | b :: bs => Z.lor b (Z.shiftl (le_word bs) 8) end.

(** ** The rounds *)

Definition sines : list Z :=
  [
0xd76aa478; 0xe8c7b756; 0x242070db; 0xc1bdceee;
   0xf57c0faf; 0x4787c62a; 0xa8304613; 0xfd469501;
   0x698098d8; 0x8b44f7af; 0xffff5bb1; 0x895cd7be;
   0x6b901122; 0xfd987193; 0xa679438e; 0x49b40821;
   0xf61e2562; 0xc040b340; 0x265e5a51; 0xe9b6c7aa;
   0xd62f105d; 0x02441453; 0xd8a1e681; 0xe7d3fbc8;
   0x21e1cde6; 0xc33707d6; 0xf4d50d87; 0x455a14ed;
   0xa9e3e905; 0xfcefa3f8; 0x676f02d9; 0x8d2a4c8a;
   0xfffa3942; 0x8771f681; 0x6d9d6122; 0xfde5380c;
   0xa4beea44; 0x4bdecfa9; 0xf6bb4b60; 0xbebfbc70;
   0x289b7ec6; 0xeaa127fa; 0xd4ef3085; 0x04881d05;
   0xd9d4d039; 0xe6db99e5; 0x1fa27cf8; 0xc4ac5665;
   0xf4292244; 0x432aff97; 0xab9423a7; 0xfc93a039;
   0x655b59c3; 0x8f0ccc92; 0xffeff47d; 0x85845dd1;
   0x6fa87e4f; 0xfe2ce6e0; 0xa3014314; 0x4e0811a1;
   0xf7537e82; 0xbd3af235; 0x2ad7d2bb; 0xeb86d391].
Definition rotations : list Z :=
  concat (map (λ r, concat (replicate 4 r)) [[7; 12; 17; 22]; [5; 9; 14; 20]; [4; 11; 16; 23]; [6; 10; 15; 21]]).

Definition round_fun (i : nat) (b c d : Z) : Z * nat :=
  match (i / 16)%nat with
  | 0%nat => (Z.lor (Z.land b c) (Z.land (word_not b) d), i)
  | 1%nat => (Z.lor (Z.land d b) (Z.land (word_not d) c), (5 * i + 1)%nat)
  | 2%nat => (Z.lxor b (Z.lxor c d), (3 * i + 5)%nat)
  | _ => (Z.lxor c (Z.lor b (word_not d)), (7 * i)%nat)
  end.

Definition abcd : Type := Z * Z * Z * Z.

Definition round (words : list Z) (s : abcd) (i : nat) : abcd :=
  let '(a, b, c, d) := s in
  let '(f, g) := round_fun i b c d in
  let sum := word_add (word_add (word_add a f) (nth i sines 0)) (nth (g mod 16) words 0) in
  (d, word_add b (rotate_left sum (nth i rotations 0)), b, c).

(** One block of 64 bytes. *)
Definition block (s : abcd) (bytes : list Z) : abcd :=
  let words := map (λ k, le_word (take 4 (drop (4 * k) bytes))) (seq 0 16) in
  let '(a, b, c, d) := s in
  let '(a', b', c', d') := foldl (round words) s (seq 0 64) in
  (word_add a a', word_add b b', word_add c c', word_add d d').

Fixpoint blocks (n : nat) (s : abcd) (bytes : list Z) : abcd :=
  match n with O => s | S n => blocks n (block s (take 64 bytes)) (drop 64 bytes) end.

(** The message with a bit 1, zeros, and its length in bits. *)
Definition padded (bytes : list Z) : list Z :=
  bytes ++ [128] ++ replicate ((119 - length bytes mod 64) mod 64) 0 ++ le_bytes 8 (8 * Z.of_nat (length bytes)).

Definition md5 (bytes : list Z) : list Z :=
  let p := padded bytes in
  let '(a, b, c, d) := blocks (length p / 64) (0x67452301, 0xefcdab89, 0x98badcfe, 0x10325476) p in
  concat (map (le_bytes 4) [a; b; c; d]).

(** ** The digest *)

Definition hex_digit (n : Z) : ascii := nth (Z.to_nat n) (str "0123456789abcdef") "0"%char.
Definition hex_byte (b : Z) : jstr := [hex_digit (Z.shiftr b 4); hex_digit (Z.land b 15)].
Definition hexdigest (bytes : list Z) : jstr := concat (map hex_byte (md5 bytes)).

Definition bytes_of (s : jstr) : list Z := map (λ a, Z.of_N (N_of_ascii a)) s.

(** [f.read(8 * 1024)] until nothing is left; the object of hashlib is what it was fed. *)
Fixpoint read_loop (fuel : nat) (size : nat) (f fed : jstr) : jstr :=
  match fuel with
  | O => fed
  | S fuel =>
      match take size f with
      | [] => fed
      | data => read_loop fuel size (drop size f) (fed ++ data)
      end
  end.
Definition file_checksum (f : jstr) : jstr :=
  hexdigest (bytes_of (read_loop (S (length f)) (8 * 1024)%nat f [])).

(** ** The loop reads the file *)

Lemma read_loop_all fuel size f fed :
  (0 < size)%nat → (length f < fuel)%nat → read_loop fuel size f fed = fed ++ f.
Proof.
  intros Hs. revert f fed. induction fuel as [|fuel IH]; intros f fed Hf; [lia|]. cbn.
  destruct f as [|a f]; [by rewrite take_nil, app_nil_r|].
  destruct size as [|size]; [lia|]. cbn [take drop].
  rewrite IH; [rewrite <- app_assoc; cbn; by rewrite take_drop|].
  rewrite length_drop. cbn in Hf. lia.
Qed.

Lemma file_checksum_md5 f : file_checksum f = hexdigest (bytes_of f).
Proof.
  unfold file_checksum. rewrite read_loop_all; [done| |lia].
  apply Nat.mul_pos_pos; [lia|]. apply (bool_decide_unpack _). vm_compute. exact I.
Qed.

(** A digest has 32 digits. *)
Lemma length_le_bytes n w : length (le_bytes n w) = n.
Proof. revert w. induction n as [|n IH]; intros w; cbn; [done|]. by rewrite IH. Qed.

Lemma length_hex l : length (concat (map hex_byte l)) = (2 * length l)%nat.
Proof. induction l as [|b l IH]; [done|]. cbn. rewrite IH. lia. Qed.

Lemma file_checksum_length f : length (file_checksum f) = 32%nat.
Proof.
  rewrite file_checksum_md5. unfold hexdigest. rewrite length_hex. unfold md5.
  destruct (blocks _ _ _) as [[[a b] c] d]. cbn [map concat]. rewrite !length_app, !length_le_bytes. done.
Qed.

(** The test suite of RFC 1321. *)
Example digest_of_nothing : file_checksum [] = str "d41d8cd98f00b204e9800998ecf8427e".
Proof. vm_compute. reflexivity. Qed.
Example digest_of_abc : file_checksum (str "abc") = str "900150983cd24fb0d6963f7d28e17f72".
Proof. vm_compute. reflexivity. Qed.
Example digest_of_digits :
  file_checksum (str "12345678901234567890123456789012345678901234567890123456789012345678901234567890") =
  str "57edf4a22be3c955ac49da2e2107b67a".
Proof. vm_compute. reflexivity. Qed.

End Md5.
