(* ===== verification/FilesEditor.v ===== *)
(** * The editor of the files of a decision

    The page that creates a decision (decisionFilesEdit.js and the script of
    decisionCreateForm.html): a tree of files, a CodeMirror editor that shows the file
    that is selected, a server that stores contents under their sums, and the requests
    and timers whose callbacks have not run yet. The page is a machine whose events are
    what the user does and the answers that arrive; a callback reads and changes the
    state of the moment it runs, with the nodes it captured. *)

From Stdlib Require Import Ascii.
From S2P Require Import Prelude Url Views FileTree.
Import Url Views FileTree.

Module FilesEditor.

(** ** The text editor *)

Inductive hmode := Json | Csrc | Xml | Python | Yaml | PlainText.

(** A CodeMirror editor: the lines of the document, the documents its history goes back
    and forth to, the [undoDepth] of the history ([None] for [Infinity]), and the options
    [readOnly] and [mode]. *)
Record mirror := Mirror {
  lines : list jstr;
  hist_done : list (list jstr);
  hist_undone : list (list jstr);
  undoDepth : option nat;
  readOnly : bool;
  mode : hmode;
}.

Definition LF : ascii := ascii_of_nat 10.
Definition CR : ascii := ascii_of_nat 13.

(** [string.split(/\r\n?|\n/)] *)
Fixpoint splitLines (s : jstr) : list jstr :=
  match s with
  | [] => [[]]
  | a :: s =>
      if decide (a = LF) then [] :: splitLines s
      else if decide (a = CR) then
        match s with
        | b :: s' => if decide (b = LF) then [] :: splitLines s' else [] :: splitLines s
        | [] => [[]; []]
        end
      else match splitLines s with
           | w :: ws => (a :: w) :: ws
           | [] => [[a]]
           end
  end.

Definition getValue (m : mirror) : jstr := join [LF] (lines m).

(** The loop of [addChangeToHistory]: a history with a depth drops its oldest entries. A
    change takes two entries, itself and the selection before it; what else moves the
    cursor is not modelled. A history that was cleared has no depth. *)
Definition keep_recent (depth : option nat) (l : list (list jstr)) : list (list jstr) :=
  match depth with Some n => take (n / 2) l | None => l end.

(** A change of the whole document that starts an event of the history. *)
Definition change_lines (ls : list jstr) (m : mirror) : mirror :=
  Mirror ls (keep_recent (undoDepth m) (lines m :: hist_done m)) [] (undoDepth m) (readOnly m) (mode m).
Definition setValue (code : jstr) (m : mirror) : mirror := change_lines (splitLines code) m.

(** [new History(...)], whose [undoDepth] is [Infinity] whatever the option says. *)
Definition clearHistory (m : mirror) : mirror := Mirror (lines m) [] [] None (readOnly m) (mode m).
Definition setReadOnly (b : bool) (m : mirror) : mirror :=
  Mirror (lines m) (hist_done m) (hist_undone m) (undoDepth m) b (mode m).
Definition setMode (h : hmode) (m : mirror) : mirror :=
  Mirror (lines m) (hist_done m) (hist_undone m) (undoDepth m) (readOnly m) h.

(** What the user writes; [joined] when the change is merged into the last event. *)
Definition write_lines (ls : list jstr) (joined : bool) (m : mirror) : mirror :=
  match hist_done m with
  | d :: ds => if joined then Mirror ls (d :: ds) [] (undoDepth m) (readOnly m) (mode m) else change_lines ls m
  | [] => change_lines ls m
  end.

Definition undo (m : mirror) : option mirror :=
  match hist_done m with
  | d :: ds => Some (Mirror d ds (lines m :: hist_undone m) (undoDepth m) (readOnly m) (mode m))
  | [] => None
  end.
Definition redo (m : mirror) : option mirror :=
  match hist_undone m with
  | d :: ds => Some (Mirror d (lines m :: hist_done m) ds (undoDepth m) (readOnly m) (mode m))
  | [] => None
  end.

(** ** State *)

(** A span of the cache: its attribute [data-hashsum], what [.data] stored with it, its
    text. *)
Record span := Span { attribute : option jstr; span_data : option jstr; span_text : jstr }.

(** The editor: status 'unsaved' displayed, title, cache. *)
Record editor := Editor {
  mirror_of : mirror;
  editor_status : bool;
  editor_filename : jstr;
  editor_cache : list span;
}.

(** A modal window with a file: its inputs; [loading] is the class of its button. *)
Record modal := Modal {
  shown : bool;
  loading : bool;
  name_input : jstr;
  file_input : option (jstr * jstr);
}.

(** The callers of [commit_file]: the keys Ctrl-S, and the button that saves and
    proceeds. *)
Inductive caller := Keys | Proceed.

(** Requests with what their callbacks captured. *)
Inductive request :=
| RGet (node : nat) (hashsum : jstr)
| RCommit (who : caller) (node : nat) (content : jstr)
| RReplace (name content : jstr)
| RUpload (name content : jstr).

(** The timeout of [add_file_node]. *)
Inductive timer := TAdd (new parent : nat) (filename hashsum : jstr).

Inductive notice :=
| Err (message : jstr)
| Success (message : jstr)
| Uncaught
| Location (url : jstr)
| Posted (files : option (list json_node))
| CustomForm.

Inductive next := NDefault | NCustom.

(** The items of the context menu of a node. *)
Inductive item := CreateFolder | CreateFile | UploadFile | Replace | Download | Rename | Remove.

#[export] Instance item_eq_dec : EqDecision item.
Proof. solve_decision. Defined.

Record page := Page {
  tree_obj : tree;
  ed : editor;
  replace_modal : modal;
  upload_modal : modal;
  pending : list request;
  timers : list timer;
  store : gmap jstr jstr;
  next_step : option next;
  warning_shown : bool;
  context : option (nat * list item);
  editing : option (nat * jstr);
  notices : list notice;
}.

Definition set_mirror (m : mirror) (e : editor) : editor :=
  Editor m (editor_status e) (editor_filename e) (editor_cache e).
Definition set_status (b : bool) (e : editor) : editor :=
  Editor (mirror_of e) b (editor_filename e) (editor_cache e).
Definition set_filename (s : jstr) (e : editor) : editor :=
  Editor (mirror_of e) (editor_status e) s (editor_cache e).
Definition add_span (s : span) (e : editor) : editor :=
  Editor (mirror_of e) (editor_status e) (editor_filename e) (editor_cache e ++ [s]).

Definition set_tree (t : tree) (p : page) : page :=
  Page t (ed p) (replace_modal p) (upload_modal p) (pending p) (timers p) (store p) (next_step p)
       (warning_shown p) (context p) (editing p) (notices p).
Definition set_ed (e : editor) (p : page) : page :=
  Page (tree_obj p) e (replace_modal p) (upload_modal p) (pending p) (timers p) (store p) (next_step p)
       (warning_shown p) (context p) (editing p) (notices p).
Definition set_replace (m : modal) (p : page) : page :=
  Page (tree_obj p) (ed p) m (upload_modal p) (pending p) (timers p) (store p) (next_step p)
       (warning_shown p) (context p) (editing p) (notices p).
Definition set_upload (m : modal) (p : page) : page :=
  Page (tree_obj p) (ed p) (replace_modal p) m (pending p) (timers p) (store p) (next_step p)
       (warning_shown p) (context p) (editing p) (notices p).
Definition set_pending (l : list request) (p : page) : page :=
  Page (tree_obj p) (ed p) (replace_modal p) (upload_modal p) l (timers p) (store p) (next_step p)
       (warning_shown p) (context p) (editing p) (notices p).
Definition set_timers (l : list timer) (p : page) : page :=
  Page (tree_obj p) (ed p) (replace_modal p) (upload_modal p) (pending p) l (store p) (next_step p)
       (warning_shown p) (context p) (editing p) (notices p).
Definition set_store (s : gmap jstr jstr) (p : page) : page :=
  Page (tree_obj p) (ed p) (replace_modal p) (upload_modal p) (pending p) (timers p) s (next_step p)
       (warning_shown p) (context p) (editing p) (notices p).
Definition set_next (n : option next) (p : page) : page :=
  Page (tree_obj p) (ed p) (replace_modal p) (upload_modal p) (pending p) (timers p) (store p) n
       (warning_shown p) (context p) (editing p) (notices p).
Definition set_warning (b : bool) (p : page) : page :=
  Page (tree_obj p) (ed p) (replace_modal p) (upload_modal p) (pending p) (timers p) (store p) (next_step p)
       b (context p) (editing p) (notices p).
Definition set_context (c : option (nat * list item)) (p : page) : page :=
  Page (tree_obj p) (ed p) (replace_modal p) (upload_modal p) (pending p) (timers p) (store p) (next_step p)
       (warning_shown p) c (editing p) (notices p).
Definition set_editing (o : option (nat * jstr)) (p : page) : page :=
  Page (tree_obj p) (ed p) (replace_modal p) (upload_modal p) (pending p) (timers p) (store p) (next_step p)
       (warning_shown p) (context p) o (notices p).
Definition notify (n : notice) (p : page) : page :=
  Page (tree_obj p) (ed p) (replace_modal p) (upload_modal p) (pending p) (timers p) (store p) (next_step p)
       (warning_shown p) (context p) (editing p) (notices p ++ [n]).

Definition send (r : request) (p : page) : page := set_pending (pending p ++ [r]) p.

Definition set_shown (b : bool) (m : modal) : modal := Modal b (loading m) (name_input m) (file_input m).
Definition set_loading (b : bool) (m : modal) : modal := Modal (shown m) b (name_input m) (file_input m).
Definition clear_form (m : modal) : modal := Modal (shown m) (loading m) [] None.

Definition err_notify (s : jstr) (p : page) : page := notify (Err s) p.
Definition err_notify_all (l : list jstr) (p : page) : page := foldl (λ p s, err_notify s p) p l.

(** [get_selected(true)[0]] *)
Definition selected_node (p : page) : option nat := head (selected (tree_obj p)).

(** ** The editor window *)

Definition not_commited (p : page) : bool := editor_status (ed p).

Definition clear_editor (e : editor) : editor :=
  let m := clearHistory (setReadOnly true (setValue [] (mirror_of e))) in
  set_status false (set_filename [] (set_mirror m e)).

Definition highlighting (filename : jstr) : hmode :=
  let ext := getFileExtension filename in
  if bool_decide (ext = str "json") then Json
  else if js_includes ext (map str ["c"; "h"; "i"; "aspect"; "tmpl"]%string) then Csrc
  else if bool_decide (ext = str "xml") then Xml
  else if bool_decide (ext = str "py") then Python
  else if bool_decide (ext = str "yml") then Yaml else PlainText.

Definition set_editor_value (filename content : jstr) (e : editor) : editor :=
  let m := clearHistory (setMode (highlighting filename) (setReadOnly false (setValue content (mirror_of e)))) in
  set_filename filename (set_mirror m e).

(** [editor_cache.find('span[data-hashsum="..."]')] *)
Definition find_cached (h : jstr) (e : editor) : list span :=
  filter (λ s, attribute s = Some h) (editor_cache e).

(** A sum that is a non-empty string. *)
Definition truthy_sum (n : node) : option jstr :=
  match data n with Some (a :: h) => Some (a :: h) | _ => None end.

Definition load_file_content (i : nat) (p : page) : page :=
  match object (tree_obj p) i with
  | None => p
  | Some n =>
      if isFileReadable (text n) then
        match truthy_sum n with
        | Some h =>
            match find_cached h (ed p) with
            | [] => send (RGet i h) p
            | spans => set_ed (set_editor_value (text n) (concat (map span_text spans)) (ed p)) p
            end
        | None => set_ed (set_editor_value (text n) [] (ed p)) p
        end
      else p
  end.

(** The handler of the event [select_node]. *)
Definition on_select_node (i : nat) (p : page) : page :=
  let p := set_ed (clear_editor (ed p)) p in
  if bool_decide (type <$> object (tree_obj p) i = Some Tfile) then load_file_content i p else p.

(** A call of [select_node] or a click, with the handler when the event is triggered. *)
Definition after_select (i : nat) (p : page) (r : tree * bool) : page :=
  let p := set_tree r.1 p in if r.2 then on_select_node i p else p.
Definition select (i : nat) (p : page) : page := after_select i p (select_node i (tree_obj p)).
Definition activate (i : nat) (modifier : bool) (p : page) : page :=
  after_select i p (activate_node i modifier (tree_obj p)).

Definition def_file_to_open : jstr := str "job.json".

(** The loop over the children of the root, which are nodes of the tree. *)
Fixpoint find_first (t : tree) (first_file : option nat) (cs : list nat) : option nat :=
  match cs with
  | [] => first_file
  | c :: cs =>
      match nodes t !! c with
      | Some n =>
          if bool_decide (type n = Tfile) then
            if bool_decide (text n = def_file_to_open) then Some c
            else if bool_decide (first_file = None) && isFileReadable (text n) then find_first t (Some c) cs
            else find_first t first_file cs
          else find_first t first_file cs
      | None => first_file
      end
  end.

Definition open_first_file (p : page) : page :=
  let p := set_ed (clear_editor (ed p)) p in
  let t := tree_obj p in
  match nodes t !! hash_id ≫= λ n, head (children n) ≫= λ r, nodes t !! r with
  | None => notify Uncaught p
  | Some root =>
      match find_first t None (children root) with
      | Some i => select i p
      | None => p
      end
  end.

(** ** Forms and messages *)

Definition not_ascii : jstr := str "Names with non-ASCII characters must be less than 30 characters".
Definition filename_required : jstr := str "File name is required".
Definition file_commited : jstr := str "The file was committed".
Definition file_required : jstr := str "Please choose the file".
Definition no_selected : jstr := str "There are no selected node".
Definition upload_failed : jstr := str "File uploading failed".

Definition check_filename (s : jstr) (p : page) : page * bool :=
  if bool_decide (0 < length s) then
    if isASCII s || bool_decide (length s < 30) then (p, true) else (err_notify not_ascii p, false)
  else (err_notify filename_required p, false).

(** The first part of both confirm handlers: [new FormData()] holds the string
    ['undefined'] when no file is chosen, whose [name] has no [length]. *)
Definition confirm (m : modal) (r : jstr → jstr → request) (p : page) : page * bool :=
  match file_input m with
  | None => (notify Uncaught p, false)
  | Some (fname, content) =>
      if bool_decide (fname = []) then (err_notify file_required p, false)
      else let (p, ok) := check_filename (name_input m) p in
           if ok then (send (r (name_input m) content) p, true) else (p, false)
  end.

Definition confirm_replace (p : page) : page :=
  let (p', ok) := confirm (replace_modal p) RReplace p in
  if ok then set_replace (set_loading true (replace_modal p')) p' else p'.
Definition confirm_upload (p : page) : page :=
  let (p', ok) := confirm (upload_modal p) RUpload p in
  if ok then set_upload (set_loading true (upload_modal p')) p' else p'.

Definition download_file_url : jstr := str "/jobs/downloadfile/{0}/?name={1}".

Definition download_file (p : page) : page :=
  match selected_node p ≫= λ i, nodes (tree_obj p) !! i with
  | Some n => match truthy_sum n with
              | Some h => notify (Location (format download_file_url [h; encodeURIComponent (text n)])) p
              | None => p
              end
  | None => notify Uncaught p
  end.

(** ** The context menu *)

Definition get_menu (n : node) : list item :=
  match type n with
  | Tfile => [Replace] ++ (if truthy_sum n then [Download] else []) ++ [Rename; Remove]
  | Troot => [CreateFolder; CreateFile; UploadFile]
  | _ => [CreateFolder; CreateFile; UploadFile; Rename; Remove]
  end.

(** ** Sending the decision *)

Definition serialize (p : page) : option (list json_node) := get_json_all (tree_obj p).

Definition start_default_decision (p : page) : page := notify (Posted (serialize p)) p.
Definition proceed_to_start_decision (p : page) : page := notify CustomForm p.
Definition start (p : page) : page :=
  match next_step p with
  | Some NDefault => start_default_decision p
  | _ => proceed_to_start_decision p
  end.

(** A promise of [commit_file] is settled: both callers report an error. *)
Definition resolve (who : caller) (p : page) : page :=
  match who with Keys => p | Proceed => start p end.
Definition reject (who : caller) (message : jstr) (p : page) : page := err_notify message p.

Definition commit_file (who : caller) (p : page) : page :=
  if not_commited p then
    match selected_node p with
    | None => reject who no_selected p
    | Some i => send (RCommit who i (getValue (mirror_of (ed p)))) p
    end
  else p.

Definition start_click (n : next) (p : page) : page :=
  if not_commited p then set_warning true (set_next (Some n) p)
  else match n with NDefault => start_default_decision p | NCustom => proceed_to_start_decision p end.

(** ** Answers of the server *)

(** An upload succeeds, has a field [error] in its answer, or fails with the messages of
    [responseJSON]; a request for a content succeeds or fails. *)
Inductive outcome := OOk | OError (error : jstr) | OFail (responseJSON : json).

Section server.
(** [file_checksum], [toLowerCase] of the tree, and what the browser makes of a string by
    [$('<div></div>').append($.parseHTML(...)).html()]. *)
Context (checksum lower html : jstr → jstr).

(** [get_or_create(hash_sum=...)] *)
Definition create_file (content : jstr) (s : gmap jstr jstr) : gmap jstr jstr :=
  match s !! checksum content with
  | Some _ => s
  | None => <[checksum content := content]> s
  end.

Definition add_file_node (filename hashsum : jstr) (p : page) : page :=
  let par := selected_node p in
  match par, create_node lower par Tfile false (tree_obj p) with
  | Some a, (t, Some i) => set_timers (timers p ++ [TAdd i a filename hashsum]) (set_tree t p)
  | _, (t, _) => set_tree t p
  end.

(** The callback of the timeout in [add_file_node]. *)
Definition run_timer (tm : timer) (p : page) : page :=
  let '(TAdd i a filename hashsum) := tm in
  let t := rename_node lower i filename (tree_obj p) in
  let t := assign_data i (Some hashsum) t in
  let t := deselect_node a t in
  select i (set_tree t p).

(** The error callback of [upload_file], without the caller's own. *)
Definition upload_error (js : json) (p : page) : page :=
  err_notify_all (flatten_api_errors (λ _, None) js) p.

Definition on_commit (who : caller) (i : nat) (content : jstr) (o : outcome) (p : page) : page :=
  match o with
  | OOk =>
      let h := checksum content in
      let p := set_store (create_file content (store p)) p in
      let p := set_tree (assign_data i (Some h) (tree_obj p)) p in
      let p := match find_cached h (ed p) with
               | [] => set_ed (add_span (Span None (Some h) content) (ed p)) p
               | _ => p
               end in
      let p := notify (Success file_commited) p in
      resolve who (set_ed (set_status false (ed p)) p)
  | OError e => err_notify e p
  | OFail js => reject who upload_failed (upload_error js p)
  end.

Definition on_replace (name content : jstr) (o : outcome) (p : page) : page :=
  match o with
  | OOk =>
      let h := checksum content in
      let p := set_store (create_file content (store p)) p in
      let p := set_replace (set_loading false (replace_modal p)) p in
      match selected_node p with
      | None => notify Uncaught p
      | Some i =>
          let t := assign_data i (Some h) (rename_node lower i name (tree_obj p)) in
          let p := set_tree (deselect_node i t) p in
          let p := set_ed (set_mirror (setReadOnly true (setValue [] (mirror_of (ed p)))) (ed p)) p in
          let p := select i p in
          set_replace (clear_form (set_shown false (replace_modal p))) p
      end
  | OError e => err_notify e p
  | OFail js => let p := upload_error js p in set_replace (set_loading false (replace_modal p)) p
  end.

Definition on_upload (name content : jstr) (o : outcome) (p : page) : page :=
  match o with
  | OOk =>
      let p := set_store (create_file content (store p)) p in
      let p := set_upload (clear_form (set_shown false (set_loading false (upload_modal p)))) p in
      add_file_node name (checksum content) p
  | OError e => err_notify e p
  | OFail js => let p := upload_error js p in set_upload (set_loading false (upload_modal p)) p
  end.

(** The callback of [$.get]: the name and the sum are those the node has by now. *)
Definition on_get (i : nat) (h : jstr) (o : outcome) (p : page) : page :=
  match o, store p !! h, object (tree_obj p) i with
  | OOk, Some resp, Some n =>
      set_ed (add_span (Span None (data n) resp) (set_editor_value (text n) resp (ed p))) p
  | _, _, _ => p
  end.

Definition answer (r : request) (o : outcome) (p : page) : page :=
  match r with
  | RGet i h => on_get i h o p
  | RCommit who i content => on_commit who i content o p
  | RReplace name content => on_replace name content o p
  | RUpload name content => on_upload name content o p
  end.

(** ** Events *)

Inductive event :=
| Activate (i : nat) (modifier : bool)
| ContextMenu (i : nat)
| Choose (it : item)
| StartEdit (i : nat)
| EndEdit (s : jstr)
| Write (s : jstr) (joined : bool)
| Undo
| Redo
| Save
| ChooseReplace (file : jstr * jstr)
| NameReplace (s : jstr)
| ConfirmReplace
| CancelReplace
| ChooseUpload (file : jstr * jstr)
| NameUpload (s : jstr)
| ConfirmUpload
| CancelUpload
| StartClick (n : next)
| WarnCancel
| WarnConfirm
| WarnSave
| Answer (k : nat) (o : outcome)
| Timeout.

(** A change of the document by the user: the handler of [change] shows the status. *)
Definition edit (f : mirror → option mirror) (p : page) : page :=
  if readOnly (mirror_of (ed p)) then p
  else match f (mirror_of (ed p)) with
       | Some m => set_ed (set_status true (set_mirror m (ed p))) p
       | None => p
       end.

(** The menu of a node is opened: the node is activated if it is not selected. *)
Definition context_menu (i : nat) (p : page) : page :=
  match nodes (tree_obj p) !! i with
  | None => p
  | Some n =>
      if bool_decide (i = hash_id) then p
      else
        let p := if is_selected (tree_obj p) i then p else activate i false p in
        set_context (Some (i, get_menu n)) p
  end.

(** [edit(i)] puts an input with the name in place of the node: from the menu, by F2, or
    by the timeout after a node was created. [check_callback] refuses the root. *)
Definition start_edit (i : nat) (p : page) : page :=
  match nodes (tree_obj p) !! i with
  | None => p
  | Some n =>
      if bool_decide (i = hash_id) || bool_decide (type n = Troot) then p
      else set_editing (Some (i, text n)) p
  end.

(** [set_text(i, s)], which checks nothing. *)
Definition put_text (i : nat) (s : jstr) (t : tree) : tree := with_nodes (alter (set_text s) i (nodes t)) t.

(** The result of [rename_node(i, s)]. *)
Definition renames (i : nat) (s : jstr) (t : tree) : bool :=
  match nodes t !! i with Some n => check_rename lower t n s | None => false end.

(** The handler of [blur] of that input, which holds [s]: an empty name is the old one;
    the old name is put back, then the node is renamed, and gets the old name again when
    that is refused. Both names go through HTML first. *)
Definition edit_name (i : nat) (old s : jstr) (t : tree) : tree :=
  let t := put_text i (html old) t in
  let f := html (if bool_decide (s = []) then old else s) in
  if renames i f t then rename_node lower i f t else put_text i (html old) t.

Definition end_edit (s : jstr) (p : page) : page :=
  match editing p with
  | Some (i, old) =>
      set_editing None
        (match nodes (tree_obj p) !! i with
         | Some _ => set_tree (edit_name i old s (tree_obj p)) p
         | None => p
         end)
  | None => p
  end.

Definition menu_action (i : nat) (it : item) (p : page) : page :=
  match it with
  | CreateFolder => set_tree (create_node lower (Some i) Tfolder true (tree_obj p)).1 p
  | CreateFile => set_tree (create_node lower (Some i) Tfile false (tree_obj p)).1 p
  | UploadFile => set_upload (set_shown true (upload_modal p)) p
  | Replace => set_replace (set_shown true (replace_modal p)) p
  | Download => download_file p
  | Rename => start_edit i p
  | Remove =>
      let r := if is_selected (tree_obj p) i then delete_nodes (selected (tree_obj p)) (tree_obj p)
               else delete_node i (tree_obj p) in
      let p := set_tree r.1 p in
      if r.2 then set_ed (clear_editor (ed p)) p else p
  end.

(** An item of the open menu is chosen. *)
Definition choose (it : item) (p : page) : page :=
  match context p with
  | Some (i, items) => if js_includes it items then menu_action i it (set_context None p) else p
  | None => p
  end.

Definition set_name (s : jstr) (m : modal) : modal := Modal (shown m) (loading m) s (file_input m).
Definition set_file (f : jstr * jstr) (m : modal) : modal := Modal (shown m) (loading m) f.1 (Some f).

Definition step (p : page) (e : event) : page :=
  match e with
  | Activate i modifier => activate i modifier (set_context None p)
  | ContextMenu i => context_menu i p
  | Choose it => choose it p
  | StartEdit i => start_edit i p
  | EndEdit s => end_edit s p
  | Write s joined => edit (λ m, Some (write_lines (splitLines s) joined m)) p
  | Undo => edit undo p
  | Redo => edit redo p
  | Save => commit_file Keys p
  | ChooseReplace f => set_replace (set_file f (replace_modal p)) p
  | NameReplace s => set_replace (set_name s (replace_modal p)) p
  | ConfirmReplace => confirm_replace p
  | CancelReplace => set_replace (set_shown false (replace_modal p)) p
  | ChooseUpload f => set_upload (set_file f (upload_modal p)) p
  | NameUpload s => set_upload (set_name s (upload_modal p)) p
  | ConfirmUpload => confirm_upload p
  | CancelUpload => set_upload (set_shown false (upload_modal p)) p
  | StartClick n => start_click n p
  | WarnCancel => set_warning false p
  | WarnConfirm => start p
  | WarnSave => commit_file Proceed (set_warning false p)
  | Answer k o =>
      match pending p !! k with
      | Some r => answer r o (set_pending (delete k (pending p)) p)
      | None => p
      end
  | Timeout =>
      match timers p with
      | tm :: tms => run_timer tm (set_timers tms p)
      | [] => p
      end
  end.

Definition run (p : page) (es : list event) : page := foldl step p es.
End server.

(** The page once its tree is loaded: the event [ready]. *)
Definition closed_modal : modal := Modal false false [] None.
Definition new_editor : editor := Editor (Mirror [[]] [] [] (Some 200) true Json) false [] [].
Definition loaded (t : tree) (s : gmap jstr jstr) : page :=
  Page t new_editor closed_modal closed_modal [] [] s None false None None [].
Definition ready (t : tree) (s : gmap jstr jstr) : page := open_first_file (loaded t s).

End FilesEditor.
