(* ===== verification/EditorDesk.v ===== *)
(** * What the editor of files promises

    The invariant of the page under every order of events, and an abstract desk: files
    with their lines, the open file, its draft with the drafts before and after it, and
    the actions at the desk, each a function. DeskRefines.v shows that the page is one. *)

From Stdlib Require Import Ascii.
From S2P Require Import Prelude Url Views FileTree FilesEditor.
Import Url Views FileTree FilesEditor.

Module EditorDesk.

(** ** Lines *)

Definition clean (w : jstr) : Prop := LF ∉ w ∧ CR ∉ w.
Definition lines_ok (ls : list jstr) : Prop := ls ≠ [] ∧ Forall clean ls.

Lemma clean_cons a w : clean (a :: w) ↔ a ≠ LF ∧ a ≠ CR ∧ clean w.
Proof. unfold clean. rewrite !not_elem_of_cons. naive_solver. Qed.

Lemma lines_ok_nil ws : lines_ok ws → lines_ok ([] :: ws).
Proof. intros [? ?]. split; [done|]. constructor; [|done]. split; apply not_elem_of_nil. Qed.

Lemma lines_ok_blank : lines_ok [[]].
Proof. split; [done|]. repeat constructor; apply not_elem_of_nil. Qed.

Lemma splitLines_ok s : lines_ok (splitLines s).
Proof.
  remember (length s) as n eqn:Hn. revert s Hn. induction (lt_wf n) as [n _ IH]. intros [|a s] ->.
  { apply lines_ok_blank. }
  assert (lines_ok (splitLines s)) as Hs by (eapply IH; [|done]; cbn; lia).
  cbn. destruct (decide (a = LF)) as [|Ha]; [by apply lines_ok_nil|].
  destruct (decide (a = CR)) as [|Hb].
  - destruct s as [|b s]; [by apply lines_ok_nil, lines_ok_blank|].
    case_decide; [|by apply lines_ok_nil]. apply lines_ok_nil. eapply IH; [|done]. cbn. lia.
  - destruct (splitLines s) as [|w ws]; [by destruct Hs|]. destruct Hs as [_ [Hw Hws]%Forall_cons].
    split; [done|]. constructor; [by rewrite clean_cons|done].
Qed.

Lemma splitLines_line w s : clean w → splitLines (w ++ LF :: s) = w :: splitLines s.
Proof.
  induction w as [|a w IH]; intros Hw; [by cbn; rewrite decide_True|].
  apply clean_cons in Hw as (Ha & Hb & Hw). cbn. rewrite !decide_False by done. by rewrite IH.
Qed.

Lemma splitLines_last w : clean w → splitLines w = [w].
Proof.
  induction w as [|a w IH]; intros Hw; [done|]. apply clean_cons in Hw as (Ha & Hb & Hw). cbn.
  rewrite !decide_False by done. by rewrite IH.
Qed.

(** Lines that are joined are split into the same lines. *)
Lemma splitLines_join ls : lines_ok ls → splitLines (join [LF] ls) = ls.
Proof.
  intros [Hne Hls]. induction Hls as [|w ls Hw Hls IH]; [done|].
  destruct ls as [|v ls]; [by apply splitLines_last|].
  change (join [LF] (w :: v :: ls)) with (w ++ LF :: join [LF] (v :: ls)).
  rewrite splitLines_line by done. by rewrite IH.
Qed.

Record mirror_ok (m : mirror) : Prop := {
  mirror_lines : lines_ok (lines m);
  mirror_done : Forall lines_ok (hist_done m);
  mirror_undone : Forall lines_ok (hist_undone m);
  mirror_depth : undoDepth m = None;
}.

Lemma mirror_ok_clear s b h m :
  mirror_ok (clearHistory (setMode h (setReadOnly b (setValue s m)))) ∧
  mirror_ok (clearHistory (setReadOnly b (setValue s m))).
Proof. split; (split; cbn; [apply splitLines_ok|constructor|constructor|done]). Qed.

Lemma mirror_ok_write s joined m : mirror_ok m → mirror_ok (write_lines (splitLines s) joined m).
Proof.
  intros [Hl Hd Hu Hn]. unfold write_lines, change_lines. rewrite Hn. destruct (hist_done m) eqn:He; [|destruct joined];
    (split; cbn; [apply splitLines_ok| |constructor|done]); rewrite ?He; auto.
Qed.

Lemma mirror_ok_undo m m' : mirror_ok m → undo m = Some m' → mirror_ok m'.
Proof.
  intros [Hl Hd Hu Hn]. unfold undo. destruct (hist_done m); [intros ?; congruence|]. intros [= <-].
  apply Forall_cons in Hd as [? ?]. split; cbn; auto.
Qed.

Lemma mirror_ok_redo m m' : mirror_ok m → redo m = Some m' → mirror_ok m'.
Proof.
  intros [Hl Hd Hu Hn]. unfold redo. destruct (hist_undone m); [intros ?; congruence|]. intros [= <-].
  apply Forall_cons in Hu as [? ?]. split; cbn; auto.
Qed.

Lemma mirror_ok_blank m : mirror_ok m → mirror_ok (setReadOnly true (setValue [] m)).
Proof.
  intros [Hl Hd _ Hn]. split; cbn; [apply lines_ok_blank| |constructor|done]. rewrite Hn. by constructor.
Qed.

(** ** The page under every order of events *)

Section server.
Context (checksum lower : jstr → jstr).

(** The tree is well-formed; the server has every content that a node, a request or a
    timer names, under its sum; nothing in the cache has the attribute that is looked
    for. *)
Record core_ok (t : tree) (e : editor) (rs : list request) (tms : list timer) (s : gmap jstr jstr) : Prop := {
  pg_tree : tree_ok lower t;
  pg_sums i n h : object t i = Some n → data n = Some h → is_Some (s !! h);
  pg_store h c : s !! h = Some c → checksum c = h;
  pg_pending i h : RGet i h ∈ rs → is_Some (s !! h) ∧ is_Some (object t i);
  pg_timers i a f h : TAdd i a f h ∈ tms → is_Some (s !! h);
  pg_cache x : x ∈ editor_cache e → attribute x = None;
  pg_mirror : mirror_ok (mirror_of e);
}.
Definition page_ok (p : page) : Prop := core_ok (tree_obj p) (ed p) (pending p) (timers p) (store p).

Lemma core_tree t t' e rs tms s :
  core_ok t e rs tms s → tree_ok lower t' →
  (∀ i n h, object t' i = Some n → data n = Some h → is_Some (s !! h)) →
  (∀ i, is_Some (object t i) → is_Some (object t' i)) →
  core_ok t' e rs tms s.
Proof.
  intros [] Ht' Hs Ho. split; try done. intros i h Hi. naive_solver.
Qed.

Lemma core_keeps t t' e rs tms s :
  core_ok t e rs tms s → tree_ok lower t' → keeps_info t t' →
  (∀ i, is_Some (object t i) → is_Some (object t' i)) → core_ok t' e rs tms s.
Proof.
  intros Hc Ht' Hk Ho. apply (core_tree t); try done. intros i n h Hn Hh.
  destruct (Hk i n Hn) as [Hd|Hd]; [congruence|]. destruct (object t i) as [x|] eqn:Hx; [|done].
  injection Hd as _ Hd. eapply (pg_sums _ _ _ _ _ Hc); [done|]. congruence.
Qed.

Lemma core_labels t t' e rs tms s :
  core_ok t e rs tms s → tree_ok lower t' →
  (∀ i, label <$> object t' i = label <$> object t i) → core_ok t' e rs tms s.
Proof.
  intros Hc Ht' Hl. apply (core_keeps t); try done.
  - intros i n Hn. right. rewrite <- (info_label _ _ (Hl i)), Hn. done.
  - intros i Hi. by rewrite <- (fmap_is_Some label), Hl, fmap_is_Some.
Qed.

Lemma core_nodes t t' e rs tms s :
  core_ok t e rs tms s → tree_ok lower t' → nodes t' = nodes t ∧ removed t' = removed t → core_ok t' e rs tms s.
Proof. intros Hc Ht' [H1 H2]. apply (core_labels t); try done. intros i. unfold object. by rewrite H1, H2. Qed.

Lemma core_data t e rs tms s i h :
  core_ok t e rs tms s → is_Some (s !! h) → core_ok (assign_data i (Some h) t) e rs tms s.
Proof.
  intros Hc Hh. apply (core_tree t); [done|by apply assign_data_ok, (pg_tree _ _ _ _ _ Hc)| |].
  - intros j n h'. rewrite object_assign_data. destruct (object t j) as [x|] eqn:Hx; [|done].
    case_decide; intros [= <-]; cbn; [congruence|]. by apply (pg_sums _ _ _ _ _ Hc j).
  - intros j. rewrite object_assign_data. by rewrite fmap_is_Some.
Qed.

Lemma core_ed t e e' rs tms s :
  core_ok t e rs tms s → mirror_ok (mirror_of e') →
  (∀ x, x ∈ editor_cache e' → x ∈ editor_cache e ∨ attribute x = None) → core_ok t e' rs tms s.
Proof.
  intros [] Hm Hx. split; try done. intros x Hin. destruct (Hx x Hin); auto.
Qed.

Lemma core_pending t e rs rs' tms s :
  core_ok t e rs tms s → (∀ i h, RGet i h ∈ rs' → is_Some (s !! h) ∧ is_Some (object t i)) →
  core_ok t e rs' tms s.
Proof. intros [] H. by split. Qed.

Lemma core_timers t e rs tms tms' s :
  core_ok t e rs tms s → (∀ i a f h, TAdd i a f h ∈ tms' → is_Some (s !! h)) → core_ok t e rs tms' s.
Proof. intros [] H. by split. Qed.

Lemma create_file_lookup c s h x :
  create_file checksum c s !! h = Some x → s !! h = Some x ∨ (h = checksum c ∧ x = c).
Proof.
  unfold create_file. destruct (s !! checksum c) eqn:Hs; [by left|].
  destruct (decide (h = checksum c)) as [->|]; [rewrite lookup_insert_eq|rewrite lookup_insert_ne by done; by left].
  intros [= <-]. by right.
Qed.

Lemma create_file_old c s h x : s !! h = Some x → create_file checksum c s !! h = Some x.
Proof.
  unfold create_file. intros Hx. destruct (s !! checksum c) eqn:Hs; [done|].
  rewrite lookup_insert_ne; [done|]. congruence.
Qed.

Lemma create_file_is_Some c s h : is_Some (s !! h) → is_Some (create_file checksum c s !! h).
Proof. intros [x Hx]. exists x. by apply create_file_old. Qed.

Lemma create_file_new c s : is_Some (create_file checksum c s !! checksum c).
Proof.
  unfold create_file. destruct (s !! checksum c) eqn:Hs; [by eexists|]. rewrite lookup_insert_eq. by eexists.
Qed.

Lemma core_store t e rs tms s c :
  core_ok t e rs tms s → core_ok t e rs tms (create_file checksum c s).
Proof.
  intros [Ht Hs Hst Hp Htm Hc Hm]. split; try done.
  - intros i n h Hn Hh. by eapply create_file_is_Some, Hs.
  - intros h x Hx. apply create_file_lookup in Hx as [Hx|[-> ->]]; auto.
  - intros i h Hi. destruct (Hp i h Hi). split; [by apply create_file_is_Some|done].
  - intros i a f h Hi. by eapply create_file_is_Some, Htm.
Qed.
(** *** Handlers *)

Lemma clear_editor_ok t e rs tms s : core_ok t e rs tms s → core_ok t (clear_editor e) rs tms s.
Proof.
  intros Hc. apply (core_ed _ _ _ _ _ _ Hc); [|by left]. cbn. apply (mirror_ok_clear [] true Json).
Qed.

Lemma set_editor_value_ok t e rs tms s f c :
  core_ok t e rs tms s → core_ok t (set_editor_value f c e) rs tms s.
Proof. intros Hc. apply (core_ed _ _ _ _ _ _ Hc); [|by left]. cbn. apply mirror_ok_clear. Qed.

Lemma truthy_sum_data n h : truthy_sum n = Some h → data n = Some h ∧ h ≠ [].
Proof. unfold truthy_sum. by destruct (data n) as [[|a w]|]; intros; simplify_eq. Qed.

(** The cache is never hit. *)
Lemma find_cached_nil t e rs tms s h : core_ok t e rs tms s → find_cached h e = [].
Proof.
  intros Hc. unfold find_cached. destruct (filter _ _) as [|x l] eqn:Hf; [done|].
  assert (x ∈ filter (λ s, attribute s = Some h) (editor_cache e)) as Hx by (rewrite Hf; by left).
  apply list_elem_of_filter in Hx as [Ha Hx]. apply (pg_cache _ _ _ _ _ Hc) in Hx. congruence.
Qed.

Lemma load_file_content_ok i p : page_ok p → page_ok (load_file_content i p).
Proof.
  intros Hp. unfold load_file_content. destruct (object (tree_obj p) i) as [n|] eqn:Hn; [|done].
  destruct (isFileReadable (text n)); [|done]. destruct (truthy_sum n) as [h|] eqn:Hh.
  - rewrite (find_cached_nil _ _ _ _ _ h Hp). apply truthy_sum_data in Hh as [Hh _].
    apply (core_pending _ _ _ _ _ _ Hp). intros j h' [Hin|He%list_elem_of_singleton]%elem_of_app.
    + by apply (pg_pending _ _ _ _ _ Hp).
    + simplify_eq. split; [|by eexists]. by eapply (pg_sums _ _ _ _ _ Hp).
  - by apply set_editor_value_ok.
Qed.

Lemma on_select_node_ok i p : page_ok p → page_ok (on_select_node i p).
Proof.
  intros Hp. unfold on_select_node. assert (page_ok (set_ed (clear_editor (ed p)) p)) by by apply clear_editor_ok.
  case_match; [by apply load_file_content_ok|done].
Qed.

Lemma after_select_ok i p r :
  page_ok p → tree_ok lower r.1 → nodes r.1 = nodes (tree_obj p) ∧ removed r.1 = removed (tree_obj p) →
  page_ok (after_select i p r).
Proof.
  intros Hp Ht Hn. unfold after_select. assert (page_ok (set_tree r.1 p)) by by apply (core_nodes (tree_obj p)).
  destruct r.2; [by apply on_select_node_ok|done].
Qed.

Lemma select_ok i p : page_ok p → page_ok (select i p).
Proof.
  intros Hp. apply after_select_ok; [done|apply select_node_ok, (pg_tree _ _ _ _ _ Hp)|apply select_node_nodes].
Qed.

Lemma activate_ok i b p : page_ok p → page_ok (activate i b p).
Proof.
  intros Hp. apply after_select_ok; [done|apply activate_node_ok, (pg_tree _ _ _ _ _ Hp)|apply activate_node_nodes].
Qed.

Lemma send_ok r p : page_ok p → (∀ i h, r ≠ RGet i h) → page_ok (send r p).
Proof.
  intros Hp Hr. apply (core_pending _ _ _ _ _ _ Hp). intros i h [Hi|Hi%list_elem_of_singleton]%elem_of_app.
  - by apply (pg_pending _ _ _ _ _ Hp).
  - by destruct (Hr i h).
Qed.

Lemma err_notify_all_same l p :
  tree_obj (err_notify_all l p) = tree_obj p ∧ ed (err_notify_all l p) = ed p ∧
  pending (err_notify_all l p) = pending p ∧ timers (err_notify_all l p) = timers p ∧
  store (err_notify_all l p) = store p.
Proof.
  unfold err_notify_all. revert p. induction l as [|m l IH]; intros p; cbn; [done|].
  destruct (IH (err_notify m p)) as (-> & -> & -> & -> & ->). done.
Qed.

Lemma upload_error_ok js p : page_ok p → page_ok (upload_error js p).
Proof.
  unfold page_ok, upload_error. destruct (err_notify_all_same (flatten_api_errors (λ _, None) js) p)
    as (-> & -> & -> & -> & ->). done.
Qed.

Lemma commit_file_ok who p : page_ok p → page_ok (commit_file who p).
Proof.
  intros Hp. unfold commit_file. repeat case_match; try done. by apply send_ok.
Qed.

Lemma resolve_ok who p : page_ok p → page_ok (resolve who p).
Proof. destruct who; [done|]. unfold resolve, start. by repeat case_match. Qed.

Lemma on_commit_ok who i c o p : page_ok p → page_ok (on_commit checksum who i c o p).
Proof.
  intros Hp. destruct o as [|e|js]; cbn; [|done|by apply upload_error_ok].
  assert (core_ok (assign_data i (Some (checksum c)) (tree_obj p)) (ed p) (pending p) (timers p)
                  (create_file checksum c (store p))) as Hc.
  { apply core_data; [by apply core_store|apply create_file_new]. }
  apply resolve_ok. rewrite (find_cached_nil _ _ _ _ _ _ Hp). apply (core_ed _ _ _ _ _ _ Hc); [apply Hc|].
  cbn. intros x [Hx|Hx%list_elem_of_singleton]%elem_of_app; [by left|right; by subst].
Qed.

Lemma on_replace_ok name c o p : page_ok p → page_ok (on_replace checksum lower name c o p).
Proof.
  intros Hp. destruct o as [|e|js]; cbn; [|done|by apply upload_error_ok].
  assert (core_ok (tree_obj p) (ed p) (pending p) (timers p) (create_file checksum c (store p))) as Hc
    by by apply core_store.
  unfold selected_node. cbn. destruct (head (selected (tree_obj p))) as [i|]; [|done].
  pose proof (rename_node_ok lower i name _ (pg_tree _ _ _ _ _ Hc)) as Hr.
  destruct (rename_node_keeps lower i name (tree_obj p)) as [Hk Ho].
  pose proof (core_keeps _ _ _ _ _ _ Hc Hr Hk Ho) as Hc1.
  pose proof (core_data _ _ _ _ _ i _ Hc1 (create_file_new c (store p))) as Hc2.
  pose proof (core_nodes _ _ _ _ _ _ Hc2 (deselect_node_ok lower i _ (pg_tree _ _ _ _ _ Hc2))
               (deselect_node_nodes i _)) as Hc3.
  match goal with |- page_ok (set_replace ?m ?q) => change (page_ok q) end. apply select_ok.
  apply (core_ed _ _ _ _ _ _ Hc3); [|by left]. apply mirror_ok_blank, (pg_mirror _ _ _ _ _ Hc).
Qed.

Lemma add_file_node_ok f h p : page_ok p → is_Some (store p !! h) → page_ok (add_file_node lower f h p).
Proof.
  intros Hp Hh. unfold add_file_node.
  pose proof (create_node_ok lower (selected_node p) Tfile false (tree_obj p) (pg_tree _ _ _ _ _ Hp)) as Ht.
  destruct (create_node_keeps lower (selected_node p) Tfile false (tree_obj p) (pg_tree _ _ _ _ _ Hp)) as [Hk Ho].
  destruct (selected_node p) as [a|];
    destruct (create_node lower _ _ _ _) as [t [i|]]; cbn in *;
    pose proof (core_keeps _ _ _ _ _ _ Hp (Ht (or_intror eq_refl)) Hk Ho) as Hc; try done.
  apply (core_timers _ _ _ _ _ _ Hc). intros j b f' h' [Hin|He%list_elem_of_singleton]%elem_of_app.
  - by eapply (pg_timers _ _ _ _ _ Hc).
  - by simplify_eq.
Qed.

Lemma on_upload_ok name c o p : page_ok p → page_ok (on_upload checksum lower name c o p).
Proof.
  intros Hp. destruct o as [|e|js]; cbn; [|done|by apply upload_error_ok].
  apply add_file_node_ok; [by apply core_store|apply create_file_new].
Qed.

Lemma on_get_ok i h o p : page_ok p → page_ok (on_get i h o p).
Proof.
  intros Hp. unfold on_get. repeat case_match; try done.
  apply (core_ed _ _ _ _ _ _ Hp); cbn; [apply mirror_ok_clear|].
  intros x [Hx|Hx%list_elem_of_singleton]%elem_of_app; [by left|right; by subst].
Qed.

Lemma run_timer_ok tm p :
  page_ok p → (∀ i a f h, tm = TAdd i a f h → is_Some (store p !! h)) → page_ok (run_timer lower tm p).
Proof.
  intros Hp Htm. destruct tm as [i a f h]. cbn. specialize (Htm i a f h eq_refl).
  pose proof (rename_node_ok lower i f _ (pg_tree _ _ _ _ _ Hp)) as Hr.
  destruct (rename_node_keeps lower i f (tree_obj p)) as [Hk Ho].
  pose proof (core_keeps _ _ _ _ _ _ Hp Hr Hk Ho) as Hc1.
  pose proof (core_data _ _ _ _ _ i _ Hc1 Htm) as Hc2.
  apply select_ok, (core_nodes _ _ _ _ _ _ Hc2 (deselect_node_ok lower a _ (pg_tree _ _ _ _ _ Hc2))
                     (deselect_node_nodes a _)).
Qed.

Lemma edit_ok f p :
  page_ok p → (∀ m m', mirror_ok m → f m = Some m' → mirror_ok m') → page_ok (edit f p).
Proof.
  intros Hp Hf. unfold edit. case_match; [done|]. destruct (f _) as [m|] eqn:Hm; [|done].
  apply (core_ed _ _ _ _ _ _ Hp); [|by left]. cbn. eapply Hf; [|done]. apply Hp.
Qed.

Lemma context_menu_ok i p : page_ok p → page_ok (context_menu i p).
Proof.
  intros Hp. unfold context_menu. repeat case_match; try done. change (page_ok (activate i false p)).
  by apply activate_ok.
Qed.

Lemma download_file_ok p : page_ok p → page_ok (download_file p).
Proof. intros Hp. unfold download_file. by repeat case_match. Qed.

Lemma start_edit_ok i p : page_ok p → page_ok (start_edit i p).
Proof. intros Hp. unfold start_edit. by repeat case_match. Qed.

Lemma menu_action_ok i it p : page_ok p → page_ok (menu_action lower i it p).
Proof.
  intros Hp. pose proof (pg_tree _ _ _ _ _ Hp) as Ht. destruct it; cbn; try done.
  - destruct (create_node_keeps lower (Some i) Tfolder true (tree_obj p) Ht) as [Hk Ho].
    apply (core_keeps _ _ _ _ _ _ Hp); [by apply create_node_ok; [|left]|done..].
  - destruct (create_node_keeps lower (Some i) Tfile false (tree_obj p) Ht) as [Hk Ho].
    apply (core_keeps _ _ _ _ _ _ Hp); [by apply create_node_ok; [|right]|done..].
  - by apply download_file_ok.
  - by apply start_edit_ok.
  - set (r := if is_selected _ _ then _ else _).
    assert (page_ok (set_tree r.1 p)) as Hr.
    { apply (core_labels _ _ _ _ _ _ Hp); unfold r; case_match.
      - by apply delete_nodes_ok.
      - by apply delete_node_ok.
      - by apply (delete_nodes_keeps lower).
      - by apply (delete_node_keeps lower). }
    destruct r.2; [by apply clear_editor_ok|done].
Qed.

Lemma confirm_ok m r p :
  page_ok p → (∀ n c i h, r n c ≠ RGet i h) → page_ok (confirm m r p).1.
Proof.
  intros Hp Hr. unfold confirm. destruct (file_input m) as [[f c]|]; [|done]. case_match; [done|].
  unfold check_filename. repeat case_match; simplify_eq; try done. by apply send_ok.
Qed.

Context (html : jstr → jstr).

(** The end of an edition puts back the name that the node has: nothing renamed the node
    meanwhile, and HTML leaves its name alone. *)
Definition name_kept (p : page) (e : event) : Prop :=
  match e with
  | EndEdit _ => ∀ i old n, editing p = Some (i, old) → nodes (tree_obj p) !! i = Some n → html old = text n
  | _ => True
  end.

Lemma put_same i n t : nodes t !! i = Some n → put_text i (text n) t = t.
Proof.
  intros Hn. unfold put_text, with_nodes. destruct t as [m l c r]. cbn in *. f_equal.
  apply map_eq. intros j. destruct (decide (j = i)) as [->|]; [|by rewrite lookup_alter_ne].
  rewrite lookup_alter_eq, Hn. by destruct n.
Qed.

(** Then the edition renames the node, if no sibling has the new name, and does nothing
    else. *)
Lemma edit_name_rename i old s n t :
  nodes t !! i = Some n → html old = text n →
  edit_name lower html i old s t = rename_node lower i (html (if bool_decide (s = []) then old else s)) t.
Proof.
  intros Hn Ho. unfold edit_name. rewrite Ho, !(put_same i n t Hn).
  destruct (renames _ _ _ _) eqn:Hr; [done|]. unfold renames in Hr. unfold rename_node. rewrite Hn in Hr |- *.
  rewrite Hr. by destruct (_ || _).
Qed.

Lemma end_edit_rename s p :
  name_kept p (EndEdit s) →
  end_edit lower html s p = p ∨ ∃ i f, end_edit lower html s p = set_editing None p ∨
    end_edit lower html s p = set_editing None (set_tree (rename_node lower i f (tree_obj p)) p).
Proof.
  intros Hk. unfold end_edit. destruct (editing p) as [[i old]|] eqn:He; [|by left]. right.
  destruct (nodes (tree_obj p) !! i) as [n|] eqn:Hn; [|exists i, []; by left].
  rewrite (edit_name_rename i old s n) by (done || by eapply Hk). eexists i, _. by right.
Qed.

Lemma step_ok p e : page_ok p → name_kept p e → page_ok (step checksum lower html p e).
Proof.
  intros Hp Hk. destruct e; cbn; try done.
  - by apply activate_ok.
  - by apply context_menu_ok.
  - unfold choose. repeat case_match; try done. by apply menu_action_ok.
  - by apply start_edit_ok.
  - destruct (end_edit_rename s p Hk) as [E|(i & f & [E|E])]; rewrite E; [done..|].
    destruct (rename_node_keeps lower i f (tree_obj p)).
    apply (core_keeps _ _ _ _ _ _ Hp); [|done..]. apply rename_node_ok, (pg_tree _ _ _ _ _ Hp).
  - apply edit_ok; [done|]. intros m m' Hm [= <-]. by apply mirror_ok_write.
  - apply edit_ok; [done|]. apply mirror_ok_undo.
  - apply edit_ok; [done|]. apply mirror_ok_redo.
  - by apply commit_file_ok.
  - unfold confirm_replace. pose proof (confirm_ok (replace_modal p) RReplace p Hp ltac:(done)) as Hc.
    destruct (confirm _ _ _) as [q []]; done.
  - unfold confirm_upload. pose proof (confirm_ok (upload_modal p) RUpload p Hp ltac:(done)) as Hc.
    destruct (confirm _ _ _) as [q []]; done.
  - unfold start_click. by repeat case_match.
  - unfold start. by repeat case_match.
  - by apply commit_file_ok.
  - destruct (pending p !! k) as [r|] eqn:Hr; [|done].
    assert (page_ok (set_pending (delete k (pending p)) p)) as Hp'.
    { apply (core_pending _ _ _ _ _ _ Hp). intros i h Hi. apply (pg_pending _ _ _ _ _ Hp). exact (list_elem_of_delete_inv _ _ _ Hi). }
    destruct r; cbn; [by apply on_get_ok|by apply on_commit_ok|by apply on_replace_ok|by apply on_upload_ok].
  - destruct (timers p) as [|tm tms] eqn:Htm; [done|]. apply run_timer_ok.
    + apply (core_timers _ _ _ _ _ _ Hp). intros i a f h Hi. eapply (pg_timers _ _ _ _ _ Hp). rewrite Htm. by right.
    + intros i a f h ->. eapply (pg_timers _ _ _ _ _ Hp). rewrite Htm. by left.
Qed.

(** Every edition of a run puts back the name the node has. *)
Fixpoint names_kept (p : page) (es : list event) : Prop :=
  match es with
  | [] => True
  | e :: es => name_kept p e ∧ names_kept (step checksum lower html p e) es
  end.

Lemma run_ok es p : page_ok p → names_kept p es → page_ok (run checksum lower html p es).
Proof.
  revert p. induction es as [|e es IH]; intros p Hp Hk; [done|]. destruct Hk as [Hk Hks]. cbn.
  by apply IH; [apply step_ok|].
Qed.

(** A page that is loaded with a well-formed tree of files the server has. *)
Definition served (t : tree) (s : gmap jstr jstr) : Prop :=
  tree_ok lower t ∧ (∀ i n h, object t i = Some n → data n = Some h → is_Some (s !! h)) ∧
  (∀ h c, s !! h = Some c → checksum c = h).

(** The page once its editor is cleared: its history has no depth from then on. *)
Definition cleared (t : tree) (s : gmap jstr jstr) : page := set_ed (clear_editor new_editor) (loaded t s).

Lemma cleared_ok t s : served t s → page_ok (cleared t s).
Proof.
  intros (Ht & Hs & Hst). split; cbn; try done; try (intros; set_solver).
  split; cbn; [apply lines_ok_blank|constructor|constructor|done].
Qed.

Lemma ready_ok t s : served t s → page_ok (ready t s).
Proof.
  intros Hs. pose proof (cleared_ok t s Hs) as Hc. unfold ready, open_first_file. fold (cleared t s).
  repeat case_match; try done. by apply select_ok.
Qed.
End server.

(** ** The abstract desk *)

(** What the server holds for a sum; a file without a sum is empty. *)
Definition content (s : gmap jstr jstr) (d : option jstr) : jstr :=
  match d with Some (a :: h) => default [] (s !! (a :: h)) | _ => [] end.

Definition file_lines (s : gmap jstr jstr) (x : ntype * option jstr) : option (list jstr) :=
  if decide (x.1 = Tfile) then Some (splitLines (content s x.2)) else None.

(** The lines of every file of the tree. *)
Definition shelf_of (t : tree) (s : gmap jstr jstr) : gmap nat (list jstr) :=
  omap (λ n, file_lines s (info n)) (nodes t).
#[global] Arguments shelf_of : simpl never.

(** Files with their lines; the file that is open, its draft, the drafts before and after
    it, and whether the draft was changed since it was saved; a file that arrives. *)
Record desk := Desk {
  shelf : gmap nat (list jstr);
  opened : option nat;
  draft : list jstr;
  past : list (list jstr);
  future : list (list jstr);
  dirty : bool;
  arriving : option (nat * list jstr);
}.

Definition closed (sh : gmap nat (list jstr)) : desk := Desk sh None [[]] [] [] false None.

(** What can be done at a desk. *)
Inductive action :=
| AOpen (i : nat)
| AClose
| AWrite (ls : list jstr) (joined : bool)
| AUndo
| ARedo
| ASave
| AAdd (i : nat)
| APut (i : nat) (ls : list jstr)
| AUpload (i : nat) (ls : list jstr)
| AArrive
| ADrop (gone : list nat).

Definition redraft (ls : list jstr) (ps fs : list (list jstr)) (d : desk) : desk :=
  Desk (shelf d) (opened d) ls ps fs true (arriving d).

(** Every action has one result; what cannot be done changes nothing. *)
Definition act (d : desk) (a : action) : desk :=
  match a with
  | AOpen i => match shelf d !! i with
               | Some ls => Desk (shelf d) (Some i) ls [] [] false None
               | None => d
               end
  | AClose => closed (shelf d)
  | AWrite ls joined =>
      match opened d, past d with
      | None, _ => d
      | Some _, x :: ps => if joined then redraft ls (x :: ps) [] d else redraft ls (draft d :: x :: ps) [] d
      | Some _, [] => redraft ls [draft d] [] d
      end
  | AUndo => match opened d, past d with
             | Some _, x :: ps => redraft x ps (draft d :: future d) d
             | _, _ => d
             end
  | ARedo => match opened d, future d with
             | Some _, x :: fs => redraft x (draft d :: past d) fs d
             | _, _ => d
             end
  | ASave => match opened d with
             | Some i => Desk (<[i := draft d]> (shelf d)) (Some i) (draft d) (past d) (future d) false (arriving d)
             | None => d
             end
  | AAdd i => Desk (<[i := [[]]]> (shelf d)) (opened d) (draft d) (past d) (future d) (dirty d) (arriving d)
  | APut i ls => Desk (alter (λ _, ls) i (shelf d)) (opened d) (draft d) (past d) (future d) (dirty d) (arriving d)
  | AUpload i ls => Desk (<[i := [[]]]> (shelf d)) (opened d) (draft d) (past d) (future d) (dirty d) (Some (i, ls))
  | AArrive => match arriving d with
               | Some (i, ls) => closed (alter (λ _, ls) i (shelf d))
               | None => d
               end
  | ADrop g => closed (filter (λ kv, kv.1 ∉ g) (shelf d))
  end.

Definition acts (l : list action) (d : desk) : desk := foldl act d l.

Lemma shelf_lookup t s i : shelf_of t s !! i = (info <$> nodes t !! i) ≫= file_lines s.
Proof. unfold shelf_of. rewrite lookup_omap. by destruct (nodes t !! i). Qed.

Lemma shelf_eq t t' s : (∀ i, info <$> nodes t' !! i = info <$> nodes t !! i) → shelf_of t' s = shelf_of t s.
Proof. intros H. apply map_eq. intros i. by rewrite !shelf_lookup, H. Qed.

Lemma shelf_nodes t t' s : nodes t' = nodes t → shelf_of t' s = shelf_of t s.
Proof. intros H. apply shelf_eq. by rewrite H. Qed.

Lemma shelf_create lower p ty first t s :
  tree_ok lower t → (create_node lower p ty first t).2 = Some (cnt t) →
  shelf_of (create_node lower p ty first t).1 s =
    if decide (ty = Tfile) then <[cnt t := [[]]]> (shelf_of t s) else shelf_of t s.
Proof.
  intros Ht Ho. pose proof (create_node_nodes lower p ty first t Ht) as H.
  destruct (create_node lower p ty first t) as [t' o]. cbn in *. subst o.
  destruct H as (_ & _ & Hj & _ & Hi & _). apply map_eq. intros j.
  rewrite shelf_lookup. destruct (decide (j = cnt t)) as [->|Hne].
  - rewrite Hi. case_decide as Hty; cbn; unfold file_lines; cbn.
    + by rewrite decide_True, lookup_insert_eq.
    + rewrite decide_False by done. rewrite shelf_lookup, fresh_node; eauto with js.
  - rewrite (info_label _ _ (Hj j Hne)), <- shelf_lookup. case_decide; [|done]. by rewrite lookup_insert_ne.
Qed.

(** A node with all that is below it. *)
Definition below (t : tree) (i : nat) : list nat :=
  match nodes t !! i with Some n => children_d n ++ [i] | None => [] end.

Lemma shelf_delete lower i t t' s :
  tree_ok lower t → delete_node i t = (t', true) →
  shelf_of t' s = filter (λ kv, kv.1 ∉ below t i) (shelf_of t s).
Proof.
  intros Ht Hd. destruct (delete_node_Some _ _ _ _ Ht Hd) as (n & e & ps & Hn & _ & Hj & _).
  unfold below. rewrite Hn. apply map_eq. intros j. rewrite shelf_lookup, Hj.
  destruct (decide (j ∈ children_d n ++ [i])) as [Hg|Hg]; cbn -[filter].
  - symmetry. apply map_lookup_filter_None_2. right. intros ? _ H. by apply H.
  - assert (∀ o : option node, info <$> (trimmed e i (children_d n ++ [i]) (parents n) j <$> o) = info <$> o) as ->
      by by intros [].
    rewrite <- shelf_lookup. destruct (shelf_of t s !! j) as [ls|] eqn:Hs; symmetry.
    + by apply map_lookup_filter_Some_2.
    + apply map_lookup_filter_None_2. by left.
Qed.

Lemma shelf_assign t s i h n :
  nodes t !! i = Some n →
  shelf_of (assign_data i (Some h) t) s =
    match file_lines s (type n, Some h) with Some ls => <[i := ls]> (shelf_of t s) | None => shelf_of t s end.
Proof.
  intros Hi. apply map_eq. intros j. rewrite shelf_lookup. cbn. destruct (decide (j = i)) as [->|Hne].
  - rewrite lookup_alter_eq, Hi. cbn. unfold info. cbn. unfold file_lines at 1. case_decide as Ht; cbn in *.
    + unfold file_lines. rewrite decide_True by done. by rewrite lookup_insert_eq.
    + unfold file_lines. rewrite decide_False by done. rewrite shelf_lookup, Hi. cbn. unfold file_lines.
      by rewrite decide_False.
  - rewrite lookup_alter_ne, <- shelf_lookup by done. unfold file_lines. case_decide; [|done].
    by rewrite lookup_insert_ne.
Qed.

Lemma object_node t i n : nodes t !! i = Some n → object t i = Some n.
Proof. unfold object. by intros ->. Qed.

(** A store that grows keeps all lines. *)
Lemma shelf_store checksum t s c :
  (∀ i n h, object t i = Some n → data n = Some h → is_Some (s !! h)) →
  shelf_of t (create_file checksum c s) = shelf_of t s.
Proof.
  intros Hs. apply map_eq. intros j. rewrite !shelf_lookup. destruct (nodes t !! j) as [n|] eqn:Hj; [|done].
  cbn. unfold file_lines. cbn. case_decide; [|done]. f_equal. f_equal. unfold content.
  destruct (data n) as [[|a h]|] eqn:Hd; [done| |done].
  destruct (Hs j n (a :: h)) as [x Hx]; [by apply object_node|done|].
  by rewrite (create_file_old checksum c s _ x), Hx.
Qed.

End EditorDesk.
