(* ===== verification/DeskRefines.v ===== *)
(** * The page of files is a desk

    What every event of the page does at the abstract desk of EditorDesk.v, as a list of
    actions, and the simulation: when the user waits for answers and no sum collides, the
    page after an event is related to the desk after the actions of that event. *)

From Stdlib Require Import Ascii.
From S2P Require Import Prelude Url Views FileTree FilesEditor EditorDesk.
Import Url Views FileTree FilesEditor EditorDesk.

Module DeskRefines.

(** ** The actions of an event *)

Section actions.
Context (lower : jstr → jstr).

(** A readable file without a sum is shown without a request. *)
Definition shown_at_once (t : tree) (i : nat) : list action :=
  match nodes t !! i with
  | Some n =>
      if bool_decide (type n = Tfile) && isFileReadable (text n) && bool_decide (truthy_sum n = None)
      then [AOpen i] else []
  | None => []
  end.

(** A selection that triggers its event closes the open file. *)
Definition selection (t : tree) (i : nat) (triggered : bool) : list action :=
  if triggered then AClose :: shown_at_once t i else [].
Definition clicked (t : tree) (i : nat) (modifier : bool) : list action :=
  selection t i (activate_node i modifier t).2.

Definition menu_actions (t : tree) (i : nat) (it : item) : list action :=
  match it with
  | CreateFile => match (create_node lower (Some i) Tfile false t).2 with Some k => [AAdd k] | None => [] end
  | Remove => if (delete_node i t).2 then [ADrop (below t i)] else []
  | _ => []
  end.

(** The answer [OOk] of a request. *)
Definition answered (p : page) (r : request) : list action :=
  match r with
  | RGet i _ => [AOpen i]
  | RCommit _ _ _ => [ASave]
  | RReplace _ c => match selected_node p with Some i => [AClose; APut i (splitLines c)] | None => [] end
  | RUpload _ c =>
      match selected_node p ≫= λ a, (create_node lower (Some a) Tfile false (tree_obj p)).2 with
      | Some k => [AUpload k (splitLines c)]
      | None => []
      end
  end.

Definition actions (p : page) (e : event) : list action :=
  match e with
  | Activate i modifier => clicked (tree_obj p) i modifier
  | ContextMenu i =>
      match nodes (tree_obj p) !! i with
      | Some _ => if bool_decide (i = hash_id) || is_selected (tree_obj p) i then [] else clicked (tree_obj p) i false
      | None => []
      end
  | Choose it =>
      match context p with
      | Some (i, items) => if js_includes it items then menu_actions (tree_obj p) i it else []
      | None => []
      end
  | Write s joined => [AWrite (splitLines s) joined]
  | Undo => [AUndo]
  | Redo => [ARedo]
  | Answer k OOk => match pending p !! k with Some r => answered p r | None => [] end
  | Timeout => match timers p with _ :: _ => [AArrive] | [] => [] end
  | _ => []
  end.
End actions.

(** ** The page as a desk *)

Section refinement.
Context (checksum lower html : jstr → jstr).

(** A text has a sum, and nothing else the server holds has it too. *)
Definition distinct_sum (s : gmap jstr jstr) (c : jstr) : Prop :=
  checksum c ≠ [] ∧ map_Forall (λ _ x, checksum x = checksum c → x = c) s.

#[export] Instance distinct_sum_dec s c : Decision (distinct_sum s c).
Proof. unfold distinct_sum. apply _. Defined.

(** What is under way when the user waits. *)
Definition activity (p : page) (d : desk) : Prop :=
  match pending p, timers p with
  | [], [] => True
  | [RGet i h], [] =>
      opened d = None ∧ selected (tree_obj p) = [i] ∧
      ∃ n, nodes (tree_obj p) !! i = Some n ∧ type n = Tfile ∧ truthy_sum n = Some h
  | [RCommit _ i c], [] =>
      opened d = Some i ∧ selected (tree_obj p) = [i] ∧ c = join [LF] (draft d)
  | [RReplace _ _], [] | [RUpload _ _], [] => True
  | [], [TAdd i a _ h] =>
      opened d = None ∧ selected (tree_obj p) = [a] ∧ a ≠ i ∧ i ≠ hash_id ∧
      (∃ n, nodes (tree_obj p) !! i = Some n ∧ type n = Tfile) ∧ h ≠ [] ∧
      arriving d = Some (i, splitLines (content (store p) (Some h)))
  | _, _ => False
  end.

Record desk_rel (p : page) (d : desk) : Prop := {
  rel_page : page_ok checksum lower p;
  rel_shelf : shelf d = shelf_of (tree_obj p) (store p);
  rel_status : editor_status (ed p) = dirty d;
  rel_lines : lines (mirror_of (ed p)) = draft d;
  rel_history : hist_done (mirror_of (ed p)) = past d ∧ hist_undone (mirror_of (ed p)) = future d;
  rel_one : selected (tree_obj p) = [] ∨ ∃ i, selected (tree_obj p) = [i];
  rel_closed : opened d = None → readOnly (mirror_of (ed p)) = true ∧ draft d = [[]] ∧ dirty d = false;
  rel_opened i : opened d = Some i →
    readOnly (mirror_of (ed p)) = false ∧ (selected (tree_obj p) = [] ∨ selected (tree_obj p) = [i]) ∧
    ∃ ls, shelf d !! i = Some ls ∧ (dirty d = false → draft d = ls);
  rel_activity : activity p d;
}.

Definition quiet (p : page) : Prop := pending p = [] ∧ timers p = [].

(** The user does nothing before all answers are there. *)
Definition patient (p : page) (e : event) : Prop :=
  match e with Answer _ _ | Timeout => True | _ => quiet p end.

(** A text that the server stores at an answer collides with none it holds. *)
Definition sums_clear (p : page) (e : event) : Prop :=
  match e with
  | Answer k OOk =>
      match pending p !! k with
      | Some (RCommit _ _ c) | Some (RReplace _ c) | Some (RUpload _ c) => distinct_sum (store p) c
      | _ => True
      end
  | _ => True
  end.

(** The runs of such a user; no name changes while it is edited. *)
Fixpoint patient_run (p : page) (es : list event) : Prop :=
  match es with
  | [] => True
  | e :: es =>
      patient p e ∧ name_kept html p e ∧ sums_clear p e ∧ patient_run (step checksum lower html p e) es
  end.

(** The actions of a run. *)
Fixpoint actions_of (p : page) (es : list event) : list action :=
  match es with
  | [] => []
  | e :: es => actions lower p e ++ actions_of (step checksum lower html p e) es
  end.

Lemma activity_quiet p d : quiet p → activity p d.
Proof. intros [H1 H2]. unfold activity. by rewrite H1, H2. Qed.

Lemma acts_app l1 l2 d : acts (l1 ++ l2) d = acts l2 (acts l1 d).
Proof. apply foldl_app. Qed.

(** A page that shows nothing. *)
Lemma closed_rel p sh :
  page_ok checksum lower p → sh = shelf_of (tree_obj p) (store p) →
  editor_status (ed p) = false → lines (mirror_of (ed p)) = [[]] → readOnly (mirror_of (ed p)) = true →
  hist_done (mirror_of (ed p)) = [] → hist_undone (mirror_of (ed p)) = [] →
  (selected (tree_obj p) = [] ∨ ∃ i, selected (tree_obj p) = [i]) →
  activity p (closed sh) → desk_rel p (closed sh).
Proof. intros. by split. Qed.

(** What the relation does not depend on. *)
Lemma rel_same p q d :
  desk_rel p d → tree_obj q = tree_obj p → ed q = ed p → pending q = pending p → timers q = timers p →
  store q = store p → desk_rel q d.
Proof.
  intros [] H1 H2 H3 H4 H5. split; unfold page_ok, activity in *; by rewrite ?H1, ?H2, ?H3, ?H4, ?H5.
Qed.

(** Changes of the tree that keep the nodes' types and sums. *)
Lemma rel_tree p d t :
  desk_rel p d → quiet p → page_ok checksum lower (set_tree t p) →
  selected t = [] ∨ selected t = selected (tree_obj p) →
  (∀ i, info <$> nodes t !! i = info <$> nodes (tree_obj p) !! i) → desk_rel (set_tree t p) d.
Proof.
  intros [] Hq Hp Hsel Hn. split; cbn; try done.
  - by rewrite (shelf_eq (tree_obj p)).
  - destruct Hsel as [->| ->]; [by left|done].
  - intros i Hi. destruct (rel_opened0 i Hi) as (? & Hs & ?). split_and!; [done| |done].
    destruct Hsel as [->| ->]; [by left|done].
  - by apply activity_quiet.
Qed.

(** After a selection the file is shown, or its content is asked for, or nothing is
    shown. *)
Lemma on_select_rel i n p :
  page_ok checksum lower p → quiet p → selected (tree_obj p) = [i] → nodes (tree_obj p) !! i = Some n →
  desk_rel (on_select_node i p) (acts (shown_at_once (tree_obj p) i) (closed (shelf_of (tree_obj p) (store p)))).
Proof.
  intros Hp Hq Hsel Hn. pose proof (on_select_node_ok checksum lower i p Hp) as Hok. revert Hok.
  destruct Hq as [Hq1 Hq2]. unfold on_select_node, load_file_content, shown_at_once. rewrite Hn. cbn.
  rewrite (object_node _ _ _ Hn). cbn.
  destruct (decide (type n = Tfile)) as [Hty|Hty];
    [rewrite !bool_decide_true by congruence|rewrite !bool_decide_false by congruence].
  - destruct (isFileReadable (text n)); [destruct (truthy_sum n) as [h|] eqn:Hh|].
    + unfold find_cached. cbn. fold (find_cached h (ed p)). rewrite (find_cached_nil _ _ _ _ _ _ _ h Hp).
      intros Hok. apply closed_rel; try done; [by right; exists i|].
      unfold activity. cbn. rewrite Hq1, Hq2. split_and!; eauto.
    + intros Hok. assert (shelf_of (tree_obj p) (store p) !! i = Some [[]]) as Hi.
      { rewrite shelf_lookup, Hn. cbn. unfold file_lines, info. cbn. rewrite decide_True by done.
        unfold truthy_sum in Hh. by destruct (data n) as [[|a w]|]. }
      cbn. rewrite Hi. split; cbn; try done; [by right; exists i| |by apply activity_quiet].
      intros j [= <-]. split_and!; [done|by right|by exists [[]]].
    + intros Hok. apply closed_rel; try done; [by right; exists i|by apply activity_quiet].
  - intros Hok. apply closed_rel; try done; [by right; exists i|by apply activity_quiet].
Qed.

Lemma activate_rel i b p d :
  desk_rel p d → quiet p → desk_rel (activate i b p) (acts (clicked (tree_obj p) i b) d).
Proof.
  intros Hr Hq. pose proof (rel_page _ _ Hr) as Hp. pose proof (activate_ok checksum lower i b p Hp) as Hok.
  revert Hok. unfold activate, after_select, clicked, selection.
  pose proof (activate_node_nodes i b (tree_obj p)) as [Hn1 Hn2].
  pose proof (activate_node_ok lower i b (tree_obj p) (pg_tree _ _ _ _ _ _ _ Hp)) as Ht. revert Hn1 Hn2 Ht.
  unfold activate_node. destruct (b && is_selected (tree_obj p) i) eqn:Hb; cbn.
  - intros Hn1 Hn2 Ht Hok. apply rel_tree; try done; [left|by rewrite Hn1].
    apply andb_true_iff in Hb as [_ Hi]. apply bool_decide_eq_true in Hi. unfold deselect_node.
    destruct (ok_selected _ (ok_ids _ _ (pg_tree _ _ _ _ _ _ _ Hp)) i Hi) as [Hni Hnh].
    rewrite bool_decide_true, bool_decide_false by done. cbn -[filter].
    destruct (rel_one _ _ Hr) as [->|[j Hj]]; [done|]. rewrite Hj in Hi |- *.
    apply list_elem_of_singleton in Hi as ->. rewrite filter_cons_False; [done|by intros H].
  - unfold select_node. case_match eqn:Hc; cbn.
    + intros _ _ Ht Hok. apply andb_true_iff in Hc as [[[n Hn]%bool_decide_eq_true _]%andb_true_iff _].
      rewrite (rel_shelf _ _ Hr).
      match goal with |- desk_rel (on_select_node _ ?q) (foldl _ _ (shown_at_once _ _)) =>
        change (shelf_of (tree_obj p) (store p)) with (shelf_of (tree_obj q) (store q));
        change (shown_at_once (tree_obj p) i) with (shown_at_once (tree_obj q) i) end.
      apply (on_select_rel i n); try done. apply (core_nodes _ _ _ _ _ _ _ _ Hp); done.
    + intros _ _ Ht Hok. apply rel_tree; try done. by left.
Qed.

(** An edit of the document that the desk makes too. *)
Lemma edit_rel f a p d :
  desk_rel p d → quiet p → page_ok checksum lower (edit f p) →
  (opened d = None → act d a = d) → (f (mirror_of (ed p)) = None → act d a = d) →
  (∀ m i, opened d = Some i → f (mirror_of (ed p)) = Some m →
     readOnly m = readOnly (mirror_of (ed p)) ∧ act d a = redraft (lines m) (hist_done m) (hist_undone m) d) →
  desk_rel (edit f p) (act d a).
Proof.
  intros Hr Hq Hok Ha1 Ha2 Ha3. revert Hok. unfold edit.
  destruct (opened d) as [i|] eqn:Hi; [|by destruct (rel_closed _ _ Hr Hi) as (Hro & _); rewrite Hro, Ha1].
  destruct (rel_opened _ _ Hr i Hi) as (Hro & Hs & ls & Hls & _). rewrite Hro.
  destruct (f _) as [m|]; [|by rewrite Ha2]. destruct (Ha3 m i eq_refl eq_refl) as [Hm ->]. intros Hok.
  destruct Hr. split; cbn; try done; [intros H; congruence| |by apply activity_quiet].
  intros j Hj. assert (j = i) as -> by congruence. split_and!; [congruence|done|by exists ls].
Qed.

Lemma write_rel s joined p d :
  desk_rel p d → quiet p → desk_rel (step checksum lower html p (Write s joined)) (act d (AWrite (splitLines s) joined)).
Proof.
  intros Hr Hq. pose proof (step_ok checksum lower html p (Write s joined) (rel_page _ _ Hr) I) as Hok.
  destruct (rel_history _ _ Hr) as [Hh _]. pose proof (rel_lines _ _ Hr) as Hl.
  pose proof (mirror_depth _ (pg_mirror _ _ _ _ _ _ _ (rel_page _ _ Hr))) as Hd.
  apply edit_rel; try done; [by cbn; intros ->|]. intros m i Hi [= <-]. unfold write_lines, change_lines.
  cbn. rewrite Hi, Hh, Hl, Hd. destruct (past d); [done|]. by destruct joined.
Qed.

Lemma undo_rel p d : desk_rel p d → quiet p → desk_rel (step checksum lower html p Undo) (act d AUndo).
Proof.
  intros Hr Hq. pose proof (step_ok checksum lower html p Undo (rel_page _ _ Hr) I) as Hok.
  destruct (rel_history _ _ Hr) as [Hh Hf]. pose proof (rel_lines _ _ Hr) as Hl.
  apply edit_rel; try done; [by cbn; intros ->| |]; unfold undo; rewrite Hh; cbn.
  - by destruct (opened d), (past d).
  - intros m i Hi. rewrite Hi, Hf, Hl. destruct (past d); [done|]. by intros [= <-].
Qed.

Lemma redo_rel p d : desk_rel p d → quiet p → desk_rel (step checksum lower html p Redo) (act d ARedo).
Proof.
  intros Hr Hq. pose proof (step_ok checksum lower html p Redo (rel_page _ _ Hr) I) as Hok.
  destruct (rel_history _ _ Hr) as [Hh Hf]. pose proof (rel_lines _ _ Hr) as Hl.
  apply edit_rel; try done; [by cbn; intros ->| |]; unfold redo; rewrite Hf; cbn.
  - by destruct (opened d), (future d).
  - intros m i Hi. rewrite Hi, Hh, Hl. destruct (future d); [done|]. by intros [= <-].
Qed.

Lemma commit_rel who p d : desk_rel p d → quiet p → desk_rel (commit_file who p) d.
Proof.
  intros Hr [Hq1 Hq2]. pose proof (commit_file_ok checksum lower who p (rel_page _ _ Hr)) as Hok. revert Hok.
  unfold commit_file. destruct (not_commited p) eqn:Hs; [|done].
  unfold not_commited in Hs. rewrite (rel_status _ _ Hr) in Hs.
  destruct (opened d) as [i|] eqn:Hi; [|by destruct (rel_closed _ _ Hr Hi) as (_ & _ & ?); congruence].
  destruct (rel_opened _ _ Hr i Hi) as (_ & [Hsel|Hsel] & ls & Hls & _); unfold selected_node; rewrite Hsel; cbn.
  - intros Hok. by eapply rel_same.
  - intros Hok. pose proof (rel_lines _ _ Hr) as Hl. destruct Hr. split; cbn; try done.
    unfold activity. cbn. rewrite Hq1, Hq2. cbn. split_and!; [done..|]. unfold getValue. by rewrite Hl.
Qed.

Lemma context_rel i p d :
  desk_rel p d → quiet p → desk_rel (context_menu i p) (acts (actions lower p (ContextMenu i)) d).
Proof.
  intros Hr Hq. unfold context_menu, actions. destruct (nodes (tree_obj p) !! i); [|done].
  destruct (bool_decide (i = hash_id)); [done|]. cbn [orb]. destruct (is_selected (tree_obj p) i).
  - by eapply rel_same.
  - eapply rel_same; [by apply activate_rel|done..].
Qed.

(** A node is created. *)
Lemma create_rel a ty first p d :
  desk_rel p d → quiet p → ty = Tfolder ∨ ty = Tfile →
  let r := create_node lower a ty first (tree_obj p) in
  let l := match r.2 with Some k => if decide (ty = Tfile) then [AAdd k] else [] | None => [] end in
  desk_rel (set_tree r.1 p) (acts l d) ∧ opened (acts l d) = opened d.
Proof.
  intros Hr Hq Hty. pose proof (rel_page _ _ Hr) as Hp. pose proof (pg_tree _ _ _ _ _ _ _ Hp) as Ht.
  destruct (create_node_keeps lower a ty first (tree_obj p) Ht) as [Hk Ho].
  assert (page_ok checksum lower (set_tree (create_node lower a ty first (tree_obj p)).1 p)) as Hok.
  { apply (core_keeps _ _ _ _ _ _ _ _ Hp); [by apply create_node_ok|done..]. }
  pose proof (shelf_create lower a ty first (tree_obj p) (store p) Ht) as Hsh.
  pose proof (create_node_nodes lower a ty first (tree_obj p) Ht) as H.
  destruct (create_node lower a ty first (tree_obj p)) as [t [j|]]; cbn in *.
  2: { destruct H as (_ & _ & _ & ->). split; [by eapply rel_same|done]. }
  destruct H as (Hsel & _ & _ & -> & _). specialize (Hsh eq_refl).
  assert (shelf d !! cnt (tree_obj p) = None) as Hnone.
  { rewrite (rel_shelf _ _ Hr), shelf_lookup, fresh_node; eauto with js. }
  assert (∀ i, opened d = Some i → i ≠ cnt (tree_obj p)) as Hne.
  { intros i Hi ->. destruct (rel_opened _ _ Hr _ Hi) as (_ & _ & ls & Hls & _). congruence. }
  destruct Hr. rewrite <- rel_shelf0 in Hsh. destruct (decide (ty = Tfile)); (split; [|done]).
  - split; cbn; rewrite ?Hsel; try done; [|by apply activity_quiet]. intros i Hi.
    rewrite lookup_insert_ne by (apply not_eq_sym; by apply Hne). by apply rel_opened0.
  - split; cbn; rewrite ?Hsel; try done. by apply activity_quiet.
Qed.

Lemma remove_rel i p d :
  desk_rel p d → quiet p →
  desk_rel (menu_action lower i Remove p) (acts (menu_actions lower (tree_obj p) i Remove) d).
Proof.
  intros Hr Hq. pose proof (rel_page _ _ Hr) as Hp. pose proof (pg_tree _ _ _ _ _ _ _ Hp) as Ht.
  pose proof (menu_action_ok checksum lower i Remove p Hp) as Hok. revert Hok. cbn.
  assert ((if is_selected (tree_obj p) i then delete_nodes (selected (tree_obj p)) (tree_obj p)
           else delete_node i (tree_obj p)) = delete_node i (tree_obj p)) as ->.
  { destruct (is_selected (tree_obj p) i) eqn:Hi; [|done]. apply bool_decide_eq_true in Hi.
    destruct (rel_one _ _ Hr) as [Hs|[j Hs]]; rewrite Hs in Hi |- *; [by apply elem_of_nil in Hi|].
    apply list_elem_of_singleton in Hi as ->. unfold delete_nodes. cbn. by destruct (delete_node j (tree_obj p)). }
  destruct (delete_node i (tree_obj p)) as [t []] eqn:Hd; cbn -[filter].
  - intros Hok. pose proof (shelf_delete lower i (tree_obj p) t (store p) Ht Hd) as Hg.
    destruct (delete_node_Some _ _ _ _ Ht Hd) as (n & e & ps & _ & _ & _ & Hsel & _).
    rewrite (rel_shelf _ _ Hr), <- Hg. apply closed_rel; try done.
    + cbn -[filter]. rewrite Hsel. destruct (rel_one _ _ Hr) as [->|[j ->]]; [by left|].
      destruct (decide (j ∈ children_d n ++ [i])).
      * left. by rewrite filter_cons_False by (intros H; by apply H).
      * right. exists j. by rewrite filter_cons_True.
    + by apply activity_quiet.
  - intros Hok. assert (t = tree_obj p) as ->.
    { revert Hd. unfold delete_node. by repeat case_match; intros; simplify_eq. }
    by eapply rel_same.
Qed.

Lemma start_edit_rel i p d : desk_rel p d → desk_rel (start_edit i p) d.
Proof. intros Hr. unfold start_edit. repeat case_match; try done; by eapply rel_same. Qed.

Lemma choose_rel it p d :
  desk_rel p d → quiet p → desk_rel (choose lower it p) (acts (actions lower p (Choose it)) d).
Proof.
  intros Hr Hq. unfold choose, actions. destruct (context p) as [[i items]|]; [|done].
  destruct (js_includes it items); [|done].
  assert (desk_rel (set_context None p) d) as Hr' by by eapply rel_same.
  destruct it; cbn [menu_action].
  - pose proof (create_rel (Some i) Tfolder true (set_context None p) d Hr' Hq (or_introl eq_refl)) as [H _].
    cbn -[create_node] in *. by destruct (create_node _ _ _ _ _) as [t [k|]].
  - pose proof (create_rel (Some i) Tfile false (set_context None p) d Hr' Hq (or_intror eq_refl)) as [H _].
    cbn -[create_node] in *. by destruct (create_node _ _ _ _ _) as [t [k|]].
  - by eapply rel_same.
  - by eapply rel_same.
  - cbn. unfold download_file. repeat case_match; try done; by eapply rel_same.
  - by apply start_edit_rel.
  - by apply (remove_rel i (set_context None p)).
Qed.

Lemma end_edit_rel s p d :
  desk_rel p d → quiet p → name_kept html p (EndEdit s) → desk_rel (end_edit lower html s p) d.
Proof.
  intros Hr Hq Hk. pose proof (step_ok checksum lower html p (EndEdit s) (rel_page _ _ Hr) Hk) as Hok.
  cbn [step] in Hok. revert Hok.
  destruct (end_edit_rename lower html s p Hk) as [E|(i & f & [E|E])]; rewrite E; [done| |].
  - intros _. by eapply rel_same.
  - intros Hok. destruct (rename_node_nodes lower i f (tree_obj p)) as (Hs & _ & _ & Hn).
    eapply (rel_same (set_tree (rename_node lower i f (tree_obj p)) p)); [|done..].
    apply rel_tree; try done. by right.
Qed.

Lemma confirm_rel m r p d :
  desk_rel p d → quiet p → (∀ n c i h, r n c ≠ RGet i h) →
  (∀ n c, match r n c with RReplace _ _ | RUpload _ _ => True | _ => False end) →
  desk_rel (confirm m r p).1 d.
Proof.
  intros Hr [Hq1 Hq2] Hr1 Hr2. pose proof (confirm_ok checksum lower m r p (rel_page _ _ Hr) Hr1) as Hok.
  revert Hok. unfold confirm.
  destruct (file_input m) as [[f c]|]; [|intros _; by eapply rel_same]. case_match; [intros _; by eapply rel_same|].
  unfold check_filename. repeat case_match; simplify_eq; intros Hok; try (by eapply rel_same).
  destruct Hr. split; cbn; try done. unfold activity. cbn. rewrite Hq1, Hq2. cbn.
  specialize (Hr2 (name_input m) c). by destruct (r _ _).
Qed.

(** *** Answers and timers *)

(** The request under way is taken off. *)
Lemma rel_answered p d :
  desk_rel p d → timers p = [] → desk_rel (set_pending [] p) d.
Proof.
  intros [] Htm. split; cbn; try done.
  - apply (core_pending _ _ _ _ _ _ _ _ rel_page0). by intros i h Hi%elem_of_nil.
  - unfold activity. cbn. by rewrite Htm.
Qed.

Lemma activity_request p d r rs : activity p d → pending p = r :: rs → rs = [] ∧ timers p = [].
Proof.
  unfold activity. intros Ha Hp. rewrite Hp in Ha. destruct r, rs; try done; by destruct (timers p).
Qed.

Lemma activity_timer p d tm tms : activity p d → timers p = tm :: tms → tms = [] ∧ pending p = [].
Proof.
  unfold activity. intros Ha Hp. rewrite Hp in Ha.
  destruct (pending p) as [|r [|]]; [by destruct tm, tms| |]; by destruct r.
Qed.

Lemma upload_error_rel js p d : desk_rel p d → desk_rel (upload_error js p) d.
Proof.
  intros Hr. destruct (err_notify_all_same (flatten_api_errors (λ _, None) js) p) as (? & ? & ? & ? & ?).
  by eapply rel_same.
Qed.

(** An answer that is no success. *)
Lemma failed_rel r o p d :
  desk_rel p d → timers p = [] → o ≠ OOk → desk_rel (answer checksum lower r o (set_pending [] p)) d.
Proof.
  intros Hr Htm Ho. pose proof (rel_answered _ _ Hr Htm) as Hr'.
  destruct o as [|e|js]; [done|destruct r; cbn; by eapply rel_same|].
  pose proof (upload_error_rel js _ _ Hr') as He.
  destruct r; cbn [answer on_get on_commit on_replace on_upload]; [done|by eapply rel_same..].
Qed.

Lemma on_get_rel i h p d :
  desk_rel p d → pending p = [RGet i h] → desk_rel (on_get i h OOk (set_pending [] p)) (act d (AOpen i)).
Proof.
  intros Hr Hpend. destruct (activity_request _ _ _ _ (rel_activity _ _ Hr) Hpend) as [_ Htm].
  pose proof (rel_answered _ _ Hr Htm) as Hr'. pose proof (rel_activity _ _ Hr) as Ha.
  unfold activity in Ha. rewrite Hpend, Htm in Ha. destruct Ha as (Hop & Hsel & n & Hn & Hty & Hh).
  pose proof (on_get_ok checksum lower i h OOk _ (rel_page _ _ Hr')) as Hok. revert Hok. unfold on_get. cbn.
  destruct (truthy_sum_data n h Hh) as [Hd _].
  destruct (pg_sums _ _ _ _ _ _ _ (rel_page _ _ Hr) i n h (object_node _ _ _ Hn) Hd) as [resp Hresp].
  rewrite Hresp, (object_node _ _ _ Hn). intros Hok.
  assert (shelf d !! i = Some (splitLines resp)) as Hi.
  { rewrite (rel_shelf _ _ Hr), shelf_lookup, Hn. cbn. unfold file_lines, info. cbn. rewrite decide_True by done.
    f_equal. f_equal. unfold truthy_sum in Hh. destruct (data n) as [[|a w]|]; simplify_eq. cbn. by rewrite Hresp. }
  rewrite Hi. pose proof (rel_status _ _ Hr) as Hst. destruct (rel_closed _ _ Hr Hop) as (_ & _ & Hdi).
  rewrite Hdi in Hst. split; cbn; try done; [by apply (rel_shelf _ _ Hr)|right; by exists i| |].
  - intros j [= <-]. split_and!; [done|by right|]. by exists (splitLines resp).
  - unfold activity. cbn. by rewrite Htm.
Qed.

(** A text without a collision is found again under its sum. *)
Lemma content_created s c :
  distinct_sum s c → (∀ h x, s !! h = Some x → checksum x = h) →
  content (create_file checksum c s) (Some (checksum c)) = c.
Proof.
  intros [Hne Hinj] Hs. destruct (create_file_new checksum c s) as [x Hx].
  assert (x = c) as ->.
  { apply create_file_lookup in Hx as [Hx|[_ ->]]; [|done]. apply (Hinj _ _ Hx). by apply Hs. }
  unfold content. destruct (checksum c); [done|]. by rewrite Hx.
Qed.

Lemma resolve_rel who p d : desk_rel p d → desk_rel (resolve who p) d.
Proof.
  intros Hr. destruct who; [done|]. unfold resolve, start. destruct (next_step p) as [[]|]; by eapply rel_same.
Qed.

(** The draft is committed. *)
Lemma on_commit_rel who i c p d :
  desk_rel p d → pending p = [RCommit who i c] → distinct_sum (store p) c →
  desk_rel (on_commit checksum who i c OOk (set_pending [] p)) (act d ASave).
Proof.
  intros Hr Hpend Hc. destruct (activity_request _ _ _ _ (rel_activity _ _ Hr) Hpend) as [_ Htm].
  pose proof (rel_answered _ _ Hr Htm) as Hr'. pose proof (rel_activity _ _ Hr) as Ha.
  unfold activity in Ha. rewrite Hpend, Htm in Ha. destruct Ha as (Hop & Hsel & ->).
  set (c := join [LF] (draft d)) in *.
  assert (lines_ok (draft d)) as Hlines.
  { rewrite <- (rel_lines _ _ Hr). apply (rel_page _ _ Hr). }
  pose proof (on_commit_ok checksum lower Keys i c OOk _ (rel_page _ _ Hr')) as Hok.
  destruct (rel_opened _ _ Hr i Hop) as (Hro & _ & ls & Hls & _).
  apply resolve_rel. cbn [on_commit resolve] in Hok. revert Hok.
  rewrite (find_cached_nil _ _ _ _ _ _ _ _ (rel_page _ _ Hr')). intros Hok.
  assert (∃ n, nodes (tree_obj p) !! i = Some n ∧ type n = Tfile) as (n & Hn & Hty).
  { rewrite (rel_shelf _ _ Hr), shelf_lookup in Hls. destruct (nodes (tree_obj p) !! i) as [n|]; [|done].
    exists n. split; [done|]. cbn in Hls. unfold file_lines in Hls. by case_decide. }
  unfold act. rewrite Hop.
  split; [exact Hok| |done|by apply (rel_lines _ _ Hr)|by apply (rel_history _ _ Hr)|right; by exists i|done| |].
  - change (<[i := draft d]> (shelf d) =
            shelf_of (assign_data i (Some (checksum c)) (tree_obj p)) (create_file checksum c (store p))).
    rewrite (shelf_assign _ _ _ _ n Hn). unfold file_lines. cbn -[content shelf_of]. rewrite decide_True by done.
    rewrite content_created by (done || apply (pg_store _ _ _ _ _ _ _ (rel_page _ _ Hr))).
    rewrite shelf_store by apply (pg_sums _ _ _ _ _ _ _ (rel_page _ _ Hr)).
    unfold c. by rewrite splitLines_join, <- (rel_shelf _ _ Hr).
  - intros j [= <-]. split_and!; [done|by right|]. exists (draft d). cbn.
    by rewrite lookup_insert_eq.
  - unfold activity. cbn. by rewrite Htm.
Qed.

(** A new sum is the new lines of a file. *)
Lemma shelf_put t s i h n :
  nodes t !! i = Some n →
  shelf_of (assign_data i (Some h) t) s = alter (λ _, splitLines (content s (Some h))) i (shelf_of t s).
Proof.
  intros Hn. rewrite (shelf_assign _ _ _ _ n Hn). apply map_eq. intros j.
  pose proof (shelf_lookup t s i) as Hs. rewrite Hn in Hs. cbn in Hs. unfold file_lines in *. cbn -[content] in *.
  destruct (decide (j = i)) as [->|Hne].
  - rewrite lookup_alter_eq. destruct (decide (type n = Tfile)); rewrite ?lookup_insert_eq, Hs; done.
  - rewrite lookup_alter_ne by done. case_decide; [|done]. by rewrite lookup_insert_ne.
Qed.

(** A node gets another name and sum, and is selected again. *)
Lemma refresh_rel t i h name n p :
  page_ok checksum lower p → quiet p → selected (tree_obj p) = [] → i ≠ hash_id → h ≠ [] →
  nodes t !! i = Some n → nodes (tree_obj p) = nodes (assign_data i (Some h) (rename_node lower i name t)) →
  desk_rel (select i p)
    (closed (alter (λ _, splitLines (content (store p) (Some h))) i (shelf_of t (store p)))).
Proof.
  intros Hp Hq Hsel Hi Hh Hn Hnodes. set (t1 := rename_node lower i name t) in *.
  destruct (rename_node_nodes lower i name t) as (_ & _ & _ & Hinfo). fold t1 in Hinfo.
  assert (∃ n1, nodes t1 !! i = Some n1) as [n1 Hn1].
  { specialize (Hinfo i). rewrite Hn in Hinfo. destruct (nodes t1 !! i); [eauto|done]. }
  assert (nodes (tree_obj p) !! i = Some (set_data (Some h) n1)) as Hp1.
  { rewrite Hnodes. cbn. by rewrite lookup_alter_eq, Hn1. }
  rewrite <- (shelf_eq _ _ _ Hinfo), <- (shelf_put t1 _ _ _ n1 Hn1), <- (shelf_nodes _ _ (store p) Hnodes).
  unfold select, after_select.
  pose proof (select_node_ok lower i _ (pg_tree _ _ _ _ _ _ _ Hp)) as Ht. revert Ht.
  unfold select_node. rewrite bool_decide_true by (by eexists). rewrite bool_decide_false by done.
  unfold is_selected. rewrite Hsel, bool_decide_false by (by intros []%elem_of_nil). cbn. intros Ht.
  match goal with |- desk_rel (on_select_node _ ?x) _ => set (q := x) end.
  pose proof (on_select_rel i (set_data (Some h) n1) q) as Hon.
  assert (shown_at_once (tree_obj q) i = []) as Hsh.
  { unfold shown_at_once. unfold q. cbn. rewrite Hp1. cbn. destruct h; [done|]. by rewrite andb_false_r. }
  rewrite Hsh in Hon. apply Hon; try done. by apply (core_nodes _ _ _ _ _ _ _ _ Hp).
Qed.

Lemma selected_after_deselect t i :
  tree_ok lower t → selected t = [i] → selected (deselect_node i t) = [].
Proof.
  intros Ht Hs. unfold deselect_node. destruct (ok_selected _ (ok_ids _ _ Ht) i) as [? ?]; [rewrite Hs; by left|].
  rewrite bool_decide_true, bool_decide_false by done. cbn -[filter]. rewrite Hs.
  rewrite filter_cons_False; [done|]. by intros H2.
Qed.

Lemma on_replace_rel name c p d :
  desk_rel p d → pending p = [RReplace name c] → distinct_sum (store p) c →
  desk_rel (on_replace checksum lower name c OOk (set_pending [] p)) (acts (answered lower p (RReplace name c)) d).
Proof.
  intros Hr Hpend Hc. destruct (activity_request _ _ _ _ (rel_activity _ _ Hr) Hpend) as [_ Htm].
  pose proof (rel_answered _ _ Hr Htm) as Hr'. clear Hr Hpend. revert Hr' Hc.
  assert (quiet (set_pending [] p)) as Hq by done. revert Hq. cbn [answered].
  change (selected_node p) with (selected_node (set_pending [] p)). change (store p) with (store (set_pending [] p)).
  generalize (set_pending [] p). clear p Htm.
  intros p Hq Hr Hc. pose proof (rel_page _ _ Hr) as Hp. cbn [on_replace].
  set (s := create_file checksum c (store p)).
  assert (page_ok checksum lower (set_store s p)) as Hp1 by by apply core_store.
  assert (shelf_of (tree_obj p) s = shelf d) as Hsh.
  { unfold s. rewrite shelf_store by apply (pg_sums _ _ _ _ _ _ _ Hp). by rewrite (rel_shelf _ _ Hr). }
  unfold selected_node. cbn [tree_obj set_replace set_store].
  destruct (rel_one _ _ Hr) as [Hsel|[i Hsel]]; rewrite Hsel; cbn [head].
  { destruct Hr. split; cbn; try done. by apply activity_quiet. }
  destruct (ok_selected _ (ok_ids _ _ (pg_tree _ _ _ _ _ _ _ Hp)) i) as [[n Hn] Hi]; [rewrite Hsel; by left|].
  set (t1 := rename_node lower i name (tree_obj p)).
  destruct (rename_node_keeps lower i name (tree_obj p)) as [Hk Ho]. fold t1 in Hk, Ho.
  pose proof (core_keeps _ _ _ _ _ _ _ _ Hp1 (rename_node_ok lower i name _ (pg_tree _ _ _ _ _ _ _ Hp)) Hk Ho) as Hc1.
  pose proof (core_data _ _ _ _ _ _ _ i _ Hc1 (create_file_new checksum c (store p))) as Hc2.
  set (t2 := assign_data i (Some (checksum c)) t1) in *.
  pose proof (core_nodes _ _ _ _ _ _ _ _ Hc2 (deselect_node_ok lower i _ (pg_tree _ _ _ _ _ _ _ Hc2))
               (deselect_node_nodes i _)) as Hc3.
  match goal with |- desk_rel (set_replace _ (select i ?x)) _ => set (q := x) end.
  apply (rel_same (select i q)); [|done..].
  pose proof (refresh_rel (tree_obj p) i (checksum c) name n q) as Hre.
  change (store q) with s in Hre. rewrite Hsh in Hre. unfold s in Hre at 1. rewrite content_created in Hre
    by (done || apply (pg_store _ _ _ _ _ _ _ Hp)).
  apply Hre; try done.
  - apply (core_ed _ _ _ _ _ _ _ _ Hc3); [|by left]. apply mirror_ok_blank, (pg_mirror _ _ _ _ _ _ _ Hp).
  - apply selected_after_deselect; [apply (pg_tree _ _ _ _ _ _ _ Hc2)|].
    change (selected t1 = [i]). unfold t1. by rewrite (proj1 (rename_node_nodes lower i name (tree_obj p))).
  - by destruct Hc.
  - apply deselect_node_nodes.
Qed.

(** A node for an uploaded file is created and its timer started. *)
Lemma add_file_rel f c p d :
  desk_rel p d → quiet p → is_Some (store p !! checksum c) → checksum c ≠ [] →
  content (store p) (Some (checksum c)) = c →
  desk_rel (add_file_node lower f (checksum c) p) (acts (answered lower p (RUpload f c)) d).
Proof.
  intros Hr [Hq1 Hq2] Hh Hne Hc. pose proof (rel_page _ _ Hr) as Hp. pose proof (pg_tree _ _ _ _ _ _ _ Hp) as Ht.
  pose proof (add_file_node_ok checksum lower f _ p Hp Hh) as Hok. revert Hok. unfold add_file_node. cbn [answered].
  destruct (create_rel (selected_node p) Tfile false p d Hr (conj Hq1 Hq2) (or_intror eq_refl))
    as (Hr' & Hop). revert Hr' Hop.
  pose proof (create_node_nodes lower (selected_node p) Tfile false (tree_obj p) Ht) as H. revert H.
  unfold selected_node. destruct (rel_one _ _ Hr) as [Hsel|[a Hsel]]; rewrite Hsel; cbn [head].
  { intros _ Hr' _ _. cbn in Hr'. cbn. done. }
  cbn -[create_node]. destruct (create_node lower (Some a) Tfile false (tree_obj p)) as [t [i|]]; cbn; [|by intros].
  intros (Hst & _ & _ & -> & Hi & Ha) Hr' _ Hok.
  destruct (ok_selected _ (ok_ids _ _ Ht) a) as [[n Hn] _]; [rewrite Hsel; by left|].
  assert (opened d = None) as Hnone.
  { destruct (opened d) as [j|] eqn:Hj; [|done]. destruct (rel_opened _ _ Hr j Hj) as (_ & Hs & ls & Hls & _).
    assert (a = j) as -> by (destruct Hs; congruence). specialize (Ha j n eq_refl Hn).
    rewrite (rel_shelf _ _ Hr), shelf_lookup, Hn in Hls. cbn in Hls. unfold file_lines in Hls. by case_decide. }
  destruct Hr'. split; cbn; try done. unfold activity. cbn -[content]. rewrite Hq1, Hq2. cbn -[content].
  destruct (nodes t !! cnt (tree_obj p)) as [x|] eqn:Hx; [|done]. cbn in Hi. rewrite Hc. split_and!; try done.
  - intros ->. rewrite fresh_node in Hn; [done|eauto with js].
  - intros He. destruct (ok_hash _ (ok_links _ _ Ht)) as [y Hy]. rewrite <- He, fresh_node in Hy; [done|eauto with js].
  - exists x. split; [done|]. by injection Hi.
Qed.

Lemma on_upload_rel name c p d :
  desk_rel p d → pending p = [RUpload name c] → distinct_sum (store p) c →
  desk_rel (on_upload checksum lower name c OOk (set_pending [] p)) (acts (answered lower p (RUpload name c)) d).
Proof.
  intros Hr Hpend Hc. destruct (activity_request _ _ _ _ (rel_activity _ _ Hr) Hpend) as [_ Htm].
  pose proof (rel_answered _ _ Hr Htm) as Hr'. pose proof (rel_page _ _ Hr) as Hp. cbn [on_upload].
  set (s := create_file checksum c (store p)).
  match goal with |- desk_rel (add_file_node _ _ _ ?x) _ => set (q := x) end.
  assert (desk_rel q d) as Hr1.
  { destruct Hr'. split; cbn; try done.
    - by apply core_store.
    - unfold s. rewrite shelf_store by apply (pg_sums _ _ _ _ _ _ _ Hp). done.
    - by rewrite Htm. }
  change (answered lower p (RUpload name c)) with (answered lower q (RUpload name c)).
  apply add_file_rel; [done..|apply create_file_new|by destruct Hc|].
  apply content_created; [done|]. apply (pg_store _ _ _ _ _ _ _ Hp).
Qed.

Lemma run_timer_rel tm p d :
  desk_rel p d → timers p = [tm] → desk_rel (run_timer lower tm (set_timers [] p)) (act d AArrive).
Proof.
  intros Hr Htm. destruct (activity_timer _ _ _ _ (rel_activity _ _ Hr) Htm) as [_ Hpend].
  destruct tm as [i a f h]. pose proof (rel_activity _ _ Hr) as Ha. unfold activity in Ha.
  rewrite Hpend, Htm in Ha. destruct Ha as (Hop & Hsel & Hne & Hi & (n & Hn & Hty) & Hh0 & Harr).
  unfold act. rewrite Harr, (rel_shelf _ _ Hr). cbn [run_timer].
  pose proof (rel_page _ _ Hr) as Hp. pose proof (pg_tree _ _ _ _ _ _ _ Hp) as Ht.
  assert (is_Some (store p !! h)) as Hh by (eapply (pg_timers _ _ _ _ _ _ _ Hp); rewrite Htm; by left).
  set (t1 := rename_node lower i f (tree_obj p)).
  destruct (rename_node_keeps lower i f (tree_obj p)) as [Hk Ho]. fold t1 in Hk, Ho.
  pose proof (core_keeps _ _ _ _ _ _ _ _ Hp (rename_node_ok lower i f _ Ht) Hk Ho) as Hc1.
  pose proof (core_data _ _ _ _ _ _ _ i _ Hc1 Hh) as Hc2. set (t2 := assign_data i (Some h) t1) in *.
  pose proof (core_nodes _ _ _ _ _ _ _ _ Hc2 (deselect_node_ok lower a _ (pg_tree _ _ _ _ _ _ _ Hc2))
               (deselect_node_nodes a _)) as Hc3.
  match goal with |- desk_rel (select i ?x) _ => set (q := x) end. change (store p) with (store q).
  apply (refresh_rel (tree_obj p) i h f n q); try done.
  - apply (core_timers _ _ _ _ _ _ _ _ Hc3). by intros ? ? ? ? H%elem_of_nil.
  - apply selected_after_deselect; [apply (pg_tree _ _ _ _ _ _ _ Hc2)|].
    change (selected t1 = [a]). unfold t1. by rewrite (proj1 (rename_node_nodes lower i f (tree_obj p))).
  - apply (deselect_node_nodes a t2).
Qed.

(** ** Every step of a user who waits *)

Lemma answer_rel k o p d :
  desk_rel p d → sums_clear p (Answer k o) →
  desk_rel (step checksum lower html p (Answer k o)) (acts (actions lower p (Answer k o)) d).
Proof.
  intros Hr Hsums. cbn [step actions sums_clear] in *.
  destruct (pending p) as [|r rs] eqn:Hpend; [by destruct o|].
  destruct (activity_request _ _ _ _ (rel_activity _ _ Hr) Hpend) as [-> Htm].
  destruct k as [|k]; cbn; [|by destruct o]. cbn in Hsums.
  destruct o; [|by apply failed_rel..].
  destruct r; cbn [answer].
  - by apply on_get_rel.
  - by apply on_commit_rel.
  - by apply on_replace_rel.
  - by apply on_upload_rel.
Qed.

Lemma step_rel p e d :
  desk_rel p d → patient p e → name_kept html p e → sums_clear p e →
  desk_rel (step checksum lower html p e) (acts (actions lower p e) d).
Proof.
  intros Hr Hpat Hname Hsums. destruct e; try (by cbn in *; eapply rel_same); cbn in Hpat.
  - cbn [step actions]. change (tree_obj p) with (tree_obj (set_context None p)).
    apply activate_rel; [by eapply rel_same|done].
  - by apply context_rel.
  - by apply choose_rel.
  - by apply start_edit_rel.
  - by apply end_edit_rel.
  - by apply write_rel.
  - by apply undo_rel.
  - by apply redo_rel.
  - by apply commit_rel.
  - cbn. unfold confirm_replace. pose proof (confirm_rel (replace_modal p) RReplace p d Hr Hpat ltac:(done) ltac:(done)) as Hc.
    destruct (confirm _ _ _) as [q []]; [|done]. by eapply rel_same.
  - cbn. unfold confirm_upload. pose proof (confirm_rel (upload_modal p) RUpload p d Hr Hpat ltac:(done) ltac:(done)) as Hc.
    destruct (confirm _ _ _) as [q []]; [|done]. by eapply rel_same.
  - cbn. unfold start_click. by repeat case_match; eapply rel_same.
  - cbn. unfold start. by repeat case_match; eapply rel_same.
  - apply commit_rel; [by eapply rel_same|done].
  - by apply answer_rel.
  - cbn [step actions]. destruct (timers p) as [|tm tms] eqn:Htm; [done|].
    destruct (activity_timer _ _ _ _ (rel_activity _ _ Hr) Htm) as [-> _]. by apply run_timer_rel.
Qed.

Lemma run_rel es p d :
  desk_rel p d → patient_run p es → desk_rel (run checksum lower html p es) (acts (actions_of p es) d).
Proof.
  revert p d. induction es as [|e es IH]; intros p d Hr Hrun; [done|].
  destruct Hrun as (Hpat & Hname & Hsums & Hrun). cbn [actions_of]. rewrite acts_app.
  by apply (IH (step checksum lower html p e)); [apply step_rel|].
Qed.

(** ** The page that is loaded *)

(** The file that is opened first. *)
Definition first_actions (t : tree) : list action :=
  match nodes t !! hash_id ≫= λ n, head (children n) ≫= λ r, nodes t !! r with
  | Some root => match find_first t None (children root) with
                 | Some i => selection t i (select_node i t).2
                 | None => []
                 end
  | None => []
  end.

Lemma ready_rel t s :
  served checksum lower t s → selected t = [] →
  desk_rel (ready t s) (acts (first_actions t) (closed (shelf_of t s))).
Proof.
  intros Hs Hsel. pose proof (cleared_ok checksum lower t s Hs) as Hp.
  assert (desk_rel (cleared t s) (closed (shelf_of t s))) as Hr by (apply closed_rel; try done; by left).
  unfold ready, open_first_file, first_actions.
  change (set_ed (clear_editor (ed (loaded t s))) (loaded t s)) with (cleared t s).
  change (tree_obj (cleared t s)) with t.
  destruct (nodes t !! hash_id ≫= _) as [r|] eqn:Hroot; [|by eapply rel_same].
  destruct (find_first t None (children r)) as [i|] eqn:Hi; [|done].
  unfold select, after_select, selection. change (tree_obj (cleared t s)) with t.
  pose proof (select_node_nodes i t) as Hnn. pose proof (select_node_ok lower i t (proj1 Hs)) as Ht. revert Hnn Ht.
  unfold select_node, is_selected. rewrite Hsel. case_match eqn:Hc; cbn.
  - intros Hnn Ht. apply andb_true_iff in Hc as [[[n Hn]%bool_decide_eq_true _]%andb_true_iff _].
    match goal with |- desk_rel (on_select_node _ ?q) (foldl _ _ (shown_at_once _ _)) =>
      change (shelf_of t s) with (shelf_of (tree_obj q) (store q));
      change (shown_at_once t i) with (shown_at_once (tree_obj q) i) end.
    apply (on_select_rel i n); try done. by apply (core_nodes _ _ _ _ _ _ _ _ Hp).
  - intros _ _. by eapply rel_same.
Qed.
End refinement.

End DeskRefines.
