(* ===== verification/EditorRuns.v ===== *)
(** * Runs of the editor of files

    The theorems about the page that creates a decision: what it keeps under every order
    of events, what it does for a user who waits for the answers of the server, and what
    becomes of files when the user does not wait. *)

From Stdlib Require Import Ascii.
From S2P Require Import Prelude Url Views FileTree FilesEditor EditorDesk DeskRefines Md5.
Import Url Views FileTree FilesEditor EditorDesk DeskRefines.

Module EditorRuns.

#[local] Arguments on_get : simpl never.
#[local] Arguments on_commit : simpl never.
#[local] Arguments content : simpl never.

Section runs.
Context (checksum lower html : jstr → jstr).

(** Events that end no edition of a name. *)
Definition renames_nothing (e : event) : bool := match e with EndEdit _ => false | _ => true end.

Lemma renames_nothing_kept es p :
  forallb renames_nothing es = true → names_kept checksum lower html p es.
Proof.
  revert p. induction es as [|e es IH]; intros p; cbn; [done|]. intros [He Hes]%andb_true_iff.
  split; [by destruct e|by apply IH].
Qed.

Lemma run_page_ok es p :
  page_ok checksum lower p → forallb renames_nothing es = true → page_ok checksum lower (run checksum lower html p es).
Proof. intros Hp Hes. by apply run_ok, renames_nothing_kept. Qed.

(** ** Opening a file and waiting for it *)

Definition shows (p : page) (ls : list jstr) : Prop :=
  lines (mirror_of (ed p)) = ls ∧ editor_status (ed p) = false ∧ readOnly (mirror_of (ed p)) = false ∧
  hist_done (mirror_of (ed p)) = [] ∧ hist_undone (mirror_of (ed p)) = [].

Definition same_files (p q : page) : Prop :=
  nodes (tree_obj q) = nodes (tree_obj p) ∧ removed (tree_obj q) = removed (tree_obj p) ∧
  store q = store p ∧ next_step q = next_step p.

Lemma activate_tree i n p :
  nodes (tree_obj p) !! i = Some n → i ≠ hash_id →
  activate i false p = on_select_node i (set_tree (with_selected [i] (tree_obj p)) p).
Proof.
  intros Hn Hi. unfold activate, after_select, activate_node. cbn. unfold select_node. cbn.
  rewrite bool_decide_true by by eexists. rewrite bool_decide_false by done.
  unfold is_selected. cbn. rewrite bool_decide_false by by intros []%elem_of_nil. done.
Qed.

Lemma select_content i n p :
  page_ok checksum lower p → nodes (tree_obj p) !! i = Some n → type n = Tfile → isFileReadable (text n) = true →
  let q := on_select_node i p in
  tree_obj q = tree_obj p ∧ store q = store p ∧ timers q = timers p ∧ next_step q = next_step p ∧
  match truthy_sum n with
  | Some h => pending q = pending p ++ [RGet i h] ∧ ed q = clear_editor (ed p)
  | None => pending q = pending p ∧ shows q [[]]
  end.
Proof.
  intros Hp Hn Hty Hread. unfold on_select_node, load_file_content. cbn. rewrite (object_node _ _ _ Hn). cbn.
  rewrite bool_decide_true by congruence. rewrite Hread. destruct (truthy_sum n) as [h|]; [|done].
  unfold find_cached. cbn. fold (find_cached h (ed p)).
  by rewrite (find_cached_nil _ _ _ _ _ _ _ h Hp).
Qed.

Lemma on_get_shows i h n resp p :
  nodes (tree_obj p) !! i = Some n → store p !! h = Some resp → editor_status (ed p) = false →
  let q := on_get i h OOk p in
  tree_obj q = tree_obj p ∧ store q = store p ∧ timers q = timers p ∧ pending q = pending p ∧
  next_step q = next_step p ∧ shows q (splitLines resp).
Proof. intros Hn Hs Hst. unfold on_get. rewrite Hs, (object_node _ _ _ Hn). done. Qed.

Lemma content_of n s h resp :
  truthy_sum n = Some h → s !! h = Some resp → content s (data n) = resp.
Proof.
  unfold truthy_sum, content. destruct (data n) as [[|a w]|]; intros H1 H2; simplify_eq. by rewrite H2.
Qed.

Lemma content_empty n s : truthy_sum n = None → content s (data n) = [].
Proof. unfold truthy_sum, content. by destruct (data n) as [[|a w]|]. Qed.

Lemma file_not_hash p i n : page_ok checksum lower p → nodes (tree_obj p) !! i = Some n → type n = Tfile → i ≠ hash_id.
Proof.
  intros Hp Hn Hty Hi. apply (ok_type _ (ok_kinds _ _ (pg_tree _ _ _ _ _ _ _ Hp)) i n Hn) in Hi. congruence.
Qed.

(** A click on a readable file asks for its content, or shows nothing when it has none. *)
Lemma open_asks i n p :
  page_ok checksum lower p → nodes (tree_obj p) !! i = Some n → type n = Tfile → isFileReadable (text n) = true →
  let q := step checksum lower html p (Activate i false) in
  page_ok checksum lower q ∧ tree_obj q = with_selected [i] (tree_obj p) ∧ store q = store p ∧
  timers q = timers p ∧ next_step q = next_step p ∧
  match truthy_sum n with
  | Some h => pending q = pending p ++ [RGet i h] ∧ editor_status (ed q) = false
  | None => pending q = pending p ∧ shows q [[]]
  end.
Proof.
  intros Hp Hn Hty Hread q. assert (page_ok checksum lower q) as Hq by by apply step_ok.
  split; [done|]. clear Hq. subst q. cbn [step].
  assert (i ≠ hash_id) as Hi by by apply (file_not_hash p i n).
  rewrite (activate_tree i n (set_context None p)) by done.
  change (tree_obj (set_context None p)) with (tree_obj p).
  set (p0 := set_tree (with_selected [i] (tree_obj p)) (set_context None p)).
  assert (page_ok checksum lower p0) as Hp0.
  { apply (core_nodes _ _ _ _ _ _ _ _ Hp); [|done]. apply with_selected_ok; [apply Hp|apply NoDup_singleton|].
    intros k ->%list_elem_of_singleton. split; [by eexists|done]. }
  destruct (select_content i n p0 Hp0 Hn Hty Hread) as (-> & -> & -> & -> & H). split_and!; try done.
  destruct (truthy_sum n); [|done]. destruct H as [-> ->]. done.
Qed.

(** The server has the content that is asked for. *)
Lemma known_content p i n h :
  page_ok checksum lower p → nodes (tree_obj p) !! i = Some n → truthy_sum n = Some h →
  store p !! h = Some (content (store p) (data n)).
Proof.
  intros Hp Hn Hh. destruct (truthy_sum_data n h Hh) as [Hd _].
  destruct (pg_sums _ _ _ _ _ _ _ Hp i n h (object_node _ _ _ Hn) Hd) as [x Hx].
  by rewrite (content_of _ _ _ _ Hh Hx).
Qed.

(** A readable file that is selected is shown once the answer is there. *)
Lemma open_shows_file i n p :
  page_ok checksum lower p → quiet p → nodes (tree_obj p) !! i = Some n → type n = Tfile →
  isFileReadable (text n) = true →
  let q := run checksum lower html p [Activate i false; Answer 0 OOk] in
  quiet q ∧ selected (tree_obj q) = [i] ∧ same_files p q ∧ shows q (splitLines (content (store p) (data n))).
Proof.
  intros Hp [Hq1 Hq2] Hn Hty Hread. destruct (open_asks i n p Hp Hn Hty Hread) as (_ & Ht & Hs & Htm & Hnx & H).
  cbn [run foldl]. set (q := step _ _ _ p _) in *. clearbody q. rewrite Hq1 in H. unfold quiet, same_files. cbn.
  destruct (truthy_sum n) as [h|] eqn:Hh; destruct H as [Hpend Hed]; rewrite Hpend; cbn.
  - destruct (on_get_shows i h n (content (store p) (data n)) (set_pending [] q)) as (H1 & H2 & H3 & H4 & H5 & H6);
      [cbn; by rewrite Ht|cbn; rewrite Hs; by eapply known_content|done|].
    cbn in *. rewrite H1, H2, H3, H4, H5, Ht, Hs, Htm, Hnx. done.
  - rewrite (content_empty _ _ Hh), Hpend, Htm, Ht, Hs, Hnx. done.
Qed.

Lemma on_get_same i h o p :
  tree_obj (on_get i h o p) = tree_obj p ∧ store (on_get i h o p) = store p ∧
  timers (on_get i h o p) = timers p ∧ pending (on_get i h o p) = pending p ∧
  next_step (on_get i h o p) = next_step p.
Proof. unfold on_get. by repeat case_match. Qed.

(** Selecting any node and waiting changes no file. *)
Lemma visit_same j b o p :
  page_ok checksum lower p → quiet p →
  let q := run checksum lower html p [Activate j b; Answer 0 o] in
  quiet q ∧ same_files p q ∧ page_ok checksum lower q.
Proof.
  intros Hp [Hq1 Hq2] q. assert (page_ok checksum lower q) as Hq by by apply run_page_ok.
  assert (quiet q ∧ same_files p q) as [? ?]; [|done]. clear Hq. subst q. cbn [run foldl step].
  set (a := activate j b (set_context None p)).
  assert (same_files p a ∧ timers a = [] ∧ (pending a = [] ∨ ∃ h, pending a = [RGet j h])) as (Hs & Htm & Hpend).
  { unfold a, activate, after_select. destruct (activate_node_nodes j b (tree_obj p)) as [Hn1 Hn2]. cbn.
    destruct (activate_node j b (tree_obj p)) as [t []]; cbn in *; [|split_and!; [done|done|by left]].
    unfold on_select_node. destruct (bool_decide _); cbn; [|split_and!; [done|done|by left]].
    unfold load_file_content. cbn. repeat case_match; cbn; rewrite ?Hq1; split_and!; try done; eauto. }
  destruct Hpend as [Hpend|[h Hpend]]; rewrite Hpend; cbn; [done|].
  destruct (on_get_same j h o (set_pending [] a)) as (H1 & H2 & H3 & H4 & H5).
  unfold quiet, same_files. rewrite H1, H2, H3, H4, H5. split; [done|]. exact Hs.
Qed.
(** ** A commit that is answered *)

Lemma resolve_same who p :
  tree_obj (resolve who p) = tree_obj p ∧ ed (resolve who p) = ed p ∧ pending (resolve who p) = pending p ∧
  timers (resolve who p) = timers p ∧ store (resolve who p) = store p.
Proof. destruct who; [done|]. unfold resolve, start. by repeat case_match. Qed.

Lemma on_commit_OK who i c p :
  page_ok checksum lower p → distinct_sum checksum (store p) c →
  let q := on_commit checksum who i c OOk p in
  tree_obj q = assign_data i (Some (checksum c)) (tree_obj p) ∧ mirror_of (ed q) = mirror_of (ed p) ∧
  editor_status (ed q) = false ∧ pending q = pending p ∧ timers q = timers p ∧
  store q = create_file checksum c (store p) ∧ content (store q) (Some (checksum c)) = c.
Proof.
  intros Hp Hsums. unfold on_commit. cbn.
  rewrite (find_cached_nil _ _ _ _ _ _ _ _ Hp).
  match goal with |- context [resolve who ?x] => destruct (resolve_same who x) as (-> & -> & -> & -> & ->) end.
  cbn -[content]. split_and!; try done. apply content_created; [done|]. apply (pg_store _ _ _ _ _ _ _ Hp).
Qed.

(** Saving the selected node and waiting. *)
Lemma save_stores i n p :
  page_ok checksum lower p → quiet p → selected (tree_obj p) = [i] →
  nodes (tree_obj p) !! i = Some n → not_commited p = true →
  distinct_sum checksum (store p) (getValue (mirror_of (ed p))) →
  let c := getValue (mirror_of (ed p)) in
  let q := run checksum lower html p [Save; Answer 0 OOk] in
  page_ok checksum lower q ∧ quiet q ∧ nodes (tree_obj q) !! i = Some (set_data (Some (checksum c)) n) ∧
  mirror_of (ed q) = mirror_of (ed p) ∧ not_commited q = false ∧ content (store q) (Some (checksum c)) = c.
Proof.
  intros Hp [Hq1 Hq2] Hsel Hn Hst Hsums c q.
  assert (page_ok checksum lower q) as Hq by by apply run_page_ok. split; [done|]. clear Hq. subst q.
  cbn [run foldl step]. unfold commit_file. rewrite Hst. unfold selected_node. rewrite Hsel. cbn.
  rewrite Hq1. cbn. fold c.
  match goal with |- context [on_commit _ _ _ _ _ ?x] => set (a := x) end.
  assert (page_ok checksum lower a) as Ha.
  { apply (core_pending _ _ _ _ _ _ _ _ Hp). by intros ? ? H%elem_of_nil. }
  destruct (on_commit_OK Keys i c a Ha Hsums) as (H1 & H2 & H3 & H4 & H5 & _ & H7).
  unfold quiet, not_commited. rewrite H1, H2, H3, H4, H5, H7. cbn. by rewrite lookup_alter_eq, Hn.
Qed.

Lemma lines_getValue p :
  page_ok checksum lower p → splitLines (getValue (mirror_of (ed p))) = lines (mirror_of (ed p)).
Proof. intros Hp. apply splitLines_join. apply Hp. Qed.

(** ** Edits and the history *)

Definition is_edit (e : event) : bool :=
  match e with Write _ _ | Undo | Redo => true | _ => false end.

(** The oldest document of the history. *)
Definition base (m : mirror) : option (list jstr) := last (lines m :: hist_done m).

Lemma last_cons_cons {A} (x y : A) l : last (x :: y :: l) = last (y :: l).
Proof. done. Qed.

(** A mirror that can be edited and whose history has no depth. *)
Definition free (m : mirror) : Prop := readOnly m = false ∧ undoDepth m = None.

(** An edit keeps the oldest document, and its history grows by one at most. *)
Lemma edit_base e p :
  is_edit e = true → free (mirror_of (ed p)) →
  let m := mirror_of (ed (step checksum lower html p e)) in
  base m = base (mirror_of (ed p)) ∧ length (hist_done m) ≤ S (length (hist_done (mirror_of (ed p)))) ∧ free m.
Proof.
  intros He [Hro Hn]. unfold base, free. destruct e; try done; cbn; unfold edit; rewrite Hro.
  - unfold write_lines, change_lines. rewrite Hn. destruct (hist_done _) as [|d ds] eqn:Hd; [|destruct joined]; cbn; rewrite ?Hd.
    all: rewrite ?last_cons_cons; split_and!; try done; cbn; lia.
  - unfold undo. destruct (hist_done _) as [|d ds] eqn:Hd; cbn; rewrite ?Hd; rewrite ?last_cons_cons;
      split_and!; try done; cbn; lia.
  - unfold redo. destruct (hist_undone _) as [|d ds] eqn:Hd; cbn; rewrite ?last_cons_cons; split_and!; try done; cbn; lia.
Qed.

Lemma edits_base es p :
  forallb is_edit es = true → free (mirror_of (ed p)) →
  let m := mirror_of (ed (run checksum lower html p es)) in
  base m = base (mirror_of (ed p)) ∧ length (hist_done m) ≤ length es + length (hist_done (mirror_of (ed p))) ∧ free m.
Proof.
  revert p. induction es as [|e es IH]; intros p Hes Hf; [done|]. cbn in Hes.
  apply andb_true_iff in Hes as [He Hes]. destruct (edit_base e p He Hf) as (Hb & Hl & Hf1).
  change (run checksum lower html p (e :: es)) with (run checksum lower html (step checksum lower html p e) es).
  destruct (IH (step checksum lower html p e) Hes Hf1) as (Hb' & Hl' & Hf'). split_and!; [by etrans| |done].
  etrans; [exact Hl'|]. cbn [length]. lia.
Qed.

(** Enough undos lead to the oldest document. *)
Lemma undos_base k p :
  free (mirror_of (ed p)) → length (hist_done (mirror_of (ed p))) ≤ k →
  base (mirror_of (ed p)) = Some (lines (mirror_of (ed (run checksum lower html p (replicate k Undo))))).
Proof.
  revert p. induction k as [|k IH]; intros p Hf Hk.
  - unfold base. by destruct (hist_done _); [|cbn in Hk; lia].
  - cbn. destruct (edit_base Undo p eq_refl Hf) as (Hb & _ & Hf1). cbn in Hb. rewrite <- Hb. apply IH; [done|].
    unfold edit. destruct Hf as [Hro _]. rewrite Hro. unfold undo.
    destruct (hist_done (mirror_of (ed p))) eqn:Hd; cbn in *; [rewrite Hd; cbn|]; lia.
Qed.

(** ** Theorems *)



(** C9: A text that was committed, and whose sum no other text of the server has, is shown
    again, line by line, when its file is opened after any other node was visited. *)
Theorem committed_text_comes_back p i n j b o :
  page_ok checksum lower p → quiet p → selected (tree_obj p) = [i] →
  nodes (tree_obj p) !! i = Some n → type n = Tfile → isFileReadable (text n) = true → not_commited p = true →
  distinct_sum checksum (store p) (getValue (mirror_of (ed p))) →
  let q := run checksum lower html p [Save; Answer 0 OOk; Activate j b; Answer 0 o; Activate i false; Answer 0 OOk] in
  selected (tree_obj q) = [i] ∧ shows q (lines (mirror_of (ed p))).
Proof.
  intros Hp Hq Hsel Hn Hty Hread Hst Hsums q.
  destruct (save_stores i n p Hp Hq Hsel Hn Hst Hsums) as (Hp1 & Hq1 & Hn1 & _ & _ & Hc).
  set (p1 := run checksum lower html p [Save; Answer 0 OOk]) in *.
  destruct (visit_same j b o p1 Hp1 Hq1) as (Hq2 & (Hs1 & _ & Hs2 & _) & Hp2).
  set (p2 := run checksum lower html p1 [Activate j b; Answer 0 o]) in *.
  destruct (open_shows_file i _ p2 Hp2 Hq2 (eq_trans (f_equal (lookup i) Hs1) Hn1)) as (_ & Hsel3 & _ & Hsh); [done..|].
  split; [exact Hsel3|]. rewrite Hs2 in Hsh. cbn [data set_data] in Hsh. rewrite Hc, lines_getValue in Hsh by done.
  exact Hsh.
Qed.


(** C38: When two files are opened one after the other and the answer for the first comes
    last, the editor shows the content of the first while the second is selected; what is
    edited and committed then, if no other text of the server has its sum, is stored as the
    second file. *)
Theorem late_answer_overwrites p i j ni nj hi hj s :
  page_ok checksum lower p → quiet p → i ≠ j →
  nodes (tree_obj p) !! i = Some ni → nodes (tree_obj p) !! j = Some nj →
  type ni = Tfile → type nj = Tfile → isFileReadable (text ni) = true → isFileReadable (text nj) = true →
  truthy_sum ni = Some hi → truthy_sum nj = Some hj →
  distinct_sum checksum (store p) (join [LF] (splitLines s)) →
  let q := run checksum lower html p [Activate i false; Activate j false; Answer 1 OOk; Answer 0 OOk] in
  let r := run checksum lower html q [Write s false; Save; Answer 0 OOk] in
  selected (tree_obj q) = [j] ∧ shows q (splitLines (content (store p) (data ni))) ∧
  editor_filename (ed q) = text ni ∧
  ∃ h, nodes (tree_obj r) !! j = Some (set_data (Some h) nj) ∧ splitLines (content (store r) (Some h)) = splitLines s.
Proof.
  intros Hp [Hq1 Hq2] Hij Hni Hnj Hti Htj Hri Hrj Hhi Hhj Hsums q r.
  assert (page_ok checksum lower q) as Hq by by apply run_page_ok.
  assert (selected (tree_obj q) = [j] ∧ nodes (tree_obj q) = nodes (tree_obj p) ∧ quiet q ∧
          shows q (splitLines (content (store p) (data ni))) ∧ editor_filename (ed q) = text ni ∧ store q = store p)
    as (Hsel & Hn & Hquiet & Hsh & Hfn & Hstore).
  { clear Hq. subst q r. cbn [run foldl].
    destruct (open_asks i ni p Hp Hni Hti Hri) as (Hp1 & Ht1 & Hs1 & Htm1 & _ & H1). rewrite Hhi, Hq1 in H1.
    set (p1 := step _ _ _ p _) in *. clearbody p1. destruct H1 as [Hpe1 Hst1].
    destruct (open_asks j nj p1 Hp1) as (Hp2 & Ht2 & Hs2 & Htm2 & _ & H2); [by rewrite Ht1|done..|].
    rewrite Hhj, Hpe1 in H2. set (p2 := step _ _ _ p1 _) in *. clearbody p2. destruct H2 as [Hpe2 Hst2].
    cbn. rewrite Hpe2. cbn. rewrite Ht1 in Ht2. rewrite Hs1 in Hs2.
    match goal with |- context [on_get j hj OOk ?x] => set (p3 := x) end.
    destruct (on_get_shows j hj nj (content (store p) (data nj)) p3) as (H1 & H2 & H3 & H4 & _ & H6);
      [cbn; by rewrite Ht2|cbn; rewrite Hs2; by eapply known_content|done|].
    set (p4 := on_get j hj OOk p3) in *. rewrite H4. cbn.
    change (tree_obj p3) with (tree_obj p2) in H1. change (store p3) with (store p2) in H2.
    change (timers p3) with (timers p2) in H3. rewrite Ht2 in H1. rewrite Hs2 in H2. clearbody p4.
    destruct (on_get_shows i hi ni (content (store p) (data ni)) (set_pending [] p4)) as (G1 & G2 & G3 & G4 & _ & G6);
      [cbn; by rewrite H1|cbn; rewrite H2; by eapply known_content|apply H6|].
    unfold quiet. rewrite G1, G2, G3, G4. cbn. rewrite H1, H2, H3, Htm2, Htm1. split_and!; try done.
    unfold on_get. cbn. rewrite H2, (known_content p i ni hi Hp Hni Hhi), H1. unfold object. cbn. by rewrite Hni. }
  split_and!; try done. destruct Hsh as (Hl & Hst & Hro & _). clearbody q.
  assert (page_ok checksum lower (step checksum lower html q (Write s false))) as Hq3 by by apply step_ok.
  assert (let w := step checksum lower html q (Write s false) in
          tree_obj w = tree_obj q ∧ quiet w ∧ not_commited w = true ∧ lines (mirror_of (ed w)) = splitLines s ∧
          store w = store p)
    as (Hw1 & Hw2 & Hw3 & Hw4 & Hw5).
  { cbn. unfold edit. rewrite Hro. split_and!; try done. cbn. unfold write_lines. by destruct (hist_done _). }
  set (w := step checksum lower html q (Write s false)) in *.
  destruct (save_stores j nj w Hq3 Hw2) as (_ & _ & Hnode & _ & _ & Hc);
    [by rewrite Hw1|by rewrite Hw1, Hn|done|unfold getValue; by rewrite Hw4, Hw5|].
  eexists. split; [exact Hnode|]. change (run checksum lower html q [Write s false; Save; Answer 0 OOk]) with
    (run checksum lower html w [Save; Answer 0 OOk]) in r. unfold r. rewrite Hc. rewrite <- Hw4. by apply lines_getValue.
Qed.

(** C39: What is written while a commit is under way is taken for committed when the answer
    comes: the status disappears, the file has the older text (which has a sum of its own),
    and the decision is posted without the warning. *)
Theorem edit_during_commit_is_lost p i n s :
  page_ok checksum lower p → quiet p → selected (tree_obj p) = [i] →
  nodes (tree_obj p) !! i = Some n → not_commited p = true → readOnly (mirror_of (ed p)) = false →
  distinct_sum checksum (store p) (getValue (mirror_of (ed p))) →
  let c := getValue (mirror_of (ed p)) in
  let q := run checksum lower html p [Save; Write s false; Answer 0 OOk] in
  not_commited q = false ∧ lines (mirror_of (ed q)) = splitLines s ∧
  nodes (tree_obj q) !! i = Some (set_data (Some (checksum c)) n) ∧ content (store q) (Some (checksum c)) = c ∧
  notices (step checksum lower html q (StartClick NDefault)) = notices q ++ [Posted (serialize q)].
Proof.
  intros Hp [Hq1 Hq2] Hsel Hn Hst Hro Hsums c q. subst q. cbn [run foldl step]. unfold commit_file. rewrite Hst.
  unfold selected_node. rewrite Hsel. cbn. unfold edit. cbn. rewrite Hro. cbn. rewrite Hq1. cbn. fold c.
  match goal with |- context [on_commit _ _ _ _ _ ?x] => set (a := x) end.
  assert (page_ok checksum lower a) as Ha.
  { split; cbn; try apply Hp; try (by intros ? ? H%elem_of_nil).
    unfold a. cbn. apply mirror_ok_write, Hp. }
  destruct (on_commit_OK Keys i c a Ha Hsums) as (H1 & H2 & H3 & H4 & H5 & _ & H7).
  unfold start_click, not_commited. rewrite H1, H2, H3, H7. cbn. rewrite lookup_alter_eq, Hn. split_and!; try done.
  unfold write_lines. by destruct (hist_done _).
Qed.

(** C33: However the shown file is edited, undone and redone, as many undos as there were
    events give back the lines that were loaded, never those of a file shown before:
    showing a file makes a history without a depth, so none of its entries is dropped. *)
Theorem undo_stays_in_file p i n es k :
  page_ok checksum lower p → quiet p → nodes (tree_obj p) !! i = Some n → type n = Tfile →
  isFileReadable (text n) = true → forallb is_edit es = true → length es ≤ k →
  let q := run checksum lower html p [Activate i false; Answer 0 OOk] in
  undoDepth (mirror_of (ed q)) = None ∧
  lines (mirror_of (ed (run checksum lower html (run checksum lower html q es) (replicate k Undo)))) =
  splitLines (content (store p) (data n)).
Proof.
  intros Hp Hq Hn Hty Hread Hes Hk q.
  destruct (open_shows_file i n p Hp Hq Hn Hty Hread) as (_ & _ & _ & Hl & _ & Hro & Hd & _).
  assert (page_ok checksum lower q) as Hok by by apply run_page_ok.
  pose proof (mirror_depth _ (pg_mirror _ _ _ _ _ _ _ Hok)) as Hn0. split; [done|].
  fold q in Hl, Hro, Hd. destruct (edits_base es q Hes (conj Hro Hn0)) as (Hb & Hlen & Hf').
  pose proof (undos_base k (run checksum lower html q es) Hf') as Hu. rewrite Hb in Hu. unfold base in Hu. rewrite Hd in Hu.
  cbn in Hu. rewrite Hd in Hlen. cbn in Hlen. rewrite <- Hl. specialize (Hu ltac:(lia)). by injection Hu.
Qed.

(** C34: A file or directory is always created below a node that is no file: the loop over
    the names ends with a name that no sibling has, and the tree stays well-formed. *)
Theorem creation_finds_name t a n ty first :
  lower_plain lower → tree_ok lower t → nodes t !! a = Some n → type n ≠ Tfile → ty = Tfolder ∨ ty = Tfile →
  ∃ t' x, create_node lower (Some a) ty first t = (t', Some (cnt t)) ∧ tree_ok lower t' ∧
    nodes t' !! cnt t = Some x ∧ type x = ty ∧ parents x = a :: parents n ∧
    ∀ c y, c ∈ children n → nodes t !! c = Some y → lower (text y) ≠ lower (text x).
Proof.
  intros Hl Ht Ha Hn Hty. pose proof (create_node_total lower a n ty first t Hl Ht Ha Hn) as Ho.
  pose proof (create_node_ok lower (Some a) ty first t Ht Hty) as Hok.
  destruct (create_node lower (Some a) ty first t) as [t' o] eqn:Hc. cbn in *. subst o.
  destruct (create_node_Some _ _ _ _ _ _ _ Ht Hc) as (a' & n' & name & [= <-] & Ha' & _ & _ & Hname & _ & _ & _ & Hi & _).
  simplify_eq. exists t'. eexists. split_and!; try done. cbn. intros c y Hcn Hy He. apply Hname. rewrite <- He.
  by eapply elem_of_texts.
Qed.

(** A file that is uploaded while a file is selected gets no node, and nothing is said. *)
Lemma upload_into_file_is_lost p i n name c :
  selected (tree_obj p) = [i] → nodes (tree_obj p) !! i = Some n → type n = Tfile →
  pending p = [RUpload name c] →
  let q := step checksum lower html p (Answer 0 OOk) in
  tree_obj q = tree_obj p ∧ timers q = timers p ∧ notices q = notices p.
Proof.
  intros Hsel Hn Hty Hpend. cbn. rewrite Hpend. cbn. unfold add_file_node, selected_node. cbn. rewrite Hsel. cbn.
  unfold create_node. cbn -[unique_name]. rewrite Hn. cbn -[unique_name]. rewrite Hty.
  by destruct (unique_name _ _ _ _).
Qed.

(** No lookup in the cache finds anything. *)
Lemma cache_never_hit t s es h :
  served checksum lower t s → names_kept checksum lower html (ready t s) es →
  find_cached h (ed (run checksum lower html (ready t s) es)) = [].
Proof. intros Hs Hk. eapply find_cached_nil, run_ok; [by apply ready_ok|done]. Qed.

(** A commit without changes leaves the page as it is: its promise is never settled. *)
Lemma commit_unchanged who p : not_commited p = false → commit_file who p = p.
Proof. intros H. unfold commit_file. by rewrite H. Qed.

(** Confirming without a file ends with an exception and not with a message. *)
Lemma confirm_without_file p :
  file_input (upload_modal p) = None → step checksum lower html p ConfirmUpload = notify Uncaught p.
Proof. intros H. cbn. unfold confirm_upload, confirm. by rewrite H. Qed.
End runs.

(** No name of a Python file is readable, so the mode for Python is never set. *)
Lemma python_not_readable s : isFileReadable (s ++ str ".py") = false.
Proof.
  change (str ".py") with ("."%char :: str "py").
  destruct (getFileExtension_spec s (str "py")) as (_ & _ & ->); [|done]. js_decide.
Qed.

(** ** A page with two files *)

(** The sum of utils.py, and HTML for texts without tags and entities. *)
Definition demo_checksum : jstr → jstr := Md5.file_checksum.
Definition demo_lower (s : jstr) : jstr := s.
Definition demo_html (s : jstr) : jstr :=
  concat (map (λ a, if decide (a = "&"%char) then str "&amp;" else [a]) s).

Definition base_tree : tree :=
  Tree {[ 0 := Node [] Thash None [] [1] [1]; 1 := Node (str "Files") Troot None [0] [] [] ]} [] 2 ∅.

Lemma base_nodes i n :
  nodes base_tree !! i = Some n →
  (i = 0 ∧ n = Node [] Thash None [] [1] [1]) ∨ (i = 1 ∧ n = Node (str "Files") Troot None [0] [] []).
Proof.
  cbn. rewrite lookup_insert_Some, lookup_singleton_Some. naive_solver.
Qed.

Lemma base_ok : tree_ok demo_lower base_tree.
Proof.
  assert (nodes base_tree !! 0 = Some (Node [] Thash None [] [1] [1])) as H0 by done.
  assert (nodes base_tree !! 1 = Some (Node (str "Files") Troot None [0] [] [])) as H1 by done.
  split; [split|split| |split].
  - by eexists.
  - intros i n Hi. destruct (base_nodes i n Hi) as [[-> ->]|[-> ->]]; done.
  - intros p n c Hp Hc. destruct (base_nodes p n Hp) as [[-> ->]|[-> ->]]; [|by apply elem_of_nil in Hc].
    apply list_elem_of_singleton in Hc as ->. by eexists.
  - intros c x p ps Hc Hx. destruct (base_nodes c x Hc) as [[-> ->]|[-> ->]]; [done|].
    injection Hx as <- <-. eexists. split_and!; [done|done|]. by left.
  - intros a n c Ha. destruct (base_nodes a n Ha) as [[-> ->]|[-> ->]]; cbn.
    + rewrite list_elem_of_singleton. split; [intros ->; eexists; split; [done|]; by left|].
      intros (x & Hx & H). destruct (base_nodes c x Hx) as [[-> ->]|[-> ->]]; [by apply elem_of_nil in H|done].
    + split; [by intros ?%elem_of_nil|]. intros (x & Hx & H).
      destruct (base_nodes c x Hx) as [[-> ->]|[-> ->]]; [by apply elem_of_nil in H|].
      by apply list_elem_of_singleton in H.
  - intros i n Hi. destruct (base_nodes i n Hi) as [[-> ->]|[-> ->]]; split; repeat constructor; set_solver.
  - intros i n Hi. destruct (base_nodes i n Hi) as [[-> ->]|[-> ->]]; done.
  - intros i n Hi. destruct (base_nodes i n Hi) as [[-> ->]|[-> ->]]; done.
  - intros i n Hi. destruct (base_nodes i n Hi) as [[-> ->]|[-> ->]]; done.
  - intros p n c d x y Hp Hc Hd. destruct (base_nodes p n Hp) as [[-> ->]|[-> ->]]; [|by apply elem_of_nil in Hc].
    apply list_elem_of_singleton in Hc as ->. by apply list_elem_of_singleton in Hd as ->.
  - by intros i Hi%elem_of_nil.
  - constructor.
  - intros i [[n Hn]|[n Hn]]; [|done]. cbn. destruct (base_nodes i n Hn) as [[-> _]|[-> _]]; lia.
  - done.
Qed.

Lemma base_served : served demo_checksum demo_lower base_tree ∅.
Proof.
  split_and!; [apply base_ok| |done]. intros i n h. unfold object.
  destruct (nodes base_tree !! i) as [x|] eqn:Hx; [|done].
  destruct (base_nodes i x Hx) as [[-> ->]|[-> ->]]; by intros [= <-].
Qed.

(** A file is uploaded below the root. *)
Definition upload_events (name content : string) : list event :=
  [ContextMenu 1; Choose UploadFile; ChooseUpload (str name, str content); ConfirmUpload; Answer 0 OOk; Timeout;
   Answer 0 OOk].

Definition demo_events : list event := upload_events "a.c" "int a;" ++ upload_events "b.c" "int b;".
Definition demo_page : page := run demo_checksum demo_lower demo_html (ready base_tree ∅) demo_events.

Definition sum_of (c : string) : option jstr := Some (demo_checksum (str c)).
Definition node_a : node := Node (str "a.c") Tfile (sum_of "int a;") [1; 0] [] [].
Definition node_b : node := Node (str "b.c") Tfile (sum_of "int b;") [1; 0] [] [].

(** The second file is edited. *)
Definition demo_edited : page := run demo_checksum demo_lower demo_html demo_page [Write (str "int b2;") false].

(** The button that starts the decision asks about the edited file. *)
Definition demo_asked : page := run demo_checksum demo_lower demo_html demo_edited [StartClick NDefault].

Lemma demo_page_ok : page_ok demo_checksum demo_lower demo_page.
Proof. apply run_page_ok; [apply ready_ok, base_served|reflexivity]. Qed.
Lemma demo_edited_ok : page_ok demo_checksum demo_lower demo_edited.
Proof. apply run_page_ok; [apply demo_page_ok|reflexivity]. Qed.
Lemma demo_asked_ok : page_ok demo_checksum demo_lower demo_asked.
Proof. apply run_page_ok; [apply demo_edited_ok|reflexivity]. Qed.

(** ** A rename that is cancelled

    A file [a&b] is uploaded; a file is created and named [a&b], which HTML makes
    [a&amp;b]; then the edition of the first name is cancelled. *)

Definition cancel_events : list event :=
  upload_events "a&b" "x" ++
  [ContextMenu 1; Choose CreateFile; StartEdit 3; EndEdit (str "a&b"); StartEdit 2; EndEdit (str "a&b")].

Lemma cancelled_rename_doubles_name :
  let p := run demo_checksum demo_lower demo_html (ready base_tree ∅) cancel_events in
  (children <$> nodes (tree_obj p) !! 1) = Some [2; 3] ∧
  (text <$> nodes (tree_obj p) !! 2) = Some (str "a&amp;b") ∧ (text <$> nodes (tree_obj p) !! 3) = Some (str "a&amp;b").
Proof. vm_compute. auto. Qed.

(** Whether the user of a run waits, names are put back and sums do not collide. *)
Definition patientb (p : page) (e : event) : bool :=
  match e with
  | Answer _ _ | Timeout => true
  | _ => match pending p, timers p with [], [] => true | _, _ => false end
  end.

Definition name_keptb (p : page) (e : event) : bool :=
  match e, editing p with
  | EndEdit _, Some (i, old) =>
      match nodes (tree_obj p) !! i with Some n => bool_decide (demo_html old = text n) | None => true end
  | _, _ => true
  end.

Definition sums_clearb (p : page) (e : event) : bool :=
  match e with
  | Answer k OOk =>
      match pending p !! k with
      | Some (RCommit _ _ c) | Some (RReplace _ c) | Some (RUpload _ c) =>
          bool_decide (distinct_sum demo_checksum (store p) c)
      | _ => true
      end
  | _ => true
  end.

Fixpoint patient_runb (p : page) (es : list event) : bool :=
  match es with
  | [] => true
  | e :: es => patientb p e && name_keptb p e && sums_clearb p e &&
               patient_runb (step demo_checksum demo_lower demo_html p e) es
  end.

Lemma name_kept_of p e : name_keptb p e = true → name_kept demo_html p e.
Proof.
  unfold name_keptb, name_kept. destruct e; try done. intros H i old n He Hn. rewrite He, Hn in H.
  by apply bool_decide_eq_true in H.
Qed.

Fixpoint names_keptb (p : page) (es : list event) : bool :=
  match es with
  | [] => true
  | e :: es => name_keptb p e && names_keptb (step demo_checksum demo_lower demo_html p e) es
  end.

Lemma names_kept_of p es : names_keptb p es = true → names_kept demo_checksum demo_lower demo_html p es.
Proof.
  revert p. induction es as [|e es IH]; intros p; cbn -[name_keptb]; [done|].
  intros [He Hes]%andb_true_iff. split; [by apply name_kept_of|by apply IH].
Qed.

Lemma sums_clear_of p e : sums_clearb p e = true → sums_clear demo_checksum p e.
Proof.
  unfold sums_clearb, sums_clear. repeat case_match; try done; apply bool_decide_eq_true_1.
Qed.

Lemma patient_run_of p es : patient_runb p es = true → patient_run demo_checksum demo_lower demo_html p es.
Proof.
  revert p. induction es as [|e es IH]; intros p; cbn -[name_keptb sums_clearb]; [done|].
  intros [[[He Hn]%andb_true_iff Hs]%andb_true_iff Hes]%andb_true_iff.
  split_and!; [|by apply name_kept_of|by apply sums_clear_of|by apply IH]. revert He. unfold patient, quiet.
  destruct e; cbn; try done; by destruct (pending p), (timers p).
Qed.

(** Two uploads; the second file is written and committed, renamed, written again; the
    first is replaced. *)
Definition desk_events : list event :=
  demo_events ++
  [Write (str "int b2;") false; Save; Answer 0 OOk; StartEdit 3; EndEdit (str "c&d.c"); Write (str "lost") false; Undo;
   Activate 2 false; Answer 0 OOk; ChooseReplace (str "new.c", str "int z;"); NameReplace (str "a.c");
   ConfirmReplace; Answer 0 OOk].

(** ** Witnesses *)



Lemma committed_text_comes_back_witness :
  shows (run demo_checksum demo_lower demo_html demo_edited
           [Save; Answer 0 OOk; Activate 2 false; Answer 0 OOk; Activate 3 false; Answer 0 OOk]) [str "int b2;"].
Proof.
  assert (lines (mirror_of (ed demo_edited)) = [str "int b2;"]) as <- by (vm_compute; reflexivity).
  apply (committed_text_comes_back demo_checksum demo_lower demo_html demo_edited 3 node_b 2 false OOk demo_edited_ok);
    [vm_compute; auto; done..|apply (bool_decide_unpack _); vm_compute; exact I].
Defined.


Lemma late_answer_overwrites_witness :
  let q := run demo_checksum demo_lower demo_html demo_page [Activate 2 false; Activate 3 false; Answer 1 OOk; Answer 0 OOk] in
  selected (tree_obj q) = [3] ∧ shows q [str "int a;"].
Proof.
  destruct (late_answer_overwrites demo_checksum demo_lower demo_html demo_page 2 3 node_a node_b
              (demo_checksum (str "int a;")) (demo_checksum (str "int b;")) (str "int c;") demo_page_ok)
    as (H1 & H2 & _); [vm_compute; auto; done..|apply (bool_decide_unpack _); vm_compute; exact I|].
  split; [exact H1|].
  assert (splitLines (content (store demo_page) (data node_a)) = [str "int a;"]) as <- by (vm_compute; reflexivity).
  exact H2.
Defined.

Lemma edit_during_commit_is_lost_witness :
  not_commited (run demo_checksum demo_lower demo_html demo_edited [Save; Write (str "lost") false; Answer 0 OOk]) = false.
Proof.
  destruct (edit_during_commit_is_lost demo_checksum demo_lower demo_html demo_edited 3 node_b (str "lost") demo_edited_ok)
    as (H & _); [vm_compute; auto; done..|apply (bool_decide_unpack _); vm_compute; exact I|].
  exact H.
Defined.

Lemma undo_stays_in_file_witness :
  let q := run demo_checksum demo_lower demo_html demo_page [Activate 2 false; Answer 0 OOk] in
  let r := run demo_checksum demo_lower demo_html q [Write (str "x") false; Write (str "y") true; Undo; Redo] in
  lines (mirror_of (ed (run demo_checksum demo_lower demo_html r (replicate 4 Undo)))) = [str "int a;"].
Proof.
  assert (splitLines (content (store demo_page) (data node_a)) = [str "int a;"]) as <- by (vm_compute; reflexivity).
  apply (undo_stays_in_file demo_checksum demo_lower demo_html demo_page 2 node_a
            [Write (str "x") false; Write (str "y") true; Undo; Redo] 4 demo_page_ok); vm_compute; auto; repeat constructor.
Defined.

Lemma creation_finds_name_witness :
  ∃ t' x, create_node demo_lower (Some 1) Tfile false base_tree = (t', Some 2) ∧ type x = Tfile ∧
          nodes t' !! 2 = Some x.
Proof.
  destruct (creation_finds_name demo_lower base_tree 1 (Node (str "Files") Troot None [0] [] []) Tfile false)
    as (t' & x & H & _ & Hx & Hty & _); [done|apply base_ok|vm_compute; reflexivity|done|by right|].
  exists t', x. split_and!; [exact H|exact Hty|exact Hx].
Defined.

End EditorRuns.
