(* ===== verification/JobRoles.v ===== *)
(** * The roles of the users of a job

    The class UserRoleForm (jobs/static/jobs/js/jobRolesEdit.js): a role for all users, a
    list of users to choose from, and a segment with a list of roles for every user who has
    a role of their own. *)

From S2P Require Import Prelude.

Module JobRoles.

(** ** State *)

(** An option of a list of roles: its value, the attribute [disabled], whether it is
    selected. *)
Record role_option := Option { value : nat; disabled : bool; selected : bool }.

(** A segment of the form; users are numbers, the code has them as strings. *)
Record segment := Segment { seg_user : nat; seg_label : string; seg_options : list role_option }.

Record form := Form {
  global_role : nat;
  user_select : list (nat * string);
  chosen : option nat;
  select_shown : bool;
  segments : list segment;
  names : gmap nat string;
}.

(** What the server sends. *)
Record form_data := FormData {
  d_global_role : nat;
  available_users : list (nat * string);
  user_roles : list (nat * string * nat);
}.

Definition set_global (g : nat) (f : form) : form :=
  Form g (user_select f) (chosen f) (select_shown f) (segments f) (names f).
Definition set_select (us : list (nat * string)) (f : form) : form :=
  Form (global_role f) us (chosen f) (select_shown f) (segments f) (names f).
Definition set_chosen (o : option nat) (f : form) : form :=
  Form (global_role f) (user_select f) o (select_shown f) (segments f) (names f).
Definition set_shown (b : bool) (f : form) : form :=
  Form (global_role f) (user_select f) (chosen f) b (segments f) (names f).
Definition set_segments (l : list segment) (f : form) : form :=
  Form (global_role f) (user_select f) (chosen f) (select_shown f) l (names f).
Definition set_names (m : gmap nat string) (f : form) : form :=
  Form (global_role f) (user_select f) (chosen f) (select_shown f) (segments f) m.

(** The option of a list of roles that is selected: without one that was selected the first
    that is not disabled. *)
Definition selected_role (os : list role_option) : option nat :=
  match filter (λ o, selected o = true) os with
  | o :: _ => Some (value o)
  | [] => value <$> head (filter (λ o, disabled o = false) os)
  end.

(** The user that is selected in the list of users: without a choice the first. *)
Definition selected_user (f : form) : option (nat * string) :=
  match filter (λ u, Some u.1 = chosen f) (user_select f) with
  | u :: _ => Some u
  | [] => head (user_select f)
  end.

(** ** Operations *)

Definition check_users_length (f : form) : form :=
  set_shown (bool_decide (0 < length (user_select f))) f.

(** [remove_user_role(user_id)] *)
Definition remove_user_role (u : nat) (f : form) : form :=
  set_segments (filter (λ s, seg_user s ≠ u) (segments f))
    (set_select (user_select f ++ [(u, default EmptyString (names f !! u))]) f).

(** The loop over the options of a new segment: those that the role for all users includes
    are disabled, the first other one, or the one with the given value, is selected. *)
Fixpoint mark_options (global : nat) (selected_value : option nat) (has_selected : bool) (vs : list nat)
    : list role_option :=
  match vs with
  | [] => []
  | v :: vs =>
      if bool_decide (v ≤ global) then Option v true false :: mark_options global selected_value has_selected vs
      else
        let sel := negb has_selected && match selected_value with None => true | Some r => bool_decide (r = v) end in
        Option v false sel :: mark_options global selected_value (has_selected || sel) vs
  end.

(** The options of the template, the values of JOB_ROLES. *)
Definition job_roles : list nat := [0; 1; 2; 3; 4].

(** [add_user_role(user_id, user_name, selected_value)] *)
Definition add_user_role (u : nat) (name : string) (selected_value : option nat) (f : form) : form :=
  let seg := Segment u name (mark_options (global_role f) selected_value false job_roles) in
  set_names (<[u := name]> (names f)) (set_segments (segments f ++ [seg]) f).

Definition add_roles (rs : list (nat * string * nat)) (f : form) : form :=
  foldl (λ f r, add_user_role r.1.1 r.1.2 (Some r.2) f) f rs.

(** [initialize(data)] on a form with the names [m]. *)
Definition initialize (d : form_data) (m : gmap nat string) : form :=
  let f := Form (d_global_role d) (available_users d) (fst <$> head (available_users d)) false [] m in
  add_roles (user_roles d) (check_users_length f).

(** The handler of a change of the role for all users. *)
Definition change_global (g : nat) (f : form) : form :=
  let f := set_global g f in
  let f := foldl (λ f u, remove_user_role u f) f (map seg_user (segments f)) in
  if decide (g = 4) then set_shown false f else check_users_length f.

(** The handler of the button that adds a user; [None] when there is no user to add. *)
Definition add_click (f : form) : option form :=
  match selected_user f with
  | None => None
  | Some (u, name) =>
      let f := add_user_role u name None f in
      let f := check_users_length (set_select (filter (λ x, x.1 ≠ u) (user_select f)) f) in
      Some (set_chosen (fst <$> head (user_select f)) f)
  end.

(** The handler of the button that removes the role of a user. *)
Definition remove_click (u : nat) (f : form) : form := check_users_length (remove_user_role u f).

(** [get_roles()] *)
Definition get_roles (f : form) : list (nat * option nat) :=
  map (λ s, (seg_user s, selected_role (seg_options s))) (segments f).

(** ** Events *)

(** The user selects the role [v] in a segment; disabled options cannot be selected. *)
Definition select_role (v : nat) (os : list role_option) : list role_option :=
  if bool_decide (Exists (λ o, value o = v ∧ disabled o = false) os)
  then map (λ o, Option (value o) (disabled o) (bool_decide (value o = v))) os else os.

Inductive event :=
| ChangeGlobal (g : nat)
| ChooseUser (u : nat)
| AddClick
| RemoveClick (u : nat)
| SelectRole (u v : nat).

Definition step (f : form) (e : event) : option form :=
  match e with
  | ChangeGlobal g => Some (if bool_decide (g ∈ job_roles) then change_global g f else f)
  | ChooseUser u => Some (if bool_decide (u ∈ map fst (user_select f)) then set_chosen (Some u) f else f)
  | AddClick => if select_shown f then add_click f else Some f
  | RemoveClick u => Some (if bool_decide (u ∈ map seg_user (segments f)) then remove_click u f else f)
  | SelectRole u v =>
      Some (set_segments (map (λ s, if bool_decide (seg_user s = u)
                                    then Segment u (seg_label s) (select_role v (seg_options s)) else s)
                              (segments f)) f)
  end.

Fixpoint run (f : form) (es : list event) : option form :=
  match es with
  | [] => Some f
  | e :: es => f ← step f e; run f es
  end.

(** ** The invariant *)

(** The users of the form, with their names. *)
Definition users (f : form) : list (nat * string) :=
  user_select f ++ map (λ s, (seg_user s, seg_label s)) (segments f).

Definition segment_ok (g : nat) (s : segment) : Prop :=
  map value (seg_options s) = job_roles ∧
  Forall (λ o, disabled o = bool_decide (value o ≤ g) ∧ (selected o = true → disabled o = false)) (seg_options s).

Record form_ok (us : list (nat * string)) (f : form) : Prop := {
  ok_users : users f ≡ₚ us;
  ok_names s : s ∈ segments f → names f !! seg_user s = Some (seg_label s);
  ok_segments : Forall (segment_ok (global_role f)) (segments f);
  ok_shown : select_shown f = true → user_select f ≠ [];
}.

Lemma mark_options_ok g r b vs :
  map value (mark_options g r b vs) = vs ∧
  Forall (λ o, disabled o = bool_decide (value o ≤ g) ∧ (selected o = true → disabled o = false)) (mark_options g r b vs).
Proof.
  revert b. induction vs as [|v vs IH]; intros b; cbn; [done|].
  case_bool_decide as Hv; cbn; (destruct (IH b) as [H1 H2]; destruct (IH (b || negb b && match r with None => true | Some r => bool_decide (r = v) end)) as [H3 H4]);
    (split; [by f_equal|]); constructor; cbn; try done.
  - by rewrite bool_decide_true.
  - by rewrite bool_decide_false.
Qed.

Lemma check_users_ok us f :
  users f ≡ₚ us → (∀ s, s ∈ segments f → names f !! seg_user s = Some (seg_label s)) →
  Forall (segment_ok (global_role f)) (segments f) → form_ok us (check_users_length f).
Proof.
  intros. split; cbn; try done. intros Hlen%bool_decide_eq_true Hn. rewrite Hn in Hlen. cbn in Hlen. lia.
Qed.

Lemma filter_key_perm {A} (key : A → nat) l x :
  NoDup (map key l) → x ∈ l → l ≡ₚ x :: filter (λ y, key y ≠ key x) l.
Proof.
  induction l as [|y l IH]; intros Hnd Hx; [by apply elem_of_nil in Hx|].
  apply NoDup_cons in Hnd as [Hy Hnd]. apply elem_of_cons in Hx as [->|Hx].
  - rewrite filter_cons_False by (intros Hk; by apply Hk). constructor.
    rewrite list_filter_all; [done|]. apply Forall_forall. intros z Hz He. apply Hy. rewrite <- He.
    by apply list_elem_of_fmap_2.
  - rewrite filter_cons_True.
    + rewrite (IH Hnd Hx) at 1. by rewrite Permutation_swap.
    + intros He. apply Hy. rewrite He. by apply list_elem_of_fmap_2.
Qed.

Lemma users_nodup f us :
  users f ≡ₚ us → NoDup (map fst us) → NoDup (map fst (user_select f)) ∧ NoDup (map seg_user (segments f)) ∧
  ∀ u, u ∈ map fst (user_select f) → u ∉ map seg_user (segments f).
Proof.
  intros Hu Hus. assert (NoDup (map fst (users f))) as Hnd by by rewrite Hu. unfold users in Hnd.
  rewrite map_app, map_map in Hnd. cbn in Hnd. by apply NoDup_app in Hnd as (? & ? & ?).
Qed.

Lemma remove_users f us s :
  NoDup (map fst us) → users f ≡ₚ us → s ∈ segments f → names f !! seg_user s = Some (seg_label s) →
  users (remove_user_role (seg_user s) f) ≡ₚ us.
Proof.
  intros Hus Hu Hs Hn. destruct (users_nodup f us Hu Hus) as (_ & Hnd & _). rewrite <- Hu. unfold users. cbn.
  rewrite Hn. cbn. rewrite (filter_key_perm seg_user _ s Hnd Hs) at 2. cbn. by rewrite <- app_assoc.
Qed.

Lemma remove_user_role_ok us f u :
  NoDup (map fst us) → form_ok us f → u ∈ map seg_user (segments f) → form_ok us (remove_user_role u f).
Proof.
  intros Hus [Hu Hn Hs Hsh] Hin. apply list_elem_of_fmap in Hin as (s & -> & Hin). split.
  - apply remove_users; auto.
  - cbn. intros x [_ Hx]%list_elem_of_filter. by apply Hn.
  - cbn. apply Forall_forall. intros x [_ Hx]%list_elem_of_filter. by eapply Forall_forall in Hs.
  - cbn. intros _ He. by apply app_eq_nil in He as [_ ?].
Qed.

Lemma add_user_role_ok us f u name r :
  form_ok us f → u ∉ map seg_user (segments f) → form_ok (us ++ [(u, name)]) (add_user_role u name r f).
Proof.
  intros [Hu Hn Hs Hsh] Hin. split; cbn -[mark_options].
  - unfold users. cbn -[mark_options]. rewrite map_app, app_assoc. cbn -[mark_options]. by rewrite <- Hu.
  - intros s [Hx|Hx%list_elem_of_singleton]%elem_of_app; [|subst; cbn; by rewrite lookup_insert_eq].
    rewrite lookup_insert_ne; [by apply Hn|]. intros ->. apply Hin, list_elem_of_fmap. by exists s.
  - apply Forall_app. split; [done|]. constructor; [|constructor]. apply mark_options_ok.
  - done.
Qed.

Lemma add_roles_ok us rs f :
  NoDup (map fst (us ++ map fst rs)) → form_ok us f → form_ok (us ++ map fst rs) (add_roles rs f).
Proof.
  revert us f. induction rs as [|[[u name] r] rs IH]; intros us f Hnd Hf; cbn -[add_user_role].
  { by rewrite app_nil_r. }
  change (map fst ((u, name, r) :: rs)) with ((u, name) :: map fst rs) in Hnd.
  replace (us ++ (u, name) :: map fst rs) with ((us ++ [(u, name)]) ++ map fst rs) in * by by rewrite <- app_assoc.
  apply IH; [done|]. apply add_user_role_ok; [done|]. intros Hin.
  rewrite !map_app in Hnd. apply NoDup_app in Hnd as (Hnd & _ & _). apply NoDup_app in Hnd as (_ & Hnd & _).
  apply (Hnd u); [|by left]. rewrite <- (ok_users _ _ Hf). unfold users. rewrite map_app, map_map, elem_of_app.
  by right.
Qed.

Definition data_users (d : form_data) : list (nat * string) := available_users d ++ map fst (user_roles d).

Lemma initialize_ok d m : NoDup (map fst (data_users d)) → form_ok (data_users d) (initialize d m).
Proof.
  intros Hnd. apply add_roles_ok; [done|]. apply check_users_ok; cbn; [|by intros s Hs%elem_of_nil|constructor].
  unfold users. cbn. by rewrite app_nil_r.
Qed.

Lemma remove_all_users f us :
  NoDup (map fst us) → users f ≡ₚ us → (∀ s, s ∈ segments f → names f !! seg_user s = Some (seg_label s)) →
  let g := foldl (λ f u, remove_user_role u f) f (map seg_user (segments f)) in
  users g ≡ₚ us ∧ segments g = [] ∧ names g = names f ∧ global_role g = global_role f.
Proof.
  remember (segments f) as l eqn:Hl. revert f Hl. induction l as [|s l IH]; intros f Hl Hus Hu Hn; cbn; [done|].
  assert (s ∈ segments f) as Hs by (rewrite <- Hl; by left).
  pose proof (remove_users f us s Hus Hu Hs (Hn s ltac:(by left))) as Hu'.
  destruct (users_nodup f us Hu Hus) as (_ & Hnd & _). rewrite <- Hl in Hnd. apply NoDup_cons in Hnd as [Hsl _].
  assert (segments (remove_user_role (seg_user s) f) = l) as Hseg.
  { cbn -[filter]. rewrite <- Hl, filter_cons_False by (intros Hk; by apply Hk). apply list_filter_all, Forall_forall.
    intros x Hx He. apply Hsl. rewrite <- He. by apply list_elem_of_fmap_2. }
  apply (IH (remove_user_role (seg_user s) f)); [done..|]. intros x Hx. apply Hn. by right.
Qed.

Lemma change_global_ok us f g : NoDup (map fst us) → form_ok us f → form_ok us (change_global g f).
Proof.
  intros Hus [Hu Hn Hs Hsh]. unfold change_global.
  destruct (remove_all_users (set_global g f) us Hus Hu Hn) as (H1 & H2 & H3 & H4).
  change (segments (set_global g f)) with (segments f) in *. cbn in H3.
  set (h := foldl _ _ _) in *. clearbody h.
  assert (∀ b, (b = true → user_select h ≠ []) → form_ok us (set_shown b h)) as Hb.
  { intros b Hb. split; cbn; [done|rewrite H2; by intros ? ?%elem_of_nil|rewrite H2; constructor|done]. }
  case_decide; [by apply Hb|]. apply check_users_ok; [done|rewrite H2; by intros ? ?%elem_of_nil|rewrite H2; constructor].
Qed.

Lemma selected_user_in f u : selected_user f = Some u → u ∈ user_select f.
Proof.
  unfold selected_user. destruct (filter _ _) as [|x l] eqn:Hf.
  - intros H. destruct (user_select f); simplify_eq/=. by left.
  - intros [= <-]. assert (x ∈ filter (λ u, Some u.1 = chosen f) (user_select f)) as Hx by (rewrite Hf; by left).
    by apply list_elem_of_filter in Hx as [_ ?].
Qed.

(** The button finds a user whenever it is displayed. *)
Lemma add_click_ok us f :
  NoDup (map fst us) → form_ok us f → select_shown f = true → ∃ g, add_click f = Some g ∧ form_ok us g.
Proof.
  intros Hus Hf Hsh. pose proof (ok_shown _ _ Hf Hsh) as Hne. unfold add_click.
  destruct (selected_user f) as [[u name]|] eqn:Hsel.
  2: { unfold selected_user in Hsel. by destruct (filter _ _), (user_select f). }
  apply selected_user_in in Hsel. eexists. split; [done|].
  destruct (users_nodup f us (ok_users _ _ Hf) Hus) as (Hnd & _ & Hdis).
  assert (u ∉ map seg_user (segments f)) as Hu by (apply Hdis; apply list_elem_of_fmap; by exists (u, name)).
  match goal with |- form_ok _ (set_chosen ?o ?g) => cut (form_ok us g); [by intros []|] end.
  pose proof (add_user_role_ok us f u name None Hf Hu) as [_ H2 H3 _].
  apply check_users_ok; cbn -[mark_options filter]; [|exact H2|exact H3].
  rewrite <- (ok_users _ _ Hf). unfold users. cbn -[mark_options filter]. rewrite map_app. cbn -[mark_options filter].
  pose proof (filter_key_perm fst (user_select f) (u, name) Hnd Hsel) as Hp. cbn -[filter] in Hp.
  rewrite Hp at 2. cbn -[filter]. rewrite app_assoc. symmetry. apply Permutation_cons_append.
Qed.

Lemma remove_click_ok us f u :
  NoDup (map fst us) → form_ok us f → u ∈ map seg_user (segments f) → form_ok us (remove_click u f).
Proof.
  intros Hus Hf Hu. destruct (remove_user_role_ok us f u Hus Hf Hu). by apply check_users_ok.
Qed.

Lemma select_role_ok g u l v os : segment_ok g (Segment u l os) → segment_ok g (Segment u l (select_role v os)).
Proof.
  intros [Hv Ho]. unfold select_role. case_bool_decide as Hex; [|done]. cbn in *. split; cbn.
  - rewrite <- Hv, map_map. done.
  - apply Exists_exists in Hex as (o & Ho1 & Hov & Hod). apply Forall_forall.
    intros x (y & -> & Hy)%list_elem_of_fmap. cbn. rewrite Forall_forall in Ho.
    destruct (Ho y Hy) as [Hd _]. split; [done|]. intros He%bool_decide_eq_true.
    destruct (Ho o Ho1) as [Hd' _]. rewrite Hd, He, <- Hov, <- Hd'. exact Hod.
Qed.

Lemma form_step_ok us f e :
  NoDup (map fst us) → form_ok us f → ∃ g, step f e = Some g ∧ form_ok us g.
Proof.
  intros Hus Hf. destruct e as [g|u| |u|u v]; cbn.
  - eexists. split; [done|]. case_match; [by apply change_global_ok|done].
  - eexists. split; [done|]. case_match; [|done]. by destruct Hf.
  - destruct (select_shown f) eqn:Hs; [by apply add_click_ok|eauto].
  - eexists. split; [done|]. case_bool_decide; [by apply remove_click_ok|done].
  - eexists. split; [done|]. set (h := λ s : segment, if bool_decide (seg_user s = u) then _ else s).
    assert (∀ s, seg_user (h s) = seg_user s ∧ seg_label (h s) = seg_label s) as Hh.
    { intros s. unfold h. case_bool_decide as Hsu; cbn; [by rewrite Hsu|done]. }
    destruct Hf as [Hu Hn Hs Hsh]. split; cbn; [|..|done].
    + rewrite <- Hu. unfold users. cbn. rewrite map_map.
      rewrite (map_ext (λ x, (seg_user (h x), seg_label (h x))) (λ s, (seg_user s, seg_label s))); [done|].
      intros s. by destruct (Hh s) as [-> ->].
    + intros s (x & -> & Hx)%list_elem_of_fmap. destruct (Hh x) as [-> ->]. by apply Hn.
    + apply Forall_fmap. eapply Forall_impl; [exact Hs|]. intros s Hso. cbn. unfold h.
      case_bool_decide; [|done]. by apply select_role_ok.
Qed.

Lemma form_run_ok us f es :
  NoDup (map fst us) → form_ok us f → ∃ g, run f es = Some g ∧ form_ok us g.
Proof.
  intros Hus. revert f. induction es as [|e es IH]; intros f Hf; cbn; [eauto|].
  destruct (form_step_ok us f e Hus Hf) as (g & -> & Hg). cbn. by apply IH.
Qed.

(** ** Theorems *)

(** C30: Whatever is clicked, no handler fails, and every user the server sent stays once in
    the form, in the list or in a segment, under the same name. *)
Theorem users_are_kept d m es :
  NoDup (map fst (data_users d)) →
  ∃ f, run (initialize d m) es = Some f ∧
       user_select f ++ map (λ s, (seg_user s, seg_label s)) (segments f) ≡ₚ data_users d.
Proof.
  intros Hnd. destruct (form_run_ok _ (initialize d m) es Hnd (initialize_ok d m Hnd)) as (f & Hr & Hf).
  exists f. split; [done|apply Hf].
Qed.

(** C31: Every role that the form reports for a user is above the role for all users, unless
    no role is. *)
Theorem roles_above_global d m es f u r :
  NoDup (map fst (data_users d)) → run (initialize d m) es = Some f → (u, r) ∈ get_roles f →
  global_role f < 4 → ∃ v, r = Some v ∧ v ∈ job_roles ∧ global_role f < v.
Proof.
  intros Hnd Hrun Hin Hg. destruct (form_run_ok _ (initialize d m) es Hnd (initialize_ok d m Hnd)) as (f' & Hr & Hf).
  rewrite Hrun in Hr. injection Hr as <-. apply list_elem_of_fmap in Hin as (s & [= -> ->] & Hs).
  pose proof (ok_segments _ _ Hf) as Hso. rewrite Forall_forall in Hso. destruct (Hso s Hs) as [Hv Ho].
  rewrite Forall_forall in Ho.
  assert (∀ o, o ∈ seg_options s → disabled o = false → value o ∈ job_roles ∧ global_role f < value o) as Hgood.
  { intros o Hos Hd. split; [rewrite <- Hv; by apply list_elem_of_fmap_2|].
    destruct (Ho o Hos) as [Hd' _]. rewrite Hd in Hd'. symmetry in Hd'. apply bool_decide_eq_false in Hd'. lia. }
  unfold selected_role. destruct (filter _ _) as [|o l] eqn:Hf1.
  - assert (4 ∈ map value (seg_options s)) as (o & Ho4 & Hos)%list_elem_of_fmap by (rewrite Hv; set_solver).
    destruct (filter (λ o, disabled o = false) (seg_options s)) as [|x l] eqn:Hf2.
    + assert (o ∈ filter (λ o, disabled o = false) (seg_options s)) as Hx; [|rewrite Hf2 in Hx; by apply elem_of_nil in Hx].
      apply list_elem_of_filter. split; [|done]. destruct (Ho o Hos) as [-> _]. apply bool_decide_eq_false. lia.
    + exists (value x). split; [done|]. assert (x ∈ filter (λ o, disabled o = false) (seg_options s)) as Hx by (rewrite Hf2; by left).
      apply list_elem_of_filter in Hx as [? ?]. by apply Hgood.
  - exists (value o). split; [done|]. assert (o ∈ filter (λ o, selected o = true) (seg_options s)) as Hx by (rewrite Hf1; by left).
    apply list_elem_of_filter in Hx as [Hsel Hos]. apply Hgood; [done|]. by apply (Ho o Hos).
Qed.

Lemma selected_given g r : r ∈ job_roles → g < r → selected_role (mark_options g (Some r) false job_roles) = Some r.
Proof.
  intros Hr Hg. assert (g < 4 ∧ r ≤ 4) as [Hg4 Hr4].
  { unfold job_roles in Hr. rewrite !elem_of_cons, elem_of_nil in Hr. lia. }
  do 4 (destruct g as [|g]; [do 5 (destruct r as [|r]; [first [lia|reflexivity]|]); lia|]). lia.
Qed.

Lemma get_roles_add rs f :
  Forall (λ r, r.2 ∈ job_roles ∧ global_role f < r.2) rs →
  get_roles (add_roles rs f) = get_roles f ++ map (λ r, (r.1.1, Some r.2)) rs.
Proof.
  revert f. induction rs as [|[[u name] r] rs IH]; intros f Hrs; [by rewrite app_nil_r|].
  apply Forall_cons in Hrs as [[Hr Hg] Hrs].
  change (add_roles ((u, name, r) :: rs) f) with (add_roles rs (add_user_role u name (Some r) f)).
  rewrite IH by done. unfold get_roles at 1. cbn -[mark_options selected_role]. rewrite map_app. cbn -[mark_options selected_role].
  rewrite selected_given by done. by rewrite <- app_assoc.
Qed.

(** C32: The form reports the roles the server sent, when they are above the role for all
    users. *)
Theorem roles_read_back d m :
  Forall (λ r, r.2 ∈ job_roles ∧ d_global_role d < r.2) (user_roles d) →
  get_roles (initialize d m) = map (λ r, (r.1.1, Some r.2)) (user_roles d).
Proof. intros Hrs. unfold initialize. by rewrite get_roles_add. Qed.

(** With the highest role for all users the list of users is hidden when the role is chosen,
    but not when the server sends it; a user who is added then has no role. *)
Definition highest : form_data := FormData 4 [(7, "ann"%string)] [].

Example highest_role_shown :
  select_shown (initialize highest ∅) = true ∧
  (get_roles <$> run (initialize highest ∅) [AddClick]) = Some [(7, None)] ∧
  (select_shown <$> run (initialize highest ∅) [ChangeGlobal 4]) = Some false.
Proof. vm_compute. auto. Qed.

(** ** Witnesses *)

Definition some_data : form_data := FormData 1 [(1, "bob"%string); (2, "eve"%string)] [(3, "kim"%string, 3)].

Lemma some_data_nodup : NoDup (map fst (data_users some_data)).
Proof. apply (bool_decide_unpack _). vm_compute. exact I. Qed.

Definition some_events : list event := [ChooseUser 2; AddClick; SelectRole 2 4; RemoveClick 3].

Lemma users_are_kept_witness :
  ∃ f, run (initialize some_data ∅) some_events = Some f ∧
       user_select f ++ map (λ s, (seg_user s, seg_label s)) (segments f) ≡ₚ data_users some_data.
Proof. exact (users_are_kept some_data ∅ some_events some_data_nodup). Defined.

Definition some_form : form := default (initialize some_data ∅) (run (initialize some_data ∅) some_events).

Lemma roles_above_global_witness : ∃ v, Some 4 = Some v ∧ v ∈ job_roles ∧ global_role some_form < v.
Proof.
  apply (roles_above_global some_data ∅ some_events some_form 2 (Some 4) some_data_nodup).
  - vm_compute. reflexivity.
  - apply (bool_decide_unpack _). vm_compute. exact I.
  - vm_compute. lia.
Defined.

Lemma roles_read_back_witness : get_roles (initialize some_data ∅) = [(3, Some 3)].
Proof.
  apply (roles_read_back some_data ∅). apply (bool_decide_unpack _). vm_compute. exact I.
Defined.

End JobRoles.
