(* ===== verification/Dot.v ===== *)
(** * The graphs of reports as texts

    [fromDotData] of report-graph.js: what the page reads from the text of a graph in the
    language of Graphviz, row by row with three regular expressions. A regular expression is
    matched as the language does: from the first position it matches at, its repetitions take
    as much as they can and give back what the rest needs. *)

From Stdlib Require Import Ascii.
From S2P Require Import Prelude Url.
Import Url.

Module Dot.

(** ** Regular expressions *)

(** A repetition of characters in [P]; [k] is the rest of the expression and gets what was
    taken. *)
Fixpoint star {A} (P : ascii → bool) (k : jstr → jstr → option A) (taken s : jstr) : option A :=
  match s with
  | [] => k taken []
  | a :: s' => if P a then match star P k (taken ++ [a]) s' with Some r => Some r | None => k taken s end
               else k taken s
  end.

(** A repetition of at least one. *)
Definition plus {A} (P : ascii → bool) (k : jstr → jstr → option A) (s : jstr) : option A :=
  match s with
  | [] => None
  | a :: s' => if P a then star P k [a] s' else None
  end.

(** The first position at which an expression matches. *)
Fixpoint search {A} (m : jstr → option A) (s : jstr) : option A :=
  match m s with
  | Some r => Some r
  | None => match s with [] => None | _ :: s' => search m s' end
  end.

Definition quote : ascii := "034"%char.
Definition newline : ascii := "010"%char.

(** [\s], [.] and the class of the characters of a number, on the bytes of texts without the
    blanks and line separators outside of ASCII. *)
Definition is_space (a : ascii) : bool :=
  let n := nat_of_ascii a in bool_decide (9 ≤ n ≤ 13) || bool_decide (n = 32).
Definition is_dot (a : ascii) : bool := negb (bool_decide (a = newline)) && negb (bool_decide (a = "013"%char)).
Definition is_id (a : ascii) : bool := bool_decide (a = "-"%char) || is_digit a.

Definition label_start : jstr := str "[label=" ++ [quote].
Definition label_end : jstr := [quote; "]"%char].

Definition re1 (s : jstr) : option jstr :=
  s ← strip (str "digraph") s;
  star is_space (λ _ s, s ← strip [quote] s; star is_dot (λ name s, _ ← strip [quote] s; Some name) [] s) [] s.

Definition re2 (s : jstr) : option (jstr * jstr) :=
  plus is_id (λ k s, star is_space (λ _ s,
    s ← strip label_start s; star is_dot (λ text s, _ ← strip label_end s; Some (k, text)) [] s) [] s) s.

Definition re3 (s : jstr) : option (jstr * jstr) :=
  plus is_id (λ a s, star is_space (λ _ s,
    s ← strip (str "->") s; star is_space (λ _ s, plus is_id (λ b _, Some (a, b)) s) [] s) [] s) s.

(** ** Reading a text *)

(** [data]: a map keeps its keys in the order of their first insertion. *)
Record graph_data := GraphData { name : option jstr; nodes : list (jstr * jstr); links : list (jstr * jstr) }.

Fixpoint map_set (k v : jstr) (m : list (jstr * jstr)) : list (jstr * jstr) :=
  match m with
  | [] => [(k, v)]
  | p :: m => if decide (p.1 = k) then (k, v) :: m else p :: map_set k v m
  end.

(** [replace] with a string replaces its first occurrence. *)
Definition drop_first (w s : jstr) : jstr :=
  match find_sub w s with Some (u, v) => u ++ v | None => s end.

Definition trim_left (s : jstr) : jstr := (span is_space s).2.
Definition trim (s : jstr) : jstr := reverse (trim_left (reverse (trim_left s))).

Definition read_row (d : graph_data) (row : jstr) : graph_data :=
  match search re1 row with
  | Some n => GraphData (Some n) (nodes d) (links d)
  | None =>
      match search re2 row with
      | Some (k, text) => GraphData (name d) (map_set k (drop_first (str "\l") text) (nodes d)) (links d)
      | None =>
          match search re3 row with
          | Some l => GraphData (name d) (nodes d) (links d ++ [l])
          | None => d
          end
      end
  end.

Definition fromDotData (content : jstr) : graph_data :=
  foldl read_row (GraphData None [] []) (map trim (split newline content)).

(** ** Texts as they are written *)

(** The statements that the generator of models saves (klever/core/vtg/emg/common/process/
    __init__.py): nodes with labels, edges, and edges with labels. *)
Inductive stmt :=
| Node (k text : jstr)
| Link (a b : jstr)
| LabelledLink (a b text : jstr).

Definition label_of (text : jstr) : jstr := " "%char :: label_start ++ text ++ label_end.
Definition arrow (a b : jstr) : jstr := a ++ str " -> " ++ b.
Definition row_of (s : stmt) : jstr :=
  match s with
  | Node k text => k ++ label_of text
  | Link a b => arrow a b
  | LabelledLink a b text => arrow a b ++ label_of text
  end.

Definition heading (n : jstr) : jstr := str "digraph " ++ [quote] ++ n ++ [quote] ++ str " {".
Definition tab : ascii := "009"%char.
Definition line (s : jstr) : jstr := s ++ [newline].
Definition print_dot (n : jstr) (ss : list stmt) : jstr :=
  line (heading n) ++ concat (map (λ s, line (tab :: row_of s)) ss) ++ line (str "}").

(** What is read of a statement: the label of an edge is taken for that of its second node. *)
Definition read_stmt (d : graph_data) (s : stmt) : graph_data :=
  match s with
  | Node k text | LabelledLink _ k text => GraphData (name d) (map_set k (drop_first (str "\l") text) (nodes d)) (links d)
  | Link a b => GraphData (name d) (nodes d) (links d ++ [(a, b)])
  end.

(** The graph that the statements describe. *)
Definition meant (n : jstr) (ss : list stmt) : graph_data :=
  GraphData (Some n)
    (foldl (λ m s, match s with Node k text => map_set k (drop_first (str "\l") text) m | _ => m end) [] ss)
    (omap (λ s, match s with Node _ _ => None | Link a b | LabelledLink a b _ => Some (a, b) end) ss).

Definition ident (k : jstr) : Prop := k ≠ [] ∧ Forall (λ a, is_id a = true) k.
Definition text_ok (t : jstr) : Prop := Forall (λ a, is_dot a = true) t.
Definition stmt_ok (s : stmt) : Prop :=
  match s with
  | Node k text => ident k ∧ text_ok text
  | Link a b => ident a ∧ ident b
  | LabelledLink a b text => ident a ∧ ident b ∧ text_ok text
  end ∧ find_sub (str "digraph") (row_of s) = None.

(** ** Repetitions *)

Abbreviation all P w := (Forall (λ a, P a = true) w).

Lemma star_inv {A} P (k : jstr → jstr → option A) taken s r :
  star P k taken s = Some r → ∃ w t, s = w ++ t ∧ all P w ∧ k (taken ++ w) t = Some r.
Proof.
  revert taken. induction s as [|a s IH]; intros taken; cbn [star].
  - intros H. exists [], []. by rewrite (app_nil_r taken).
  - destruct (P a) eqn:Ha; [|intros H; exists [], (a :: s); by rewrite (app_nil_r taken)].
    destruct (star P k (taken ++ [a]) s) as [r'|] eqn:E.
    + intros [= ->]. destruct (IH _ E) as (w & t & -> & Hw & Hk). exists (a :: w), t. split_and!; [done|by constructor|].
      by rewrite <-app_assoc in Hk.
    + intros H. exists [], (a :: s). by rewrite (app_nil_r taken).
Qed.

Lemma plus_inv {A} P (k : jstr → jstr → option A) s r :
  plus P k s = Some r → ∃ w t, s = w ++ t ∧ w ≠ [] ∧ all P w ∧ k w t = Some r.
Proof.
  destruct s as [|a s]; cbn [plus]; [done|]. destruct (P a) eqn:Ha; [|done].
  intros (w & t & -> & Hw & Hk)%star_inv. exists (a :: w), t. split_and!; [done|done|by constructor|done].
Qed.

(** What is taken is [w] when the rest matches there and at no later place. *)
Lemma star_longest {A} P (k : jstr → jstr → option A) w t r taken : all P w → k (taken ++ w) t = Some r →
  (∀ u v, t = u ++ v → u ≠ [] → all P u → k (taken ++ w ++ u) v = None) → star P k taken (w ++ t) = Some r.
Proof.
  intros Hw. revert taken. induction Hw as [|a w Ha _ IH]; intros taken Hk Hn.
  - rewrite app_nil_r in Hk. destruct t as [|a t]; [done|]. cbn [app star]. destruct (P a) eqn:Ha; [|done].
    destruct (star P k (taken ++ [a]) t) as [r'|] eqn:E; [|done]. exfalso. apply star_inv in E as (u & v & -> & Hu & E).
    rewrite <-app_assoc in E. cbn [app] in E.
    specialize (Hn (a :: u) v eq_refl ltac:(done) ltac:(by constructor)). cbn [app] in Hn. by rewrite Hn in E.
  - cbn [app star]. rewrite Ha, (IH (taken ++ [a])); [done| |].
    + by rewrite <-app_assoc.
    + intros u v Ht Hu Hp. rewrite <-app_assoc. by apply Hn.
Qed.

Lemma plus_longest {A} P (k : jstr → jstr → option A) w t r : w ≠ [] → all P w → k w t = Some r →
  (∀ u v, t = u ++ v → u ≠ [] → all P u → k (w ++ u) v = None) → plus P k (w ++ t) = Some r.
Proof.
  intros Hne Hw Hk Hn. destruct w as [|a w]; [done|]. inversion Hw as [|? ? Ha Hw']; subst. cbn [app plus]. rewrite Ha.
  by apply star_longest.
Qed.

(** A repetition that meets a character it does not take. *)
Lemma star_stops {A} P (k : jstr → jstr → option A) w t r taken : all P w → match t with [] => True | a :: _ => P a = false end →
  k (taken ++ w) t = Some r → star P k taken (w ++ t) = Some r.
Proof.
  intros Hw Ht Hk. apply star_longest; [done|done|]. intros [|a u] v -> Hu Hp; [done|]. inversion Hp; subst. simpl in Ht. congruence.
Qed.
Lemma plus_stops {A} P (k : jstr → jstr → option A) w t r : w ≠ [] → all P w → match t with [] => True | a :: _ => P a = false end →
  k w t = Some r → plus P k (w ++ t) = Some r.
Proof.
  intros Hne Hw Ht Hk. apply plus_longest; [done|done|done|]. intros [|a u] v -> Hu Hp; [done|]. inversion Hp; subst. simpl in Ht. congruence.
Qed.

Lemma search_here {A} (m : jstr → option A) s r : m s = Some r → search m s = Some r.
Proof. intros H. destruct s; cbn [search]; by rewrite H. Qed.

Lemma search_skip {A} (m : jstr → option A) w s : (∀ u v, w = u ++ v → v ≠ [] → m (v ++ s) = None) → search m (w ++ s) = search m s.
Proof.
  induction w as [|a w IH]; intros Hn; [done|]. cbn [app search]. pose proof (Hn [] (a :: w) eq_refl) as H. cbn [app] in H.
  rewrite H by done. apply IH. intros u v -> Hv. by apply (Hn (a :: u) v).
Qed.

Lemma search_inv {A} (m : jstr → option A) s r : search m s = Some r → ∃ u v, s = u ++ v ∧ m v = Some r.
Proof.
  induction s as [|a s IH]; cbn [search].
  - destruct (m []) eqn:E; [|done]. intros [= ->]. by exists [], [].
  - destruct (m (a :: s)) eqn:E; [intros [= ->]; by exists [], (a :: s)|]. intros (u & v & -> & H)%IH. by exists (a :: u), v.
Qed.

(** ** When the expressions match *)

Lemma re1_heading s : find_sub (str "digraph") s = None → search re1 s = None.
Proof.
  intros Hn. destruct (search re1 s) as [n|] eqn:E; [|done]. apply search_inv in E as (u & v & -> & E). unfold re1 in E.
  destruct (strip (str "digraph") v) as [t|] eqn:Ev; [|done]. apply strip_Some in Ev as ->.
  exfalso. exact (proj1 (find_sub_None _ _) Hn u t eq_refl).
Qed.

(** The first character that is neither of a number nor blank. *)
Definition first_other (s : jstr) : option ascii := head (filter (λ a, is_id a = false ∧ is_space a = false) s).
Lemma first_other_skip w s : Forall (λ a, is_id a = true ∨ is_space a = true) w → first_other (w ++ s) = first_other s.
Proof.
  intros Hw. unfold first_other. rewrite filter_app. assert (filter (λ a, is_id a = false ∧ is_space a = false) w = []) as ->; [|done].
  induction Hw as [|a w Ha _ IH]; [done|]. rewrite filter_cons_False; [done|]. intros [? ?]. destruct Ha; congruence.
Qed.

Lemma re2_first s r : re2 s = Some r → first_other s = Some "["%char ∧ ∃ a t, s = a :: t ∧ is_id a = true.
Proof.
  unfold re2. intros (w & t & -> & Hne & Hw & Hk)%plus_inv. apply star_inv in Hk as (w' & t' & -> & Hw' & Hk).
  destruct (strip label_start t') as [u|] eqn:Eu; [|done]. apply strip_Some in Eu as ->. split.
  - rewrite (first_other_skip w), (first_other_skip w'); [|eapply Forall_impl; [exact Hw'|naive_solver]|eapply Forall_impl; [exact Hw|naive_solver]].
    change (label_start ++ u) with ("["%char :: (drop 1 label_start ++ u)). unfold first_other. by rewrite filter_cons_True.
  - destruct w as [|a w]; [done|]. inversion Hw; subst. by eexists _, _.
Qed.

Lemma space_not_id a : is_space a = true → is_id a = false.
Proof.
  unfold is_space, is_id, is_digit. rewrite !orb_true_iff, orb_false_iff, !bool_decide_eq_true, !bool_decide_eq_false.
  intros H. split; [intros ->; vm_compute in H; naive_solver lia|lia].
Qed.

Lemma re2_label k text : ident k → text_ok text → re2 (k ++ label_of text) = Some (k, text).
Proof.
  intros [Hne Hk] Ht. unfold re2, label_of. apply plus_stops; [done|done|done|].
  change (" "%char :: label_start ++ text ++ label_end) with ([" "%char] ++ (label_start ++ text ++ label_end)).
  apply star_stops; [by repeat constructor|done|].
  rewrite (proj2 (strip_Some label_start _ (text ++ label_end)) eq_refl). cbn [mbind option_bind].
  apply star_longest; [done|done|]. intros u v Huv Hu _. unfold label_end in Huv.
  destruct u as [|a [|b [|c u]]]; [done|..]; cbn [app] in Huv; by simplify_eq.
Qed.

Lemma ident_others a : ident a → Forall (λ c, is_id c = true ∨ is_space c = true) a.
Proof. intros [_ Ha]. eapply Forall_impl; [exact Ha|]. by left. Qed.

(** The label of an edge is matched with its second node. *)
Lemma re2_labelled a b text : ident a → ident b → text_ok text → search re2 (arrow a b ++ label_of text) = Some (b, text).
Proof.
  intros Ha Hb Ht. assert (arrow a b ++ label_of text = ((a ++ str " -") ++ [">"%char; " "%char]) ++ b ++ label_of text) as ->.
  { unfold arrow. by rewrite <-!app_assoc. }
  rewrite search_skip; [by apply search_here, re2_label|]. intros u v Huv Hv. destruct (re2 (v ++ b ++ label_of text)) as [r|] eqn:E; [|done].
  exfalso. apply re2_first in E as [Hf (c & t & Hc & Hid)]. destruct v as [|x v _] using rev_ind; [done|].
  change [">"%char; " "%char] with ([">"%char] ++ [" "%char]) in Huv. rewrite !app_assoc in Huv. apply app_inj_tail in Huv as [Huv <-].
  destruct v as [|y v _] using rev_ind; [cbn [app] in Hc; by injection Hc as <- _|].
  rewrite app_assoc in Huv. apply app_inj_tail in Huv as [Huv <-]. rewrite <-!app_assoc, first_other_skip in Hf.
  - cbn [app] in Hf. unfold first_other in Hf. by rewrite filter_cons_True in Hf.
  - assert (Forall (λ c, is_id c = true ∨ is_space c = true) (u ++ v)) as [_ ?]%Forall_app; [|done]. rewrite <-Huv.
    apply Forall_app. split; [by apply ident_others|]. change (str " -") with [" "%char; "-"%char].
    constructor; [by right|]. constructor; [by left|constructor].
Qed.

Lemma re2_link a b : ident a → ident b → search re2 (arrow a b) = None.
Proof.
  intros Ha Hb. destruct (search re2 (arrow a b)) as [r|] eqn:E; [|done]. apply search_inv in E as (u & v & Euv & [Hf _]%re2_first).
  exfalso. assert ("["%char ∈ arrow a b) as Hin.
  { rewrite Euv. apply elem_of_app. right. unfold first_other in Hf. apply head_Some_elem_of in Hf. by apply list_elem_of_filter in Hf as [_ ?]. }
  unfold arrow in Hin. rewrite !elem_of_app in Hin. destruct Ha as [_ Ha], Hb as [_ Hb]. rewrite Forall_forall in Ha, Hb.
  destruct Hin as [Hin|[Hin|Hin]]; [by specialize (Ha _ Hin)| |by specialize (Hb _ Hin)].
  assert ("["%char ∉ str " -> ") as Hno; [|done]. apply (bool_decide_unpack _). by vm_compute.
Qed.

Lemma re3_link a b : ident a → ident b → search re3 (arrow a b) = Some (a, b).
Proof.
  intros [Ha1 Ha2] [Hb1 Hb2]. apply search_here. unfold re3, arrow. apply plus_stops; [done|done|done|].
  change (str " -> " ++ b) with ([" "%char] ++ str "->" ++ " "%char :: b). apply star_stops; [by repeat constructor|done|].
  rewrite (proj2 (strip_Some (str "->") _ (" "%char :: b)) eq_refl). cbn [mbind option_bind].
  change (" "%char :: b) with ([" "%char] ++ b). apply star_stops; [by repeat constructor| |].
  - destruct b as [|c b]; [done|]. inversion Hb2 as [|? ? Hc _]; subst. destruct (is_space c) eqn:E; [|done]. apply space_not_id in E. congruence.
  - rewrite <-(app_nil_r b). apply plus_stops; [done|done|done|]. by rewrite app_nil_r.
Qed.

(** ** Rows *)

Lemma trim_kept a s b : is_space a = false → is_space b = false → trim (a :: s ++ [b]) = a :: s ++ [b].
Proof.
  intros Ha Hb. unfold trim, trim_left. cbn [span]. rewrite Ha. cbn [snd]. rewrite app_comm_cons, reverse_snoc. cbn [span].
  rewrite Hb. cbn [snd]. by rewrite <-reverse_snoc, reverse_involutive.
Qed.

(** Rows begin and end with characters that are not blank. *)
Definition solid (s : jstr) : Prop := ∃ a w b, (s = a :: w ++ [b] ∨ (s = [a] ∧ a = b)) ∧ is_space a = false ∧ is_space b = false.
Lemma trim_solid s : solid s → trim s = s ∧ trim (tab :: s) = s.
Proof.
  intros (a & w & b & Hs & Ha & Hb).
  assert (trim s = s) as H.
  { destruct Hs as [->|[-> <-]]; [by apply trim_kept|]. unfold trim, trim_left. cbn [span]. rewrite Ha. cbn. by rewrite Ha. }
  split; [done|]. rewrite <-H at 2. unfold trim, trim_left at 2. cbn [span]. change (is_space tab) with true. cbn [snd].
  unfold trim_left at 3. by destruct (span is_space s).
Qed.

Lemma ident_ends a : ident a → (∃ c w, a = c :: w ∧ is_space c = false) ∧ ∃ w c, a = w ++ [c] ∧ is_space c = false.
Proof.
  intros [Hne Ha]. assert (∀ c, c ∈ a → is_space c = false) as Hs.
  { intros c Hc. rewrite Forall_forall in Ha. specialize (Ha c Hc). destruct (is_space c) eqn:E; [|done]. apply space_not_id in E. congruence. }
  split; [destruct a as [|c w]; [done|]|destruct a as [|c w _] using rev_ind; [done|]]; eexists _, _; (split; [reflexivity|]); apply Hs.
  - left.
  - apply elem_of_app. right. left.
Qed.

Lemma label_of_end text : ∃ w, label_of text = w ++ ["]"%char].
Proof. exists (" "%char :: label_start ++ text ++ [quote]). unfold label_of, label_end. by rewrite <-app_comm_cons, <-!app_assoc. Qed.

Lemma row_solid s : stmt_ok s → solid (row_of s).
Proof.
  intros [Hs _]. destruct s as [k text|a b|a b text]; cbn [row_of].
  - destruct Hs as [Hk _]. destruct (ident_ends k Hk) as [(c & w & -> & Hc) _], (label_of_end text) as [w' ->].
    exists c, (w ++ w'), "]"%char. split_and!; [left; by rewrite <-app_comm_cons, <-app_assoc|done|done].
  - destruct Hs as [Ha Hb]. destruct (ident_ends a Ha) as [(c & w & -> & Hc) _], (ident_ends b Hb) as [_ (w' & c' & -> & Hc')].
    exists c, (w ++ str " -> " ++ w'), c'. split_and!; [left|done|done]. unfold arrow. by rewrite <-app_comm_cons, <-!app_assoc.
  - destruct Hs as (Ha & Hb & _). destruct (ident_ends a Ha) as [(c & w & -> & Hc) _], (label_of_end text) as [w' ->].
    exists c, (w ++ str " -> " ++ b ++ w'), "]"%char. split_and!; [left|done|done]. unfold arrow. by rewrite <-!app_comm_cons, <-!app_assoc.
Qed.

Lemma read_row_of d s : stmt_ok s → read_row d (row_of s) = read_stmt d s.
Proof.
  intros [Hs Hd]. unfold read_row. rewrite re1_heading by done. destruct s as [k text|a b|a b text]; cbn [row_of read_stmt].
  - destruct Hs. by rewrite (search_here re2 _ (k, text)) by by apply re2_label.
  - destruct Hs. by rewrite re2_link, re3_link.
  - destruct Hs as (? & ? & ?). by rewrite re2_labelled.
Qed.

Lemma re1_head n : text_ok n → search re1 (heading n) = Some n.
Proof.
  intros Hn. apply search_here. unfold re1, heading.
  change (str "digraph " ++ [quote] ++ n ++ [quote] ++ str " {") with (str "digraph" ++ [" "%char] ++ [quote] ++ n ++ [quote] ++ str " {").
  rewrite (proj2 (strip_Some (str "digraph") _ _) eq_refl). cbn [mbind option_bind]. apply star_stops; [by repeat constructor|done|].
  rewrite (proj2 (strip_Some [quote] _ _) eq_refl). cbn [mbind option_bind]. apply star_longest; [done|done|].
  intros u v Huv Hu _. destruct u as [|a u]; [done|]. cbn [app] in *. injection Huv as _ Huv.
  assert (quote ∉ v) as Hv.
  { intros Hv. assert (quote ∉ str " {") as Hno by (apply (bool_decide_unpack _); by vm_compute). apply Hno. rewrite Huv. apply elem_of_app. by right. }
  destruct (strip [quote] v) as [t|] eqn:E; [|done]. apply strip_Some in E as ->. exfalso. apply Hv. left.
Qed.

Lemma heading_solid n : solid (heading n).
Proof. exists "d"%char, (str "igraph " ++ [quote] ++ n ++ [quote] ++ str " "), "{"%char. split; [left|done]. unfold heading. rewrite <-!app_assoc. done. Qed.

(** The rows of a text. *)
Lemma split_lines (rows : list jstr) : Forall (λ r, newline ∉ r) rows → split newline (concat (map line rows)) = rows ++ [[]].
Proof.
  induction 1 as [|r rows Hr _ IH]; [done|]. cbn [map concat]. unfold line at 1. rewrite <-app_assoc. cbn [app]. by rewrite split_app, IH.
Qed.

Lemma dot_newline t : text_ok t → newline ∉ t.
Proof. intros Ht Hin. unfold text_ok in Ht. rewrite Forall_forall in Ht. by specialize (Ht _ Hin). Qed.
Lemma id_newline a : ident a → newline ∉ a.
Proof. intros [_ Ha] Hin. rewrite Forall_forall in Ha. by specialize (Ha _ Hin). Qed.

Lemma label_newline text : text_ok text → newline ∉ label_of text.
Proof.
  intros Ht. unfold label_of. rewrite not_elem_of_cons, !not_elem_of_app. split_and!; [done| |by apply dot_newline|];
    apply (bool_decide_unpack _); by vm_compute.
Qed.
Lemma arrow_newline a b : ident a → ident b → newline ∉ arrow a b.
Proof.
  intros Ha Hb. unfold arrow. rewrite !not_elem_of_app. split_and!; [by apply id_newline| |by apply id_newline]. apply (bool_decide_unpack _); by vm_compute.
Qed.
Lemma row_newline s : stmt_ok s → newline ∉ tab :: row_of s.
Proof.
  intros [Hs _]. apply not_elem_of_cons. split; [done|]. destruct s as [k text|a b|a b text]; cbn [row_of]; destruct_and? Hs.
  - apply not_elem_of_app. split; [by apply id_newline|by apply label_newline].
  - by apply arrow_newline.
  - apply not_elem_of_app. split; [by apply arrow_newline|by apply label_newline].
Qed.

(** ** Texts *)

Lemma read_print n ss : text_ok n → Forall stmt_ok ss →
  fromDotData (print_dot n ss) = foldl read_stmt (GraphData (Some n) [] []) ss.
Proof.
  intros Hn Hss. unfold fromDotData, print_dot.
  assert (line (heading n) ++ concat (map (λ s, line (tab :: row_of s)) ss) ++ line (str "}") =
    concat (map line (heading n :: map (λ s, tab :: row_of s) ss ++ [str "}"]))) as ->.
  { cbn [map concat]. f_equal. rewrite map_app, concat_app, map_map. by f_equal. }
  rewrite split_lines.
  - cbn [app map foldl]. rewrite (proj1 (trim_solid _ (heading_solid n))). unfold read_row at 2. rewrite re1_head by done.
    cbn [nodes links]. rewrite !map_app, !foldl_app. cbn [map foldl].
    change (trim (str "}")) with (str "}"). change (trim []) with (@nil ascii).
    set (d := GraphData (Some n) [] []). clearbody d. revert d.
    induction Hss as [|s ss Hs _ IH]; intros d; [reflexivity|]. cbn [map foldl]. rewrite (proj2 (trim_solid _ (row_solid s Hs))), read_row_of by done. apply IH.
  - constructor; [|apply Forall_app; split].
    + unfold heading. rewrite !not_elem_of_app. split_and!; [..|by apply dot_newline| |]; apply (bool_decide_unpack _); by vm_compute.
    + apply Forall_fmap. eapply Forall_impl; [exact Hss|]. intros s Hs. by apply row_newline.
    + repeat constructor. apply (bool_decide_unpack _). by vm_compute.
Qed.

Lemma read_unlabelled n ss : Forall (λ s, ∀ a b t, s ≠ LabelledLink a b t) ss →
  foldl read_stmt (GraphData (Some n) [] []) ss = meant n ss.
Proof.
  intros Hss. unfold meant.
  assert (∀ m l, foldl read_stmt (GraphData (Some n) m l) ss = GraphData (Some n)
    (foldl (λ m s, match s with Node k text => map_set k (drop_first (str "\l") text) m | _ => m end) m ss)
    (l ++ omap (λ s, match s with Node _ _ => None | Link a b | LabelledLink a b _ => Some (a, b) end) ss)) as H; [|by rewrite H].
  induction Hss as [|s ss Hs _ IH]; intros m l; [by rewrite app_nil_r|]. destruct s as [k text|a b|a b t]; [..|by destruct (Hs a b t)].
  - cbn [foldl read_stmt name nodes links]. by rewrite IH.
  - cbn [foldl read_stmt name nodes links]. rewrite IH, <-app_assoc. done.
Qed.

Lemma read_links n ss m l : links (foldl read_stmt (GraphData n m l) ss) =
  l ++ omap (λ s, match s with Link a b => Some (a, b) | _ => None end) ss.
Proof.
  revert m l. induction ss as [|s ss IH]; intros m l; [by rewrite app_nil_r|].
  destruct s; cbn [foldl read_stmt name nodes links]; rewrite IH; [done| |done]. rewrite <-app_assoc. done.
Qed.

Lemma elem_of_map_set k v m : (k, v) ∈ map_set k v m.
Proof. induction m as [|p m IH]; cbn [map_set]; [left|]. case_decide; [left|by right]. Qed.
Lemma map_set_other k v k' v' m : k ≠ k' → (k, v) ∈ map_set k' v' m ↔ (k, v) ∈ m.
Proof.
  intros Hk. induction m as [|p m IH]; cbn [map_set].
  - rewrite list_elem_of_singleton. split; [by intros [= ??]|by intros ?%not_elem_of_nil].
  - case_decide as Hp; rewrite !elem_of_cons; [|by rewrite IH]. split; (intros [H|H]; [|by right]).
    + by injection H.
    + exfalso. apply Hk. rewrite <-Hp, <-H. done.
Qed.
Lemma map_set_keys k v m : map fst (map_set k v m) = if decide (k ∈ map fst m) then map fst m else map fst m ++ [k].
Proof.
  induction m as [|p m IH]; cbn [map_set map fst]; [rewrite decide_False by apply not_elem_of_nil; done|].
  destruct (decide (p.1 = k)) as [<-|Hp]; cbn [map fst].
  - rewrite decide_True by left. done.
  - rewrite IH. destruct (decide (k ∈ map fst m)) as [Hk|Hk]; [by rewrite decide_True by by right|].
    rewrite decide_False; [done|]. intros [Hq|?]%elem_of_cons; [by apply Hp|done].
Qed.
Lemma map_set_nodup k v m : NoDup (map fst m) → NoDup (map fst (map_set k v m)).
Proof.
  intros Hm. rewrite map_set_keys. case_decide as Hk; [done|]. apply NoDup_app. split_and!; [done| |apply NoDup_singleton].
  by intros x Hx ->%list_elem_of_singleton.
Qed.
(** Keys are read once each. *)
Lemma read_nodup content : NoDup (map fst (nodes (fromDotData content))).
Proof.
  unfold fromDotData. set (d := GraphData None [] []). assert (NoDup (map fst (nodes d))) as Hd by constructor. clearbody d.
  revert d Hd. induction (map trim (split newline content)) as [|r rows IH]; intros d Hd; [done|]. cbn [foldl]. apply IH. unfold read_row.
  destruct (search re1 r); [done|]. destruct (search re2 r) as [[k t]|]; [|by destruct (search re3 r)]. by apply map_set_nodup.
Qed.

Definition names_node (k : jstr) (s : stmt) : Prop :=
  match s with Node k' _ | LabelledLink _ k' _ => k' = k | Link _ _ => False end.
Lemma read_node_kept k v ss d : Forall (λ s, ¬ names_node k s) ss → (k, v) ∈ nodes d → (k, v) ∈ nodes (foldl read_stmt d ss).
Proof.
  intros Hss. revert d. induction Hss as [|s ss Hs _ IH]; intros d Hd; [done|]. cbn [foldl]. apply IH.
  destruct s as [k' t|a b|a k' t]; cbn [read_stmt nodes]; [|done|]; (apply map_set_other; [|done]); intros <-; by apply Hs.
Qed.

(** ** The theorems *)

(** C40: The text of a graph is read back: every node with its label, the nodes in the order in
    which they are first written, and every edge, when no edge has a label. *)
Theorem dot_read_back n ss : text_ok n → Forall stmt_ok ss → Forall (λ s, ∀ a b t, s ≠ LabelledLink a b t) ss →
  fromDotData (print_dot n ss) = meant n ss.
Proof. intros Hn Hss Hl. by rewrite read_print, read_unlabelled. Qed.

Definition small : list stmt := [Node (str "-12") (str "receive a\l"); Link (str "-12") (str "7"); Node (str "7") (str "send b\l"); Link (str "7") (str "-12")].
Definition stmt_check (s : stmt) : bool :=
  let id_check k := negb (bool_decide (k = [])) && forallb is_id k in
  match s with
  | Node k t => id_check k && forallb is_dot t
  | Link a b => id_check a && id_check b
  | LabelledLink a b t => id_check a && id_check b && forallb is_dot t
  end && bool_decide (find_sub (str "digraph") (row_of s) = None).
Lemma all_check {A} (P : A → bool) (w : list A) : forallb P w = true → all P w.
Proof. rewrite forallb_forall, Forall_forall. intros H a Ha. apply H. by apply list_elem_of_In. Qed.
Lemma stmt_check_sound s : stmt_check s = true → stmt_ok s.
Proof.
  unfold stmt_check. intros [Hs Hd%bool_decide_eq_true]%andb_true_iff. split; [|done].
  destruct s; rewrite ?andb_true_iff, ?negb_true_iff, ?bool_decide_eq_false in Hs; unfold ident, text_ok; naive_solver eauto using all_check.
Qed.
Lemma stmts_ok ss : forallb stmt_check ss = true → Forall stmt_ok ss.
Proof. intros H%all_check. eapply Forall_impl; [exact H|]. apply stmt_check_sound. Qed.

Lemma dot_read_back_witness : text_ok (str "a b") ∧ Forall stmt_ok small ∧ fromDotData (print_dot (str "a b") small) =
  GraphData (Some (str "a b")) [(str "-12", str "receive a"); (str "7", str "send b")] [(str "-12", str "7"); (str "7", str "-12")].
Proof.
  assert (text_ok (str "a b")) as Hn by (apply all_check; reflexivity).
  assert (Forall stmt_ok small) as Hs by (apply stmts_ok; reflexivity).
  split; [exact Hn|]. split; [exact Hs|]. rewrite (dot_read_back (str "a b") small Hn Hs); [reflexivity|]. repeat constructor; done.
Defined.

(** An edge with a label is lost: it is not read as an edge, and its label becomes that of
    the node it leads to, until a later row describes that node. *)
Theorem labelled_link_is_lost n ss1 ss2 a b t : text_ok n → Forall stmt_ok (ss1 ++ LabelledLink a b t :: ss2) →
  links (fromDotData (print_dot n (ss1 ++ LabelledLink a b t :: ss2))) = links (fromDotData (print_dot n (ss1 ++ ss2))) ∧
  (Forall (λ s, ¬ names_node b s) ss2 →
   (b, drop_first (str "\l") t) ∈ nodes (fromDotData (print_dot n (ss1 ++ LabelledLink a b t :: ss2)))).
Proof.
  intros Hn Hss. assert (Forall stmt_ok (ss1 ++ ss2)) as Hss' by (rewrite Forall_app, Forall_cons in *; naive_solver). split.
  - by rewrite !read_print, !read_links, !omap_app.
  - intros Hb. rewrite read_print, foldl_app by done. cbn [foldl]. apply read_node_kept; [done|]. apply elem_of_map_set.
Qed.

Lemma labelled_link_is_lost_witness :
  let ss := [Node (str "7") (str "send b\l"); LabelledLink (str "7") (str "7") (str "Repeat 5 times")] in
  Forall stmt_ok ss ∧ links (fromDotData (print_dot [] ss)) = [] ∧
  (str "7", str "Repeat 5 times") ∈ nodes (fromDotData (print_dot [] ss)).
Proof.
  cbv zeta. assert (Forall stmt_ok ([Node (str "7") (str "send b\l")] ++ LabelledLink (str "7") (str "7") (str "Repeat 5 times") :: [])) as Hs
    by (apply stmts_ok; reflexivity).
  destruct (labelled_link_is_lost [] _ [] _ _ _ ltac:(constructor) Hs) as [H1 H2]. split; [exact Hs|]. split; [exact (eq_trans H1 eq_refl)|].
  apply H2. constructor.
Defined.

(** Only the first break of a line is removed from a label. *)
Lemma second_break_stays k u v n : text_ok n → stmt_ok (Node k (u ++ str "\l" ++ v)) → find_sub (str "\l") u = None →
  nodes (fromDotData (print_dot n [Node k (u ++ str "\l" ++ v)])) = [(k, u ++ v)].
Proof.
  intros Hn Hs Hu. rewrite read_print by (done || by constructor). cbn. unfold drop_first. rewrite find_sub_prefix.
  - change (find_sub (str "\l") (str "\l" ++ v)) with (Some ([] : jstr, v)). cbn. by rewrite app_nil_r.
  - intros w1 w2 t E Hw2 Ht. change (str "\l") with ["\"%char; "l"%char] in Ht. destruct w2 as [|c [|d w2]]; [done|..]; cbn [app] in Ht; simplify_eq.
    exact (proj1 (find_sub_None (str "\l") (w1 ++ _ :: _ :: w2)) Hu w1 w2 eq_refl).
Qed.

End Dot.
