(* ===== verification/MxGraph.v ===== *)
(** * The operations of a graph

    What mxGraph.js offers for changing a graph, as far as the graphs of reports use it:
    inserting vertices and edges, connecting edges, sizing vertices by their labels, extending
    parents, and removing cells with their edges. Each operation makes the changes of MxOps in
    nested updates of a session. [None] is an exception or a case that the model does not
    follow: a child that must be kept inside of the area of its parent. *)

From Stdlib Require Import Ascii.
From stdpp Require Import pretty.
From S2P Require Import Prelude JsNumber MxGeometry MxCell MxModel MxUndo MxEditor MxOps.
Import JsNumber MxGeometry MxCell MxModel MxUndo MxEditor MxOps.

Module MxGraph.

(** ** Styles *)

(** The value of a key in a style: numbers are parsed. *)
Inductive sval := SNum (n : Z) | SStr (s : string) | SBool (b : bool).
#[global] Instance sval_eq_dec : EqDecision sval.
Proof. solve_decision. Defined.
Abbreviation cstyle := (gmap string sval).

Definition sval_true (v : sval) : bool :=
  match v with SNum n => negb (n =? 0)%Z | SStr s => negb (bool_decide (s = EmptyString)) | SBool b => b end.
(** [v || d] and [v != 0] *)
Definition sval_or (v : option sval) (d : sval) : sval :=
  match v with Some v => if sval_true v then v else d | None => d end.
Definition num_or (v : option sval) (d : Z) : Z :=
  match v with Some (SNum n) => if (n =? 0)%Z then d else n | _ => d end.
Definition not_zero (v : option sval) : bool := match v with Some v => sval_true v | None => true end.

(** [mxUtils.setStyle(style, key, value)] on the name of a style. *)
Definition from (i : nat) (s : string) : string := String.substring i (String.length s - i) s.
Definition ends_with (a : Ascii.ascii) (s : string) : bool :=
  bool_decide (String.get (String.length s - 1) s = Some a).
Definition style_entry (key v : string) : string := key +:+ "=" +:+ v.

Definition util_setStyle (st : option string) (key : string) (v : option string) : option string :=
  let isValue := match v with Some v => negb (bool_decide (v = EmptyString)) | None => false end in
  let v := default EmptyString v in
  match st with
  | None | Some EmptyString => if isValue then Some (style_entry key v +:+ ";") else st
  | Some s =>
      Some (if bool_decide (String.substring 0 (String.length key + 1) s = key +:+ "=") then
        let next := String.index 0 ";" s in
        if isValue then style_entry key v +:+ match next with Some i => from i s | None => ";" end
        else match next with
             | Some i => if decide (i = String.length s - 1) then EmptyString else from (S i) s
             | None => EmptyString
             end
      else match String.index 0 (";" +:+ key +:+ "=") s with
           | None => if isValue then s +:+ (if ends_with ";"%char s then EmptyString else ";") +:+ style_entry key v +:+ ";" else s
           | Some i =>
               let next := String.index (S i) ";" s in
               let rest := match next with Some j => from j s | None => ";" end in
               if isValue then String.substring 0 (S i) s +:+ style_entry key v +:+ rest
               else String.substring 0 i s +:+ rest
           end)
  end.

(** [getCellStyle(name, defaultStyle)] of mxStylesheet.js: the pairs of a name over the default
    or, after a semicolon, over nothing; other parts are names of [styles]. Numbers are those
    without a fraction. *)
Definition style_value (v : string) : sval :=
  match v with
  | String "-"%char w => match numeric w with Some k => SNum (- Z.of_N k) | None => SStr v end
  | _ => match numeric v with Some k => SNum (Z.of_N k) | None => SStr v end
  end.
Fixpoint split_semi (s : string) : list string :=
  match s with
  | EmptyString => [EmptyString]
  | String a s => if decide (a = ";"%char) then EmptyString :: split_semi s
                  else match split_semi s with w :: ws => String a w :: ws | [] => [String a EmptyString] end
  end.
Definition read_pair (styles : gmap string cstyle) (st : cstyle) (tmp : string) : cstyle :=
  match String.index 0 "=" tmp with
  | Some pos =>
      let key := String.substring 0 pos tmp in
      let v := from (S pos) tmp in
      if decide (v = "none") then delete key st else <[key := style_value v]> st
  | None => default ∅ (styles !! tmp) ∪ st
  end.
Definition stylesheet_getCellStyle (styles : gmap string cstyle) (name : string) (defaultStyle : cstyle) : cstyle :=
  match name with
  | EmptyString => defaultStyle
  | String a _ => foldl (read_pair styles) (if decide (a = ";"%char) then ∅ else defaultStyle) (split_semi name)
  end.

(** ** Settings of the prototype that nothing changes *)

Definition constrainRelativeChildren : bool := false.
Definition maximumGraphBounds : option mxRectangle := None.
Definition constrainChildren : bool := true.
Definition extendParents : bool := true.
Definition extendParentsOnAdd : bool := true.
Definition resetEdgesOnConnect : bool := true.
Definition portsEnabled : bool := true.
Definition cellsDeletable : bool := true.
Definition gridSize : Z := 10.

(** [Math.round(value / gridSize) * gridSize] *)
Definition snap (v : Z) : Z := ((v + gridSize / 2) / gridSize * gridSize)%Z.
(** [Math.round(v / 2)] *)
Definition round_half (v : Z) : Z := ((v + 1) / 2)%Z.

Section Graph.
(** The model, the two parents of the graph, its styles. *)
Context (cfg : config) (defaultParent currentRoot : option ref).
Context (defaultVertexStyle defaultEdgeStyle : cstyle) (namedStyle : string → cstyle → cstyle).
(** What the browser and the view know: the size of a label, which cells are drawn and where
    their origin is, where an edge meets its terminals, the far corner of some cells. *)
Context (getSizeForString : string → cstyle → Z * Z).
Context (drawn : ref → option mxPoint) (view_point : ref → bool → option mxPoint) (view_extent : list ref → option (Z * Z)).
(** The bound on nested moves of edges in [add]. *)
Context (n : nat).

Definition getCellStyle (h : heap) (c : ref) : cstyle :=
  let base := if edge (h !!! c) then defaultEdgeStyle else defaultVertexStyle in
  match style (h !!! c) with Some name => namedStyle name base | None => base end.

Definition getDefaultParent (d : data) : option ref :=
  match currentRoot with
  | Some r => Some r
  | None => match defaultParent with
            | Some p => Some p
            | None => root d ≫= λ r, getChildAt (hp d) r 0
            end
  end.

Definition isSwimlane (d : data) (c : ref) : bool :=
  negb (bool_decide (parent (hp d !!! c) = root d)) && negb (edge (hp d !!! c))
  && bool_decide (getCellStyle (hp d) c !! "shape" = Some (SStr "swimlane")).

(** A new geometry object, as the code changes it before it is set. *)
Definition new_geometry (f : nat → mxGeometry) (s : session) : session * mxGeometry :=
  let d := sdata s in
  (set_sdata (Data (hp d) (root d) (cells d) (nextId d) (S (georef d))) s, f (georef d)).
Definition with_bounds (b : mxRectangle) (g : mxGeometry) : mxGeometry :=
  Geometry (geo_ref g) b (alternateBounds g) (sourcePoint g) (targetPoint g) (points g) (offset g) (relative g).
Definition with_offset (o : option mxPoint) (g : mxGeometry) : mxGeometry :=
  Geometry (geo_ref g) (bounds g) (alternateBounds g) (sourcePoint g) (targetPoint g) (points g) o (relative g).
Definition with_points (ps : option (list (option mxPoint))) (g : mxGeometry) : mxGeometry :=
  Geometry (geo_ref g) (bounds g) (alternateBounds g) (sourcePoint g) (targetPoint g) ps (offset g) (relative g).
Definition with_relative (b : bool) (g : mxGeometry) : mxGeometry :=
  Geometry (geo_ref g) (bounds g) (alternateBounds g) (sourcePoint g) (targetPoint g) (points g) (offset g) b.

(** [geo = geo.clone(); ...; setGeometry(cell, geo)] *)
Definition put_geometry (c : ref) (geo : mxGeometry) (f : mxGeometry → mxGeometry) (s : session) : session :=
  let '(s, g) := new_geometry (λ r, f (geo_clone r geo)) s in setGeometry cfg (Some c) (Some g) s.

(** [model.beginUpdate(); try { ... } finally { model.endUpdate() }] *)
Definition updating (f : session → option session) (s : session) : option session := endUpdate <$> f (beginUpdate s).

(** ** Parents and sizes *)

Definition isConstrainChild (h : heap) (c : ref) : bool := constrainChildren && negb (isEdge h (parent (h !!! c))).

(** [getCellContainmentArea] for parents that are no swimlanes. *)
Definition getCellContainmentArea (d : data) (c : ref) : option mxRectangle :=
  if edge (hp d !!! c) then None
  else match parent (hp d !!! c) with
       | Some p => if decide (Some p = getDefaultParent d) then None
                   else (λ g, Rect 0 0 (rwidth (bounds g)) (rheight (bounds g))) <$> geometry (hp d !!! p)
       | None => None
       end.

(** [constrainChild(cell)]: nothing is done without an area to stay in. *)
Definition constrainChild (c : ref) (s : session) : option session :=
  let d := sdata s in
  match geometry (hp d !!! c) with
  | Some geo =>
      if constrainRelativeChildren || negb (relative geo) then
        let area := if isConstrainChild (hp d) c then getCellContainmentArea d c else None in
        match maximumGraphBounds, area with None, None => Some s | _, _ => None end
      else Some s
  | None => Some s
  end.

Fixpoint constrain_all (cs : list ref) (s : session) : option session :=
  match cs with
  | [] => Some s
  | c :: cs => s ← constrainChild c s; constrain_all cs s
  end.

(** [cellResized(cell, bounds, false, false)] *)
Definition cellResized (c : ref) (b : mxRectangle) (s : session) : option session :=
  match geometry (hp (sdata s) !!! c) with
  | Some prev =>
      if decide (bounds prev ≠ b) then
        updating (λ s,
          let s := put_geometry c prev (λ geo,
            if relative geo then
              with_bounds (Rect (rx (bounds geo)) (ry (bounds geo)) (rwidth b) (rheight b))
                (with_offset ((λ o, Point (px o + (rx b - rx (bounds geo))) (py o + (ry b - ry (bounds geo)))) <$> offset geo) geo)
            else with_bounds b geo) s in
          constrain_all (kids (hp (sdata s)) c) s) s
      else Some s
  | None => Some s
  end.

Definition isExtendParent (h : heap) (c : ref) : bool := negb (edge (h !!! c)) && extendParents.

(** [extendParent(cell)], given the resizing of one cell. *)
Definition extendParent (resize : ref → mxRectangle → session → option session) (c : ref) (s : session) : option session :=
  let h := hp (sdata s) in
  match parent (h !!! c) with
  | Some par =>
      match geometry (h !!! par), geometry (h !!! c) with
      | Some p, Some geo =>
          let w := (rx (bounds geo) + rwidth (bounds geo))%Z in
          let e := (ry (bounds geo) + rheight (bounds geo))%Z in
          if negb (isCollapsed h (Some par)) && negb (relative geo)
             && ((rwidth (bounds p) <? w)%Z || (rheight (bounds p) <? e)%Z) then
            resize par (Rect (rx (bounds p)) (ry (bounds p)) (Z.max (rwidth (bounds p)) w) (Z.max (rheight (bounds p)) e)) s
          else Some s
      | _, _ => Some s
      end
  | None => Some s
  end.

(** [cellsResized([cell], [bounds], false)]; the recursion climbs the parents. *)
Fixpoint cellsResized (k : nat) (c : ref) (b : mxRectangle) (s : session) : option session :=
  match k with
  | 0 => None
  | S k =>
      updating (λ s,
        s ← cellResized c b s;
        s ← (if isExtendParent (hp (sdata s)) c then extendParent (cellsResized k) c s else Some s);
        constrainChild c s) s
  end.

Definition resize_fuel (s : session) : nat := S (fuel (hp (sdata s))).

(** [getPreferredSizeForCell(cell)]; [None] is its null, for edges. *)
Definition getPreferredSizeForCell (h : heap) (c : ref) : option (Z * Z) :=
  let style := getCellStyle h c in
  if edge (h !!! c) then None
  else
    let at_label := bool_decide (is_Some (style !! "image")) && bool_decide (style !! "shape" = Some (SStr "label")) in
    let dx := if at_label && bool_decide (style !! "verticalAlign" = Some (SStr "middle")) then num_or (style !! "imageWidth") 24 else 0%Z in
    let dy := if at_label && negb (bool_decide (style !! "align" = Some (SStr "center"))) then num_or (style !! "imageHeight") 24 else 0%Z in
    let dx := (dx + 2 * num_or (style !! "spacing") 0 + num_or (style !! "spacingLeft") 0 + num_or (style !! "spacingRight") 0)%Z in
    let dy := (dy + 2 * num_or (style !! "spacing") 0 + num_or (style !! "spacingTop") 0 + num_or (style !! "spacingBottom") 0)%Z in
    let dx := if decide (0 < getChildCount h c) then if not_zero (style !! "foldable") then (dx + 9 + 8)%Z else dx else dx in
    let label := match style !! "noLabel" with
                 | Some v => if sval_true v then EmptyString else default EmptyString (value (h !!! c))
                 | None => default EmptyString (value (h !!! c))
                 end in
    Some (if decide (label = EmptyString) then (4 * gridSize, 4 * gridSize)%Z
          else let size := getSizeForString label style in
               let w := (size.1 + dx)%Z in let e := (size.2 + dy)%Z in
               let '(w, e) := match style !! "horizontal" with Some v => if sval_true v then (w, e) else (e, w) | None => (w, e) end in
               (snap (w + gridSize / 2), snap (e + gridSize / 2))).

(** [cellSizeUpdated(cell, ignoreChildren)] and [updateCellSize]; the size that is preferred for
    a cell is a method that programs replace. *)
Definition align_shift (align : sval) (far : string) (middle : string) (diff : Z) : Z :=
  if bool_decide (align = SStr far) then diff else if bool_decide (align = SStr middle) then round_half diff else 0%Z.

Definition sized_bounds (h : heap) (c : ref) (b : mxRectangle) (size : Z * Z) : mxRectangle :=
  let style := getCellStyle h c in
  Rect (rx b + align_shift (sval_or (style !! "align") (SStr "center")) "right" "center" (rwidth b - size.1))
       (ry b + align_shift (sval_or (style !! "verticalAlign") (SStr "middle")) "bottom" "middle" (rheight b - size.2))
       size.1 size.2.

Definition swimlane_style (h : heap) (c : ref) (size : Z * Z) : option string :=
  let start := if sval_true (default (SNum 1) (getCellStyle h c !! "horizontal")) then size.2 else size.1 in
  util_setStyle (Some (default EmptyString (style (h !!! c)))) "startSize" (Some (pretty (start + 8)%Z)).
Definition swimlane_bounds (h : heap) (c : ref) (b : mxRectangle) (size : Z * Z) : mxRectangle :=
  if sval_true (default (SNum 1) (getCellStyle h c !! "horizontal"))
  then Rect (rx b) (ry b) size.1 (if collapsed (h !!! c) then size.2 + 8 else rheight b)%Z
  else Rect (rx b) (ry b) (if collapsed (h !!! c) then size.1 + 8 else rwidth b)%Z size.2.

Definition around_children (extent : option (Z * Z)) (b : mxRectangle) : mxRectangle :=
  match extent with
  | Some (x, y) => Rect (rx b) (ry b) (Z.max (rwidth b) (x - rx b)) (Z.max (rheight b) (y - ry b))
  | None => b
  end.

Definition cellSizeUpdated (preferred : heap → ref → option (Z * Z)) (c : ref) (ignoreChildren : bool) : session → option session :=
  updating (λ s,
    let h := hp (sdata s) in
    match preferred h c, geometry (h !!! c) with
    | Some size, Some geo =>
        let swimlane := isSwimlane (sdata s) c in
        let s := if swimlane then setStyle cfg (Some c) (swimlane_style h c size) s else s in
        let b := if swimlane then swimlane_bounds h c (bounds geo) size else sized_bounds h c (bounds geo) size in
        let b := if negb ignoreChildren && negb (collapsed (h !!! c)) then around_children (view_extent (kids h c)) b else b in
        cellsResized (resize_fuel s) c b s
    | _, _ => Some s
    end).

Definition updateCellSize (preferred : heap → ref → option (Z * Z)) (c : ref) (ignoreChildren : bool) : session → option session :=
  updating (cellSizeUpdated preferred c ignoreChildren).

(** ** Connecting edges *)

Definition resetEdge (e : ref) (s : session) : session :=
  match geometry (hp (sdata s) !!! e) with
  | Some geo => match points geo with
                | Some (_ :: _) => put_geometry e geo (with_points (Some [])) s
                | _ => s
                end
  | None => s
  end.

(** [setCellStyles(key, value, [cell])] *)
Definition setCellStyles (key : string) (v : option string) (c : ref) (s : session) : session :=
  let s := beginUpdate s in
  endUpdate (setStyle cfg (Some c) (util_setStyle (style (hp (sdata s) !!! c)) key v) s).

(** [cellConnected(edge, terminal, source)] without a constraint; [isPort] is false. *)
Definition cellConnected (e : ref) (terminal : option ref) (isSource : bool) : session → option session :=
  updating (λ s,
    let s := if portsEnabled then setCellStyles (if isSource then "sourcePort" else "targetPort") None e s else s in
    s ← setTerminal cfg n (Some e) terminal isSource s;
    Some (if resetEdgesOnConnect then resetEdge e s else s)).

(** ** Adding cells *)

(** Keeps a cell where it is drawn when its parent changes. *)
Definition keep_place (o1 : option mxPoint) (c par : ref) (previous : option ref) (s : session) : session :=
  match o1 with
  | Some o1 =>
      if decide (c ≠ par ∧ Some par ≠ previous) then
        let o2 := default (Point 0 0) (previous ≫= drawn) in
        match geometry (hp (sdata s) !!! c) with
        | Some geo => put_geometry c geo (translate (px o2 - px o1) (py o2 - py o1)) s
        | None => s
        end
      else s
  | None => s
  end.

Definition connect_end (e : ref) (terminal : option ref) (isSource : bool) (s : session) : option session :=
  match terminal with Some t => cellConnected e (Some t) isSource s | None => Some s end.

(** The loop of [cellsAdded]; [i] is its counter. *)
Fixpoint add_cells (cs : list (option ref)) (i : Z) (par : ref) (index : Z) (source target : option ref) (o1 : option mxPoint)
    (constrain extend : bool) (s : session) : option session :=
  match cs with
  | [] => Some s
  | None :: cs => add_cells cs (i + 1) par (index - 1) source target o1 constrain extend s
  | Some c :: cs =>
      let previous := parent (hp (sdata s) !!! c) in
      let s := keep_place o1 c par previous s in
      let index := if bool_decide (Some par = previous) && (Z.of_nat (getChildCount (hp (sdata s)) par) <? index + i)%Z
                   then (index - 1)%Z else index in
      s ← add cfg n (Some par) (Some c) (Some (index + i)%Z) s;
      s ← (if extend && extendParentsOnAdd && isExtendParent (hp (sdata s)) c
           then extendParent (cellsResized (resize_fuel s)) c s else Some s);
      s ← (if constrain then constrainChild c s else Some s);
      s ← connect_end c source true s;
      s ← connect_end c target false s;
      add_cells cs (i + 1) par index source target o1 constrain extend s
  end.

Definition cellsAdded (cs : list (option ref)) (par : ref) (index : Z) (source target : option ref) (absolute constrain extend : bool) :
    session → option session :=
  updating (add_cells cs 0 par index source target (if absolute then drawn par else None) constrain extend).

(** [addCells(cells, parent, index, source, target, absolute)] *)
Definition addCells (cs : list (option ref)) (par : option ref) (index : option Z) (source target : option ref) (absolute : bool) (s : session) :
    option session :=
  match (match par with Some p => Some p | None => getDefaultParent (sdata s) end) with
  | Some p =>
      let index := default (Z.of_nat (getChildCount (hp (sdata s)) p)) index in
      updating (cellsAdded cs p index source target absolute true true) s
  | None => updating Some s
  end.

Definition addCell (c : ref) (par : option ref) (index : option Z) (source target : option ref) : session → option session :=
  addCells [Some c] par index source target false.

(** [createVertex] and [createEdge]: a new cell, not yet in the model. *)
Definition new_cell_in (f : nat → mxCell) (s : session) : session * ref :=
  let d := sdata s in
  let '(d, c) := new_cell (f (georef d)) (Data (hp d) (root d) (cells d) (nextId d) (S (georef d))) in
  (set_sdata d s, c).

Definition createVertex (i v : option string) (b : mxRectangle) (st : option string) (rel : bool) : session → session * ref :=
  new_cell_in (λ r, Cell i v (Some (with_relative rel (new_mxGeometry r (Some (rx b)) (Some (ry b)) (Some (rwidth b)) (Some (rheight b)))))
    st true false true true false None None None None None).

Definition createEdge (i v st : option string) : session → session * ref :=
  new_cell_in (λ r, Cell i v (Some (with_relative true (new_mxGeometry r None None None None))) st false true true true false None None None None None).

Definition insertVertex (par : option ref) (i v : option string) (b : mxRectangle) (st : option string) (rel : bool) (s : session) :
    option (session * ref) :=
  let '(s, c) := createVertex i v b st rel s in
  s ← addCell c par None None None s; Some (s, c).

Definition insertEdge (par : option ref) (i v : option string) (source target : option ref) (st : option string) (s : session) :
    option (session * ref) :=
  let '(s, e) := createEdge i v st s in
  s ← addCell e par None source target s; Some (s, e).

(** ** Removing cells *)

(** [getAllEdges(cells)], which goes down the tree. *)
Fixpoint getAllEdges_from (k : nat) (h : heap) (cs : list ref) : list ref :=
  match k with
  | 0 => []
  | S k => foldl (λ es c, (es ++ eds h c) ++ getAllEdges_from k h (kids h c)) [] cs
  end.
Definition getAllEdges (h : heap) (cs : list ref) : list ref := getAllEdges_from (S (fuel h)) h cs.

(** [mxUtils.removeDuplicates] *)
Fixpoint removeDuplicates (seen l : list ref) : list ref :=
  match l with
  | [] => []
  | c :: l => if decide (c ∈ seen) then removeDuplicates seen l else c :: removeDuplicates (c :: seen) l
  end.

Definition addAllEdges (h : heap) (cs : list ref) : list ref := removeDuplicates [] (cs ++ getAllEdges h cs).

Definition isCellDeletable (h : heap) (c : ref) : bool := cellsDeletable && not_zero (getCellStyle h c !! "deletable").
Definition getDeletableCells (h : heap) (cs : list ref) : list ref := filter (λ c, isCellDeletable h c = true) cs.

(** [disconnectTerminal] of [cellsRemoved] for the cell that is removed. *)
Definition disconnectTerminal (c e : ref) (isSource : bool) (s : session) : option session :=
  let h := hp (sdata s) in
  match geometry (h !!! e), getTerminal h e isSource with
  | Some geo, Some t =>
      if isAncestor h (Some c) (Some t) then
        let s := put_geometry e geo (λ geo, match view_point e isSource with Some pt => setTerminalPoint geo (Some pt) isSource | None => geo end) s in
        setTerminal cfg n (Some e) None isSource s
      else Some s
  | _, _ => Some s
  end.

(** [done_] are the cells in the dictionary. *)
Fixpoint disconnect_edges (c : ref) (es done_ : list ref) (s : session) : option (session * list ref) :=
  match es with
  | [] => Some (s, done_)
  | e :: es =>
      if decide (e ∈ done_) then disconnect_edges c es done_ s
      else
        s ← disconnectTerminal c e true s;
        s ← disconnectTerminal c e false s;
        disconnect_edges c es (e :: done_) s
  end.

Fixpoint remove_cells (cs done_ : list ref) (s : session) : option session :=
  match cs with
  | [] => Some s
  | c :: cs =>
      r ← disconnect_edges c (getAllEdges (hp (sdata s)) [c]) done_ s;
      remove_cells cs r.2 (remove cfg (Some c) r.1)
  end.

Definition cellsRemoved (cs : list ref) (s : session) : option session :=
  match cs with [] => Some s | _ => updating (remove_cells cs cs) s end.

(** [removeCells(cells, includeEdges)] *)
Definition removed_cells (h : heap) (cs : list ref) (includeEdges : bool) : list ref :=
  if includeEdges then getDeletableCells h (addAllEdges h cs)
  else cs ++ removeDuplicates cs (filter (λ e, drawn e = None) (getDeletableCells h (getAllEdges h cs))).

Definition removeCells (cs : list ref) (includeEdges : bool) (s : session) : option session :=
  updating (cellsRemoved (removed_cells (hp (sdata s)) cs includeEdges)) s.

End Graph.
End MxGraph.
