(* ===== verification/ReportGraph.v ===== *)
(** * The graph of a report

    report-graph.js: a graph is read from a text, the cells of the graph before are removed, the
    nodes and edges become cells of the graph model, and the hierarchical layout gives the
    vertices their places. *)

From Stdlib Require Import Ascii QArith.
From S2P Require Import Prelude Url MxGeometry MxCell MxModel MxUndo MxEditor MxOps.
From S2P Require Import Crossings Hierarchy Layout LayoutBuild LayoutTraverse LayoutRun MxLayout Coordinates CoordinateStage Placement Dot MxGraph.
Import Url MxGeometry MxCell MxModel MxUndo MxEditor MxOps MxGraph.
#[local] Open Scope nat_scope.

Module ReportGraph.

(** ** The graph of the page *)

(** Styles without the functions they name. *)
Definition createDefaultVertexStyle : cstyle :=
  list_to_map [("shape", SStr "rectangle"); ("verticalAlign", SStr "middle"); ("align", SStr "center");
    ("fillColor", SStr "#C3D9FF"); ("strokeColor", SStr "#6482B9"); ("fontColor", SStr "#774400")].
Definition createDefaultEdgeStyle : cstyle :=
  list_to_map [("shape", SStr "connector"); ("endArrow", SStr "classic"); ("verticalAlign", SStr "middle"); ("align", SStr "center");
    ("strokeColor", SStr "#6482B9"); ("fontColor", SStr "#446299")].

(** The changes of [_init]. *)
Definition vertexStyle : cstyle :=
  <["rounded" := SBool true]> (<["perimeterSpacing" := SNum 0]> (<["gradientColor" := SStr "white"]> createDefaultVertexStyle)).
Definition edgeStyle : cstyle := <["arcSize" := SNum 40]> (<["rounded" := SBool true]> createDefaultEdgeStyle).
Definition styles : gmap string cstyle := {[ "defaultVertex" := vertexStyle; "defaultEdge" := edgeStyle ]}.

(** The layout as [updateGraph] sets it up; its [levelDistance] is not a setting of this layout. *)
Definition layout_settings : Coordinates.settings := Coordinates.Settings 30 60 Coordinates.NORTH 0 10 true.
Definition interHierarchySpacing : Q := 60.
Definition traverseAncestors : bool := true.

Section Report.
(** What the browser and the view know (see MxGraph), the integers that stand for the numbers of
    the layout, the points the layout gives an edge, and the bounds of the drawing. *)
Context (getSizeForString : string → cstyle → Z * Z) (drawn : ref → option mxPoint) (view_point : ref → bool → option mxPoint).
Context (view_extent : list ref → option (Z * Z)) (round : Q → Z) (edge_points : ref → option (list (option mxPoint))).
Context (getGraphBounds : data → mxRectangle).

Abbreviation cfg := default_config.
Abbreviation named := (stylesheet_getCellStyle styles).
Abbreviation nested := 1.
Abbreviation getDefaultParent := (getDefaultParent None None).
Abbreviation insertVertex := (insertVertex cfg None None drawn nested).
Abbreviation insertEdge := (insertEdge cfg None None drawn nested).
Abbreviation removeCells := (removeCells cfg vertexStyle edgeStyle named drawn view_point nested).

(** [getPreferredSizeForCell] as [_init] replaces it. *)
Definition getPreferredSizeForCell (h : heap) (c : ref) : option (Z * Z) :=
  (λ r, (r.1 + 10, 30)%Z) <$> MxGraph.getPreferredSizeForCell vertexStyle edgeStyle named getSizeForString h c.
Abbreviation updateCellSize := (updateCellSize cfg None None vertexStyle edgeStyle named view_extent getPreferredSizeForCell).

(** ** The object *)

Record page := Page { sess : session; vertexMap : option (list (jstr * ref)); layer : ref }.

Definition vertexMap_get (m : list (jstr * ref)) (k : jstr) : option ref := snd <$> (snd <$> list_find (λ p, p.1 = k) m).

(** [new ReportGraph(container)] *)
Definition new_ReportGraph : option page :=
  let s := MxOps.clear cfg (Session (Data ∅ None None 0 0) 0 false createUndoableEdit []) in
  p ← getDefaultParent (sdata s); Some (Page s None p).

Definition clearGraph (p : page) : option page :=
  match vertexMap p with
  | None => Some p
  | Some m => s ← removeCells (map snd m) true (sess p); Some (Page s None (layer p))
  end.

(** The loops of [updateGraph]. *)
Fixpoint add_nodes (par : ref) (ns : list (jstr * jstr)) (m : list (jstr * ref)) (s : session) : option (session * list (jstr * ref)) :=
  match ns with
  | [] => Some (s, m)
  | (key, v) :: ns =>
      r ← insertVertex (Some par) None (Some (String.string_of_list_ascii v)) (Rect 0 0 80 30) None false s;
      s ← updateCellSize r.2 true r.1;
      add_nodes par ns (m ++ [(key, r.2)]) s
  end.

Fixpoint add_links (par : ref) (m : list (jstr * ref)) (ls : list (jstr * jstr)) (s : session) : option session :=
  match ls with
  | [] => Some s
  | (key, v) :: ls =>
      s ← match vertexMap_get m key, vertexMap_get m v with
          | Some v1, Some v2 => fst <$> insertEdge (Some par) None (Some EmptyString) (Some v1) (Some v2) None s
          | _, _ => Some s
          end;
      add_links par m ls s
  end.

(** The layout of the cells below the parent. *)
Definition size_in (h : heap) (v : ref) : option (Q * Q) :=
  (λ g, (inject_Z (rwidth (bounds g)), inject_Z (rheight (bounds g)))) <$> geometry (h !!! v).
Definition layout_fuel (V : list ref) : nat := 2 * length V * (2 * length V).
Definition places_of (par : ref) (d : data) : option (list (list (ref * (Q * Q)))) :=
  let V := MxLayout.descendants d (Some par) traverseAncestors in
  Placement.run_placed (MxLayout.graph d None (λ _, None) (Some par) traverseAncestors) layout_settings interHierarchySpacing (size_in (hp d))
    (S (length V)) (layout_fuel V) None V.

(** [setVertexLocation] of mxGraphLayout.js for a child of the parent that was not drawn yet. *)
Definition setVertexLocation (c : ref) (x y : Z) (s : session) : session :=
  match geometry (hp (sdata s) !!! c) with
  | Some geo => if decide (rx (bounds geo) ≠ x ∨ ry (bounds geo) ≠ y)
                then put_geometry cfg c geo (λ g, with_bounds (Rect x y (rwidth (bounds g)) (rheight (bounds g))) g) s else s
  | None => s
  end.
Definition place_vertices (ps : list (ref * (Q * Q))) (s : session) : session :=
  foldl (λ s p, setVertexLocation p.1 (round p.2.1) (round p.2.2) s) s ps.

(** What the layout does to an edge between two vertices: its style ([setEdgeStyleEnabled],
    [setOrthogonalEdge]) and its points ([setEdgePoints]). *)
Definition setEdgePoints (e : ref) (ps : option (list (option mxPoint))) (s : session) : session :=
  match geometry (hp (sdata s) !!! e) with
  | Some geo => put_geometry cfg e geo (with_points ps) s
  | None => let '(s, g) := new_geometry (λ r, with_points ps (with_relative true (new_mxGeometry r None None None None))) s in
            setGeometry cfg (Some e) (Some g) s
  end.
Definition draw_edge (s : session) (e : ref) : session :=
  let h := hp (sdata s) in
  if decide (getTerminal h e true ≠ getTerminal h e false) then
    setEdgePoints e (edge_points e) (setCellStyles cfg "orthogonal" (Some "1") e (setCellStyles cfg "noEdgeStyle" (Some "1") e s))
  else s.
Definition draw_edges (par : ref) (s : session) : session :=
  foldl draw_edge s (getChildCells (hp (sdata s)) par false true).

(** The size of the default parent after a drawing. *)
Definition framed (b : mxRectangle) : mxRectangle :=
  let '(x, w) := if (rx b <? 20)%Z then (20, rwidth b + 20 + 20)%Z else (rx b, rwidth b + 20)%Z in
  let '(y, e) := if (ry b <? 20)%Z then (20, rheight b + 20 + 20)%Z else (ry b, rheight b + 20)%Z in
  Rect x y w e.
Definition frame (s : session) : session :=
  let b := framed (getGraphBounds (sdata s)) in
  let '(s, g) := new_geometry (λ r, new_mxGeometry r (Some (rx b)) (Some (ry b)) (Some (rwidth b)) (Some (rheight b))) s in
  setGeometry cfg (getDefaultParent (sdata s)) (Some g) s.

Definition updateGraph (g : Dot.graph_data) (p : page) : option (page * list (list (ref * (Q * Q)))) :=
  p ← clearGraph p;
  let s := beginUpdate (sess p) in
  r ← add_nodes (layer p) (Dot.nodes g) [] s;
  s ← add_links (layer p) r.2 (Dot.links g) r.1;
  places ← places_of (layer p) (sdata s);
  let s := draw_edges (layer p) (place_vertices (concat places) (beginUpdate s)) in
  let s := endUpdate (endUpdate s) in
  Some (Page (frame s) (Some r.2) (layer p), places).

Definition fromDotData (content : jstr) (p : page) : option (page * list (list (ref * (Q * Q)))) :=
  updateGraph (Dot.fromDotData content) p.

End Report.
End ReportGraph.
