(* ===== verification/ReportCells.v ===== *)
(** * The cells of the graph of a report

    The shape of the graph model that the page of a report keeps: a root with one layer, in it
    the vertices of the nodes and then the edges of the links. Every operation of MxGraph that
    the page uses runs without error on such a model and has its effect on the shape. *)

From S2P Require Import Prelude Url MxGeometry MxCell MxModel MxUndo MxPath MxEditor MxOps MxHome MxGraph ReportGraph.
Import MxGeometry MxCell MxModel MxUndo MxEditor MxOps MxHome MxGraph ReportGraph.
#[local] Open Scope nat_scope.

Module ReportCells.

Abbreviation vertices := (list (ref * option string)).
Abbreviation lines := (list (ref * (option ref * option ref))).

Section Cells.
(** The root and the layer. *)
Context (r L : ref).

(** ** The shape *)

Definition styled_edge : option string := Some "noEdgeStyle=1;orthogonal=1;".
Definition edge_style (st : option string) : Prop := st = None ∨ st = styled_edge.

Definition has_geometry (h : heap) (c : ref) (rel : bool) : Prop := relative <$> geometry (h !!! c) = Some rel.

Record is_vertex (h : heap) (v : ref) (label : option string) : Prop := {
  iv_vertex : vertex (h !!! v) = true;
  iv_edge : edge (h !!! v) = false;
  iv_visible : visible (h !!! v) = true;
  iv_value : value (h !!! v) = label;
  iv_style : style (h !!! v) = None;
  iv_kids : kids h v = [];
  iv_geometry : has_geometry h v false
}.

Record is_edge (h : heap) (e : ref) (a b : option ref) : Prop := {
  ie_edge : edge (h !!! e) = true;
  ie_vertex : vertex (h !!! e) = false;
  ie_style : edge_style (style (h !!! e));
  ie_kids : kids h e = [];
  ie_geometry : has_geometry h e true;
  ie_source : getTerminal h e true = a;
  ie_target : getTerminal h e false = b
}.

(** The vertices with their labels, the edges with the terminals they have so far. *)
Record drawing (d : data) (vs : vertices) (es : lines) : Prop := {
  dg_wf : wf (hp d);
  dg_root : root d = Some r;
  dg_top : parent (hp d !!! r) = None;
  dg_layers : kids (hp d) r = [L];
  dg_kids : kids (hp d) L = vs.*1 ++ es.*1;
  dg_vertex : ∀ v label, (v, label) ∈ vs → is_vertex (hp d) v label;
  dg_edge : ∀ e a b, (e, (a, b)) ∈ es → is_edge (hp d) e a b ∧ ∀ t, a = Some t ∨ b = Some t → t ∈ vs.*1;
  dg_listed : ∀ u e, e ∈ eds (hp d) u ↔ ∃ a b, (e, (a, b)) ∈ es ∧ (a = Some u ∨ b = Some u);
  dg_plain : ∀ x, collapsed (hp d !!! x) = false;
  dg_bare : ∀ x, x = r ∨ x = L → vertex (hp d !!! x) = false ∧ edge (hp d !!! x) = false ∧ visible (hp d !!! x) = true;
  dg_frame : geometry (hp d !!! r) = None;
  dg_area : ∀ g, geometry (hp d !!! L) = Some g → relative g = false
}.

Section Facts.
Context (d : data) (vs : vertices) (es : lines) (HD : drawing d vs es).
Abbreviation h := (hp d).

Lemma layer_parent : parent (h !!! L) = Some r.
Proof. apply (tree_parent _ (wf_tree _ (dg_wf _ _ _ HD))). rewrite (dg_layers _ _ _ HD). left. Qed.
Lemma root_layer : r ≠ L.
Proof. intros E. pose proof layer_parent as H. rewrite <-E, (dg_top _ _ _ HD) in H. done. Qed.
Lemma in_layer c : c ∈ vs.*1 ++ es.*1 ↔ parent (h !!! c) = Some L.
Proof. rewrite <-(tree_parent _ (wf_tree _ (dg_wf _ _ _ HD))). by rewrite (dg_kids _ _ _ HD). Qed.
Lemma vertex_parent v : v ∈ vs.*1 → parent (h !!! v) = Some L.
Proof. intros Hv. apply in_layer, elem_of_app. by left. Qed.
Lemma edge_parent e : e ∈ es.*1 → parent (h !!! e) = Some L.
Proof. intros He. apply in_layer, elem_of_app. by right. Qed.
Lemma cells_nodup : NoDup (vs.*1 ++ es.*1).
Proof. rewrite <-(dg_kids _ _ _ HD). apply (tree_nodup _ (wf_tree _ (dg_wf _ _ _ HD))). Qed.
Lemma not_bare c : parent (h !!! c) = Some L → c ≠ r ∧ c ≠ L.
Proof.
  intros Hc. split; intros ->; [by rewrite (dg_top _ _ _ HD) in Hc|]. rewrite layer_parent in Hc. injection Hc. apply root_layer.
Qed.
Lemma default_parent : MxGraph.getDefaultParent None None d = Some L.
Proof.
  unfold MxGraph.getDefaultParent. rewrite (dg_root _ _ _ HD). cbn [mbind option_bind]. unfold getChildAt. pose proof (dg_layers _ _ _ HD) as H.
  unfold kids in H. destruct (children (h !!! r)) as [l|]; simpl in H; [by subst|done].
Qed.
End Facts.

(** ** Changes of the look *)

(** Only geometries and styles changed: of the layer any that is not relative, elsewhere not
    whether it is relative; styles of edges only to that of the layout. *)
Record relook (h h' : heap) : Prop := {
  rl_cell : ∀ x, h' !!! x = set_style (style (h' !!! x)) (set_geometry (geometry (h' !!! x)) (h !!! x));
  rl_geometry : ∀ x, x ≠ L → relative <$> geometry (h' !!! x) = relative <$> geometry (h !!! x);
  rl_layer : (∀ g, geometry (h !!! L) = Some g → relative g = false) → ∀ g, geometry (h' !!! L) = Some g → relative g = false;
  rl_style : ∀ x, style (h' !!! x) = style (h !!! x) ∨ (edge (h !!! x) = true ∧ (edge_style (style (h !!! x)) → edge_style (style (h' !!! x))))
}.

#[global] Instance relook_preorder : PreOrder relook.
Proof.
  split.
  - intros h. split; [intros x; by destruct (h !!! x)|done|done|by left].
  - intros h1 h2 h3 [C1 G1 L1 S1] [C2 G2 L2 S2]. split.
    + intros x. rewrite C2. rewrite (C1 x) at 1. by destruct (h1 !!! x).
    + intros x Hx. by rewrite G2, G1.
    + intros H. by apply L2, L1.
    + intros x. assert (edge (h2 !!! x) = edge (h1 !!! x)) as E by (rewrite (C1 x); by destruct (h1 !!! x)).
      destruct (S1 x) as [E1|[He1 H1]], (S2 x) as [E2|[He2 H2]].
      * left. congruence.
      * right. rewrite E in He2. split; [done|]. rewrite <-E1. done.
      * right. split; [done|]. by rewrite E2.
      * right. split; [done|]. auto.
Qed.

Lemma relook_fields h h' x : relook h h' →
  vertex (h' !!! x) = vertex (h !!! x) ∧ edge (h' !!! x) = edge (h !!! x) ∧ visible (h' !!! x) = visible (h !!! x) ∧
  collapsed (h' !!! x) = collapsed (h !!! x) ∧ value (h' !!! x) = value (h !!! x) ∧ parent (h' !!! x) = parent (h !!! x) ∧
  kids h' x = kids h x ∧ eds h' x = eds h x ∧ ∀ b, getTerminal h' x b = getTerminal h x b.
Proof.
  intros Hr. unfold kids, eds, getTerminal. rewrite (rl_cell _ _ Hr x). destruct (h !!! x). simpl. by split_and!.
Qed.

Lemma relook_wf h h' : relook h h' → wf h → wf h'.
Proof.
  intros Hr [H1 H2 H3]. assert (same_tree h h') as Ht.
  { intros x. rewrite (rl_cell _ _ Hr x). by destruct (h !!! x). }
  split; [by eapply same_tree_ok|by eapply same_tree_acyclic|].
  eapply same_edges_sound; [|exact H3]. intros x. rewrite (rl_cell _ _ Hr x). by destruct (h !!! x).
Qed.

Lemma relook_vertex h h' v l : relook h h' → v ≠ L → is_vertex h v l → is_vertex h' v l.
Proof.
  intros Hr Hv [Iv Ie Is Il It Ik Ig]. destruct (relook_fields h h' v Hr) as (E1 & E2 & E3 & _ & E4 & _ & E5 & _).
  split; try congruence.
  - destruct (rl_style _ _ Hr v) as [E|[E _]]; congruence.
  - unfold has_geometry. by rewrite (rl_geometry _ _ Hr).
Qed.

Lemma relook_edge h h' e a b : relook h h' → e ≠ L → is_edge h e a b → is_edge h' e a b.
Proof.
  intros Hr He [Ie Iv Is Ik Ig It Ia]. destruct (relook_fields h h' e Hr) as (E1 & E2 & _ & _ & _ & _ & E5 & _ & E6).
  split; try congruence.
  - destruct (rl_style _ _ Hr e) as [E|[_ E]]; [by rewrite E|auto].
  - unfold has_geometry. by rewrite (rl_geometry _ _ Hr).
Qed.

Lemma drawing_relook d d' vs es : drawing d vs es → relook (hp d) (hp d') → root d' = root d → drawing d' vs es.
Proof.
  intros HD Hr Er. pose proof HD as [Dw Dr Dt Dl Dk Dv De Di Dp Db Df Da].
  assert (∀ c, c ∈ vs.*1 ++ es.*1 → c ≠ L) as Hne by (intros c Hc; by eapply (not_bare d vs es HD), in_layer).
  split; try (by rewrite ?Er); try (intros x; destruct (relook_fields _ _ x Hr) as (E1 & E2 & E3 & E4 & E5 & E6 & E7 & E8 & E9)).
  - by eapply relook_wf.
  - by destruct (relook_fields _ _ r Hr) as (_ & _ & _ & _ & _ & -> & _).
  - by destruct (relook_fields _ _ r Hr) as (_ & _ & _ & _ & _ & _ & -> & _).
  - by destruct (relook_fields _ _ L Hr) as (_ & _ & _ & _ & _ & _ & -> & _).
  - intros l Hx. eapply relook_vertex; [done| |by apply Dv]. apply Hne, elem_of_app. left. by apply (list_elem_of_fmap_2 fst _ (x, l)).
  - intros a b Hx. destruct (De _ _ _ Hx) as (Hi & Ha). split; [|done]. eapply relook_edge; [done| |done].
    apply Hne, elem_of_app. right. by apply (list_elem_of_fmap_2 fst _ (x, (a, b))).
  - intros e. rewrite E8. apply Di.
  - by rewrite E4.
  - rewrite E1, E2, E3. apply Db.
  - pose proof (rl_geometry _ _ Hr r (root_layer d vs es HD)) as H. rewrite Df in H. by destruct (geometry (hp d' !!! r)).
  - apply (rl_layer _ _ Hr). done.
Qed.

(** ** Operations that change the look *)

Abbreviation cfg := default_config.
Abbreviation nested := 1.
Definition looks (s s' : session) : Prop := relook (hp (sdata s)) (hp (sdata s')) ∧ root (sdata s') = root (sdata s).
#[global] Instance looks_preorder : PreOrder looks.
Proof. split; [by split|]. intros s1 s2 s3 [H1 E1] [H2 E2]. split; [by etrans|congruence]. Qed.

Lemma drawing_looks s s' vs es : drawing (sdata s) vs es → looks s s' → drawing (sdata s') vs es.
Proof. intros HD [Hr E]. by eapply drawing_relook. Qed.
Lemma looks_data s s' : sdata s' = sdata s → looks s s'.
Proof. intros E. split; by rewrite E. Qed.
Lemma beginUpdate_data s : sdata (beginUpdate s) = sdata s.
Proof. apply beginUpdate_inside. Qed.

Lemma updating_looks f s : (∀ s1, sdata s1 = sdata s → ∃ s2, f s1 = Some s2 ∧ looks s1 s2) → ∃ s', updating f s = Some s' ∧ looks s s'.
Proof.
  intros Hf. destruct (Hf (beginUpdate s) (beginUpdate_data s)) as (s2 & E & Hl). exists (endUpdate s2). unfold updating. rewrite E.
  split; [done|]. etrans; [apply looks_data, beginUpdate_data|]. etrans; [exact Hl|]. apply looks_data, endUpdate_data.
Qed.

Lemma relook_geometry h c g : (c ≠ L → Some (relative g) = relative <$> geometry (h !!! c)) → (c = L → relative g = false) →
  relook h (upd c (set_geometry (Some g)) h).
Proof.
  intros Hc HL. split.
  - intros x. rewrite upd_lookup. case_decide as E; [rewrite E; by destruct (h !!! c)|by destruct (h !!! x)].
  - intros x Hx. rewrite upd_lookup. case_decide as E; [|done]. rewrite E in *. simpl. by rewrite Hc.
  - intros H g'. rewrite upd_lookup. case_decide as E; [|apply H]. simpl. intros [= <-]. by apply HL.
  - intros x. left. rewrite upd_lookup. case_decide as E; [by rewrite E|done].
Qed.

Lemma setGeometry_looks c g s : (c ≠ L → Some (relative g) = relative <$> geometry (hp (sdata s) !!! c)) → (c = L → relative g = false) →
  looks s (setGeometry cfg (Some c) (Some g) s).
Proof.
  intros Hc HL. unfold setGeometry. case_decide; [|done]. unfold looks. rewrite execute_data. simpl. split; [|done]. by apply relook_geometry.
Qed.

Lemma put_geometry_looks c geo f s : geometry (hp (sdata s) !!! c) = Some geo → (∀ g, relative (f g) = relative g) → (c = L → relative geo = false) →
  looks s (put_geometry cfg c geo f s).
Proof.
  intros Hg Hf HL. unfold put_geometry, new_geometry. etrans; [|apply setGeometry_looks].
  - by split.
  - intros _. cbn [sdata hp set_sdata]. rewrite Hg, Hf. done.
  - intros E. rewrite Hf. by apply HL.
Qed.

Abbreviation constrainChild := (MxGraph.constrainChild None None).
Lemma constrain_ok s vs es c : drawing (sdata s) vs es → parent (hp (sdata s) !!! c) = Some L ∨ c = L → constrainChild c s = Some s.
Proof.
  intros HD Hc. unfold MxGraph.constrainChild. destruct (geometry (hp (sdata s) !!! c)) as [geo|]; [|done].
  assert (getCellContainmentArea None None (sdata s) c = None) as E; [|by rewrite E; repeat case_match].
  unfold getCellContainmentArea. destruct (edge (hp (sdata s) !!! c)); [done|]. rewrite (default_parent _ _ _ HD).
  destruct Hc as [->| ->]; [by rewrite decide_True|]. rewrite (layer_parent _ _ _ HD).
  rewrite decide_False by (injection 1; apply (root_layer _ _ _ HD)). by rewrite (dg_frame _ _ _ HD).
Qed.

Lemma constrain_all_ok s vs es cs : drawing (sdata s) vs es → (∀ c, c ∈ cs → parent (hp (sdata s) !!! c) = Some L) →
  constrain_all None None cs s = Some s.
Proof.
  intros HD Hcs. induction cs as [|c cs IH]; [done|]. cbn [constrain_all]. rewrite (constrain_ok s vs es) by (done || left; apply Hcs; left).
  cbn [mbind option_bind]. apply IH. intros x Hx. apply Hcs. by right.
Qed.

(** A vertex or the layer. *)
Definition resizable (vs : vertices) (c : ref) : Prop := c ∈ vs.*1 ∨ c = L.

Lemma cellResized_ok s vs es c b : drawing (sdata s) vs es → resizable vs c → ∃ s', cellResized cfg None None c b s = Some s' ∧ looks s s'.
Proof.
  intros HD Hc. unfold cellResized. destruct (geometry (hp (sdata s) !!! c)) as [prev|] eqn:Eg; [|by exists s].
  case_decide; [|by exists s]. apply updating_looks. intros s1 E1. rewrite <-E1 in HD, Eg.
  match goal with |- context [put_geometry cfg c prev ?f s1] => assert (looks s1 (put_geometry cfg c prev f s1)) as Hl; [|set (s2 := put_geometry cfg c prev f s1) in *] end.
  { apply put_geometry_looks; [done|by intros g; case_match|]. intros ->. by apply (dg_area _ _ _ HD). }
  exists s2. split; [|done]. pose proof (drawing_looks _ _ _ _ HD Hl) as HD2. apply (constrain_all_ok s2 vs es); [done|].
  intros x Hx. destruct Hc as [([v l] & -> & Hv)%list_elem_of_fmap| ->].
  - cbn [fst] in Hx. rewrite (iv_kids _ _ _ (dg_vertex _ _ _ HD2 v l Hv)) in Hx. by apply not_elem_of_nil in Hx.
  - by apply (tree_parent _ (wf_tree _ (dg_wf _ _ _ HD2))).
Qed.

Abbreviation cellsResized := (MxGraph.cellsResized cfg None None).

Lemma layerResized_ok s vs es b k : drawing (sdata s) vs es → ∃ s', cellsResized (S k) L b s = Some s' ∧ looks s s'.
Proof.
  intros HD. cbn [MxGraph.cellsResized]. apply updating_looks. intros s1 E1. rewrite <-E1 in HD.
  destruct (cellResized_ok s1 vs es L b HD) as (s2 & E2 & Hl); [by right|]. rewrite E2. cbn [mbind option_bind].
  pose proof (drawing_looks _ _ _ _ HD Hl) as HD2.
  assert (extendParent (cellsResized k) L s2 = Some s2) as Ex.
  { unfold extendParent. by rewrite (layer_parent _ _ _ HD2), (dg_frame _ _ _ HD2). }
  exists s2. split; [|done]. rewrite Ex. destruct (isExtendParent _ _); cbn [mbind option_bind]; apply (constrain_ok s2 vs es); auto.
Qed.

Lemma extendParent_ok s vs es c k : drawing (sdata s) vs es → parent (hp (sdata s) !!! c) = Some L →
  ∃ s', extendParent (cellsResized (S k)) c s = Some s' ∧ looks s s'.
Proof.
  intros HD Hc. unfold extendParent. rewrite Hc. destruct (geometry (hp (sdata s) !!! L)) as [p|]; [|by exists s].
  destruct (geometry (hp (sdata s) !!! c)) as [geo|]; [|by exists s]. case_match; [|by exists s]. by eapply layerResized_ok.
Qed.

Lemma vertexResized_ok s vs es v b k : drawing (sdata s) vs es → v ∈ vs.*1 → ∃ s', cellsResized (S (S k)) v b s = Some s' ∧ looks s s'.
Proof.
  intros HD Hv. remember (S k) as k' eqn:Ek. cbn [MxGraph.cellsResized]. apply updating_looks. intros s1 E1. rewrite <-E1 in HD.
  destruct (cellResized_ok s1 vs es v b HD) as (s2 & E2 & Hl2); [by left|]. rewrite E2. cbn [mbind option_bind].
  pose proof (drawing_looks _ _ _ _ HD Hl2) as HD2. pose proof (vertex_parent _ _ _ HD2 v Hv) as Hp. subst k'.
  destruct (extendParent_ok s2 vs es v k HD2 Hp) as (s3 & E3 & Hl3).
  assert (∃ s4, (if isExtendParent (hp (sdata s2)) v then extendParent (cellsResized (S k)) v s2 else Some s2) = Some s4 ∧ looks s2 s4) as (s4 & E4 & Hl4).
  { destruct (isExtendParent _ _); [by exists s3|by exists s2]. }
  rewrite E4. cbn [mbind option_bind]. pose proof (drawing_looks _ _ _ _ HD2 Hl4) as HD4. exists s4. split; [|by etrans].
  apply (constrain_ok s4 vs es); [done|]. left. by apply (vertex_parent _ _ _ HD4).
Qed.

(** ** New cells *)

(** A cell as [createVertex] and [createEdge] make it. *)
Definition unconnected (x : mxCell) : Prop :=
  parent x = None ∧ children x = None ∧ edges x = None ∧ source x = None ∧ target x = None ∧ collapsed x = false.

Record allocated (d d' : data) (c : ref) (x : mxCell) : Prop := {
  al_heap : hp d' = <[c := x]> (hp d);
  al_fresh : c ∉ dom (hp d);
  al_root : root d' = root d;
  al_cell : unconnected x
}.

Section Allocate.
Context (d d' : data) (c : ref) (x : mxCell) (vs : vertices) (es : lines) (HD : drawing d vs es) (HA : allocated d d' c x).

Lemma allocated_same y : y ≠ c → hp d' !!! y = hp d !!! y.
Proof. intros Hy. rewrite (al_heap _ _ _ _ HA). by rewrite lookup_total_insert_ne. Qed.
Lemma allocated_new : hp d' !!! c = x.
Proof. rewrite (al_heap _ _ _ _ HA). apply lookup_total_insert_eq. Qed.
Lemma allocated_old : hp d !!! c = new_mxCell None None None.
Proof. apply no_cell, not_elem_of_dom, (al_fresh _ _ _ _ HA). Qed.
Lemma allocated_frame : same_tree (hp d) (hp d') ∧ same_edges (hp d) (hp d').
Proof.
  destruct (al_cell _ _ _ _ HA) as (Hp & Hc & He & Hs & Ht & _). split; intros y; (destruct (decide (y = c)) as [E|Hy];
    [rewrite E, allocated_new, allocated_old; simpl; by rewrite ?Hp, ?Hc, ?He, ?Hs, ?Ht|by rewrite allocated_same]).
Qed.
Lemma allocated_outside : parent (hp d !!! c) = None ∧ c ≠ L ∧ c ≠ r.
Proof.
  rewrite allocated_old. split_and!; [done|..]; intros E.
  - pose proof (layer_parent _ _ _ HD) as H. by rewrite <-E, allocated_old in H.
  - pose proof (dg_layers _ _ _ HD) as H. unfold kids in H. by rewrite <-E, allocated_old in H.
Qed.
Lemma allocated_others y : parent (hp d !!! y) = Some L → y ≠ c.
Proof. intros Hy E. destruct allocated_outside as [H _]. rewrite E in Hy. congruence. Qed.

Lemma allocated_drawing : drawing d' vs es.
Proof.
  destruct allocated_frame as [Ht He], allocated_outside as (_ & HL & Hr). destruct (same_edges_eds _ _ He) as [E1 E2].
  pose proof HD as [[W1 W2 W3] Dr Dt Dl Dk Dv De Di Dp Db Df Da]. split.
  - split; [by eapply same_tree_ok|by eapply same_tree_acyclic|by eapply same_edges_sound].
  - by rewrite (al_root _ _ _ _ HA).
  - by rewrite allocated_same.
  - by rewrite (same_tree_kids _ _ r Ht).
  - by rewrite (same_tree_kids _ _ L Ht).
  - intros v l Hv. assert (v ≠ c) as Hvc by (apply allocated_others, (vertex_parent _ _ _ HD), (list_elem_of_fmap_2 fst _ _ Hv)).
    destruct (Dv v l Hv) as [Iv Ie Is Il It Ik Ig]. split; unfold has_geometry; rewrite ?allocated_same, ?(same_tree_kids _ _ v Ht); done.
  - intros e a b Hab. assert (e ≠ c) as Hec by (apply allocated_others, (edge_parent _ _ _ HD), (list_elem_of_fmap_2 fst _ _ Hab)).
    destruct (De e a b Hab) as [[Ie Iv Is Ik Ig It Ia] H]. split; [|done].
    split; unfold has_geometry; rewrite ?allocated_same, ?(same_tree_kids _ _ e Ht), ?E2; done.
  - intros u e. by rewrite E1.
  - intros y. destruct (decide (y = c)) as [E|Hy]; [rewrite E, allocated_new; apply (al_cell _ _ _ _ HA)|by rewrite allocated_same].
  - intros y Hy. rewrite allocated_same; [by apply Db|]. destruct Hy; congruence.
  - by rewrite allocated_same.
  - by rewrite allocated_same.
Qed.
End Allocate.

(** ** Adding a cell to the layer *)

Lemma splice_end {A} (l : list A) (c : A) : js_splice l (Z.of_nat (length l)) 0 [c] = l ++ [c].
Proof. unfold js_splice. by rewrite splice_pos_of_nat, firstn_all, Nat.add_0_r, drop_all by lia. Qed.

Lemma leaf_ancestor h c e : wf h → kids h c = [] → ancestor h c e → e = c.
Proof.
  intros Hw Hk Ha. apply rtc_inv_r in Ha as [->|(y & _ & Hy)]; [done|]. apply (tree_parent _ (wf_tree _ Hw)) in Hy.
  rewrite Hk in Hy. by apply not_elem_of_nil in Hy.
Qed.

(** The heap with one more cell in the layer. *)
Record grown (h h' : heap) (c : ref) : Prop := {
  gr_wf : wf h';
  gr_layer : kids h' L = kids h L ++ [c];
  gr_kids : ∀ x, x ≠ L → kids h' x = kids h x;
  gr_attrs : same_attrs h h';
  gr_terminal : ∀ x b, getTerminal h' x b = getTerminal h x b;
  gr_eds : ∀ u e, e ∈ eds h' u ↔ e ∈ eds h u;
  gr_top : parent (h' !!! r) = parent (h !!! r)
}.

Lemma no_terminals h c u : wf h → (∀ b, getTerminal h c b = None) → c ∉ eds h u.
Proof. intros Hw Ht Hc. apply (edges_incident _ (wf_edges _ Hw)) in Hc as [b Hb]. by rewrite Ht in Hb. Qed.

Lemma add_leaf s vs es c n : drawing (sdata s) vs es → parent (hp (sdata s) !!! c) = None → c ≠ L → c ≠ r → kids (hp (sdata s)) c = [] →
  eds (hp (sdata s)) c = [] → (∀ b, getTerminal (hp (sdata s)) c b = None) →
  ∃ s', MxOps.add cfg (S n) (Some L) (Some c) (Some (Z.of_nat (getChildCount (hp (sdata s)) L))) s = Some s' ∧
    grown (hp (sdata s)) (hp (sdata s')) c ∧ root (sdata s') = root (sdata s).
Proof.
  intros HD Hp HL Hr Hk He Ht. set (h := hp (sdata s)) in *. pose proof (dg_wf _ _ _ HD) as Hw. fold h in Hw.
  set (i := Z.of_nat (getChildCount h L)). assert (∀ x, c ∉ kids h x) as Hno.
  { intros x Hx. apply (tree_parent _ (wf_tree _ Hw)) in Hx. congruence. }
  assert (¬ ancestor h c L) as Hnc.
  { intros Ha. inversion Ha as [|? y ? Hy Ha']; subst; [done|]. unfold step_up in Hy. unfold h in Hy. rewrite (layer_parent _ _ _ HD) in Hy. injection Hy as <-.
    inversion Ha' as [|? z ? Hz]; subst; [done|]. unfold step_up, h in Hz. by rewrite (dg_top _ _ _ HD) in Hz. }
  rewrite (add_update cfg L c (Some i) s n); [|done|fold h; by rewrite Hp|done].
  destruct (execute_child_spec cfg (sdata s) (Some L) c (Some i) Hw) as (Hcm & Hroot & _); [by intros q [= <-]|].
  assert (sdata (added cfg L c (Some i) s) = (execute_child cfg (sdata s) (Some L) c (Some i)).1) as Ed by apply execute_data.
  set (s' := added cfg L c (Some i) s) in *. rewrite <-Ed in Hcm, Hroot. fold h in Hcm.
  assert (∀ x, filter (.≠ c) (kids h x) = kids h x) as Hf by (intros x; apply filter_ne_id, Hno).
  assert (∀ u e, e ∈ eds (hp (sdata s')) u ↔ e ∈ eds h u) as Heds.
  { intros u e. destruct (decide (e = c)) as [->|Hec]; [|apply (cm_out _ _ _ _ _ Hcm); intros Ha; by apply Hec, (leaf_ancestor h)].
    split; intros H; exfalso; revert H; [apply no_terminals; [apply Hcm|]|by apply no_terminals].
    intros b. rewrite (cm_terminal _ _ _ _ _ Hcm). apply Ht. }
  exists s'. rewrite leaf_update.
  - split_and!; [done| |done]. split; try apply Hcm; [|..].
    + rewrite (cm_kids _ _ _ _ _ Hcm), decide_True, Hf by done. cbn [insert_index]. unfold i. rewrite getChildCount_kids. apply splice_end.
    + intros x Hx. rewrite (cm_kids _ _ _ _ _ Hcm), decide_False by congruence. apply Hf.
    + done.
    + rewrite (cm_parent _ _ _ _ _ Hcm). by rewrite decide_False.
  - rewrite (cm_kids _ _ _ _ _ Hcm), decide_False by congruence. by rewrite Hf.
  - destruct (eds (hp (sdata s')) c) as [|e l] eqn:E; [done|]. assert (e ∈ eds h c) as H by (apply Heds; rewrite E; left).
    rewrite He in H. by apply not_elem_of_nil in H.
Qed.

(** What becomes of the cells of the drawing. *)
Lemma grown_fields h h' c x : grown h h' c → x ≠ L →
  vertex (h' !!! x) = vertex (h !!! x) ∧ edge (h' !!! x) = edge (h !!! x) ∧ visible (h' !!! x) = visible (h !!! x) ∧
  collapsed (h' !!! x) = collapsed (h !!! x) ∧ value (h' !!! x) = value (h !!! x) ∧ style (h' !!! x) = style (h !!! x) ∧
  geometry (h' !!! x) = geometry (h !!! x) ∧ kids h' x = kids h x.
Proof. intros Hg Hx. pose proof (gr_attrs _ _ _ Hg x) as Ha. unfold attrs in Ha. simplify_eq. split_and!; try done. by apply (gr_kids _ _ _ Hg). Qed.

Lemma grown_vertex h h' c v l : grown h h' c → v ≠ L → is_vertex h v l → is_vertex h' v l.
Proof.
  intros Hg Hv [Iv Ie Is Il It Ik Ig]. destruct (grown_fields h h' c v Hg Hv) as (E1 & E2 & E3 & E4 & E5 & E6 & E7 & E8).
  split; unfold has_geometry; rewrite ?E7; congruence || done.
Qed.
Lemma grown_edge h h' c e a b : grown h h' c → e ≠ L → is_edge h e a b → is_edge h' e a b.
Proof.
  intros Hg He [Ie Iv Is Ik Ig It Ia]. destruct (grown_fields h h' c e Hg He) as (E1 & E2 & E3 & E4 & E5 & E6 & E7 & E8).
  split; unfold has_geometry; rewrite ?E6, ?E7, ?(gr_terminal _ _ _ Hg); congruence || done.
Qed.

Lemma grown_attr {A} (f : mxCell → A) h h' c x : (∀ y z, attrs y = attrs z → f y = f z) → grown h h' c → f (h' !!! x) = f (h !!! x).
Proof. intros Hf Hg. apply Hf, (gr_attrs _ _ _ Hg). Qed.

Lemma drawing_grown d d' vs es vs' es' c : drawing d vs es → grown (hp d) (hp d') c → root d' = root d →
  vs'.*1 ++ es'.*1 = (vs.*1 ++ es.*1) ++ [c] →
  (∀ v l, (v, l) ∈ vs' → (v, l) ∈ vs ∨ (v = c ∧ is_vertex (hp d') c l)) →
  (∀ e a b, (e, (a, b)) ∈ es' ↔ (e, (a, b)) ∈ es ∨ (e = c ∧ a = None ∧ b = None ∧ c ∈ es'.*1)) → (c ∈ es'.*1 → is_edge (hp d') c None None) →
  vs.*1 ⊆ vs'.*1 → drawing d' vs' es'.
Proof.
  intros HD Hg Hroot Hcs Hvs Hes Hc Hsub. pose proof HD as [Dw Dr Dt Dl Dk Dv De Di Dp Db Df Da].
  assert (∀ x, parent (hp d !!! x) = Some L → x ≠ L) as HnL by (intros x Hx; by apply (not_bare _ _ _ HD x)).
  assert (r ≠ L) as HrL by apply (root_layer _ _ _ HD).
  split.
  - apply Hg.
  - by rewrite Hroot.
  - by rewrite (gr_top _ _ _ Hg).
  - by rewrite (gr_kids _ _ _ Hg).
  - by rewrite (gr_layer _ _ _ Hg), Dk.
  - intros v l [Hv|[-> Hv]]%Hvs; [|done]. eapply grown_vertex; [exact Hg| |by apply Dv].
    apply HnL, (vertex_parent _ _ _ HD), (list_elem_of_fmap_2 fst _ _ Hv).
  - intros e a b Hab. apply Hes in Hab as [Hab|(-> & -> & -> & Hin)]; [|split; [by apply Hc|by intros t [|]]].
    destruct (De e a b Hab) as [Hi Ht]. split; [|intros t Htt; by apply Hsub, Ht]. eapply grown_edge; [exact Hg| |done].
    apply HnL, (edge_parent _ _ _ HD), (list_elem_of_fmap_2 fst _ _ Hab).
  - intros u e. rewrite (gr_eds _ _ _ Hg), Di. setoid_rewrite Hes. naive_solver.
  - intros x. rewrite (grown_attr collapsed (hp d) _ c) by (done || intros [] []; unfold attrs; simpl; intros; by simplify_eq). apply Dp.
  - intros x Hx. pose proof (gr_attrs _ _ _ Hg x) as Ha. unfold attrs in Ha. destruct (Db x Hx) as (? & ? & ?). split_and!; congruence.
  - pose proof (gr_attrs _ _ _ Hg r) as Ha. unfold attrs in Ha. congruence.
  - pose proof (gr_attrs _ _ _ Hg L) as Ha. unfold attrs in Ha. assert (geometry (hp d' !!! L) = geometry (hp d !!! L)) as -> by congruence. exact Da.
Qed.

(** ** Connecting an edge *)

Definition end_of (p : option ref * option ref) (b : bool) : option ref := if b then p.1 else p.2.
Definition set_end (p : option ref * option ref) (t : option ref) (b : bool) : option ref * option ref := if b then (t, p.2) else (p.1, t).

Lemma edge_terminal d vs es e p b : drawing d vs es → (e, p) ∈ es → getTerminal (hp d) e b = end_of p b.
Proof.
  intros HD He. destruct p as [x y]. destruct (dg_edge _ _ _ HD e x y He) as [Hi _]. destruct b; [apply (ie_source _ _ _ _ Hi)|apply (ie_target _ _ _ _ Hi)].
Qed.

Lemma vertex_of d vs es v : drawing d vs es → v ∈ vs.*1 → ∃ l, is_vertex (hp d) v l.
Proof. intros HD ([v' l] & -> & Hv)%list_elem_of_fmap. exists l. by apply (dg_vertex _ _ _ HD). Qed.

Lemma above_vertex d vs es v : drawing d vs es → v ∈ vs.*1 → ancestor (hp d) L v ∧ ancestor (hp d) r v.
Proof.
  intros HD Hv. pose proof (vertex_parent _ _ _ HD v Hv) as Hp. pose proof (layer_parent _ _ _ HD) as Hl.
  split; [by apply rtc_once|]. eapply rtc_l; [exact Hp|]. by apply rtc_once.
Qed.

Lemma home_is_layer d vs es e a b : drawing d vs es → (e, (Some a, Some b)) ∈ es → edge_home cfg (hp d) e (Some r) = Some L.
Proof.
  intros HD He. pose proof (dg_wf _ _ _ HD) as [Wt Wa We]. destruct (dg_edge _ _ _ HD _ _ _ He) as [_ Hv].
  assert (a ∈ vs.*1) as Ha by (apply Hv; by left). assert (b ∈ vs.*1) as Hb by (apply Hv; by right).
  assert (∀ v, v ∈ vs.*1 → skip_relative (fuel (hp d)) (hp d) (Some v) = Some v) as Hs.
  { intros v Hvv. destruct (vertex_of _ _ _ v HD Hvv) as [l Hi]. unfold fuel. cbn [skip_relative]. unfold is_relative.
    pose proof (iv_geometry _ _ _ Hi) as Hg. unfold has_geometry in Hg. destruct (geometry (hp d !!! v)) as [g|]; [|done].
    cbn in Hg. injection Hg as ->. by rewrite andb_false_r. }
  assert (∀ v, v ∈ vs.*1 → isAncestor (hp d) (Some r) (Some v) = true) as Hr.
  { intros v Hvv. apply (isAncestor_spec (hp d) r v Wa). by apply (above_vertex _ _ _ v HD). }
  unfold edge_home. rewrite !(edge_terminal _ _ _ e _ _ HD He). cbn [end_of fst snd ignoreRelativeEdgeParent cfg]. rewrite (Hs a Ha), (Hs b Hb), (Hr a Ha), (Hr b Hb).
  cbn [andb]. case_decide as Hab.
  - injection Hab as ->. unfold getParent. cbn. by apply (vertex_parent _ _ _ HD).
  - rewrite (MxPath.nca_lowest (hp d) r a b L); try done; try (by apply (above_vertex _ _ _ _ HD)); [..|].
    + rewrite decide_False; [done|]. by rewrite (layer_parent _ _ _ HD).
    + by apply (dg_top _ _ _ HD).
    + congruence.
    + apply rtc_once, (layer_parent _ _ _ HD).
    + intros x Hxa Hxb. apply rtc_inv in Hxa as [E|(y & Hy & Hyx)].
      * destruct (vertex_of _ _ _ _ HD Ha) as [l Hi]. exfalso. apply Hab. f_equal. symmetry.
        apply (leaf_ancestor (hp d)); [apply HD|apply Hi|by rewrite E].
      * unfold step_up in Hy. rewrite (vertex_parent _ _ _ HD a Ha) in Hy. by injection Hy as <-.
Qed.

Lemma drawing_connected d d' vs es e p t b : drawing d vs (es ++ [(e, p)]) → end_of p b = None → t ∈ vs.*1 →
  terminal_set e (Some t) b (hp d) (hp d') → root d' = root d → drawing d' vs (es ++ [(e, set_end p (Some t) b)]).
Proof.
  intros HD Hp Ht [Tt Ta Tg Ts Te] Hroot. pose proof HD as [[W1 W2 W3] Dr Dt Dl Dk Dv De Di Dp Db Df Da].
  assert (e ∉ es.*1) as Hnew.
  { pose proof (cells_nodup _ _ _ HD) as Hn. rewrite fmap_app in Hn. apply NoDup_app in Hn as (_ & _ & (_ & Hn & _)%NoDup_app).
    intros He. apply (Hn e He). left. }
  assert ((e, p) ∈ es ++ [(e, p)]) as Hep by (apply elem_of_app; right; left).
  assert (∀ x, parent (hp d' !!! x) = parent (hp d !!! x) ∧ kids (hp d') x = kids (hp d) x) as Hf.
  { intros x. split; [apply Tt|by apply same_tree_kids]. }
  assert (∀ e' a' b', (e', (a', b')) ∈ es → e' ≠ e) as Hne by (intros e' a' b' He' ->; by apply Hnew, (list_elem_of_fmap_2 fst _ _ He')).
  split.
  - split; [by eapply same_tree_ok|by eapply same_tree_acyclic|done].
  - congruence.
  - by rewrite (proj1 (Hf r)).
  - by rewrite (proj2 (Hf r)).
  - rewrite (proj2 (Hf L)), Dk, !fmap_app. done.
  - intros v l Hv. destruct (Dv v l Hv) as [Iv Ie Is Il It Ik Ig]. pose proof (Ta v) as Hat. unfold attrs in Hat.
    split; unfold has_geometry; [congruence..|by rewrite (proj2 (Hf v))|]. assert (geometry (hp d' !!! v) = geometry (hp d !!! v)) as -> by congruence. done.
  - intros e' a' b' He'. assert (∃ q, (e', q) ∈ es ++ [(e, p)] ∧ if decide (e' = e) then q = p ∧ (a', b') = set_end p (Some t) b else q = (a', b')) as (q & Hq & Hcase).
    { apply elem_of_app in He' as [He'|He']; [exists (a', b'); split; [apply elem_of_app; by left|by rewrite decide_False by by eapply Hne]|].
      apply list_elem_of_singleton in He'. injection He' as E1 E2. exists p. rewrite E1. split; [done|]. by rewrite decide_True. }
    assert (∀ c, getTerminal (hp d') e' c = end_of (a', b') c) as Hterm.
    { intros c. rewrite Tg, (edge_terminal _ _ _ e' _ c HD Hq). destruct (decide (e' = e)) as [He|He].
      - destruct Hcase as [-> ->]. destruct b, c; cbn [end_of set_end fst snd];
          first [rewrite decide_True by done; done|rewrite decide_False by (intros [_ ?]; done); done].
      - rewrite decide_False by (intros [? _]; done). by rewrite Hcase. }
    destruct q as [x y]. destruct (De e' x y Hq) as [[Ie Iv Is Ik Ig It Itt] Hv]. pose proof (Ta e') as Hat. unfold attrs in Hat. split.
    + split; unfold has_geometry; [congruence|congruence| |by rewrite (proj2 (Hf e'))| |..].
      * assert (style (hp d' !!! e') = style (hp d !!! e')) as -> by congruence. done.
      * assert (geometry (hp d' !!! e') = geometry (hp d !!! e')) as -> by congruence. done.
      * apply (Hterm true).
      * apply (Hterm false).
    + intros u Hu. destruct (decide (e' = e)) as [->|]; [|simplify_eq; by apply Hv]. destruct Hcase as [<- Hcase].
      destruct b; cbn in Hcase; injection Hcase as -> ->; destruct Hu as [Hu|Hu];
        first [injection Hu as <-; exact Ht|apply Hv; by left|apply Hv; by right].
  - intros u e'. rewrite Te, Di. split.
    + intros [[-> [= ->]]|[(x & y & Hxy & Hu) Hor]].
      * destruct p as [x y], b; [exists (Some u), y|exists x, (Some u)]; (split; [apply elem_of_app; right; left|auto]).
      * apply elem_of_app in Hxy as [Hxy|[= -> Hxy]%list_elem_of_singleton]; [exists x, y; split; [apply elem_of_app; by left|done]|].
        specialize (Hor eq_refl). rewrite (edge_terminal _ _ _ e _ _ HD Hep) in Hor. subst p.
        destruct b; cbn in Hor, Hp |- *; [exists (Some t), y|exists x, (Some t)]; (split; [apply elem_of_app; right; left|auto]).
    + intros (x & y & [Hxy|[= -> Hxy]%list_elem_of_singleton]%elem_of_app & Hu).
      * right. split; [exists x, y; split; [apply elem_of_app; by left|done]|]. intros ->. exfalso. by eapply Hne.
      * rewrite (edge_terminal _ _ _ e _ _ HD Hep). destruct p as [x' y'], b; cbn in Hxy, Hp |- *; simplify_eq.
        -- destruct Hu as [[= ->]|Hu]; [by left|right]. split; [|done]. exists None, y'. split; [done|by right].
        -- destruct Hu as [Hu|[= ->]]; [right|by left]. split; [|done]. exists x', None. split; [done|by left].
  - intros x. rewrite <-(Dp x). pose proof (Ta x) as Hat. unfold attrs in Hat. congruence.
  - intros x Hx. pose proof (Ta x) as Hat. unfold attrs in Hat. destruct (Db x Hx) as (? & ? & ?). split_and!; congruence.
  - pose proof (Ta r) as Hat. unfold attrs in Hat. congruence.
  - pose proof (Ta L) as Hat. unfold attrs in Hat. assert (geometry (hp d' !!! L) = geometry (hp d !!! L)) as -> by congruence. exact Da.
Qed.

Lemma skip_None n h : skip_relative n h None = None.
Proof. by destruct n. Qed.
Lemma isAncestor_None h x : isAncestor h (Some x) None = false.
Proof. unfold isAncestor. by rewrite ancestor_loop_None. Qed.

Lemma home_missing d vs es e p : drawing d vs es → (e, p) ∈ es → p.1 = None ∨ p.2 = None → edge_home cfg (hp d) e (Some r) = None.
Proof.
  intros HD He Hp. unfold edge_home. rewrite !(edge_terminal _ _ _ e _ _ HD He). cbn [end_of ignoreRelativeEdgeParent cfg].
  destruct Hp as [-> | ->]; rewrite skip_None, isAncestor_None; [done|]. by rewrite andb_false_r.
Qed.

(** The edge is in the layer, where its home is. *)
Lemma updateEdgeParent_stays s vs es e p adder : drawing (sdata s) vs es → (e, p) ∈ es →
  updateEdgeParent cfg adder e (Some r) s = Some s.
Proof.
  intros HD He. unfold updateEdgeParent. destruct p as [[a|] [b|]]; [|by erewrite home_missing by (done || auto)..].
  rewrite (home_is_layer _ _ _ _ _ _ HD He). unfold moves_to.
  rewrite (edge_parent _ _ _ HD e) by exact (list_elem_of_fmap_2 fst _ _ He). by rewrite (bool_decide_eq_true_2 (Some L = Some L)), andb_false_r.
Qed.

Lemma updating_data f s (P : data → Prop) : (∀ s1, sdata s1 = sdata s → ∃ s2, f s1 = Some s2 ∧ P (sdata s2)) →
  ∃ s', updating f s = Some s' ∧ P (sdata s').
Proof.
  intros Hf. destruct (Hf (beginUpdate s) (beginUpdate_data s)) as (s2 & E & Hp). exists (endUpdate s2). unfold updating. rewrite E.
  by rewrite endUpdate_data.
Qed.

Lemma setCellStyles_none s key c : style (hp (sdata s) !!! c) = None → sdata (setCellStyles cfg key None c s) = sdata s.
Proof.
  intros Hs. unfold setCellStyles. rewrite endUpdate_data, beginUpdate_data, Hs. cbn [util_setStyle]. unfold setStyle, getStyle.
  cbn [mbind option_bind]. rewrite beginUpdate_data, Hs, decide_False by (intros H; by apply H). apply beginUpdate_data.
Qed.

Lemma put_geometry_style c geo f s x : style (hp (sdata (put_geometry cfg c geo f s)) !!! x) = style (hp (sdata s) !!! x).
Proof.
  unfold put_geometry, new_geometry, setGeometry. cbn [sdata set_sdata hp]. case_decide; [|done]. rewrite execute_data. simpl.
  rewrite upd_lookup. case_decide as E; [by rewrite E|done].
Qed.

Lemma resetEdge_looks s vs es e : drawing (sdata s) vs es → e ∈ es.*1 →
  looks s (resetEdge cfg e s) ∧ style (hp (sdata (resetEdge cfg e s)) !!! e) = style (hp (sdata s) !!! e).
Proof.
  intros HD He. unfold resetEdge. destruct (geometry (hp (sdata s) !!! e)) as [geo|] eqn:Eg; [|done].
  destruct (points geo) as [[|pt l]|]; [done| |done]. split; [|apply put_geometry_style]. apply put_geometry_looks; [done|done|].
  intros ->. by destruct (not_bare _ _ _ HD L) as [_ []]; [by apply (edge_parent _ _ _ HD)|].
Qed.

Lemma setTerminal_ok s vs es e p t b : drawing (sdata s) vs (es ++ [(e, p)]) → end_of p b = None → t ∈ vs.*1 →
  ∃ s', MxOps.setTerminal cfg nested (Some e) (Some t) b s = Some s' ∧ drawing (sdata s') vs (es ++ [(e, set_end p (Some t) b)]) ∧
    style (hp (sdata s') !!! e) = style (hp (sdata s) !!! e).
Proof.
  intros HD Hp Ht. unfold MxOps.setTerminal. cbv zeta.
  set (s2 := MxEditor.execute cfg (new_mxTerminalChange (Some e) (Some t) b) s).
  assert (sdata s2 = set_hp (terminalForCellChanged (hp (sdata s)) e (Some t) b).1 (sdata s)) as E2 by apply execute_data.
  pose proof (terminalForCellChanged_spec (hp (sdata s)) e (Some t) b (wf_edges _ (dg_wf _ _ _ HD))) as Hts.
  assert (drawing (sdata s2) vs (es ++ [(e, set_end p (Some t) b)])) as HD2.
  { eapply drawing_connected; [exact HD|done|done| |by rewrite E2]. by rewrite E2. }
  exists s2. split; [|split; [done|]].
  - destruct (maintainEdgeParent cfg && _); [|done]. unfold getRoot. rewrite (dg_root _ _ _ HD2).
    eapply updateEdgeParent_stays; [exact HD2|]. apply elem_of_app. right. left.
  - pose proof (ts_attrs _ _ _ _ _ Hts e) as Ha. unfold attrs in Ha. rewrite E2. cbn [hp set_hp]. congruence.
Qed.

Lemma cellConnected_ok s vs es e p t b : drawing (sdata s) vs (es ++ [(e, p)]) → end_of p b = None → t ∈ vs.*1 → style (hp (sdata s) !!! e) = None →
  ∃ s', cellConnected cfg nested e (Some t) b s = Some s' ∧ drawing (sdata s') vs (es ++ [(e, set_end p (Some t) b)]) ∧ style (hp (sdata s') !!! e) = None.
Proof.
  intros HD Hp Ht Hs. unfold cellConnected.
  apply (updating_data _ _ (λ d, drawing d vs (es ++ [(e, set_end p (Some t) b)]) ∧ style (hp d !!! e) = None)). intros s1 E1. cbv zeta. cbn [portsEnabled].
  set (s2 := setCellStyles cfg _ None e s1). assert (sdata s2 = sdata s) as E2 by (unfold s2; rewrite setCellStyles_none; congruence).
  rewrite <-E2 in HD, Hs. destruct (setTerminal_ok s2 vs es e p t b HD Hp Ht) as (s3 & E3 & HD3 & Hs3). rewrite E3. cbn [mbind option_bind].
  assert (e ∈ (es ++ [(e, set_end p (Some t) b)]).*1) as He by (rewrite fmap_app; apply elem_of_app; right; left).
  destruct (resetEdge_looks s3 _ _ e HD3 He) as [Hl Hst]. exists (resetEdge cfg e s3). cbn [resetEdgesOnConnect].
  split; [done|]. split; [by eapply drawing_looks|]. by rewrite Hst, Hs3.
Qed.

(** ** Inserting vertices and edges *)

Section Insert.
Context (drawn : ref → option mxPoint).
Abbreviation add_cells := (MxGraph.add_cells cfg None None drawn nested).
Abbreviation addCell := (MxGraph.addCell cfg None None drawn nested).
Abbreviation layer_count s := (Z.of_nat (getChildCount (hp (sdata s)) L)).

Lemma new_cell_in_ok f s : unconnected (f (georef (sdata s))) →
  allocated (sdata s) (sdata (new_cell_in f s).1) (new_cell_in f s).2 (f (georef (sdata s))).
Proof. intros Hf. unfold new_cell_in, new_cell. cbn. split; [done|apply is_fresh|done|done]. Qed.

Lemma addCell_ok s c source target (P : data → Prop) :
  (∀ s1, sdata s1 = sdata s → ∃ s2, add_cells [Some c] 0 L (layer_count s) source target None true true s1 = Some s2 ∧ P (sdata s2)) →
  ∃ s', addCell c (Some L) None source target s = Some s' ∧ P (sdata s').
Proof.
  intros H. unfold MxGraph.addCell, addCells. apply updating_data. intros s1 E1. apply updating_data. intros s2 E2.
  destruct (H s2) as (s3 & E3 & Hp); [congruence|]. by exists s3.
Qed.

Lemma bind_some {A B} (o : option A) (f : A → option B) x : o = Some x → (o ≫= f) = f x.
Proof. by intros ->. Qed.

(** A cell that is not in the tree. *)
Record outside (h : heap) (c : ref) : Prop := {
  os_parent : parent (h !!! c) = None;
  os_layer : c ≠ L;
  os_root : c ≠ r;
  os_kids : kids h c = [];
  os_eds : eds h c = [];
  os_terminal : ∀ b, getTerminal h c b = None
}.

Lemma allocated_outsider d d' c x vs es : drawing d vs es → allocated d d' c x → outside (hp d') c.
Proof.
  intros HD HA. destruct (allocated_outside d d' c x vs es HD HA) as (_ & H1 & H2). destruct (al_cell _ _ _ _ HA) as (Hp & Hc & He & Hs & Ht & _).
  split; unfold kids, eds, getTerminal; rewrite ?(allocated_new d d' c x HA), ?Hp, ?Hc, ?He, ?Hs, ?Ht; try done. by intros [].
Qed.

(** The first steps of adding any cell. *)
Lemma add_start s vs es c : drawing (sdata s) vs es → outside (hp (sdata s)) c →
  ∃ s', MxOps.add cfg nested (Some L) (Some c) (Some (layer_count s + 0)%Z) s = Some s' ∧
    grown (hp (sdata s)) (hp (sdata s')) c ∧ root (sdata s') = root (sdata s) ∧
    ∀ source target, add_cells [Some c] 0 L (layer_count s) source target None true true s =
      (s ← (if isExtendParent (hp (sdata s')) c then extendParent (MxGraph.cellsResized cfg None None (resize_fuel s')) c s' else Some s');
       s ← MxGraph.constrainChild None None c s; s ← connect_end cfg nested c source true s; connect_end cfg nested c target false s).
Proof.
  intros HD [Op Ol Or Ok Oe Ot]. destruct (add_leaf s vs es c 0 HD Op Ol Or Ok Oe Ot) as (s' & E & Hg & Hr).
  rewrite Z.add_0_r. exists s'. split_and!; [done|done|done|]. intros source target. cbn [MxGraph.add_cells keep_place]. cbv zeta.
  rewrite Op, (bool_decide_eq_false_2 (Some L = None)) by done. cbn [andb extendParentsOnAdd]. rewrite Z.add_0_r, E. cbn [mbind option_bind].
  destruct (if isExtendParent _ _ then _ else _) as [s2|]; [|done]. cbn [mbind option_bind].
  destruct (MxGraph.constrainChild _ _ _ _) as [s3|]; [|done]. cbn [mbind option_bind].
  destruct (connect_end _ _ _ source _ _) as [s4|]; [|done]. cbn [mbind option_bind]. by destruct (connect_end _ _ _ target _ _).
Qed.

Lemma grown_is_vertex h h' c l : grown h h' c → c ≠ L → is_vertex h c l → is_vertex h' c l.
Proof. apply grown_vertex. Qed.

Lemma add_vertex s vs c l : drawing (sdata s) vs [] → outside (hp (sdata s)) c → is_vertex (hp (sdata s)) c l →
  ∃ s', add_cells [Some c] 0 L (layer_count s) None None None true true s = Some s' ∧ drawing (sdata s') (vs ++ [(c, l)]) [].
Proof.
  intros HD Ho Hi. destruct (add_start s vs [] c HD Ho) as (s2 & _ & Hg & Hr & E). rewrite E. clear E.
  assert (drawing (sdata s2) (vs ++ [(c, l)]) []) as HD2.
  { eapply drawing_grown; [exact HD|exact Hg|done|..].
    - rewrite !fmap_app, !app_nil_r. done.
    - intros v l' [Hv|[= -> ->]%list_elem_of_singleton]%elem_of_app; [by left|right]. split; [done|]. eapply grown_vertex; [done|apply Ho|done].
    - intros e a b. split; [by intros ?%not_elem_of_nil|]. by intros [?%not_elem_of_nil|(_ & _ & _ & ?%not_elem_of_nil)].
    - by intros ?%not_elem_of_nil.
    - rewrite fmap_app. intros x Hx. apply elem_of_app. by left. }
  assert (parent (hp (sdata s2) !!! c) = Some L) as Hp by (apply (vertex_parent _ _ _ HD2); rewrite fmap_app; apply elem_of_app; right; left).
  destruct (extendParent_ok s2 _ _ c (fuel (hp (sdata s2))) HD2 Hp) as (s3 & E3 & Hl3).
  assert (∃ s4, (if isExtendParent (hp (sdata s2)) c then extendParent (MxGraph.cellsResized cfg None None (resize_fuel s2)) c s2 else Some s2) = Some s4 ∧ looks s2 s4)
    as (s4 & E4 & Hl4) by (destruct (isExtendParent _ _); [by exists s3|by exists s2]).
  rewrite E4. cbn [mbind option_bind]. pose proof (drawing_looks _ _ _ _ HD2 Hl4) as HD4.
  rewrite (constrain_ok s4 _ _ c HD4); [|left; apply (vertex_parent _ _ _ HD4); rewrite fmap_app; apply elem_of_app; right; left].
  exists s4. done.
Qed.

Lemma add_edge s vs es e a b : drawing (sdata s) vs es → outside (hp (sdata s)) e → is_edge (hp (sdata s)) e None None → style (hp (sdata s) !!! e) = None →
  a ∈ vs.*1 → b ∈ vs.*1 →
  ∃ s', add_cells [Some e] 0 L (layer_count s) (Some a) (Some b) None true true s = Some s' ∧ drawing (sdata s') vs (es ++ [(e, (Some a, Some b))]).
Proof.
  intros HD Ho Hi Hs Ha Hb. destruct (add_start s vs es e HD Ho) as (s2 & _ & Hg & Hr & E). rewrite E. clear E.
  assert (is_edge (hp (sdata s2)) e None None) as Hi2 by (eapply grown_edge; [done|apply Ho|done]).
  assert (e ∈ (es ++ [(e, (None, None))] : lines).*1) as He by (rewrite fmap_app; apply elem_of_app; right; left).
  assert (drawing (sdata s2) vs (es ++ [(e, (None, None))])) as HD2.
  { eapply drawing_grown; [exact HD|exact Hg|done|..].
    - rewrite fmap_app, <-app_assoc. done.
    - intros v l Hv. by left.
    - intros x y z. rewrite elem_of_app, list_elem_of_singleton. naive_solver.
    - done.
    - done. }
  assert (style (hp (sdata s2) !!! e) = None) as Hs2 by (destruct (grown_fields _ _ _ e Hg) as (_ & _ & _ & _ & _ & -> & _); [apply Ho|done]).
  destruct (cellConnected_ok s2 vs es e (None, None) a true HD2 eq_refl Ha Hs2) as (s3 & E3 & HD3 & Hs3).
  destruct (cellConnected_ok s3 vs es e (Some a, None) b false HD3 eq_refl Hb Hs3) as (s4 & E4 & HD4 & _).
  exists s4. split; [|exact HD4]. assert (isExtendParent (hp (sdata s2)) e = false) as -> by (unfold isExtendParent; by rewrite (ie_edge _ _ _ _ Hi2)).
  rewrite (bind_some (Some s2) _ s2 eq_refl), (bind_some _ _ s2 (constrain_ok s2 _ _ e HD2 (or_introl (edge_parent _ _ _ HD2 e He)))).
  rewrite (bind_some (connect_end cfg nested e (Some a) true s2) _ s3 E3). exact E4.
Qed.

Lemma insertVertex_ok s vs v b : drawing (sdata s) vs [] →
  ∃ s' c, MxGraph.insertVertex cfg None None drawn nested (Some L) None (Some v) b None false s = Some (s', c) ∧
    drawing (sdata s') (vs ++ [(c, Some v)]) [].
Proof.
  intros HD. unfold MxGraph.insertVertex, createVertex. match goal with |- context [new_cell_in ?f s] => set (x := f (georef (sdata s))); assert (allocated (sdata s) (sdata (new_cell_in f s).1) (new_cell_in f s).2 x) as HA by (by apply new_cell_in_ok); destruct (new_cell_in f s) as [s1 c] end.
  cbn [fst snd] in HA. pose proof (allocated_drawing _ _ _ _ _ _ HD HA) as HD1. pose proof (allocated_outsider _ _ _ _ _ _ HD HA) as Ho.
  assert (is_vertex (hp (sdata s1)) c (Some v)) as Hi.
  { split; try apply Ho; unfold has_geometry; by rewrite (allocated_new _ _ _ _ HA). }
  destruct (addCell_ok s1 c None None (λ d, drawing d (vs ++ [(c, Some v)]) [])) as (s' & E & HD').
  { intros s2 E2. rewrite <-E2 in HD1, Ho, Hi |- *. by apply add_vertex. }
  exists s', c. by rewrite E.
Qed.

Lemma insertEdge_ok s vs es v a b : drawing (sdata s) vs es → a ∈ vs.*1 → b ∈ vs.*1 →
  ∃ s' e, MxGraph.insertEdge cfg None None drawn nested (Some L) None v (Some a) (Some b) None s = Some (s', e) ∧
    drawing (sdata s') vs (es ++ [(e, (Some a, Some b))]).
Proof.
  intros HD Ha Hb. unfold MxGraph.insertEdge, createEdge. match goal with |- context [new_cell_in ?f s] => set (x := f (georef (sdata s))); assert (allocated (sdata s) (sdata (new_cell_in f s).1) (new_cell_in f s).2 x) as HA by (by apply new_cell_in_ok); destruct (new_cell_in f s) as [s1 e] end.
  cbn [fst snd] in HA. pose proof (allocated_drawing _ _ _ _ _ _ HD HA) as HD1. pose proof (allocated_outsider _ _ _ _ _ _ HD HA) as Ho.
  assert (is_edge (hp (sdata s1)) e None None) as Hi.
  { split; try apply Ho; unfold has_geometry; rewrite ?(allocated_new _ _ _ _ HA); try done. by left. }
  assert (style (hp (sdata s1) !!! e) = None) as Hs by by rewrite (allocated_new _ _ _ _ HA).
  destruct (addCell_ok s1 e (Some a) (Some b) (λ d, drawing d vs (es ++ [(e, (Some a, Some b))]))) as (s' & E & HD').
  { intros s2 E2. rewrite <-E2 in HD1, Ho, Hi, Hs |- *. by apply add_edge. }
  exists s', e. by rewrite E.
Qed.
End Insert.

End Cells.
End ReportCells.
