(* ===== verification/ReportSteps.v ===== *)
(** * The steps of drawing a report

    What [clearGraph] and the loops of [updateGraph] make of the shape of ReportCells: the
    graph is emptied, every node becomes a vertex of its size, every link an edge between its
    vertices, and drawing the graph changes its look only. *)

From Stdlib Require Import Ascii QArith.
From S2P Require Import Prelude Url MxGeometry MxCell MxModel MxUndo MxPath MxEditor MxOps MxHome MxGraph ReportGraph ReportCells.
Import Url MxGeometry MxCell MxModel MxUndo MxEditor MxOps MxHome MxGraph ReportGraph ReportCells.
#[local] Open Scope nat_scope.

Module ReportSteps.

Section Steps.
Context (getSizeForString : string → cstyle → Z * Z) (drawn : ref → option mxPoint) (view_point : ref → bool → option mxPoint).
Context (view_extent : list ref → option (Z * Z)) (round : Q → Z) (edge_points : ref → option (list (option mxPoint))).
Context (getGraphBounds : data → mxRectangle).
Context (r L : ref).
Abbreviation cfg := default_config.
Abbreviation drawing := (ReportCells.drawing r L).
Abbreviation looks := (ReportCells.looks L).

(** ** Sizes *)

Lemma vertex_style h v l : is_vertex h v l → getCellStyle vertexStyle edgeStyle (stylesheet_getCellStyle styles) h v = vertexStyle.
Proof. intros Hi. unfold getCellStyle. by rewrite (iv_style _ _ _ Hi), (iv_edge _ _ _ Hi). Qed.

Lemma updateCellSize_ok preferred s vs es v ignore : drawing (sdata s) vs es → v ∈ vs.*1 →
  ∃ s', updateCellSize cfg None None vertexStyle edgeStyle (stylesheet_getCellStyle styles) view_extent preferred v ignore s = Some s' ∧ looks s s'.
Proof.
  intros HD Hv. unfold updateCellSize, cellSizeUpdated. apply updating_looks. intros s0 E0. apply updating_looks. intros s1 E1. rewrite <-E0, <-E1 in HD.
  destruct (preferred _ v) as [size|]; [|by exists s1]. destruct (geometry (hp (sdata s1) !!! v)) as [geo|]; [|by exists s1].
  assert (isSwimlane vertexStyle edgeStyle (stylesheet_getCellStyle styles) (sdata s1) v = false) as ->.
  { destruct (vertex_of _ _ _ _ _ v HD Hv) as [l Hi]. unfold isSwimlane. rewrite (vertex_style _ _ _ Hi). by rewrite andb_false_r. }
  apply (vertexResized_ok r L s1 vs es); done.
Qed.

(** ** Nodes and links *)

(** The label of a node. *)
Abbreviation label v := (Some (String.string_of_list_ascii v)).
Definition node_vertices (ns : list (jstr * jstr)) (m : list (jstr * ref)) : vertices :=
  zip_with (λ n p, (p.2, label n.2)) ns m.

Lemma add_nodes_ok ns : ∀ m s vs, drawing (sdata s) vs [] →
  ∃ s' m', add_nodes getSizeForString drawn view_extent L ns m s = Some (s', m ++ m') ∧ m'.*1 = ns.*1 ∧
    drawing (sdata s') (vs ++ node_vertices ns m') [].
Proof.
  induction ns as [|[key v] ns IH]; intros m s vs HD.
  - exists s, []. rewrite !app_nil_r. done.
  - destruct (insertVertex_ok r L drawn s vs (String.string_of_list_ascii v) (Rect 0 0 80 30) HD) as (s1 & c & E1 & HD1).
    assert (c ∈ (vs ++ [(c, label v)]).*1) as Hc by (rewrite fmap_app; apply elem_of_app; right; left).
    destruct (updateCellSize_ok (ReportGraph.getPreferredSizeForCell getSizeForString) s1 _ [] c true HD1 Hc) as (s2 & E2 & Hl).
    pose proof (drawing_looks _ _ _ _ _ _ HD1 Hl) as HD2.
    destruct (IH (m ++ [(key, c)]) s2 _ HD2) as (s' & m' & E & Em & HD'). exists s', ((key, c) :: m'). cbn [add_nodes].
    rewrite (bind_some _ _ _ E1). cbn [fst snd]. rewrite (bind_some _ _ _ E2), E, <-app_assoc. split_and!; [done| |].
    + cbn. by rewrite Em.
    + by rewrite <-app_assoc in HD'.
Qed.

(** The terminals of the edge for a link. *)
Definition link_ends (m : list (jstr * ref)) (l : jstr * jstr) : option (option ref * option ref) :=
  match vertexMap_get m l.1, vertexMap_get m l.2 with Some a, Some b => Some (Some a, Some b) | _, _ => None end.

Lemma vertexMap_get_elem m k c : vertexMap_get m k = Some c → (k, c) ∈ m.
Proof.
  unfold vertexMap_get. destruct (list_find _ m) as [[i [k' c']]|] eqn:E; [|done]. intros [= <-].
  apply list_find_Some in E as (Hi & <- & _). by eapply list_elem_of_lookup_2.
Qed.

Lemma add_links_ok m ls : ∀ s vs es, drawing (sdata s) vs es → m.*2 ⊆ vs.*1 →
  ∃ s' es', add_links drawn L m ls s = Some s' ∧ drawing (sdata s') vs (es ++ es') ∧ es'.*2 = omap (link_ends m) ls.
Proof.
  induction ls as [|[k v] ls IH]; intros s vs es HD Hm.
  - exists s, []. by rewrite app_nil_r.
  - cbn [add_links omap list_omap]. unfold link_ends at 1. cbn [fst snd].
    assert (∀ k c, vertexMap_get m k = Some c → c ∈ vs.*1) as Hget.
    { intros k' c Hc. apply Hm. by apply (list_elem_of_fmap_2 snd _ _ (vertexMap_get_elem _ _ _ Hc)). }
    destruct (vertexMap_get m k) as [a|] eqn:Ea; [destruct (vertexMap_get m v) as [b|] eqn:Eb|];
      [|cbn [mbind option_bind]; by apply IH|cbn [mbind option_bind]; by apply IH].
    destruct (insertEdge_ok r L drawn s vs es (Some EmptyString) a b HD (Hget _ _ Ea) (Hget _ _ Eb)) as (s1 & e & E1 & HD1).
    destruct (IH s1 vs _ HD1 Hm) as (s' & es' & E & HD' & Hes). exists s', ((e, (Some a, Some b)) :: es'). rewrite E1. cbn [fmap option_fmap option_map fst mbind option_bind].
    split_and!; [done| |].
    + by rewrite <-app_assoc in HD'.
    + by rewrite fmap_cons, Hes.
Qed.

(** ** Drawing *)

Lemma setVertexLocation_looks s vs es v x y : drawing (sdata s) vs es → v ∈ vs.*1 → looks s (setVertexLocation v x y s).
Proof.
  intros HD Hv. unfold setVertexLocation. destruct (geometry (hp (sdata s) !!! v)) as [geo|] eqn:Eg; [|done]. case_decide; [|done].
  apply put_geometry_looks; [done|done|]. intros E. by destruct (not_bare _ _ _ _ _ HD v (vertex_parent _ _ _ _ _ HD v Hv)) as [_ []].
Qed.

Lemma place_vertices_looks ps : ∀ s vs es, drawing (sdata s) vs es → (∀ p, p ∈ ps → p.1 ∈ vs.*1) → looks s (place_vertices round ps s).
Proof.
  induction ps as [|p ps IH]; intros s vs es HD Hps; [done|]. unfold place_vertices. cbn [foldl].
  assert (looks s (setVertexLocation p.1 (round p.2.1) (round p.2.2) s)) as Hl by (eapply setVertexLocation_looks; [done|apply Hps; left]).
  etrans; [exact Hl|]. apply (IH _ vs es); [by eapply drawing_looks|]. intros q Hq. apply Hps. by right.
Qed.

Lemma setCellStyles_cell s key v c x : hp (sdata (setCellStyles cfg key v c s)) !!! x =
  if decide (x = c) then set_style (util_setStyle (style (hp (sdata s) !!! c)) key v) (hp (sdata s) !!! c) else hp (sdata s) !!! x.
Proof.
  unfold setCellStyles. rewrite endUpdate_data, beginUpdate_data. unfold setStyle, getStyle. cbn [mbind option_bind]. rewrite beginUpdate_data.
  case_decide as E; [|rewrite beginUpdate_data; case_decide as Ex; [|done]].
  - rewrite execute_data. simpl. rewrite upd_lookup, !beginUpdate_data. repeat case_decide; congruence.
  - rewrite Ex. destruct (decide (util_setStyle (style (hp (sdata s) !!! c)) key v = style (hp (sdata s) !!! c))) as [->|]; [by destruct (hp (sdata s) !!! c)|done].
Qed.
Lemma setCellStyles_root s key v c : root (sdata (setCellStyles cfg key v c s)) = root (sdata s).
Proof.
  unfold setCellStyles. rewrite endUpdate_data. unfold setStyle. case_decide; [rewrite execute_data|]; by rewrite beginUpdate_data.
Qed.

Lemma edge_styled st : edge_style st → util_setStyle (util_setStyle st "noEdgeStyle" (Some "1")) "orthogonal" (Some "1") = styled_edge.
Proof. by intros [->| ->]. Qed.

Lemma draw_edge_looks s vs es e : drawing (sdata s) vs es → e ∈ es.*1 → looks s (draw_edge edge_points s e).
Proof.
  intros HD He. unfold draw_edge. case_decide as Hends; [|done].
  set (s1 := setCellStyles cfg "noEdgeStyle" (Some "1") e s). set (s2 := setCellStyles cfg "orthogonal" (Some "1") e s1).
  apply list_elem_of_fmap in He as ([e' [a b]] & -> & He). cbn [fst] in *. destruct (dg_edge _ _ _ _ _ HD _ _ _ He) as [Hi _].
  assert (e' ≠ L) as HL by (by apply (not_bare _ _ _ _ _ HD), (edge_parent _ _ _ _ _ HD), (list_elem_of_fmap_2 fst _ _ He)).
  assert (∀ x, hp (sdata s2) !!! x = if decide (x = e') then set_style styled_edge (hp (sdata s) !!! e') else hp (sdata s) !!! x) as Hx.
  { intros x. unfold s2. rewrite setCellStyles_cell. unfold s1. rewrite !setCellStyles_cell, (decide_True _ _ (eq_refl e')). case_decide; [|done].
    cbn [style set_style]. rewrite edge_styled by apply Hi. by destruct (hp (sdata s) !!! e'). }
  assert (looks s s2) as Hl.
  { split; [|unfold s2, s1; by rewrite !setCellStyles_root]. split.
    - intros x. rewrite Hx. case_decide as E; [rewrite E; by destruct (hp (sdata s) !!! e')|by destruct (hp (sdata s) !!! x)].
    - intros x _. rewrite Hx. case_decide as E; [by rewrite E|done].
    - intros Ha. by rewrite Hx, decide_False.
    - intros x. rewrite Hx. case_decide as E; [right; rewrite E; split; [apply Hi|by right]|by left]. }
  etrans; [exact Hl|]. unfold setEdgePoints. destruct (geometry (hp (sdata s2) !!! e')) as [geo|] eqn:Eg.
  - by apply put_geometry_looks.
  - exfalso. pose proof (ie_geometry _ _ _ _ Hi) as Hg. unfold has_geometry in Hg. rewrite Hx, decide_True in Eg by done. cbn in Eg. by rewrite Eg in Hg.
Qed.

Lemma draw_edges_looks s vs es : drawing (sdata s) vs es → looks s (draw_edges edge_points L s).
Proof.
  intros HD. unfold draw_edges.
  assert (∀ e, e ∈ getChildCells (hp (sdata s)) L false true → e ∈ es.*1) as Hes.
  { intros e. unfold getChildCells. rewrite list_elem_of_filter, (dg_kids _ _ _ _ _ HD), elem_of_app. intros [He [Hv|?]]; [|done]. exfalso.
    destruct (vertex_of _ _ _ _ _ e HD Hv) as [l Hi]. rewrite (iv_edge _ _ _ Hi) in He. done. }
  revert Hes. generalize (getChildCells (hp (sdata s)) L false true). intros l. revert s HD. induction l as [|e l IH]; intros s HD Hes; [done|].
  cbn [foldl]. pose proof (draw_edge_looks s vs es e HD (Hes e (list_elem_of_here _ _))) as Hl. etrans; [exact Hl|].
  apply IH; [by eapply drawing_looks|]. intros x Hx. apply Hes. by right.
Qed.

Lemma frame_looks s vs es : drawing (sdata s) vs es → looks s (frame getGraphBounds s).
Proof.
  intros HD. unfold frame, new_geometry. cbn [sdata set_sdata].
  assert (MxGraph.getDefaultParent None None (Data (hp (sdata s)) (root (sdata s)) (cells (sdata s)) (nextId (sdata s)) (S (georef (sdata s)))) = Some L) as ->
    by exact (default_parent _ _ _ _ _ HD).
  etrans; [|apply setGeometry_looks; [done|done]]. by split.
Qed.

End Steps.
End ReportSteps.
